(* ===== verification/_CoqProject ===== *)
-Q . S2P
Prelude.v
MachineFloat.v
PageDescriptor.v
WorkQueue.v
Store.v
RegionDescriptor.v
RegionMap.v
Config.v
Engine.v
Buffer.v
WaterMarks.v
Eviction.v
Uffd.v
Workers.v
BufferSpec.v
BufferInv.v
System.v
SystemInv.v
SystemProps.v
Unmap.v
UmapApi.v
Lifecycle.v
Shutdown.v
RegionEvict.v
Prefetch.v
Stranded.v
Races.v
FetchAndPin.v
SparseStore.v
Bitmap.v
Bfs.v
BfsParallel.v
Ingest.v
IngestParallel.v
BufferPrint.v
Hash.v
Rmat.v
MapFile.v
GraphFile.v
Umapsort.v
Pipeline.v
GraphPrograms.v
Logger.v
Stream.v
StreamTiming.v
StreamProgram.v
ParallelFor.v
FitsStore.v
