(* ===== verification/Prelude.v ===== *)
(** * Verification of the UMAP user-space page-fault library

    ** The program

    UMAP maps files and other stores into memory and serves the page faults of
    the mapped regions in user space.  [umap_ex] (src/src/umap/umap.cpp) reserves
    address space and hands the region to the [RegionManager], which reads its
    configuration from the environment, creates the engine with the first region
    and destroys it with the last one.  The engine consists of a fault handler
    ([Uffd]) that reads batches of messages from a userfaultfd and turns each
    faulting page into an event for the [Buffer]; the [Buffer], which owns a fixed
    array of page descriptors and decides under one mutex which page lives where;
    fill workers that read pages from their [Store] and install them; an eviction
    manager that is woken at the high-water mark and sends the oldest pages to
    evict workers, which write dirty pages back and drop them.  Threads hand work
    to each other through [WorkQueue]s.  Under src/examples are programs on top of
    the library: a breadth-first search with its graph generator and ingestion, a
    sort, the STREAM benchmark and a store of FITS images.

    ** Files

    - Prelude.v: outcomes (value, exception, sleep, undefined behaviour), the state
      monad [M] over them, its tactics ([inv_ok], [decide_now]), machine integers
      and the mask idiom.  MachineFloat.v: [float] and [double] by rounding
      rationals.
    - PageDescriptor.v, WorkQueue.v, Store.v, RegionDescriptor.v, RegionMap.v,
      Config.v, Logger.v: the classes of the same names in src/src/umap, the map of
      active regions and the constructor of RegionManager.cpp, and the logger and
      exceptions of src/src/umap/util.
    - Engine.v: the state the threads share; Buffer.v, WaterMarks.v, Eviction.v:
      Buffer.cpp; Uffd.v: Uffd.cpp; Workers.v: FillWorkers.cpp, EvictWorkers.cpp,
      EvictManager.cpp.
    - BufferSpec.v, BufferInv.v: what the buffer operations do to the page
      bookkeeping, and its invariant.  System.v, SystemInv.v, SystemProps.v,
      Unmap.v: all threads together as a transition system, its invariant and its
      properties, with the eviction of everything that ends the use of a region.
    - UmapApi.v: umap.cpp, addRegion and removeRegion.  Lifecycle.v: the
      constructors and destructors of the engine's objects, with their threads and
      descriptors and every call that may fail.  Shutdown.v: the destructors of
      Uffd and Buffer against the threads they stop.  RegionEvict.v: uunmap of one
      of several regions as a thread of the transition system; Stranded.v: what it
      does to the page descriptors.  Races.v: schedules outside the system's
      assumptions.  Prefetch.v: umap_prefetch.  FetchAndPin.v: fetch_and_pin of
      Buffer.cpp.  BufferPrint.v: its printing.  SparseStore.v: the store of the
      same name.
    - Bitmap.v, Bfs.v, Ingest.v, Hash.v, Rmat.v: the algorithms of
      src/examples/bfs; BfsParallel.v, IngestParallel.v: their OpenMP loops;
      Pipeline.v: the algorithms composed; GraphFile.v, GraphPrograms.v: its three
      programs from their options to the bytes of their files.  FitsStore.v: its
      umap_fits_file.hpp.  MapFile.v, Umapsort.v: src/examples/umapsort.  Stream.v,
      StreamTiming.v, StreamProgram.v: src/examples/stream/stream.c, its arrays, its
      clock, and the program with its arguments and files.  ParallelFor.v: the
      OpenMP loops of STREAM and umapsort that store to arrays.

    ** Modelling conventions

    A method is a Rocq function of the same name in the monad [M] over the state
    it works on.  [UMAP_ERROR] is [Throw], an assertion or an access that C++
    leaves undefined is [UB], and a wait on a mutex or a condition variable is
    [Block]; all but [UB] carry the state left behind, since the code does not
    roll back.  A method that can sleep is split at its waits: the first piece
    ends with [Block], a [_wake] or [_resume] piece continues at the return of the
    wait.  Pointers to page descriptors are indices of the array, pointers to
    regions and stores indices of a heap.  Integers are [Z] with their wrap-around
    written out ([u64], [u32], [u16], [i32]).  Operating-system calls, third-party
    libraries, random numbers and the clock are parameters: operations of a class
    ([FileOps], [SparseOS], [UffdOS], [MmapOS], [MapOS], [StoreBank]) whose laws
    ([FileLaws], ...) are their documented behaviour, each with an instance that
    shows the laws can hold.  The contract between the engine and its stores is
    the class [PageStore]; [StoreFile] and [SparseStore] both discharge it.

    ** What the theorems show

    - The engine under every schedule (SystemProps.v): it implements a flat memory
      (what is resident is what was stored, what is not is in its store), no
      operation throws or is undefined (the batch eviction scan apart), every
      descriptor is in one place, and a page is writable exactly if it is dirty.
    - Unmapping (Unmap.v): the eviction of all pages, interleaved with the workers,
      ends with every store up to date and no page left, and from every reachable
      state it can run to its end.  Unmapping one of several regions (RegionEvict.v,
      Stranded.v) is another matter: a schedule makes it wait for ever, and under
      every schedule the descriptors it defers are lost to the buffer.
    - The life of the engine (Lifecycle.v, Shutdown.v): whatever fails, creation and
      destruction never free what a running thread uses and never join twice; when
      nothing fails, exactly the configured threads run while there is a region
      and nothing but open descriptors is left after the last one; stopping the
      fault handler always ends, and ends well if no fault is pending.
    - Components: the region lookup with its cached iterator agrees with a linear
      search; a batch of faults is processed once per page with its write intent;
      batch eviction equals a reference cut of the busy deque; queues lose no work
      and no wake-up, pools drain and stop; the configuration is in range for every
      environment; water marks are ordered in float arithmetic; umap_ex rejects
      what it should and keeps regions disjoint; umap_prefetch hands its pages to the
      fillers and keeps the bookkeeping, umap_fetch_and_pin installs its range;
      both stores behave as arrays of pages and the sparse store reopens; logging
      prints exactly the messages up to the level asked for.
    - Examples: generator, ingestion and search, alone and as three programs that
      pass files to each other, label every vertex with its distance; the racing
      threads of search and ingestion give what a sequential run gives, and keep
      every value in its machine type; the sort sorts; STREAM, invoked to initialise
      its files and again to run on them, validates, with its loops in any
      interleaving; a FITS cube holds the images of its files.
    - Flaws, each as a theorem on the code as it is: the wrap-around of the batch
      eviction scan, a flush that waits with the lock held, a page inserted twice
      by two waiters, mutexes left locked on errors, a wait that misses its event
      when a region is unmapped, a fault that is pending when the handler is
      stopped, a thread that outlives its queue, the FITS store that ignores the
      offset, an option of umapsort that never works.

    ** Bounds and fuel

    Loops that are not structural take a bound that the theorems show to be
    enough: one round per busy page for [EvictAll], one level per vertex for the
    search, two iterator steps per edge for the generator, one pair per character
    for the text reader, one file per image for a cube, and as many readings as the
    clock needs for a tick.  Exceeding a bound is [UB], or [None] for the generator,
    so that a theorem that an operation succeeds includes that the bound holds.
    The transition system has no bound: its theorems are by induction on runs, for
    any number of workers, pages and regions.

    ** Not modelled

    Caliper annotations, usage and progress texts, and clock readings other than
    those of STREAM.  The transition system fixes the regions, but for those that
    RegionEvict.v unmaps, and leaves out umap_flush, umap_prefetch and the
    read-only build; Races.v, Prefetch.v, FetchAndPin.v and Uffd.v treat these on
    their own.  The threads of the graph generator, which share nothing, and of
    the validation of umapsort, which only read, run one after the other.  The
    copies of commandline.hpp and map_file.hpp under src/examples/bfs are those of
    umapsort; open_mp.hpp and time.hpp only print and read the clock.  The tests
    are drivers of the library. *)

From stdpp Require Import base list numbers strings gmap.
Local Open Scope Z_scope.

(** ** Outcomes of a C++ operation

    An operation that runs under a mutex either returns a value, throws an
    [Umap::Exception] through the [UMAP_ERROR] macro, goes to sleep (on a
    mutex that is held, or in [pthread_cond_wait]), or performs an operation
    whose behaviour C++ leaves undefined.  The first three carry the state the
    operation leaves behind, because the code does not roll anything back. *)

Inductive waitpoint :=
| OnMutex
| OnStateChange
| OnAvailPd
| OnQueue
| OnIdle.

#[export] Instance waitpoint_eq_dec : EqDecision waitpoint.
Proof. solve_decision. Defined.

Inductive outcome (S A : Type) :=
| Ok (a : A) (s : S)
| Throw (msg : string) (s : S)
| Block (on : waitpoint) (s : S)
| UB (why : string).
Arguments Ok {S A} a s.
Arguments Throw {S A} msg s.
Arguments Block {S A} on s.
Arguments UB {S A} why.

Definition M (S A : Type) : Type := S → outcome S A.

#[export] Instance M_ret {S} : MRet (M S) := λ A a s, Ok a s.
#[export] Instance M_bind {S} : MBind (M S) := λ A B f m s,
  match m s with
  | Ok a s' => f a s'
  | Throw e s' => Throw e s'
  | Block c s' => Block c s'
  | UB why => UB why
  end.

Definition get {S} : M S S := λ s, Ok s s.
Definition gets {S A} (f : S → A) : M S A := λ s, Ok (f s) s.
Definition modify {S} (f : S → S) : M S unit := λ s, Ok tt (f s).
Definition throw {S A} (msg : string) : M S A := λ s, Throw msg s.
Definition block {S A} (on : waitpoint) : M S A := λ s, Block on s.
Definition undefined {S A} (why : string) : M S A := λ _, UB why.
Definition when {S} (b : bool) (m : M S unit) : M S unit := if b then m else mret tt.

(** [for (auto x : l) body(x)] *)
Fixpoint for_each {S A} (l : list A) (body : A → M S unit) : M S unit :=
  match l with
  | [] => mret tt
  | x :: l => body x ;; for_each l body
  end.

(** The value an operation returns, when it returns. *)
Definition returned {S A} (o : outcome S A) : option A :=
  match o with Ok a _ => Some a | _ => None end.

(** The state an operation leaves, when it leaves one. *)
Definition state_after {S A} (o : outcome S A) : option S :=
  match o with Ok _ s | Throw _ s | Block _ s => Some s | UB _ => None end.

Definition is_throw {S A} (o : outcome S A) : bool :=
  match o with Throw _ _ => true | _ => false end.

Definition is_ub {S A} (o : outcome S A) : bool :=
  match o with UB _ => true | _ => false end.

Lemma bind_Ok {S A B} (m : M S A) (f : A → M S B) s b s' :
  (m ≫= f) s = Ok b s' ↔ ∃ a s1, m s = Ok a s1 ∧ f a s1 = Ok b s'.
Proof.
  unfold mbind, M_bind. destruct (m s) eqn:E; split; intros H;
    try (destruct H as (?&?&?&?)); simplify_eq; eauto.
Qed.

(** Runs a bind whose first half is known. *)
Lemma bind_run {S A B} (m : M S A) (f : A → M S B) s a s1 :
  m s = Ok a s1 → (m ≫= f) s = f a s1.
Proof. intros H. unfold mbind, M_bind. by rewrite H. Qed.

(** Splits every hypothesis [_ s = Ok _ _] about a sequence into its steps. *)
Ltac inv_ok :=
  repeat match goal with
  | H : (_ ≫= _) _ = Ok _ _ |- _ =>
      apply bind_Ok in H; destruct H as (?&?&?&H); cbv beta in H
  | H : mret _ _ = Ok _ _ |- _ => unfold mret, M_ret in H
  | H : get _ = Ok _ _ |- _ => unfold get in H
  | H : gets _ _ = Ok _ _ |- _ => unfold gets in H
  | H : modify _ _ = Ok _ _ |- _ => unfold modify in H
  | H : throw _ _ = Ok _ _ |- _ => discriminate H
  | H : block _ _ = Ok _ _ |- _ => discriminate H
  | H : undefined _ _ = Ok _ _ |- _ => discriminate H
  | H : Ok _ _ = Ok _ _ |- _ => injection H; clear H; intros; subst
  | H : Throw _ _ = Ok _ _ |- _ => discriminate H
  | H : Block _ _ = Ok _ _ |- _ => discriminate H
  | H : UB _ = Ok _ _ |- _ => discriminate H
  end.

(** Proves a decidable closed proposition by evaluating its decision. *)
Ltac decide_now := apply (bool_decide_unpack _); vm_compute; exact I.

(** ** Machine integers *)

Declare Scope umap_scope.
Delimit Scope umap_scope with umap.

(** [uint64_t], [size_t], pointers cast to [uint64_t] *)
Definition u64 (z : Z) : Z := z mod 2 ^ 64.
Definition u32 (z : Z) : Z := z mod 2 ^ 32.
Definition u16 (z : Z) : Z := z mod 2 ^ 16.
(** conversion to [int] (two's complement, as g++ defines it) *)
Definition i32 (z : Z) : Z := (z + 2 ^ 31) mod 2 ^ 32 - 2 ^ 31.

Notation "a +₆₄ b" := (u64 (a + b)) (at level 50, left associativity) : umap_scope.
Notation "a -₆₄ b" := (u64 (a - b)) (at level 50, left associativity) : umap_scope.
Notation "~₆₄ a" := (u64 (Z.lnot a)) (at level 35, right associativity) : umap_scope.

Definition is_u64 (z : Z) : Prop := 0 ≤ z < 2 ^ 64.

Lemma u64_small z : is_u64 z → u64 z = z.
Proof. intros. by apply Z.mod_small. Qed.

Lemma u64_range z : is_u64 (u64 z).
Proof. apply Z.mod_pos_bound. lia. Qed.

Lemma i32_small z : - 2 ^ 31 ≤ z < 2 ^ 31 → i32 z = z.
Proof. intros. unfold i32. rewrite Z.mod_small; lia. Qed.

Lemma u64_pred_0 : u64 (0 - 1) = 2 ^ 64 - 1.
Proof. reflexivity. Qed.

(** [a & ~(p - 1)], the masking idiom the code rounds addresses with *)
Definition mask_down (a p : Z) : Z := Z.land a (u64 (Z.lnot (u64 (p - 1)))).

Lemma lnot_mod_pow2 a n : 0 ≤ n → 0 ≤ a < 2 ^ n →
  (Z.lnot a) mod 2 ^ n = 2 ^ n - 1 - a.
Proof.
  intros Hn Ha. unfold Z.lnot.
  replace (Z.pred (- a)) with ((2 ^ n - 1 - a) + (-1) * 2 ^ n) by lia.
  rewrite Z.mod_add by lia. apply Z.mod_small. lia.
Qed.

(** For a power of two the mask clears the remainder. *)
Lemma mask_down_pow2 a k :
  is_u64 a → 0 ≤ k < 64 → mask_down a (2 ^ k) = a - a mod 2 ^ k.
Proof.
  intros Ha Hk. unfold mask_down.
  assert (0 < 2 ^ k) by (apply Z.pow_pos_nonneg; lia).
  assert (2 ^ k < 2 ^ 64) by (apply Z.pow_lt_mono_r; lia).
  rewrite (u64_small (2 ^ k - 1)) by (unfold is_u64; lia).
  unfold u64. rewrite <- Z.land_ones by lia.
  rewrite Z.land_assoc, (Z.land_comm a), <- Z.land_assoc, Z.land_ones by lia.
  unfold is_u64 in Ha. rewrite (Z.mod_small a) by lia.
  rewrite Z.land_comm.
  replace (2 ^ k - 1) with (Z.ones k) by (rewrite Z.ones_equiv; lia).
  rewrite <- Z.ldiff_land, Z.ldiff_ones_r by lia.
  rewrite Z.shiftl_mul_pow2, Z.shiftr_div_pow2 by lia.
  rewrite (Z.div_mod a (2 ^ k)) at 2 by lia. lia.
Qed.

Lemma mask_down_mult a k :
  is_u64 a → 0 ≤ k < 64 → (mask_down a (2 ^ k)) mod 2 ^ k = 0.
Proof.
  intros Ha Hk. rewrite mask_down_pow2 by done.
  assert (0 < 2 ^ k) by (apply Z.pow_pos_nonneg; lia).
  rewrite Zminus_mod_idemp_r, Z.sub_diag. apply Z.mod_0_l. lia.
Qed.

Lemma mask_down_bounds a k :
  is_u64 a → 0 ≤ k < 64 →
  0 ≤ mask_down a (2 ^ k) ∧ mask_down a (2 ^ k) ≤ a < mask_down a (2 ^ k) + 2 ^ k.
Proof.
  intros Ha Hk. rewrite mask_down_pow2 by done.
  assert (0 < 2 ^ k) by (apply Z.pow_pos_nonneg; lia).
  pose proof (Z.mod_pos_bound a (2 ^ k)). unfold is_u64 in Ha.
  pose proof (Z.mod_le a (2 ^ k)). lia.
Qed.

(** ** Lists *)

Section lists.
Context {A : Type}.
Implicit Types l k : list A.

(** [std::vector::back] / [pop_back], [None] on an empty container *)
Definition back l : option A := last l.
Definition pop_back l : list A := take (pred (length l)) l.

Lemma back_snoc l x : back (l ++ [x]) = Some x.
Proof. apply last_snoc. Qed.

Lemma pop_back_snoc l x : pop_back (l ++ [x]) = l.
Proof.
  unfold pop_back. rewrite length_app, Nat.add_comm. simpl.
  by rewrite take_app_length.
Qed.

Lemma back_Some_inv l x : back l = Some x → l = pop_back l ++ [x].
Proof.
  intros (k&->)%last_Some. by rewrite pop_back_snoc.
Qed.

Lemma pop_back_length l : length (pop_back l) = pred (length l).
Proof. unfold pop_back. rewrite length_take. lia. Qed.

(** overwriting the front of a buffer, as [pread] into a buffer does *)
Definition overwrite k l : list A := k ++ drop (length k) l.

Lemma overwrite_all k l : (length l ≤ length k)%nat → overwrite k l = k.
Proof.
  intros. unfold overwrite. rewrite drop_ge by lia. apply app_nil_r.
Qed.

Lemma length_overwrite k l :
  (length k ≤ length l)%nat → length (overwrite k l) = length l.
Proof. intros. unfold overwrite. rewrite length_app, length_drop. lia. Qed.

Lemma NoDup_app_cons_swap l k x : NoDup (l ++ x :: k) ↔ NoDup (x :: l ++ k).
Proof. by rewrite Permutation_middle. Qed.
End lists.

(** ** Reflexive-transitive closure: reachable states of a step relation *)

Section reachability.
Context {S : Type} (init : S → Prop) (step : S → S → Prop).

Inductive reachable : S → Prop :=
| reach_init s : init s → reachable s
| reach_step s s' : reachable s → step s s' → reachable s'.

Lemma invariant_reachable (I : S → Prop) :
  (∀ s, init s → I s) →
  (∀ s s', I s → step s s' → I s') →
  ∀ s, reachable s → I s.
Proof. intros Hi Hs s. induction 1; eauto. Qed.

Lemma reachable_rtc s s' : reachable s → rtc step s s' → reachable s'.
Proof. intros Hr. induction 1; eauto using reach_step. Qed.
End reachability.

Create HintDb umap.
Create Rewrite HintDb umap.
#[export] Hint Resolve u64_range : umap.
#[export] Hint Rewrite @back_snoc @pop_back_snoc : umap.
