(* ===== verification/MachineFloat.v ===== *)
(** * Binary floating point as the sources use it

    [Buffer::apply_int_percentage] computes with [float] and the [SparseStore]
    constructors with [double].  All values involved are non-negative and far
    from the overflow and subnormal ranges, so a floating-point value is its
    rational value and every operation is the exact rational result rounded
    to [prec] significant bits, ties to even (IEEE 754 round-to-nearest,
    [prec] = 24 for [float] and 53 for [double]). *)

From Stdlib Require Import ZArith QArith Qround Qpower Qabs Lqa Lia.
Local Open Scope Q_scope.

(** exponent of the leading bit: [2^e <= x < 2^(e+1)] *)
Definition Qlog2 (x : Q) : Z :=
  let e := (Z.log2 (Qnum x) - Z.log2 (QDen x))%Z in
  if Qle_bool (2 ^ e) x then e else (e - 1)%Z.

(** nearest integer, ties to even *)
Definition rne (x : Q) : Z :=
  let q := Qfloor x in
  match Qcompare (x - inject_Z q) (1 # 2) with
  | Lt => q
  | Gt => (q + 1)%Z
  | Eq => if Z.even q then q else (q + 1)%Z
  end.

Definition ulp_exp (prec : Z) (x : Q) : Z := (Qlog2 x - (prec - 1))%Z.

Definition rnd (prec : Z) (x : Q) : Q :=
  if Qle_bool x 0 then 0
  else inject_Z (rne (x / 2 ^ ulp_exp prec x)) * 2 ^ ulp_exp prec x.

(** conversions and operations *)
Definition f_of_int (prec z : Z) : Q := rnd prec (inject_Z z).
Definition f_mul (prec : Z) (x y : Q) : Q := rnd prec (x * y).
Definition f_div (prec : Z) (x y : Q) : Q := rnd prec (x / y).
(** conversion of a non-negative floating value to an unsigned integer *)
Definition f_trunc (x : Q) : Z := Qfloor x.
(** [ceil()] *)
Definition f_ceil (x : Q) : Z := Qceiling x.

(** ** Rounding to an integer *)

Lemma Qfloor_spec x : inject_Z (Qfloor x) <= x /\ x < inject_Z (Qfloor x) + 1.
Proof.
  split; [apply Qfloor_le |].
  pose proof (Qlt_floor x) as H. rewrite inject_Z_plus in H. exact H.
Qed.

Lemma rne_bounds x :
  inject_Z (rne x) - (1 # 2) <= x /\ x <= inject_Z (rne x) + (1 # 2).
Proof.
  unfold rne. destruct (Qfloor_spec x) as [H1 H2].
  destruct (Qcompare_spec (x - inject_Z (Qfloor x)) (1 # 2)) as [E|E|E];
    [destruct (Z.even _)| |]; rewrite ?inject_Z_plus;
    change (inject_Z 1) with 1; split; lra.
Qed.

Lemma inject_Z_succ_le a b : (a < b)%Z -> inject_Z a + 1 <= inject_Z b.
Proof.
  intros. change 1 with (inject_Z 1). rewrite <- inject_Z_plus, <- Zle_Qle. lia.
Qed.

Lemma inject_Z_lt_inv a b : inject_Z a < inject_Z b -> (a < b)%Z.
Proof. now rewrite <- Zlt_Qlt. Qed.

Lemma inject_Z_le_inv a b : inject_Z a <= inject_Z b -> (a <= b)%Z.
Proof. now rewrite <- Zle_Qle. Qed.

Lemma Qfloor_unique x n : inject_Z n <= x -> x < inject_Z n + 1 -> Qfloor x = n.
Proof.
  intros H1 H2. destruct (Qfloor_spec x) as [H3 H4].
  destruct (Z.lt_trichotomy (Qfloor x) n) as [H|[H|H]]; auto;
    apply inject_Z_succ_le in H; exfalso; lra.
Qed.

Lemma rne_int x n : x == inject_Z n -> rne x = n.
Proof.
  intros H. unfold rne.
  assert (Qfloor x = n) as -> by (apply Qfloor_unique; lra).
  destruct (Qcompare_spec (x - inject_Z n) (1 # 2)) as [E|E|E]; auto; exfalso; lra.
Qed.

Lemma rne_mono x y : x <= y -> (rne x <= rne y)%Z.
Proof.
  intros Hxy. unfold rne.
  destruct (Qfloor_spec x) as [X1 X2], (Qfloor_spec y) as [Y1 Y2].
  destruct (Z.lt_trichotomy (Qfloor x) (Qfloor y)) as [H|[H|H]].
  - destruct (Qcompare _ _), (Qcompare _ _); repeat destruct (Z.even _); lia.
  - rewrite H in *.
    destruct (Qcompare_spec (x - inject_Z (Qfloor y)) (1 # 2)),
      (Qcompare_spec (y - inject_Z (Qfloor y)) (1 # 2));
      try destruct (Z.even _); try lia; exfalso; lra.
  - apply inject_Z_succ_le in H. exfalso; lra.
Qed.

(** ** The binade of a value *)

Lemma inject_pow2 n : (0 <= n)%Z -> inject_Z (2 ^ n) == 2 ^ n.
Proof.
  intros. change (2 : Q) with (inject_Z 2). rewrite Zpower_Qpower; [reflexivity|lia].
Qed.

Lemma pow2_pos e : 0 < 2 ^ e.
Proof. apply Qpower_0_lt. reflexivity. Qed.

Lemma pow2_nz e : ~ 2 ^ e == 0.
Proof. pose proof (pow2_pos e). lra. Qed.

Lemma pow2_plus a b : 2 ^ (a + b) == 2 ^ a * 2 ^ b.
Proof. apply Qpower_plus. discriminate. Qed.

Lemma pow2_succ e : 2 ^ (e + 1) == 2 * 2 ^ e.
Proof. rewrite pow2_plus. change (2 ^ 1) with 2. ring. Qed.

Lemma pow2_pred e : 2 ^ e == 2 * 2 ^ (e - 1).
Proof. rewrite <- pow2_succ. now replace (e - 1 + 1)%Z with e by lia. Qed.

Lemma Qnum_den x : 0 < x -> x == inject_Z (Qnum x) / inject_Z (QDen x).
Proof. intros. rewrite <- Qmake_Qdiv. now destruct x. Qed.

Lemma Qlog2_spec x : 0 < x -> 2 ^ Qlog2 x <= x /\ x < 2 ^ (Qlog2 x + 1).
Proof.
  intros Hx. unfold Qlog2.
  assert (0 < Qnum x)%Z as Hn by (unfold Qlt in Hx; simpl in Hx; lia).
  pose proof (Z.log2_spec _ Hn) as [N1 N2].
  assert (0 < QDen x)%Z as Hd by lia.
  pose proof (Z.log2_spec _ Hd) as [D1 D2].
  pose proof (Z.log2_nonneg (Qnum x)). pose proof (Z.log2_nonneg (QDen x)).
  set (a := Z.log2 (Qnum x)) in *. set (b := Z.log2 (QDen x)) in *.
  rewrite <- Z.add_1_r in N2, D2.
  rewrite Zle_Qle, inject_pow2 in N1 by lia. rewrite Zle_Qle, inject_pow2 in D1 by lia.
  rewrite Zlt_Qlt, inject_pow2 in N2 by lia. rewrite Zlt_Qlt, inject_pow2 in D2 by lia.
  pose proof (Qnum_den x Hx) as E.
  set (n := inject_Z (Qnum x)) in *. set (d := inject_Z (QDen x)) in *.
  assert (0 < d) by (pose proof (pow2_pos b); lra).
  assert (n == x * d) as En by (rewrite E; field; lra).
  assert (2 ^ a == 2 ^ (a - b) * 2 ^ b) as Ea
    by (rewrite <- pow2_plus; now replace (a - b + b)%Z with a by lia).
  rewrite pow2_succ in N2, D2.
  pose proof (pow2_pos b). pose proof (pow2_pos (a - b)).
  assert (x < 2 * 2 ^ (a - b)) as Hup.
  { apply Qmult_lt_r with d; [lra|]. rewrite <- En.
    apply Qlt_le_trans with (2 * 2 ^ a); [lra|]. rewrite Ea. nra. }
  destruct (Qle_bool (2 ^ (a - b)) x) eqn:Eb.
  - apply Qle_bool_iff in Eb. rewrite pow2_succ. lra.
  - assert (x < 2 ^ (a - b)) as Hlt.
    { apply Qnot_le_lt. intros C. apply Qle_bool_iff in C. congruence. }
    replace (a - b - 1 + 1)%Z with (a - b)%Z by lia.
    split; [|lra]. rewrite (pow2_pred (a - b)) in *.
    set (h := 2 ^ (a - b - 1)) in *.
    apply Qmult_le_r with (2 * 2 ^ b); [nra|].
    apply Qle_trans with (x * d); [rewrite <- En; nra | nra].
Qed.

Lemma Qlog2_unique x e : 2 ^ e <= x -> x < 2 ^ (e + 1) -> Qlog2 x = e.
Proof.
  intros H1 H2. assert (0 < x) as Hx by (pose proof (pow2_pos e); lra).
  destruct (Qlog2_spec x Hx) as [H3 H4].
  assert (Qlog2 x < e + 1)%Z
    by (apply (Qpower_lt_compat_l_inv 2); [lra | reflexivity]).
  assert (e < Qlog2 x + 1)%Z
    by (apply (Qpower_lt_compat_l_inv 2); [lra | reflexivity]).
  lia.
Qed.

Lemma Qlog2_mono x y : 0 < x -> x <= y -> (Qlog2 x <= Qlog2 y)%Z.
Proof.
  intros Hx Hxy. destruct (Qlog2_spec x Hx), (Qlog2_spec y ltac:(lra)).
  assert (Qlog2 x < Qlog2 y + 1)%Z; [|lia].
  apply (Qpower_lt_compat_l_inv 2); [lra | reflexivity].
Qed.

(** ** Rounding to [prec] bits *)

Section rounding.
Context (prec : Z) (Hprec : (1 <= prec)%Z).

Lemma rnd_pos_eq x : 0 < x ->
  rnd prec x = inject_Z (rne (x / 2 ^ ulp_exp prec x)) * 2 ^ ulp_exp prec x.
Proof.
  intros Hx. unfold rnd. destruct (Qle_bool x 0) eqn:E; [|reflexivity].
  apply Qle_bool_iff in E. lra.
Qed.

(** the scaled significand lies in [[2^(prec-1), 2^prec)] *)
Lemma significand_bounds x : 0 < x ->
  2 ^ (prec - 1) <= x / 2 ^ ulp_exp prec x /\ x / 2 ^ ulp_exp prec x < 2 ^ prec.
Proof.
  intros Hx. destruct (Qlog2_spec x Hx) as [H1 H2].
  pose proof (pow2_pos (ulp_exp prec x)) as Hp.
  split.
  - apply Qle_shift_div_l; [assumption|]. rewrite <- pow2_plus.
    unfold ulp_exp. now replace (prec - 1 + (Qlog2 x - (prec - 1)))%Z with (Qlog2 x) by lia.
  - apply Qlt_shift_div_r; [assumption|]. rewrite <- pow2_plus.
    unfold ulp_exp.
    now replace (prec + (Qlog2 x - (prec - 1)))%Z with (Qlog2 x + 1)%Z by lia.
Qed.

Lemma rnd_binade x : 0 < x ->
  2 ^ Qlog2 x <= rnd prec x /\ rnd prec x <= 2 ^ (Qlog2 x + 1).
Proof.
  intros Hx. rewrite rnd_pos_eq by assumption.
  destruct (significand_bounds x Hx) as [S1 S2].
  pose proof (pow2_pos (ulp_exp prec x)) as Hp.
  assert (2 ^ (prec - 1) * 2 ^ ulp_exp prec x == 2 ^ Qlog2 x) as E1.
  { rewrite <- pow2_plus. unfold ulp_exp.
    now replace (prec - 1 + (Qlog2 x - (prec - 1)))%Z with (Qlog2 x) by lia. }
  assert (2 ^ prec * 2 ^ ulp_exp prec x == 2 ^ (Qlog2 x + 1)) as E2.
  { rewrite <- pow2_plus. unfold ulp_exp.
    now replace (prec + (Qlog2 x - (prec - 1)))%Z with (Qlog2 x + 1)%Z by lia. }
  rewrite <- E1, <- E2. split; apply Qmult_le_compat_r; try lra.
  - rewrite <- inject_pow2 by lia. rewrite <- Zle_Qle.
    rewrite <- (rne_int (inject_Z (2 ^ (prec - 1))) _ (Qeq_refl _)). apply rne_mono.
    rewrite inject_pow2 by lia. assumption.
  - rewrite <- (inject_pow2 prec) by lia. rewrite <- Zle_Qle.
    rewrite <- (rne_int (inject_Z (2 ^ prec)) _ (Qeq_refl _)). apply rne_mono.
    rewrite inject_pow2 by lia. lra.
Qed.

Lemma rnd_nonneg x : 0 <= rnd prec x.
Proof.
  destruct (Qlt_le_dec 0 x) as [H|H].
  - destruct (rnd_binade x H). pose proof (pow2_pos (Qlog2 x)). lra.
  - unfold rnd. apply Qle_bool_iff in H. rewrite H. lra.
Qed.

Lemma rnd_mono x y : x <= y -> rnd prec x <= rnd prec y.
Proof.
  intros Hxy. destruct (Qlt_le_dec 0 x) as [Hx|Hx].
  2:{ apply Qle_bool_iff in Hx. unfold rnd at 1. rewrite Hx. apply rnd_nonneg. }
  pose proof (Qlog2_mono x y Hx Hxy) as HL.
  destruct (Z.eq_dec (Qlog2 x) (Qlog2 y)) as [E|E].
  - rewrite !rnd_pos_eq by lra. unfold ulp_exp. rewrite E.
    set (u := 2 ^ _). assert (0 < u) by apply pow2_pos.
    apply Qmult_le_compat_r; [|lra]. rewrite <- Zle_Qle. apply rne_mono.
    apply Qmult_le_compat_r; [assumption|]. apply Qinv_le_0_compat. lra.
  - destruct (rnd_binade x Hx) as [_ H1], (rnd_binade y ltac:(lra)) as [H2 _].
    eapply Qle_trans; [exact H1|]. eapply Qle_trans; [|exact H2].
    apply Qpower_le_compat_l; [lia | lra].
Qed.

(** relative error of at most [2^-prec] *)
Lemma rnd_error x : 0 <= x ->
  x - x * 2 ^ (- prec) <= rnd prec x /\ rnd prec x <= x + x * 2 ^ (- prec).
Proof.
  intros Hx0. destruct (Qlt_le_dec 0 x) as [Hx|Hx].
  2:{ assert (x == 0) as E by lra. unfold rnd.
      apply Qle_bool_iff in Hx. rewrite Hx, E. lra. }
  rewrite rnd_pos_eq by assumption.
  set (u := 2 ^ ulp_exp prec x). assert (0 < u) as Hu by apply pow2_pos.
  destruct (rne_bounds (x / u)) as [B1 B2].
  set (m := inject_Z (rne (x / u))) in *.
  assert (x / u * u == x) as Ex by (field; lra).
  assert (u * (1 # 2) <= x * 2 ^ (- prec)) as Herr.
  { destruct (Qlog2_spec x Hx) as [H1 _].
    assert (u * (1 # 2) == 2 ^ Qlog2 x * 2 ^ (- prec)) as ->.
    { unfold u. rewrite <- pow2_plus.
      rewrite (pow2_pred (ulp_exp prec x)). unfold ulp_exp.
      replace (Qlog2 x - (prec - 1) - 1)%Z with (Qlog2 x + - prec)%Z by lia. ring. }
    apply Qmult_le_compat_r; [assumption|]. pose proof (pow2_pos (- prec)). lra. }
  assert ((m - (1 # 2)) * u <= x) by (rewrite <- Ex; apply Qmult_le_compat_r; lra).
  assert (x <= (m + (1 # 2)) * u) by (rewrite <- Ex; apply Qmult_le_compat_r; lra).
  split; lra.
Qed.

(** integers below [2^prec] are represented exactly *)
Lemma rnd_int n : (0 <= n < 2 ^ prec)%Z -> rnd prec (inject_Z n) == inject_Z n.
Proof.
  intros Hn. destruct (Z.eq_dec n 0) as [->|Hn0]; [reflexivity|].
  assert (0 < inject_Z n) as Hx by (change 0 with (inject_Z 0); rewrite <- Zlt_Qlt; lia).
  rewrite rnd_pos_eq by assumption.
  set (e := ulp_exp prec (inject_Z n)).
  assert (e <= 0)%Z as He.
  { unfold e, ulp_exp. destruct (Qlog2_spec _ Hx) as [H1 _].
    assert (Qlog2 (inject_Z n) < prec)%Z; [|lia].
    apply (Qpower_lt_compat_l_inv 2); [|reflexivity].
    eapply Qle_lt_trans; [exact H1|].
    rewrite <- (inject_pow2 prec) by lia. rewrite <- Zlt_Qlt. lia. }
  assert (inject_Z n / 2 ^ e == inject_Z (n * 2 ^ (- e))) as Es.
  { rewrite inject_Z_mult, inject_pow2 by lia. unfold Qdiv.
    now rewrite <- Qpower_opp. }
  rewrite (rne_int _ _ Es). rewrite inject_Z_mult, inject_pow2 by lia.
  rewrite <- Qmult_assoc, <- pow2_plus.
  replace (- e + e)%Z with 0%Z by lia. change (2 ^ 0) with 1. ring.
Qed.

Lemma rnd_ge_int n x :
  (0 <= n < 2 ^ prec)%Z -> inject_Z n <= x -> inject_Z n <= rnd prec x.
Proof. intros Hn H. rewrite <- (rnd_int n Hn). now apply rnd_mono. Qed.

Lemma rnd_le_int n x :
  (0 <= n < 2 ^ prec)%Z -> x <= inject_Z n -> rnd prec x <= inject_Z n.
Proof. intros Hn H. rewrite <- (rnd_int n Hn). now apply rnd_mono. Qed.
End rounding.

Lemma rnd_eq prec x y : (1 <= prec)%Z -> x == y -> rnd prec x == rnd prec y.
Proof. intros Hp E. apply Qle_antisym; apply rnd_mono; lra || assumption. Qed.

(** ** The idiom [ceil(a * 1.0 / b)] *)

Definition ceil_div_double (a b : Z) : Z :=
  f_ceil (f_div 53 (f_mul 53 (f_of_int 53 a) 1) (f_of_int 53 b)).

Lemma Qceiling_unique x n : inject_Z n - 1 < x -> x <= inject_Z n -> Qceiling x = n.
Proof.
  intros H1 H2. unfold Qceiling.
  rewrite (Qfloor_unique (- x) (- n)); [lia | |]; rewrite inject_Z_opp; lra.
Qed.

Lemma ceil_div_eq a b : (0 < b)%Z ->
  ((a + b - 1) / b = a / b + if a mod b =? 0 then 0 else 1)%Z.
Proof.
  intros. pose proof (Z.div_mod a b). pose proof (Z.mod_pos_bound a b).
  destruct (Z.eqb_spec (a mod b) 0); symmetry.
  - apply Z.div_unique with (b - 1)%Z; lia.
  - apply Z.div_unique with (a mod b - 1)%Z; lia.
Qed.

(** For operands below [2^53] the [double] computation is the exact ceiling
    of the quotient. *)
Lemma ceil_div_double_exact a b :
  (0 < a < 2 ^ 53 -> 0 < b < 2 ^ 53 -> ceil_div_double a b = (a + b - 1) / b)%Z.
Proof.
  intros Ha Hb. unfold ceil_div_double, f_ceil, f_div, f_mul, f_of_int.
  assert (0 < inject_Z a) as Qa by (change 0 with (inject_Z 0); rewrite <- Zlt_Qlt; lia).
  assert (0 < inject_Z b) as Qb by (change 0 with (inject_Z 0); rewrite <- Zlt_Qlt; lia).
  set (q := inject_Z a / inject_Z b).
  assert (rnd 53 (rnd 53 (rnd 53 (inject_Z a) * 1) / rnd 53 (inject_Z b)) == rnd 53 q) as Eq.
  { apply rnd_eq; [lia|]. unfold q.
    rewrite (rnd_int 53 ltac:(lia) b) by lia.
    rewrite (rnd_eq 53 (rnd 53 (inject_Z a) * 1) (inject_Z a)) by
      (lia || (rewrite (rnd_int 53 ltac:(lia) a) by lia; ring)).
    now rewrite (rnd_int 53 ltac:(lia) a) by lia. }
  rewrite (Qceiling_comp _ _ Eq).
  pose proof (Z.div_mod a b ltac:(lia)) as Ediv.
  pose proof (Z.mod_pos_bound a b ltac:(lia)) as Hr.
  rewrite ceil_div_eq by lia.
  set (n := (a / b)%Z) in *. set (r := (a mod b)%Z) in *.
  assert (0 <= n < 2 ^ 53)%Z as Hn by nia.
  assert (q * inject_Z b == inject_Z a) as Eqb by (unfold q; field; lra).
  assert (inject_Z a == inject_Z b * inject_Z n + inject_Z r) as Ea.
  { rewrite <- inject_Z_mult, <- inject_Z_plus. now rewrite <- Ediv. }
  assert (0 < q) as Hq by (unfold q; apply Qlt_shift_div_l; lra).
  destruct (Z.eqb_spec r 0) as [Er|Er].
  - assert (q == inject_Z n) as En.
    { apply Qmult_inj_r with (inject_Z b); [lra|]. rewrite Eqb, Ea, Er.
      change (inject_Z 0) with 0. ring. }
    rewrite Z.add_0_r. apply Qceiling_unique.
    + pose proof (rnd_ge_int 53 ltac:(lia) n q ltac:(lia) ltac:(lra)). lra.
    + apply rnd_le_int; [lia | lia | lra].
  - assert (inject_Z n * inject_Z b + 1 <= q * inject_Z b) as Hlo.
    { rewrite Eqb, Ea. pose proof (inject_Z_succ_le 0 r ltac:(lia)) as Hr1.
      change (inject_Z 0) with 0 in Hr1. lra. }
    assert (inject_Z r + 1 <= inject_Z b) as Hrb by (apply inject_Z_succ_le; lia).
    assert (q <= inject_Z n + 1) as Hhi.
    { apply Qmult_le_r with (inject_Z b); [lra|]. rewrite Eqb, Ea. lra. }
    apply Qceiling_unique; rewrite inject_Z_plus; change (inject_Z 1) with 1.
    + destruct (rnd_error 53 q ltac:(lra)) as [He _].
      eapply Qlt_le_trans; [|exact He].
      assert (q * 2 ^ (- 53) * inject_Z b < 1) as Hsm.
      { setoid_replace (q * 2 ^ (- 53) * inject_Z b) with (inject_Z a * 2 ^ (- 53))
          by (rewrite <- Eqb; ring).
        assert (inject_Z a + 1 <= inject_Z (2 ^ 53)) as H53 by (apply inject_Z_succ_le; lia).
        apply Qlt_le_trans with (inject_Z (2 ^ 53) * 2 ^ (- 53)); [|discriminate].
        apply Qmult_lt_r; [reflexivity | lra]. }
      change (2 ^ (- (53))) with (2 ^ (- 53)) in *. set (eps := 2 ^ (- 53)) in *.
      apply Qmult_lt_r with (inject_Z b); [lra|]. lra.
    + assert (n + 1 < 2 ^ 53 \/ n + 1 = 2 ^ 53)%Z as [H1|H1] by lia.
      * change 1 with (inject_Z 1). rewrite <- inject_Z_plus.
        apply rnd_le_int; [lia | lia |]. rewrite inject_Z_plus. exact Hhi.
      * exfalso. nia.
Qed.
