(* ===== verification/PageDescriptor.v ===== *)
(** * Page descriptors (src/src/umap/PageDescriptor.{hpp,cpp})

    The record a [Buffer] keeps per page, its five states, the guarded state
    setters and the stream output operators.  Descriptor pointers are indices
    into [Buffer::m_array] and region pointers are indices into the heap of
    region descriptors, both [nat]; an absent pointer is [None]. *)

From stdpp Require Import base list numbers strings pretty.
From S2P Require Import Prelude.
Local Open Scope Z_scope.

(** [enum State { FREE = 0, FILLING, PRESENT, UPDATING, LEAVING }] *)
Inductive State := FREE | FILLING | PRESENT | UPDATING | LEAVING.

#[export] Instance State_eq_dec : EqDecision State.
Proof. solve_decision. Defined.

Record PageDescriptor := mkPD {
  page : Z;                    (* char*, 0 is nullptr *)
  region : option nat;
  state : State;
  dirty : bool;
  deferred : bool;
  data_present : bool;
  spurious_count : Z
}.

(** what [calloc] leaves in a fresh descriptor *)
Definition zero_pd : PageDescriptor := mkPD 0 None FREE false false false 0.

Definition with_page (v : Z) (pd : PageDescriptor) : PageDescriptor :=
  mkPD v (region pd) (state pd) (dirty pd) (deferred pd) (data_present pd) (spurious_count pd).
Definition with_region (v : option nat) (pd : PageDescriptor) : PageDescriptor :=
  mkPD (page pd) v (state pd) (dirty pd) (deferred pd) (data_present pd) (spurious_count pd).
Definition with_state (v : State) (pd : PageDescriptor) : PageDescriptor :=
  mkPD (page pd) (region pd) v (dirty pd) (deferred pd) (data_present pd) (spurious_count pd).
Definition with_dirty (v : bool) (pd : PageDescriptor) : PageDescriptor :=
  mkPD (page pd) (region pd) (state pd) v (deferred pd) (data_present pd) (spurious_count pd).
Definition with_deferred (v : bool) (pd : PageDescriptor) : PageDescriptor :=
  mkPD (page pd) (region pd) (state pd) (dirty pd) v (data_present pd) (spurious_count pd).
Definition with_data_present (v : bool) (pd : PageDescriptor) : PageDescriptor :=
  mkPD (page pd) (region pd) (state pd) (dirty pd) (deferred pd) v (spurious_count pd).
Definition with_spurious_count (v : Z) (pd : PageDescriptor) : PageDescriptor :=
  mkPD (page pd) (region pd) (state pd) (dirty pd) (deferred pd) (data_present pd) v.

Definition print_state_of (st : State) : string :=
  match st with
  | FREE => "FREE"
  | FILLING => "FILLING"
  | PRESENT => "PRESENT"
  | UPDATING => "UPDATING"
  | LEAVING => "LEAVING"
  end.

Definition print_state (pd : PageDescriptor) : string := print_state_of (state pd).

Definition invalid_transition (pd : PageDescriptor) : string :=
  ("Invalid state transition from: " +:+ print_state pd)%string.

(** ** The setters *)

Definition set_state_free : M PageDescriptor unit := λ pd,
  if negb (bool_decide (state pd = LEAVING)) then Throw (invalid_transition pd) pd
  else Ok tt (with_state FREE pd).

Definition set_state_filling : M PageDescriptor unit := λ pd,
  if negb (bool_decide (state pd = FREE)) then Throw (invalid_transition pd) pd
  else Ok tt (with_state FILLING pd).

Definition set_state_present : M PageDescriptor unit := λ pd,
  if negb (bool_decide (state pd = FILLING)) && negb (bool_decide (state pd = UPDATING))
  then Throw (invalid_transition pd) pd
  else Ok tt (with_state PRESENT pd).

Definition set_state_updating : M PageDescriptor unit := λ pd,
  if negb (bool_decide (state pd = PRESENT)) then Throw (invalid_transition pd) pd
  else Ok tt (with_state UPDATING pd).

Definition set_state_leaving : M PageDescriptor unit := λ pd,
  if negb (bool_decide (state pd = PRESENT)) then Throw (invalid_transition pd) pd
  else Ok tt (with_state LEAVING pd).

(** ** Stream output; [show_ptr] is how the standard library prints a
    [void*], which it leaves implementation-defined. *)

Definition ostream_State (os : string) (st : State) : string :=
  (os +:+ print_state_of st)%string.

Definition ostream_PageDescriptor (show_ptr : Z → string) (os : string)
    (pd : option PageDescriptor) : string :=
  match pd with
  | Some pd =>
      (os +:+ "{ " +:+ show_ptr (page pd) +:+ ", " +:+ print_state pd
       +:+ (if dirty pd then ", DIRTY" else "")
       +:+ (if deferred pd then ", DEFERRED" else "")
       +:+ (if bool_decide (spurious_count pd ≠ 0)
            then ", spurious: " +:+ pretty (spurious_count pd) else "")
       +:+ " }")%string
  | None => (os +:+ "{ nullptr }")%string
  end.

(** ** The page life cycle the setters enforce *)

Inductive transition : State → State → Prop :=
| t_fill : transition FREE FILLING
| t_filled : transition FILLING PRESENT
| t_update : transition PRESENT UPDATING
| t_updated : transition UPDATING PRESENT
| t_leave : transition PRESENT LEAVING
| t_free : transition LEAVING FREE.

#[export] Hint Constructors transition : umap.

#[export] Instance transition_dec s s' : Decision (transition s s').
Proof.
  destruct s, s'; first [left; constructor | right; abstract (inversion 1)].
Defined.

(** the setter that moves a descriptor to a given state *)
Definition setter (s : State) : M PageDescriptor unit :=
  match s with
  | FREE => set_state_free
  | FILLING => set_state_filling
  | PRESENT => set_state_present
  | UPDATING => set_state_updating
  | LEAVING => set_state_leaving
  end.

Lemma setter_spec s pd :
  setter s pd =
    if decide (transition (state pd) s)
    then Ok tt (with_state s pd)
    else Throw (invalid_transition pd) pd.
Proof. destruct pd as [p r st d de dp sc]. by destruct st, s. Qed.

Lemma print_state_of_inj s s' : print_state_of s = print_state_of s' → s = s'.
Proof. by destruct s, s'. Qed.

(** (functional).  Every setter succeeds exactly on the transitions
    FREE->FILLING, FILLING->PRESENT, PRESENT->UPDATING, UPDATING->PRESENT,
    PRESENT->LEAVING and LEAVING->FREE; on every other current state it throws,
    with a message that identifies the offending state, and leaves the
    descriptor as it was.  A success changes the state and nothing else. *)
Theorem set_state_functional s pd :
  (transition (state pd) s →
     ∃ pd', setter s pd = Ok tt pd' ∧ state pd' = s ∧
       with_state (state pd) pd' = pd) ∧
  (¬ transition (state pd) s →
     setter s pd = Throw (invalid_transition pd) pd ∧
     ∀ pd2, invalid_transition pd2 = invalid_transition pd → state pd2 = state pd).
Proof.
  rewrite setter_spec. split; intros H.
  - rewrite decide_True by done. exists (with_state s pd). by destruct pd.
  - rewrite decide_False by done. split; [done|]. intros pd2 E.
    apply (inj (String.append _)) in E. by apply print_state_of_inj.
Qed.

