(* ===== verification/WorkQueue.v ===== *)
(** * Work queues and worker pools (src/src/umap/WorkQueue.hpp, WorkerPool.hpp)

    [WorkQueue<T>] is a mutex-protected list with two condition variables.
    Every method is split at its [pthread_cond_wait] calls, so that each piece
    below is what one thread does while it holds [m_mutex]: [dequeue] and
    [wait_for_idle] run up to the first wait, the [_resume] variants run from
    the return of [pthread_cond_wait].  A condition variable is the number of
    threads asleep on it and of threads that were woken and have not yet
    re-acquired the mutex.

    [Pool] is the transition system of a pool of workers over one queue. *)

From stdpp Require Import base list numbers strings.
From S2P Require Import Prelude PageDescriptor.
Local Open Scope Z_scope.

(** ** Condition variables *)

Record condvar := mkCond { asleep : nat; woken : nat }.

Definition cond_signal (c : condvar) : condvar :=
  match asleep c with
  | O => c
  | S k => mkCond k (S (woken c))
  end.
Definition cond_sleep (c : condvar) : condvar := mkCond (S (asleep c)) (woken c).
Definition cond_return (c : condvar) : condvar := mkCond (asleep c) (pred (woken c)).

(** ** The queue *)

Record WorkQueue (T : Type) := mkWQ {
  m_queue : list T;
  m_cond : condvar;
  m_idle_cond : condvar;
  m_max_waiting : Z;
  m_waiting_workers : Z;
  m_idle_waiters : Z
}.
Arguments mkWQ {T}.
Arguments m_queue {T}.
Arguments m_cond {T}.
Arguments m_idle_cond {T}.
Arguments m_max_waiting {T}.
Arguments m_waiting_workers {T}.
Arguments m_idle_waiters {T}.

Section queue.
Context {T : Type}.
Abbreviation WQ := (WorkQueue T).

Definition with_queue (l : list T) (q : WQ) : WQ :=
  mkWQ l (m_cond q) (m_idle_cond q) (m_max_waiting q) (m_waiting_workers q) (m_idle_waiters q).
Definition with_cond (c : condvar) (q : WQ) : WQ :=
  mkWQ (m_queue q) c (m_idle_cond q) (m_max_waiting q) (m_waiting_workers q) (m_idle_waiters q).
Definition with_idle_cond (c : condvar) (q : WQ) : WQ :=
  mkWQ (m_queue q) (m_cond q) c (m_max_waiting q) (m_waiting_workers q) (m_idle_waiters q).
Definition with_waiting (n : Z) (q : WQ) : WQ :=
  mkWQ (m_queue q) (m_cond q) (m_idle_cond q) (m_max_waiting q) n (m_idle_waiters q).
Definition with_idle_waiters (n : Z) (q : WQ) : WQ :=
  mkWQ (m_queue q) (m_cond q) (m_idle_cond q) (m_max_waiting q) (m_waiting_workers q) n.

(** [WorkQueue(int max_workers)] *)
Definition new_WorkQueue (max_workers : Z) : WQ :=
  mkWQ [] (mkCond 0 0) (mkCond 0 0) (u64 (i32 max_workers)) 0 0.

Definition enqueue (item : T) : M WQ unit :=
  modify (λ q, with_queue (m_queue q ++ [item]) q) ;;
  modify (λ q, with_cond (cond_signal (m_cond q)) q).

(** [while ( m_queue.size() == 0 ) { ... }] and what follows it *)
Definition dequeue_loop : M WQ T :=
  q ← get;
  match m_queue q with
  | [] =>
      when (bool_decide (m_waiting_workers q = m_max_waiting q)
            && bool_decide (m_idle_waiters q ≠ 0))
        (modify (λ q, with_idle_cond (cond_signal (m_idle_cond q)) q)) ;;
      modify (λ q, with_cond (cond_sleep (m_cond q)) q) ;;
      block OnQueue
  | item :: rest =>
      modify (λ q, with_waiting (m_waiting_workers q - 1) q) ;;
      modify (with_queue rest) ;;
      mret item
  end.

Definition dequeue : M WQ T :=
  modify (λ q, with_waiting (m_waiting_workers q + 1) q) ;; dequeue_loop.

Definition dequeue_resume : M WQ T :=
  modify (λ q, with_cond (cond_return (m_cond q)) q) ;; dequeue_loop.

Definition idle (q : WQ) : bool :=
  bool_decide (length (m_queue q) = 0%nat)
  && bool_decide (m_waiting_workers q = m_max_waiting q).

Definition wait_for_idle_loop : M WQ unit :=
  q ← get;
  if negb (idle q) then
    modify (λ q, with_idle_cond (cond_sleep (m_idle_cond q)) q) ;;
    block OnIdle
  else
    modify (λ q, with_idle_waiters (m_idle_waiters q - 1) q).

Definition wait_for_idle : M WQ unit :=
  modify (λ q, with_idle_waiters (m_idle_waiters q + 1) q) ;; wait_for_idle_loop.

Definition wait_for_idle_resume : M WQ unit :=
  modify (λ q, with_idle_cond (cond_return (m_idle_cond q)) q) ;; wait_for_idle_loop.

Definition is_empty : M WQ bool := gets (λ q, bool_decide (length (m_queue q) = 0%nat)).
End queue.

(** ** Work items (src/src/umap/WorkerPool.hpp) *)

Inductive WorkType := NONE | EXIT | THRESHOLD | EVICT | FAST_EVICT | FLUSH.

#[export] Instance WorkType_eq_dec : EqDecision WorkType.
Proof. solve_decision. Defined.

Record WorkItem := mkWork { page_desc : option nat; type : WorkType }.

#[export] Instance WorkItem_eq_dec : EqDecision WorkItem.
Proof. solve_decision. Defined.

Definition print_WorkType (t : WorkType) : string :=
  match t with
  | NONE => "NONE" | EXIT => "EXIT" | THRESHOLD => "THRESHOLD"
  | EVICT => "EVICT" | FAST_EVICT => "FAST_EVICT" | FLUSH => "FLUSH"
  end.

(** [operator<<(ostream&, const WorkItem&)]; [show_pd] prints the descriptor *)
Definition ostream_WorkItem (show_pd : option nat → string) (os : string) (b : WorkItem) : string :=
  (os +:+ "{ page_desc: " +:+ show_pd (page_desc b)
   +:+ ", type: " +:+ print_WorkType (type b) +:+ " }")%string.

Definition exit_item : WorkItem := mkWork None EXIT.
Definition is_exit (w : WorkItem) : bool := bool_decide (type w = EXIT).

(** [WorkerPool]'s wrappers *)
Definition send_work (work : WorkItem) : M (WorkQueue WorkItem) unit := enqueue work.
Definition get_work : M (WorkQueue WorkItem) WorkItem := dequeue.
Definition wq_is_empty : M (WorkQueue WorkItem) bool := is_empty.

(** [m_pool_name.resize(15)] when longer *)
Definition pool_name (name : string) : string :=
  if bool_decide (15 < Z.of_nat (String.length name))
  then String.substring 0 15 name else name.

(** the EXIT messages of [stop_thread_pool] *)
Fixpoint send_exits (n : nat) : M (WorkQueue WorkItem) unit :=
  match n with
  | O => mret tt
  | S n => send_work exit_item ;; send_exits n
  end.

Module Pool.

(** ** A pool of threads over one queue

    Workers are anonymous: those asleep in [pthread_cond_wait] and those woken
    are counted by the queue's [m_cond], [getting] counts the threads about to
    call [get_work], [running] holds the items being worked on and [exited]
    the threads that received EXIT.  [sent] and [finished] are history. *)
Record pool := mkPool {
  wq : WorkQueue WorkItem;
  getting : nat;
  running : list WorkItem;
  exited : nat;
  sent : list WorkItem;
  finished : list WorkItem
}.

(** [start_thread_pool]: [n] threads enter their loops *)
Definition start_thread_pool (n : nat) : pool :=
  mkPool (new_WorkQueue (Z.of_nat n)) n [] 0 [] [].

(** what a worker does with the outcome of a dequeue: it leaves the loop on
    EXIT and otherwise starts working on the item *)
Definition received (p : pool) (q : WorkQueue WorkItem) (w : WorkItem) : pool :=
  if is_exit w
  then mkPool q (getting p) (running p) (S (exited p)) (sent p) (finished p)
  else mkPool q (getting p) (w :: running p) (exited p) (sent p) (finished p).

Definition after_get (p : pool) (o : outcome (WorkQueue WorkItem) WorkItem) : option pool :=
  match o with
  | Ok w q => Some (received p q w)
  | Block _ q => Some (mkPool q (getting p) (running p) (exited p) (sent p) (finished p))
  | _ => None
  end.

Definition set_wq (p : pool) (q : WorkQueue WorkItem) : pool :=
  mkPool q (getting p) (running p) (exited p) (sent p) (finished p).

Inductive step : pool → pool → Prop :=
| step_send p w q :
    send_work w (wq p) = Ok tt q →
    step p (mkPool q (getting p) (running p) (exited p) (sent p ++ [w]) (finished p))
| step_get p p' n :
    getting p = S n →
    after_get (mkPool (wq p) n (running p) (exited p) (sent p) (finished p))
      (get_work (wq p)) = Some p' →
    step p p'
| step_resume p p' :
    (0 < woken (m_cond (wq p)))%nat →
    after_get p (dequeue_resume (wq p)) = Some p' →
    step p p'
| step_spurious p :
    step p (set_wq p (with_cond (cond_signal (m_cond (wq p))) (wq p)))
| step_finish p w r1 r2 :
    running p = r1 ++ w :: r2 →
    step p (mkPool (wq p) (S (getting p)) (r1 ++ r2) (exited p) (sent p) (finished p ++ [w]))
| step_wait_idle p q :
    state_after (wait_for_idle (wq p)) = Some q →
    step p (set_wq p q)
| step_wait_idle_resume p q :
    (0 < woken (m_idle_cond (wq p)))%nat →
    state_after (wait_for_idle_resume (wq p)) = Some q →
    step p (set_wq p q)
| step_idle_spurious p :
    step p (set_wq p (with_idle_cond (cond_signal (m_idle_cond (wq p))) (wq p))).

Definition exits (l : list WorkItem) : nat := length (filter is_exit l).

Lemma exits_app l k : exits (l ++ k) = (exits l + exits k)%nat.
Proof. unfold exits. by rewrite filter_app, length_app. Qed.

Lemma exits_all l : Forall (λ w, is_exit w = true) l → exits l = length l.
Proof.
  unfold exits. induction 1 as [|w l Hw _ IH]; [done|].
  rewrite filter_cons_True by (rewrite Hw; exact I). simpl. by f_equal.
Qed.

Lemma exits_none l : Forall (λ w, is_exit w = false) l → exits l = 0%nat.
Proof.
  unfold exits. induction 1 as [|w l Hw _ IH]; [done|].
  rewrite filter_cons_False by (rewrite Hw; by intros []). done.
Qed.

(** the bookkeeping invariant of a pool of [n] threads *)
Record inv (n : nat) (p : pool) : Prop := {
  inv_max : m_max_waiting (wq p) = Z.of_nat n;
  inv_waiting : m_waiting_workers (wq p) =
    Z.of_nat (asleep (m_cond (wq p)) + woken (m_cond (wq p)));
  inv_threads : (asleep (m_cond (wq p)) + woken (m_cond (wq p)) + getting p
    + length (running p) + exited p = n)%nat;
  inv_running : Forall (λ w, is_exit w = false) (running p ++ finished p);
  inv_sent : ∃ ex, length ex = exited p ∧ Forall (λ w, is_exit w = true) ex ∧
    sent p ≡ₚ m_queue (wq p) ++ running p ++ finished p ++ ex;
  (* every queued item has its own woken worker, unless nobody sleeps *)
  inv_signal : (length (m_queue (wq p)) ≤ woken (m_cond (wq p)))%nat
    ∨ asleep (m_cond (wq p)) = 0%nat;
  inv_idle_waiters : m_idle_waiters (wq p) =
    Z.of_nat (asleep (m_idle_cond (wq p)) + woken (m_idle_cond (wq p)))
}.

Definition init (n : nat) (p : pool) : Prop := p = start_thread_pool n.
Definition pool_reachable (n : nat) : pool → Prop := reachable (init n) step.

Ltac crush_pool :=
  repeat match goal with
  | c : condvar |- _ => destruct c
  | H : Some _ = Some _ |- _ => injection H; clear H; intros; subst
  | H : None = Some _ |- _ => discriminate H
  end; simpl in *.

Lemma send_inv n p w q :
  inv n p → send_work w (wq p) = Ok tt q →
  inv n (mkPool q (getting p) (running p) (exited p) (sent p ++ [w]) (finished p)).
Proof.
  destruct p as [[Q [a k] ic mx wt iw] g r e sn f].
  intros [Hm Hw Ht Hr (ex&He1&He2&Hs) Hsig Hi] H. simpl in *.
  unfold send_work, enqueue in H. inv_ok. simpl.
  destruct a as [|a]; simpl in *.
  - split; simpl; auto. exists ex. split_and!; auto. rewrite Hs. solve_Permutation.
  - split; simpl; auto; try lia.
    + exists ex. split_and!; auto. rewrite Hs. solve_Permutation.
    + rewrite length_app. simpl. lia.
Qed.

(** Both halves of a dequeue, from a state in which the calling worker is
    already counted in [m_waiting_workers] but is neither asleep nor woken. *)
Lemma loop_inv n p p' Q a k ic mx wt iw g r e sn f :
  p = mkPool (mkWQ Q (mkCond a k) ic mx wt iw) g r e sn f →
  mx = Z.of_nat n → wt = Z.of_nat (a + k + 1) →
  (a + k + 1 + g + length r + e = n)%nat →
  Forall (λ w, is_exit w = false) (r ++ f) →
  (∃ ex, length ex = e ∧ Forall (λ w, is_exit w = true) ex ∧ sn ≡ₚ Q ++ r ++ f ++ ex) →
  (length Q ≤ S k)%nat ∨ a = 0%nat →
  iw = Z.of_nat (asleep ic + woken ic) →
  after_get p (dequeue_loop (wq p)) = Some p' → inv n p'.
Proof.
  intros -> -> -> Ht Hr (ex&He1&He2&Hs) Hsig -> H.
  destruct Q as [|w Q]; simpl in *.
  - unfold dequeue_loop in H. simpl in H.
    destruct ic as [ia iwk]. unfold mbind, M_bind, get, when in H. simpl in H.
    destruct (bool_decide _ && bool_decide _); simpl in H; unfold cond_signal in H; simpl in H;
      [destruct ia; simpl in H|]; crush_pool; split; simpl; auto; try lia; eauto with lia.
  - unfold received in H. destruct (is_exit w) eqn:Ew; crush_pool; split; simpl; auto; try lia.
    + exists (w :: ex). simpl. split_and!; auto. rewrite Hs. solve_Permutation.
    + exists ex. split_and!; auto. rewrite Hs. solve_Permutation.
Qed.

Lemma get_inv n p p' g :
  inv n p → getting p = S g →
  after_get (mkPool (wq p) g (running p) (exited p) (sent p) (finished p))
    (get_work (wq p)) = Some p' → inv n p'.
Proof.
  destruct p as [[Q [a k] ic mx wt iw] g0 r e sn f].
  intros [Hm Hw Ht Hr Hs Hsig Hi] Hg H. simpl in *. subst.
  eapply (loop_inv _ (mkPool (mkWQ Q (mkCond a k) ic _ (Z.of_nat (a + k) + 1) _) g r e sn f));
    try done; try lia.
Qed.

Lemma resume_inv n p p' :
  inv n p → (0 < woken (m_cond (wq p)))%nat →
  after_get p (dequeue_resume (wq p)) = Some p' → inv n p'.
Proof.
  destruct p as [[Q [a k] ic mx wt iw] g0 r e sn f].
  intros [Hm Hw Ht Hr Hs Hsig Hi] Hk H. simpl in *. subst.
  destruct k as [|k]; [lia|].
  eapply (loop_inv _ (mkPool (mkWQ Q (mkCond a k) ic _ (Z.of_nat (a + S k)) _) g0 r e sn f));
    try done; try lia.
Qed.

Lemma idle_loop_state (q q' : WorkQueue WorkItem) :
  state_after (wait_for_idle_loop q) = Some q' →
  q' = if idle q then with_idle_waiters (m_idle_waiters q - 1) q
       else with_idle_cond (cond_sleep (m_idle_cond q)) q.
Proof.
  unfold wait_for_idle_loop, mbind, M_bind, get. destruct (idle q); simpl; congruence.
Qed.

Lemma idle_loop_Ok (q q' : WorkQueue WorkItem) :
  wait_for_idle_loop q = Ok tt q' → idle q = true ∧ m_queue q' = m_queue q.
Proof.
  unfold wait_for_idle_loop, mbind, M_bind, get. destruct (idle q); simpl; [|done].
  intros H. by inv_ok.
Qed.

Lemma step_inv n p p' : inv n p → step p p' → inv n p'.
Proof.
  intros Hinv Hstep. destruct Hstep as
    [p w q H|p p' g Hg H|p p' Hk H|p|p w r1 r2 Hr|p q H|p q Hk H|p].
  - eauto using send_inv.
  - eauto using get_inv.
  - eauto using resume_inv.
  - destruct p as [[Q [[|a] k] ic mx wt iw] g r e sn f], Hinv; simpl in *;
      split; simpl; auto; lia.
  - destruct p as [[Q [a k] ic mx wt iw] g r e sn f].
    destruct Hinv as [Hm Hw Ht Hf (ex&He1&He2&Hs) Hsig Hi]. simpl in *. subst r.
    rewrite length_app in Ht. simpl in Ht. split; simpl; auto.
    + rewrite length_app. lia.
    + eapply Permutation_Forall; [|exact Hf]. solve_Permutation.
    + exists ex. split_and!; auto. rewrite Hs. solve_Permutation.
  - destruct p as [[Q c [ia ik] mx wt iw] g r e sn f].
    apply idle_loop_state in H. destruct Hinv; simpl in *.
    destruct (idle _); subst q; split; simpl; auto; lia.
  - destruct p as [[Q c [ia ik] mx wt iw] g r e sn f].
    apply idle_loop_state in H. destruct Hinv; simpl in *.
    destruct (idle _); subst q; split; simpl in *; auto; lia.
  - destruct p as [[Q c [[|ia] ik] mx wt iw] g r e sn f], Hinv; simpl in *;
      split; simpl; auto; lia.
Qed.

Lemma init_inv n p : Z.of_nat n < 2 ^ 31 → init n p → inv n p.
Proof.
  intros Hn ->. split; simpl; auto.
  - rewrite i32_small by lia. apply u64_small. unfold is_u64. lia.
  - lia.
  - exists []. auto.
Qed.

Lemma reachable_inv n p : Z.of_nat n < 2 ^ 31 → pool_reachable n p → inv n p.
Proof.
  intros Hn. apply invariant_reachable; [intros; by apply init_inv|].
  intros; by eapply step_inv.
Qed.

(** C13 (safety).  [wait_for_idle] returns only when the pool is idle: at that
    moment the queue is empty, no worker is between [get_work] calls or busy
    with an item, and every item ever sent has been worked on to completion. *)
Theorem wait_for_idle_all_done n p q :
  Z.of_nat n < 2 ^ 31 → pool_reachable n p →
  wait_for_idle (wq p) = Ok tt q ∨ wait_for_idle_resume (wq p) = Ok tt q →
  running p = [] ∧ getting p = 0%nat ∧ m_queue q = [] ∧ sent p ≡ₚ finished p.
Proof.
  intros Hn Hr%reachable_inv H; [|done].
  assert (idle (wq p) = true ∧ m_queue q = m_queue (wq p)) as [Hi ->].
  { destruct H as [H|H]; by apply idle_loop_Ok in H. }
  unfold idle in Hi. apply andb_prop in Hi as [Hq Hw].
  apply bool_decide_eq_true in Hq, Hw. apply nil_length_inv in Hq.
  destruct Hr as [Hm Hwt Ht _ (ex&He1&He2&Hs) _ _].
  rewrite Hwt, Hm in Hw.
  assert (length (running p) = 0%nat ∧ getting p = 0%nat ∧ exited p = 0%nat)
    as (E1&E2&E3) by lia.
  apply nil_length_inv in E1. rewrite E3 in He1. apply nil_length_inv in He1. subst ex.
  rewrite Hq, E1 in Hs. simpl in Hs. rewrite app_nil_r in Hs. done.
Qed.

(** C12 (liveness).  No wake-up for work is lost: in every reachable state in
    which an item is queued and some thread of the pool has not exited, a
    thread is on its way to the queue (woken, about to call [get_work], or
    busy); the pool never sleeps on a non-empty queue. *)
Theorem no_lost_work n p :
  Z.of_nat n < 2 ^ 31 → pool_reachable n p →
  m_queue (wq p) ≠ [] → (exited p < n)%nat →
  (0 < woken (m_cond (wq p)) + getting p + length (running p))%nat.
Proof.
  intros Hn Hr%reachable_inv Hq Hx; [|done]. destruct Hr as [_ _ Ht _ _ Hsig _].
  assert (length (m_queue (wq p)) ≠ 0%nat) by (by intros ?%nil_length_inv).
  lia.
Qed.

(** C14 (termination).  [stop_thread_pool] can join every thread: once at least
    [n] EXIT items have been sent to a pool of [n] threads, a state in which no
    worker can move any more (none woken, none about to dequeue, none busy) is
    one in which all [n] threads have exited. *)
Theorem stop_thread_pool_joins n p :
  Z.of_nat n < 2 ^ 31 → pool_reachable n p →
  (n ≤ exits (sent p))%nat →
  woken (m_cond (wq p)) = 0%nat → getting p = 0%nat → running p = [] →
  exited p = n.
Proof.
  intros Hn Hr%reachable_inv Hex Hk Hg Hrun; [|done].
  destruct Hr as [_ _ Ht Hf (ex&He1&He2&Hs) Hsig _].
  rewrite Hk, Hg, Hrun in *. simpl in *.
  destruct Hsig as [HQ|Ha]; [|lia].
  destruct (m_queue (wq p)); [|simpl in HQ; lia]. simpl in Hs.
  assert (exits (sent p) = exited p); [|lia].
  unfold exits. rewrite Hs. fold (exits (finished p ++ ex)).
  by rewrite exits_app, exits_none, exits_all.
Qed.

(** ** Waiting for idleness with at most one waiter *)

Definition step1 (p p' : pool) : Prop := step p p' ∧ m_idle_waiters (wq p') ≤ 1.

Definition idle_inv (n : nat) (p : pool) : Prop :=
  inv n p ∧ m_idle_waiters (wq p) ≤ 1 ∧
  ((0 < asleep (m_idle_cond (wq p)))%nat → idle (wq p) = false).

Lemma idle_false_waiting (q : WorkQueue WorkItem) :
  m_waiting_workers q ≠ m_max_waiting q → idle q = false.
Proof. intros. unfold idle. rewrite (bool_decide_false (_ = m_max_waiting q)) by done. apply andb_false_r. Qed.

Lemma idle_false_queue (q : WorkQueue WorkItem) : m_queue q ≠ [] → idle q = false.
Proof.
  intros. unfold idle. rewrite bool_decide_false; [done|].
  by intros ?%nil_length_inv.
Qed.

(** A worker that goes to sleep on an idle queue has signalled the waiter. *)
Lemma loop_idle n p p' :
  inv n p' → m_idle_waiters (wq p) ≤ 1 →
  m_idle_waiters (wq p) =
    Z.of_nat (asleep (m_idle_cond (wq p)) + woken (m_idle_cond (wq p))) →
  after_get p (dequeue_loop (wq p)) = Some p' →
  (0 < asleep (m_idle_cond (wq p')))%nat → idle (wq p') = false.
Proof.
  intros Hinv' Hle Heq H Hs.
  destruct p as [[Q c [ia ik] mx wt iw] g r e sn f]. simpl in *.
  unfold dequeue_loop, mbind, M_bind, get in H. simpl in H.
  destruct Q as [|w Q]; simpl in H.
  - unfold when in H.
    destruct (bool_decide (wt = mx)) eqn:E1, (bool_decide (iw ≠ 0)) eqn:E2; simpl in H;
      crush_pool; unfold cond_signal in *; simpl in *.
    + destruct ia as [|[|ia]]; simpl in *; lia.
    + apply bool_decide_eq_false in E2. lia.
    + apply bool_decide_eq_false in E1. by apply idle_false_waiting.
    + apply bool_decide_eq_false in E1. by apply idle_false_waiting.
  - destruct Hinv' as [Hm Hw Ht _ _ _ _].
    unfold received in H. destruct (is_exit w); crush_pool;
      apply idle_false_waiting; simpl; lia.
Qed.

Lemma step1_inv n p p' : idle_inv n p → step1 p p' → idle_inv n p'.
Proof.
  intros (Hinv&Hle&Hid) [Hstep Hle'].
  pose proof (step_inv n p p' Hinv Hstep) as Hinv'. split; [done|]. split; [done|].
  destruct Hstep as
    [p w q H|p p' g Hg H|p p' Hk H|p|p w r1 r2 Hr|p q H|p q Hk H|p]; intros Hs.
  - simpl in *. apply idle_false_queue. unfold send_work, enqueue in H. inv_ok. simpl.
    intros E. by apply app_nil in E as [_ E].
  - eapply (loop_idle n (mkPool (with_waiting (m_waiting_workers (wq p) + 1) (wq p))
      g (running p) (exited p) (sent p) (finished p))); try done. apply Hinv.
  - eapply (loop_idle n (set_wq p (with_cond (cond_return (m_cond (wq p))) (wq p))));
      try done. apply Hinv.
  - exact (Hid Hs).
  - exact (Hid Hs).
  - apply idle_loop_state in H. subst q. simpl in *.
    change (idle (with_idle_waiters _ (wq p))) with (idle (wq p)) in *.
    destruct (idle (wq p)) eqn:E; simpl in *; [|exact E]. by rewrite Hid in E.
  - apply idle_loop_state in H. subst q. simpl in *.
    change (idle (with_idle_cond _ (wq p))) with (idle (wq p)) in *.
    destruct (idle (wq p)) eqn:E; simpl in *; [|exact E]. by rewrite Hid in E.
  - simpl in *. apply Hid. by destruct (m_idle_cond (wq p)) as [[|a] k]; simpl in *; [|lia].
Qed.

(** (liveness).  With at most one thread at a time in [wait_for_idle] (the
    library calls it under the [RegionManager] mutex) its wake-up is not lost:
    in every reachable state in which the waiter sleeps, the queue is not idle,
    so a worker has yet to come back and signal it. *)
Theorem no_lost_idle_wakeup n p :
  Z.of_nat n < 2 ^ 31 → reachable (init n) step1 p →
  (0 < asleep (m_idle_cond (wq p)))%nat → idle (wq p) = false.
Proof.
  intros Hn Hr. eapply (invariant_reachable (init n) step1 (idle_inv n)); [..|exact Hr].
  - intros s Hs. split; [by apply init_inv|]. unfold init in Hs. subst s. simpl. split; lia.
  - intros; by eapply step1_inv.
Qed.

(** ** Two waiters: [dequeue] signals [m_idle_cond], it does not broadcast *)

Definition busy_item : WorkItem := mkWork (Some 0%nat) EVICT.

Definition lost_waiter_state : pool :=
  mkPool (mkWQ [] (mkCond 1 0) (mkCond 1 0) 1 1 1) 0 [] 0 [busy_item] [busy_item].

(** (liveness).  Two threads in [wait_for_idle] on the same queue are not
    supported: a reachable state of a one-worker pool has an idle queue, every
    worker asleep, nobody woken, and one waiter still asleep. *)
Theorem second_idle_waiter_lost :
  pool_reachable 1 lost_waiter_state ∧ idle (wq lost_waiter_state) = true ∧
  (asleep (m_idle_cond (wq lost_waiter_state)) = 1 ∧
   woken (m_idle_cond (wq lost_waiter_state)) = 0 ∧
   woken (m_cond (wq lost_waiter_state)) = 0 ∧ getting lost_waiter_state = 0 ∧
   running lost_waiter_state = [])%nat.
Proof.
  split; [|done].
  eapply reach_step.
  2:{ eapply (step_wait_idle_resume
        (mkPool (mkWQ [] (mkCond 1 0) (mkCond 1 1) 1 1 2) 0 [] 0 [busy_item] [busy_item]));
      simpl; [lia|reflexivity]. }
  eapply reach_step.
  2:{ eapply (step_get (mkPool (mkWQ [] (mkCond 0 0) (mkCond 2 0) 1 0 2) 1 [] 0
        [busy_item] [busy_item])); reflexivity. }
  eapply reach_step.
  2:{ apply (step_finish (mkPool (mkWQ [] (mkCond 0 0) (mkCond 2 0) 1 0 2) 0 [busy_item] 0
        [busy_item] []) busy_item [] []). reflexivity. }
  eapply reach_step.
  2:{ eapply (step_wait_idle (mkPool (mkWQ [] (mkCond 0 0) (mkCond 1 0) 1 0 1) 0 [busy_item] 0
        [busy_item] [])). reflexivity. }
  eapply reach_step.
  2:{ eapply (step_wait_idle (mkPool (mkWQ [] (mkCond 0 0) (mkCond 0 0) 1 0 0) 0 [busy_item] 0
        [busy_item] [])). reflexivity. }
  eapply reach_step.
  2:{ eapply (step_get (mkPool (mkWQ [busy_item] (mkCond 0 0) (mkCond 0 0) 1 0 0) 1 [] 0
        [busy_item] [])); reflexivity. }
  eapply reach_step.
  2:{ eapply (step_send (start_thread_pool 1) busy_item). reflexivity. }
  by apply reach_init.
Qed.

(** ** Witnesses *)

(** one worker, one item sent, taken and finished, the worker back asleep *)
Definition drained : pool :=
  mkPool (mkWQ [] (mkCond 1 0) (mkCond 0 0) 1 1 0) 0 [] 0 [busy_item] [busy_item].

Lemma drained_reachable1 : reachable (init 1) step1 drained.
Proof.
  eapply reach_step.
  2:{ split; [|done]. eapply (step_get (mkPool (mkWQ [] (mkCond 0 0) (mkCond 0 0) 1 0 0) 1 [] 0
        [busy_item] [busy_item])); reflexivity. }
  eapply reach_step.
  2:{ split; [|done]. apply (step_finish (mkPool (mkWQ [] (mkCond 0 0) (mkCond 0 0) 1 0 0) 0
        [busy_item] 0 [busy_item] []) busy_item [] []). reflexivity. }
  eapply reach_step.
  2:{ split; [|done]. eapply (step_get (mkPool (mkWQ [busy_item] (mkCond 0 0) (mkCond 0 0) 1 0 0)
        1 [] 0 [busy_item] [])); reflexivity. }
  eapply reach_step.
  2:{ split; [|done]. eapply (step_send (start_thread_pool 1) busy_item). reflexivity. }
  by apply reach_init.
Qed.

Lemma step1_reachable n p : reachable (init n) step1 p → pool_reachable n p.
Proof. induction 1 as [|?? ? IH [? _]]; [by apply reach_init | by eapply reach_step]. Qed.

Lemma wait_for_idle_all_done_witness :
  running drained = [] ∧ getting drained = 0%nat ∧
  m_queue (wq drained) = [] ∧ sent drained ≡ₚ finished drained.
Proof.
  apply (wait_for_idle_all_done 1 drained (wq drained)).
  - lia.
  - apply step1_reachable, drained_reachable1.
  - left. reflexivity.
Defined.

Definition queued : pool :=
  mkPool (mkWQ [busy_item] (mkCond 0 0) (mkCond 0 0) 1 0 0) 1 [] 0 [busy_item] [].

Lemma queued_reachable1 : reachable (init 1) step1 queued.
Proof.
  eapply reach_step; [by apply reach_init|].
  split; [|done]. by eapply (step_send (start_thread_pool 1) busy_item).
Qed.

Lemma no_lost_work_witness :
  (0 < woken (m_cond (wq queued)) + getting queued + length (running queued))%nat.
Proof.
  apply (no_lost_work 1 queued); [lia | | discriminate | simpl; lia].
  apply step1_reachable, queued_reachable1.
Defined.

Definition stopped : pool :=
  mkPool (mkWQ [] (mkCond 0 0) (mkCond 0 0) 1 0 0) 0 [] 1 [exit_item] [].

Lemma stopped_reachable : pool_reachable 1 stopped.
Proof.
  eapply reach_step.
  2:{ eapply (step_resume (mkPool (mkWQ [exit_item] (mkCond 0 1) (mkCond 0 0) 1 1 0) 0 [] 0
        [exit_item] [])); simpl; [lia|reflexivity]. }
  eapply reach_step.
  2:{ eapply (step_send (mkPool (mkWQ [] (mkCond 1 0) (mkCond 0 0) 1 1 0) 0 [] 0 [] []) exit_item).
      reflexivity. }
  eapply reach_step.
  2:{ by eapply (step_get (start_thread_pool 1) _ 0). }
  by apply reach_init.
Qed.

Lemma stop_thread_pool_joins_witness : exited stopped = 1%nat.
Proof.
  apply (stop_thread_pool_joins 1 stopped);
    [lia | apply stopped_reachable | vm_compute; lia | reflexivity ..].
Defined.

Definition waiter_asleep : pool :=
  mkPool (mkWQ [] (mkCond 0 0) (mkCond 1 0) 1 0 1) 0 [busy_item] 0 [busy_item] [].

Lemma waiter_asleep_reachable1 : reachable (init 1) step1 waiter_asleep.
Proof.
  eapply reach_step.
  2:{ split; [|done]. eapply (step_wait_idle (mkPool (mkWQ [] (mkCond 0 0) (mkCond 0 0) 1 0 0) 0
        [busy_item] 0 [busy_item] [])). reflexivity. }
  eapply reach_step; [apply queued_reachable1|].
  split; [|done]. by eapply (step_get queued _ 0).
Qed.

Lemma no_lost_idle_wakeup_witness : idle (wq waiter_asleep) = false.
Proof.
  apply (no_lost_idle_wakeup 1 waiter_asleep); [lia | apply waiter_asleep_reachable1 | simpl; lia].
Defined.
End Pool.
