(* ===== verification/Store.v ===== *)
(** * Backing stores (src/src/umap/store/Store.{hpp,cpp}, StoreFile.{h,cpp})

    [Store] is the abstract class of the sources: two virtual methods over a
    buffer and an offset.  [PageStore] states what the rest of the library
    expects of an implementation (page-granular reads and writes that behave
    like an array of pages), and the [StoreFile] section shows that a store
    over one file keeps that promise.  [pread] and [pwrite] are operating-system
    code: they are operations of the class [FileOps], with the documented
    behaviour of POSIX regular files as the laws [FileLaws]. *)

From stdpp Require Import base list numbers strings gmap.
From Stdlib Require Import Strings.Byte.
From S2P Require Import Prelude.
Local Open Scope Z_scope.

Abbreviation bytes := (list byte).

(** ** The interface *)

(** [read_from_store nb off] gives the returned count and the bytes that were
    placed at the front of the caller's buffer. *)
Class Store (S : Type) := {
  read_from_store : nat → Z → M S (Z * bytes);
  write_to_store : bytes → Z → M S Z
}.

Definition page_offset (psize cap off : Z) : Prop :=
  0 ≤ off ∧ off + psize ≤ cap ∧ off mod psize = 0.

#[export] Instance page_offset_dec psize cap off : Decision (page_offset psize cap off).
Proof. unfold page_offset. apply _. Defined.

(** What a client that reads and writes whole pages of [psize] bytes below
    [cap] may rely on: [page_of s off] is the page stored at [off]. *)
Class PageStore (S : Type) `{Store S} (psize : nat) (cap : Z) := {
  store_ok : S → Prop;
  page_of : S → Z → bytes;
  page_of_length s off :
    store_ok s → page_offset (Z.of_nat psize) cap off → length (page_of s off) = psize;
  read_page s off :
    store_ok s → page_offset (Z.of_nat psize) cap off →
    ∃ s', read_from_store psize off s = Ok (Z.of_nat psize, page_of s off) s' ∧
      store_ok s' ∧
      ∀ o, page_offset (Z.of_nat psize) cap o → page_of s' o = page_of s o;
  write_page s off buf :
    store_ok s → page_offset (Z.of_nat psize) cap off → length buf = psize →
    ∃ s', write_to_store buf off s = Ok (Z.of_nat psize) s' ∧
      store_ok s' ∧
      ∀ o, page_offset (Z.of_nat psize) cap o →
        page_of s' o = if decide (o = off) then buf else page_of s o
}.

Section PageStoreLemmas.
Context {S : Type} {ST : Store S} (psize : nat) (cap : Z) {PS : @PageStore S ST psize cap}.

(** writes to other pages leave a page alone *)
Lemma page_store_others others s off :
  store_ok s → page_offset (Z.of_nat psize) cap off →
  Forall (λ '(o, b), page_offset (Z.of_nat psize) cap o ∧ o ≠ off ∧ length b = psize) others →
  ∃ s', for_each others (λ '(o, b), write_to_store b o ;; mret tt) s = Ok tt s' ∧
    store_ok s' ∧ page_of s' off = page_of s off.
Proof.
  intros Hok Hoff Hoth. revert s Hok.
  induction Hoth as [|[o b] others (Ho&Hne&Hlb) _ IH]; intros s Hok; [by exists s|].
  destruct (write_page s o b Hok Ho Hlb) as (s2&E2&Hok2&Hpg2).
  destruct (IH s2 Hok2) as (s3&E3&Hok3&Hpg3). exists s3. split; [|split; [done|]].
  - rewrite <- E3. cbn. unfold mbind, M_bind. by rewrite E2.
  - rewrite Hpg3, Hpg2 by done. by rewrite decide_False.
Qed.

Lemma page_store_write_read s off buf others :
  store_ok s → page_offset (Z.of_nat psize) cap off → length buf = psize →
  Forall (λ '(o, b), page_offset (Z.of_nat psize) cap o ∧ o ≠ off ∧ length b = psize) others →
  ∃ s', (write_to_store buf off ;;
         for_each others (λ '(o, b), write_to_store b o ;; mret tt) ;;
         read_from_store psize off) s = Ok (Z.of_nat psize, buf) s' ∧ store_ok s'.
Proof.
  intros Hok Hoff Hlen Hoth.
  destruct (write_page s off buf Hok Hoff Hlen) as (s1&E1&Hok1&Hpg1).
  destruct (page_store_others others s1 off Hok1 Hoff Hoth) as (s2&E2&Hok2&Hpg2).
  destruct (read_page s2 off Hok2 Hoff) as (s3&E3&Hok3&_).
  exists s3. split; [|done]. erewrite bind_run by exact E1. erewrite bind_run by exact E2.
  rewrite E3, Hpg2, Hpg1 by done. by rewrite decide_True.
Qed.
End PageStoreLemmas.

(** ** Files *)

(** [buf] written at [off] into a file with contents [l]; a gap is zero *)
Definition splice (off : nat) (buf l : bytes) : bytes :=
  take off l ++ replicate (off - length l) x00 ++ buf ++ drop (off + length buf) l.

Class FileOps (F : Type) := {
  pread : F → Z → nat → Z → option bytes;              (* [None] is -1 *)
  pwrite : F → Z → bytes → Z → option nat * F
}.

(** [contents f fd] is the file open for reading and writing behind [fd]. *)
Class FileLaws (F : Type) `{FileOps F} := {
  contents : F → Z → option bytes;
  pread_law f fd nb off l :
    contents f fd = Some l → 0 ≤ off →
    pread f fd nb off = Some (take nb (drop (Z.to_nat off) l));
  pwrite_law f fd buf off l :
    contents f fd = Some l → 0 ≤ off →
    ∃ f', pwrite f fd buf off = (Some (length buf), f') ∧
      contents f' fd = Some (splice (Z.to_nat off) buf l) ∧
      ∀ fd', fd' ≠ fd → contents f' fd' = contents f fd'
}.

(** ** Facts about [splice] *)

Lemma length_splice off buf l :
  length (splice off buf l) = Nat.max (length l) (off + length buf).
Proof.
  unfold splice. rewrite !length_app, length_take, length_replicate, length_drop. lia.
Qed.

Lemma splice_read_same off buf l :
  (off ≤ length l)%nat → take (length buf) (drop off (splice off buf l)) = buf.
Proof.
  intros H. unfold splice. replace (off - length l)%nat with 0%nat by lia. simpl.
  rewrite drop_app_length' by (rewrite length_take; lia).
  by rewrite take_app_length.
Qed.

Lemma splice_lookup off buf l i :
  (off + length buf ≤ length l)%nat →
  splice off buf l !! i =
    if decide (off ≤ i < off + length buf)%nat then buf !! (i - off)%nat else l !! i.
Proof.
  intros H. unfold splice. replace (off - length l)%nat with 0%nat by lia. simpl.
  case_decide as Hi.
  - rewrite lookup_app_r; rewrite length_take_le; try lia.
    rewrite lookup_app_l by lia. done.
  - destruct (decide (i < off)%nat).
    + rewrite lookup_app_l by (rewrite length_take; lia). by rewrite lookup_take_lt.
    + rewrite lookup_app_r by (rewrite length_take; lia). rewrite length_take_le by lia.
      rewrite lookup_app_r by lia. rewrite lookup_drop. f_equal. lia.
Qed.

(** A page-sized write leaves every other page as it was. *)
Lemma splice_read_other psz off o (buf l : bytes) :
  length buf = psz → (off + psz ≤ length l)%nat →
  (o + psz ≤ off ∨ off + psz ≤ o)%nat →
  take psz (drop o (splice off buf l)) = take psz (drop o l).
Proof.
  intros Hb Hl Hd. apply list_eq. intros i.
  destruct (decide (i < psz)%nat) as [Hi|Hi].
  - rewrite !lookup_take_lt, !lookup_drop, splice_lookup by lia.
    rewrite decide_False by lia. done.
  - rewrite !lookup_take_ge; by lia || done.
Qed.

(** distinct page offsets are at least a page apart *)
Lemma page_offset_apart psize cap o o' :
  0 < psize → page_offset psize cap o → page_offset psize cap o' → o ≠ o' →
  o + psize ≤ o' ∨ o' + psize ≤ o.
Proof.
  intros Hp (H1&_&H2) (H3&_&H4) Hne.
  apply Z.mod_divide in H2 as [k Hk]; [|lia]. apply Z.mod_divide in H4 as [k' Hk']; [|lia].
  subst. assert (k ≠ k') by congruence. nia.
Qed.

(** ** [StoreFile]: a store over one file descriptor *)

Record StoreFile := mkStoreFile {
  sf_region : Z;
  sf_rsize : Z;
  sf_alignsize : Z;
  sf_fd : Z
}.

(** [Store::make_store] *)
Definition make_store (region rsize alignsize fd : Z) : StoreFile :=
  mkStoreFile region rsize alignsize fd.

Section StoreFile.
Context {F : Type} `{FileOps F}.

(** [size_t rval = pread(...)]: -1 becomes the largest [size_t], which is
    what the comparison with -1 tests *)
Definition rval_of (r : option nat) : Z :=
  match r with Some n => Z.of_nat n | None => u64 (-1) end.

Definition sf_read_from_store (st : StoreFile) (nb : nat) (off : Z) : M F (Z * bytes) :=
  f ← get;
  let r := pread f (sf_fd st) nb off in
  let rval := rval_of (length <$> r) in
  if bool_decide (rval = u64 (-1)) then throw "pread: Failed"
  else mret (rval, default [] r).

Definition sf_write_to_store (st : StoreFile) (buf : bytes) (off : Z) : M F Z :=
  f ← get;
  let '(r, f') := pwrite f (sf_fd st) buf off in
  modify (λ _, f') ;;
  let rval := rval_of r in
  if bool_decide (rval = u64 (-1)) then throw "pwrite: Failed"
  else mret rval.

Definition StoreFile_Store (st : StoreFile) : Store F :=
  {| read_from_store := sf_read_from_store st;
     write_to_store := sf_write_to_store st |}.

Context `{!FileLaws F}.

Lemma sf_read_ok st nb off f l :
  contents f (sf_fd st) = Some l → 0 ≤ off → Z.of_nat nb < 2 ^ 63 →
  sf_read_from_store st nb off f =
    Ok (Z.of_nat (length (take nb (drop (Z.to_nat off) l))),
        take nb (drop (Z.to_nat off) l)) f.
Proof.
  intros Hc Ho Hn. unfold sf_read_from_store, get, mbind, M_bind.
  rewrite (pread_law f _ nb off l Hc Ho).
  rewrite fmap_Some_2 with (x := take nb (drop (Z.to_nat off) l)) by done. simpl.
  rewrite bool_decide_false; [done|].
  rewrite length_take. change (u64 (-1)) with (2 ^ 64 - 1). lia.
Qed.

Lemma sf_write_ok st buf off f l :
  contents f (sf_fd st) = Some l → 0 ≤ off → Z.of_nat (length buf) < 2 ^ 63 →
  ∃ f', sf_write_to_store st buf off f = Ok (Z.of_nat (length buf)) f' ∧
    contents f' (sf_fd st) = Some (splice (Z.to_nat off) buf l) ∧
    ∀ fd', fd' ≠ sf_fd st → contents f' fd' = contents f fd'.
Proof.
  intros Hc Ho Hn. destruct (pwrite_law f _ buf off l Hc Ho) as (f'&E&Hf&Hother).
  exists f'. split; [|done]. unfold sf_write_to_store, get, mbind, M_bind, modify.
  rewrite E. simpl. rewrite bool_decide_false; [done|].
  change (u64 (-1)) with (2 ^ 64 - 1). lia.
Qed.

(** A [StoreFile] over a file of at least [cap] bytes is a
    page store: reading a page returns the full count and the stored page,
    writing a page replaces exactly that page. *)
#[refine] Definition StoreFile_PageStore (st : StoreFile) (psize : nat) (cap : Z)
    (Hp : (0 < psize)%nat) (Hb : Z.of_nat psize < 2 ^ 63) :
    @PageStore F (StoreFile_Store st) psize cap :=
  {| store_ok f := ∃ l, contents f (sf_fd st) = Some l ∧ cap ≤ Z.of_nat (length l);
     page_of f off :=
       match contents f (sf_fd st) with
       | Some l => take psize (drop (Z.to_nat off) l)
       | None => []
       end |}.
Proof.
  - intros f off (l&->&Hl) (H1&H2&_). rewrite length_take, length_drop. lia.
  - intros f off (l&Hc&Hl) (H1&H2&_). exists f. split; [|eauto].
    simpl. rewrite (sf_read_ok st psize off f l) by (done || lia).
    rewrite Hc. do 2 f_equal. rewrite length_take, length_drop. lia.
  - intros f off buf (l&Hc&Hl) Hoff Hlen. destruct Hoff as (H1&H2&H3).
    destruct (sf_write_ok st buf off f l Hc H1) as (f'&E&Hf&_); [lia|].
    exists f'. simpl. rewrite E, Hlen. split_and!; [done| |].
    + exists (splice (Z.to_nat off) buf l). split; [done|]. rewrite length_splice. lia.
    + intros o Ho. rewrite Hf, Hc. case_decide as Eo.
      * subst o. rewrite <- Hlen at 1. apply splice_read_same. lia.
      * apply splice_read_other; [done|lia|]. destruct Ho as (Ho1&Ho2&Ho3).
        destruct (page_offset_apart (Z.of_nat psize) cap o off); try lia; done.
Defined.
End StoreFile.

(** ** A concrete file system: descriptors to contents *)

Definition memfs : Type := gmap Z bytes.

#[export] Instance memfs_ops : FileOps memfs := {|
  pread f fd nb off := (λ l, take nb (drop (Z.to_nat off) l)) <$> (f : gmap Z bytes) !! fd;
  pwrite f fd buf off :=
    match (f : gmap Z bytes) !! fd with
    | Some l => (Some (length buf), <[fd := splice (Z.to_nat off) buf l]> (f : gmap Z bytes))
    | None => (None, f)
    end
|}.

#[export, refine] Instance memfs_laws : FileLaws memfs := {|
  contents f fd := (f : gmap Z bytes) !! fd
|}.
Proof.
  - intros f fd nb off l Hc _. simpl. by rewrite Hc.
  - intros f fd buf off l Hc _. simpl. rewrite Hc. eexists. split_and!; [done| |].
    + unfold memfs in *. by rewrite lookup_insert_eq.
    + intros fd' Hne. unfold memfs in *. by rewrite lookup_insert_ne.
Defined.

Section StoreFileProps.
Context {F : Type} `{FileLaws F}.

(** (roundtrip).  A page written through a [StoreFile] is the page read
    back, whatever other pages are written in between. *)
Theorem storefile_write_read st psize cap off buf others f :
  (0 < psize)%nat → Z.of_nat psize < 2 ^ 63 →
  (∃ l, contents f (sf_fd st) = Some l ∧ cap ≤ Z.of_nat (length l)) →
  page_offset (Z.of_nat psize) cap off → length buf = psize →
  Forall (λ '(o, b), page_offset (Z.of_nat psize) cap o ∧ o ≠ off ∧ length b = psize) others →
  ∃ f', (sf_write_to_store st buf off ;;
         for_each others (λ '(o, b), sf_write_to_store st b o ;; mret tt) ;;
         sf_read_from_store st psize off) f = Ok (Z.of_nat psize, buf) f'.
Proof.
  intros Hp Hb Hok Hoff Hlen Hoth.
  destruct (page_store_write_read psize cap (PS := StoreFile_PageStore st psize cap Hp Hb)
    f off buf others Hok Hoff Hlen Hoth) as (f'&E&_). by exists f'.
Qed.

(** (error).  [read_from_store] reports a request that runs past the end
    of the file only through its count: it returns fewer bytes than asked
    for, without an exception, and the rest of the caller's buffer is left
    alone. *)
Theorem storefile_short_read st nb off f l :
  contents f (sf_fd st) = Some l → 0 ≤ off ≤ Z.of_nat (length l) → Z.of_nat nb < 2 ^ 63 →
  Z.of_nat (length l) < off + Z.of_nat nb →
  ∃ data, sf_read_from_store st nb off f = Ok (Z.of_nat (length l) - off, data) f ∧
    (length data < nb)%nat ∧
    ∀ buf, length buf = nb →
      drop (length data) (overwrite data buf) = drop (length data) buf.
Proof.
  intros Hc Ho Hn Hs. exists (take nb (drop (Z.to_nat off) l)).
  rewrite (sf_read_ok st nb off f l) by (done || lia). split_and!.
  - do 2 f_equal. rewrite length_take, length_drop. lia.
  - rewrite length_take, length_drop. lia.
  - intros buf Hbuf. unfold overwrite. by rewrite drop_app_length.
Qed.
End StoreFileProps.

(** ** Witnesses *)

Definition demo_store : StoreFile := make_store 0 8 4 7.
Definition demo_file : bytes := [x01; x02; x03; x04; x05; x06; x07; x08].
Definition demo_fs : memfs := {[ 7 := demo_file ]}.

Lemma storefile_write_read_witness :
  ∃ f', (sf_write_to_store demo_store [x0a; x0b; x0c; x0d] 4 ;;
         for_each [(0, [x10; x11; x12; x13])]
           (λ '(o, b), sf_write_to_store demo_store b o ;; mret tt) ;;
         sf_read_from_store demo_store 4 4) demo_fs = Ok (4, [x0a; x0b; x0c; x0d]) f'.
Proof.
  apply (storefile_write_read demo_store 4 8 4 [x0a; x0b; x0c; x0d]
           [(0, [x10; x11; x12; x13])] demo_fs).
  - lia.
  - lia.
  - exists demo_file. split; [reflexivity | simpl; lia].
  - decide_now.
  - reflexivity.
  - constructor; [|constructor]. decide_now.
Defined.

Lemma storefile_short_read_witness :
  ∃ data, sf_read_from_store demo_store 4 6 demo_fs = Ok (8 - 6, data) demo_fs ∧
    (length data < 4)%nat ∧
    ∀ buf, length buf = 4%nat →
      drop (length data) (overwrite data buf) = drop (length data) buf.
Proof.
  apply (storefile_short_read demo_store 4 6 demo_fs demo_file);
    [reflexivity | simpl; lia ..].
Defined.
