(* ===== verification/RegionDescriptor.v ===== *)
(** * Region descriptors (src/src/umap/RegionDescriptor.hpp)

    A mapped region: its extent, the underlying [mmap]ed extent, its store and
    the set of page descriptors that currently hold one of its pages. *)

From stdpp Require Import base list numbers gmap.
From S2P Require Import Prelude.
Local Open Scope Z_scope.

Record RegionDescriptor := mkRD {
  m_umap_region : Z;
  m_umap_region_size : Z;
  m_mmap_region : Z;
  m_mmap_region_size : Z;
  m_store : nat;                      (* Store* *)
  m_active_pages : gset nat           (* unordered_set<PageDescriptor*> *)
}.

(** the constructor *)
Definition new_RegionDescriptor (umap_region umap_size mmap_region mmap_size : Z)
    (store : nat) : RegionDescriptor :=
  mkRD umap_region umap_size mmap_region mmap_size store ∅.

Definition with_active (s : gset nat) (rd : RegionDescriptor) : RegionDescriptor :=
  mkRD (m_umap_region rd) (m_umap_region_size rd) (m_mmap_region rd)
    (m_mmap_region_size rd) (m_store rd) s.

Definition size (rd : RegionDescriptor) : Z := m_umap_region_size rd.
Definition start (rd : RegionDescriptor) : Z := m_umap_region rd.
Definition end_ (rd : RegionDescriptor) : Z := start rd + size rd.
Definition count (rd : RegionDescriptor) : nat := base.size (m_active_pages rd).

(** [store_offset] asserts that the address lies in the region; [None] is a
    failed assertion *)
Definition store_offset (rd : RegionDescriptor) (addr : Z) : option Z :=
  if bool_decide (start rd ≤ addr ∧ addr < end_ rd) then Some (u64 (addr - start rd)) else None.

Definition insert_page_descriptor (pd : nat) (rd : RegionDescriptor) : RegionDescriptor :=
  with_active ({[pd]} ∪ m_active_pages rd) rd.

Definition erase_page_descriptor (pd : nat) (rd : RegionDescriptor) : RegionDescriptor :=
  with_active (m_active_pages rd ∖ {[pd]}) rd.

Definition contains (rd : RegionDescriptor) (addr : Z) : Prop :=
  start rd ≤ addr < end_ rd.

#[export] Instance contains_dec rd addr : Decision (contains rd addr).
Proof. unfold contains. apply _. Defined.

Lemma store_offset_in rd addr :
  contains rd addr → 0 ≤ start rd → end_ rd ≤ 2 ^ 64 →
  store_offset rd addr = Some (addr - start rd).
Proof.
  unfold contains, store_offset. intros. rewrite bool_decide_true by lia.
  f_equal. apply u64_small. unfold is_u64. lia.
Qed.

(** the end of a region is not an address of it: [store_offset(end())] fails *)
Lemma store_offset_end rd : store_offset rd (end_ rd) = None.
Proof. unfold store_offset. rewrite bool_decide_false; [done|lia]. Qed.
