(* ===== verification/RegionMap.v ===== *)
(** * The active regions (the map part of src/src/umap/RegionManager.{hpp,cpp})

    [std::map<void*, RegionDescriptor*>] is a list of pairs sorted by key; an
    iterator is the key it points to and [end()] is [None].  The region
    descriptors live in a heap indexed by pointer.  [containing_region] is the
    lookup every page fault goes through, with the cached iterator
    [m_last_iter]; it is proved to agree with a linear search. *)

From stdpp Require Import base list numbers strings gmap.
From S2P Require Import Prelude RegionDescriptor.
Local Open Scope Z_scope.

Abbreviation region_list := (list (Z * nat)).

(** ** [std::map] operations *)

Fixpoint map_find (m : region_list) (k : Z) : option nat :=
  match m with
  | [] => None
  | (k', r) :: m => if bool_decide (k' = k) then Some r else map_find m k
  end.

(** [m[k] = r] *)
Fixpoint map_assign (m : region_list) (k : Z) (r : nat) : region_list :=
  match m with
  | [] => [(k, r)]
  | (k', r') :: m' =>
      if bool_decide (k < k') then (k, r) :: m
      else if bool_decide (k = k') then (k, r) :: m'
      else (k', r') :: map_assign m' k r
  end.

Fixpoint map_erase (m : region_list) (k : Z) : region_list :=
  match m with
  | [] => []
  | (k', r) :: m => if bool_decide (k' = k) then m else (k', r) :: map_erase m k
  end.

(** [--upper_bound(k)]: the last entry whose key is not greater than [k],
    [None] when [upper_bound(k) == begin()] *)
Fixpoint before_upper_bound (m : region_list) (k : Z) : option (Z * nat) :=
  match m with
  | [] => None
  | (k', r) :: m =>
      if bool_decide (k < k') then None
      else match before_upper_bound m k with
           | Some e => Some e
           | None => Some (k', r)
           end
  end.

Record RegionMap := mkRM {
  m_active_regions : region_list;
  m_last_iter : option Z;
  heap : gmap nat RegionDescriptor
}.

Definition with_regions (l : region_list) (rm : RegionMap) : RegionMap :=
  mkRM l (m_last_iter rm) (heap rm).
Definition with_last_iter (i : option Z) (rm : RegionMap) : RegionMap :=
  mkRM (m_active_regions rm) i (heap rm).
Definition with_heap (h : gmap nat RegionDescriptor) (rm : RegionMap) : RegionMap :=
  mkRM (m_active_regions rm) (m_last_iter rm) h.

(** the object an iterator's second component points to; a key that is not in
    the map, or a descriptor that was deleted, is a dangling dereference *)
Definition deref (rm : RegionMap) (k : Z) : option (nat * RegionDescriptor) :=
  r ← map_find (m_active_regions rm) k; rd ← heap rm !! r; Some (r, rd).

Definition get_num_active_regions (rm : RegionMap) : Z :=
  Z.of_nat (length (m_active_regions rm)).

(** ** [RegionManager::containing_region] *)

(** the search below the cache *)
Definition search_region (vaddr : Z) : M RegionMap (option nat) :=
  rm ← get;
  match before_upper_bound (m_active_regions rm) vaddr with
  | None => mret None
  | Some (k, r) =>
      match heap rm !! r with
      | None => undefined "dangling region descriptor"
      | Some rd =>
          if bool_decide (start rd ≤ vaddr) && bool_decide (vaddr < end_ rd)
          then modify (with_last_iter (Some k)) ;; mret (Some r)
          else mret None
      end
  end.

Definition containing_region (vaddr : Z) : M RegionMap (option nat) :=
  rm ← get;
  match m_last_iter rm with
  | Some k =>
      match deref rm k with
      | None => undefined "dangling map iterator"
      | Some (r, rd) =>
          if bool_decide (start rd ≤ vaddr) && bool_decide (vaddr < end_ rd)
          then mret (Some r)
          else search_region vaddr
      end
  | None => search_region vaddr
  end.

(** The map part of [addRegion]: a new descriptor, entered under its start
    address; the cached iterator is reset. *)
Definition add_region_entry (loc : nat) (store : nat)
    (region region_size mmap_region mmap_region_size : Z) : M RegionMap unit :=
  modify (λ rm, with_heap (<[loc := new_RegionDescriptor region region_size
                                      mmap_region mmap_region_size store]> (heap rm)) rm) ;;
  modify (λ rm, with_regions (map_assign (m_active_regions rm) region loc) rm) ;;
  modify (with_last_iter None).

(** The map part of [removeRegion]: the descriptor is deleted, its entry
    erased and the cached iterator reset. *)
Definition remove_region_entry (region : Z) : M RegionMap unit :=
  rm ← get;
  match map_find (m_active_regions rm) region with
  | None => throw "umap fault monitor not found"
  | Some r =>
      modify (λ rm, with_heap (delete r (heap rm)) rm) ;;
      modify (λ rm, with_regions (map_erase (m_active_regions rm) region) rm) ;;
      modify (with_last_iter None)
  end.

(** ** Reference: linear search *)

Definition holds_addr (h : gmap nat RegionDescriptor) (vaddr : Z) (e : Z * nat) : bool :=
  match h !! e.2 with
  | Some rd => bool_decide (contains rd vaddr)
  | None => false
  end.

Definition region_at (rm : RegionMap) (vaddr : Z) : option nat :=
  snd <$> head (filter (holds_addr (heap rm) vaddr) (m_active_regions rm)).

(** ** Well-formedness *)

(** entries are sorted, each points to a live descriptor stored under its own
    start address, and a region ends before the next one starts *)
Inductive wf_list (h : gmap nat RegionDescriptor) : region_list → Prop :=
| wf_nil : wf_list h []
| wf_cons k r rd l :
    h !! r = Some rd → start rd = k → 0 < size rd →
    (∀ k' r', (k', r') ∈ l → k + size rd ≤ k' ∧ r' ≠ r) →
    wf_list h l → wf_list h ((k, r) :: l).

Record rm_wf (rm : RegionMap) : Prop := {
  wf_entries : wf_list (heap rm) (m_active_regions rm);
  wf_last : ∀ k, m_last_iter rm = Some k → is_Some (map_find (m_active_regions rm) k)
}.

Section lemmas.
Implicit Types (h : gmap nat RegionDescriptor) (l : region_list).

Lemma map_find_elem l k r : map_find l k = Some r → (k, r) ∈ l.
Proof.
  induction l as [|[k' r'] l IH]; simpl; [done|].
  case_bool_decide; intros; simplify_eq; set_solver.
Qed.

Lemma wf_elem h l k r : wf_list h l → (k, r) ∈ l →
  ∃ rd, h !! r = Some rd ∧ start rd = k ∧ 0 < size rd.
Proof.
  induction 1 as [|k' r' rd l Hr Hs Hp Hd _ IH]; [by intros ?%elem_of_nil|].
  intros [E|E]%elem_of_cons; [|eauto]. simplify_eq. eauto.
Qed.

Lemma wf_find h l k r : wf_list h l → (k, r) ∈ l → map_find l k = Some r.
Proof.
  induction 1 as [|k' r' rd l Hr Hs Hp Hd _ IH]; [by intros ?%elem_of_nil|].
  intros [E|E]%elem_of_cons; simpl; simplify_eq.
  - by rewrite bool_decide_true.
  - destruct (Hd _ _ E). rewrite bool_decide_false by lia. eauto.
Qed.

Lemma before_ub_elem l k e : before_upper_bound l k = Some e → e ∈ l ∧ e.1 ≤ k.
Proof.
  induction l as [|[k' r'] l IH]; simpl; [done|].
  case_bool_decide; [done|]. destruct (before_upper_bound l k); intros; simplify_eq.
  - destruct IH; set_solver.
  - simpl. split; [set_solver|lia].
Qed.

(** the region that contains an address is the one found below the bound *)
Lemma before_ub_contains h l k r rd v :
  wf_list h l → (k, r) ∈ l → h !! r = Some rd → contains rd v →
  before_upper_bound l v = Some (k, r).
Proof.
  induction 1 as [|k' r' rd' l Hr Hs Hp Hd Hwf IH]; [by intros ?%elem_of_nil|].
  intros [E|E]%elem_of_cons Hrd Hc; simpl.
  - simplify_eq. unfold contains, end_ in Hc. rewrite bool_decide_false by lia.
    destruct (before_upper_bound l v) as [[k2 r2]|] eqn:Eb; [|done].
    apply before_ub_elem in Eb as [He Hle]. simpl in *.
    destruct (Hd _ _ He). lia.
  - destruct (Hd _ _ E) as [Hk _]. rewrite IH by done.
    destruct (wf_elem h l k r Hwf E) as (rd2&E2&Hst&_). simplify_eq.
    unfold contains in Hc. rewrite bool_decide_false by lia. done.
Qed.

Lemma unique_container h l k r rd k' r' rd' v :
  wf_list h l → (k, r) ∈ l → (k', r') ∈ l → h !! r = Some rd → h !! r' = Some rd' →
  contains rd v → contains rd' v → k = k' ∧ r = r'.
Proof.
  intros Hwf H1 H2 E1 E2 C1 C2.
  pose proof (before_ub_contains h l k r rd v Hwf H1 E1 C1) as B1.
  pose proof (before_ub_contains h l k' r' rd' v Hwf H2 E2 C2) as B2.
  rewrite B1 in B2. by simplify_eq.
Qed.

Lemma region_at_Some rm v r :
  region_at rm v = Some r →
  ∃ k rd, (k, r) ∈ m_active_regions rm ∧ heap rm !! r = Some rd ∧ contains rd v.
Proof.
  unfold region_at. intros ([k r']&Hh&->)%fmap_Some.
  apply head_Some_elem_of, list_elem_of_filter in Hh as [Hh He].
  unfold holds_addr in Hh. simpl in Hh.
  destruct (heap rm !! r') as [rd|] eqn:E; [|done].
  exists k, rd. split_and!; [done|done|]. by apply bool_decide_unpack in Hh.
Qed.

Lemma region_at_spec rm v k r rd :
  rm_wf rm → (k, r) ∈ m_active_regions rm → heap rm !! r = Some rd → contains rd v →
  region_at rm v = Some r.
Proof.
  intros [Hwf _] He Hr Hc. unfold region_at.
  assert ((k, r) ∈ filter (holds_addr (heap rm) v) (m_active_regions rm)) as Hin.
  { apply list_elem_of_filter. split; [|done]. unfold holds_addr. simpl. rewrite Hr.
    by apply bool_decide_pack. }
  destruct (filter _ _) as [|[k' r'] fl] eqn:Ef; [by apply elem_of_nil in Hin|].
  simpl. f_equal.
  assert ((k', r') ∈ filter (holds_addr (heap rm) v) (m_active_regions rm)) as Hin'
    by (rewrite Ef; set_solver).
  apply list_elem_of_filter in Hin' as [Hh' He']. unfold holds_addr in Hh'. simpl in Hh'.
  destruct (heap rm !! r') as [rd'|] eqn:E'; [|done]. apply bool_decide_unpack in Hh'.
  symmetry. by eapply unique_container.
Qed.

Lemma region_at_None rm v :
  rm_wf rm →
  (∀ k r rd, (k, r) ∈ m_active_regions rm → heap rm !! r = Some rd → ¬ contains rd v) →
  region_at rm v = None.
Proof.
  intros Hwf Hn. destruct (region_at rm v) as [r|] eqn:E; [|done].
  apply region_at_Some in E as (k&rd&He&Hr&Hc). by destruct (Hn k r rd).
Qed.

Lemma search_region_spec rm v :
  rm_wf rm →
  ∃ i, search_region v rm = Ok (region_at rm v) (with_last_iter i rm) ∧
    (i = m_last_iter rm ∨ ∃ k, i = Some k ∧ is_Some (map_find (m_active_regions rm) k)).
Proof.
  intros Hwf. unfold search_region, get, mbind, M_bind.
  destruct (before_upper_bound (m_active_regions rm) v) as [[k r]|] eqn:Eb.
  - pose proof (before_ub_elem _ _ _ Eb) as [He _].
    destruct (wf_elem _ _ _ _ (wf_entries _ Hwf) He) as (rd&Hr&Hst&Hsz). rewrite Hr.
    destruct (bool_decide (start rd ≤ v) && bool_decide (v < end_ rd)) eqn:Ec.
    + apply andb_prop in Ec as [E1%bool_decide_eq_true E2%bool_decide_eq_true].
      erewrite region_at_spec by (done || by split). exists (Some k). split; [done|].
      right. exists k. split; [done|]. erewrite wf_find; [done|apply Hwf|done].
    + rewrite region_at_None; [|done|].
      { exists (m_last_iter rm). split; [|by left]. by destruct rm. }
      intros k' r' rd' He' Hr' Hc'.
      rewrite (before_ub_contains _ _ _ _ _ _ (wf_entries _ Hwf) He' Hr' Hc') in Eb.
      simplify_eq. unfold contains in Hc'.
      rewrite !bool_decide_true in Ec by lia. done.
  - rewrite region_at_None; [|done|].
    { exists (m_last_iter rm). split; [|by left]. by destruct rm. }
    intros k' r' rd' He' Hr' Hc'.
    by rewrite (before_ub_contains _ _ _ _ _ _ (wf_entries _ Hwf) He' Hr' Hc') in Eb.
Qed.

Lemma map_assign_elem l k r k' r' :
  (k', r') ∈ map_assign l k r → (k' = k ∧ r' = r) ∨ (k', r') ∈ l.
Proof.
  induction l as [|[k2 r2] l IH]; simpl; [set_solver|].
  repeat case_bool_decide; set_solver.
Qed.

Lemma map_erase_elem l k e : e ∈ map_erase l k → e ∈ l.
Proof.
  induction l as [|[k2 r2] l IH]; simpl; [done|]. case_bool_decide; set_solver.
Qed.

Lemma wf_heap_insert h l r rd :
  wf_list h l → (∀ k', (k', r) ∉ l) → wf_list (<[r := rd]> h) l.
Proof.
  induction 1 as [|k' r' rd' l Hr Hs Hp Hd _ IH]; intros Hn; econstructor; eauto.
  - rewrite lookup_insert_ne; [done|]. intros ->. apply (Hn k'). set_solver.
  - apply IH. intros k2 H2. apply (Hn k2). set_solver.
Qed.

Lemma wf_assign h l k r rd :
  wf_list h l → h !! r = Some rd → start rd = k → 0 < size rd →
  (∀ k' r' rd', (k', r') ∈ l → h !! r' = Some rd' →
     r' ≠ r ∧ (k + size rd ≤ k' ∨ k' + size rd' ≤ k)) →
  wf_list h (map_assign l k r).
Proof.
  induction 1 as [|k' r' rd' l Hr' Hs' Hp' Hd' Hwf IH]; intros Hr Hs Hp Hsep; simpl.
  - econstructor; eauto; [by intros ?? ?%elem_of_nil | constructor].
  - destruct (Hsep k' r' rd') as [Hne Hd]; [set_solver|done|].
    assert (∀ k2 r2, (k2, r2) ∈ l → k' + size rd' ≤ k2 ∧ r2 ≠ r') as Hd2 by done.
    case_bool_decide.
    + econstructor; eauto; [|econstructor; eauto].
      intros k2 r2 [E|E]%elem_of_cons; [simplify_eq; lia|].
      destruct (Hd2 _ _ E). destruct (wf_elem h l k2 r2 Hwf E) as (rd2&E2&_&_).
      destruct (Hsep k2 r2 rd2); [set_solver|done|]. lia.
    + rewrite bool_decide_false by lia. econstructor; eauto.
      * intros k2 r2 [[-> ->]|E]%map_assign_elem; [lia|]. by apply Hd2.
      * apply IH; try done. intros k2 r2 rd2 E. apply Hsep. set_solver.
Qed.

Lemma wf_erase h l k r :
  wf_list h l → map_find l k = Some r → wf_list (delete r h) (map_erase l k).
Proof.
  induction 1 as [|k' r' rd' l Hr' Hs' Hp' Hd' Hwf IH]; simpl; [done|].
  case_bool_decide as Ek; intros Hf.
  - simplify_eq. clear IH. induction Hwf as [|k2 r2 rd2 l Hr2 Hs2 Hp2 Hd2 Hwf IH]; [constructor|].
    assert (r2 ≠ r) by (eapply Hd', elem_of_cons; by left).
    econstructor; eauto.
    + by rewrite lookup_delete_ne.
    + apply IH. intros; apply Hd'. set_solver.
  - assert (r' ≠ r). { apply map_find_elem in Hf. intros ->. by destruct (Hd' _ _ Hf). }
    econstructor; eauto.
    + by rewrite lookup_delete_ne.
    + intros k2 r2 ?%map_erase_elem. eauto.
Qed.

Lemma containing_region_run rm vaddr :
  rm_wf rm →
  ∃ i, containing_region vaddr rm = Ok (region_at rm vaddr) (with_last_iter i rm) ∧
       rm_wf (with_last_iter i rm).
Proof.
  intros Hwf. destruct (search_region_spec rm vaddr Hwf) as (i&Es&Hi).
  assert (rm_wf (with_last_iter i rm)) as Hwf'.
  { split; [apply Hwf|]. simpl. intros k ->.
    destruct Hi as [Hi|(k'&?&?)]; [|by simplify_eq]. by apply Hwf. }
  unfold containing_region, get, mbind, M_bind.
  destruct (m_last_iter rm) as [k|] eqn:El; [|eauto].
  destruct (wf_last _ Hwf _ El) as [r Hr]. pose proof (map_find_elem _ _ _ Hr) as He.
  destruct (wf_elem _ _ _ _ (wf_entries _ Hwf) He) as (rd&Hrd&_&_).
  unfold deref. rewrite Hr. simpl. rewrite Hrd. simpl.
  destruct (bool_decide (start rd ≤ vaddr) && bool_decide (vaddr < end_ rd)) eqn:Ec; [|eauto].
  apply andb_prop in Ec as [E1%bool_decide_eq_true E2%bool_decide_eq_true].
  exists (m_last_iter rm). erewrite region_at_spec by (done || by split).
  destruct rm. simpl in *. by subst.
Qed.
End lemmas.

(** ** Properties *)

(** C8 (equivalence).  [containing_region], with its cached iterator and its
    [upper_bound] search, returns exactly the region a linear search over all
    active regions finds, never dereferences a stale iterator, and leaves the
    region map well-formed and its regions unchanged. *)
Theorem containing_region_correct rm vaddr :
  rm_wf rm →
  ∃ i, containing_region vaddr rm = Ok (region_at rm vaddr) (with_last_iter i rm) ∧
       rm_wf (with_last_iter i rm).
Proof.
  apply containing_region_run.
Qed.

(** (functional).  The address of a page fault is resolved to the unique
    active region that contains it, and to none when no region does. *)
Theorem containing_region_unique rm vaddr o rm' :
  rm_wf rm → containing_region vaddr rm = Ok o rm' →
  ∀ k r rd, (k, r) ∈ m_active_regions rm → heap rm !! r = Some rd →
    (contains rd vaddr ↔ o = Some r).
Proof.
  intros Hwf H k r rd He Hr.
  assert (o = region_at rm vaddr) as ->.
  { destruct (containing_region_run rm vaddr Hwf) as (i&E&_). congruence. }
  split; [intros; by eapply region_at_spec|].
  intros (k'&rd'&_&Hr'&Hc)%region_at_Some. by simplify_eq.
Qed.

(** C9 (invariant).  Adding a region that is disjoint from the active ones
    keeps the region map well-formed, and so does removing an active region:
    no entry points to a deleted descriptor and the cached iterator never
    dangles.  Removing an address that is not the start of an active region
    throws and changes nothing. *)
Theorem region_map_invariant rm :
  rm_wf rm →
  (∀ loc store a n ma mn,
     heap rm !! loc = None → 0 < n →
     (∀ k r rd, (k, r) ∈ m_active_regions rm → heap rm !! r = Some rd →
        a + n ≤ start rd ∨ end_ rd ≤ a) →
     ∃ rm', add_region_entry loc store a n ma mn rm = Ok tt rm' ∧ rm_wf rm' ∧
       map_find (m_active_regions rm') a = Some loc) ∧
  (∀ a, match map_find (m_active_regions rm) a with
        | Some _ => ∃ rm', remove_region_entry a rm = Ok tt rm' ∧ rm_wf rm'
        | None => is_throw (remove_region_entry a rm) = true ∧
                  state_after (remove_region_entry a rm) = Some rm
        end).
Proof.
  intros Hwf. pose proof (wf_entries _ Hwf) as Hl. split.
  - intros loc store a n ma mn Hloc Hn Hsep.
    eexists. split; [reflexivity|]. simpl.
    assert (∀ k', (k', loc) ∉ m_active_regions rm) as Hfresh.
    { intros k' He. destruct (wf_elem _ _ _ _ Hl He) as (?&?&_). congruence. }
    assert (wf_list (<[loc:=new_RegionDescriptor a n ma mn store]> (heap rm))
              (map_assign (m_active_regions rm) a loc)) as Hwf'.
    { eapply wf_assign; [by apply wf_heap_insert | apply lookup_insert_eq | done | done |].
      intros k' r' rd' He Hr'. assert (r' ≠ loc) by (intros ->; by eapply Hfresh).
      rewrite lookup_insert_ne in Hr' by done. split; [done|].
      destruct (wf_elem _ _ _ _ Hl He) as (rd2&?&Hst&_). simplify_eq.
      unfold end_ in Hsep. simpl. eauto. }
    split; [split; [done|]; by simpl|].
    eapply wf_find; [exact Hwf'|].
    clear -Hl. induction (m_active_regions rm) as [|[k r] l IH]; simpl; [set_solver|].
    inversion Hl; subst. repeat case_bool_decide; set_solver.
  - intros a. unfold remove_region_entry, get, mbind, M_bind.
    destruct (map_find (m_active_regions rm) a) as [r|] eqn:E; [|done].
    eexists. split; [reflexivity|]. split; simpl; [|done]. by apply wf_erase.
Qed.

(** ** Witnesses *)

Definition two_regions : RegionMap :=
  mkRM [(4096, 0%nat); (16384, 1%nat)] (Some 4096)
    {[ 0%nat := new_RegionDescriptor 4096 8192 4096 12288 0;
       1%nat := new_RegionDescriptor 16384 4096 16384 8192 1 ]}.

Lemma two_regions_wf : rm_wf two_regions.
Proof.
  split.
  - econstructor; [reflexivity|done|done| |econstructor; [reflexivity|done|done| |constructor]].
    + intros k r [E|E%elem_of_nil]%elem_of_cons; [|done]. by simplify_eq.
    + by intros k r E%elem_of_nil.
  - simpl. intros k ?. simplify_eq. by eexists.
Qed.

Lemma containing_region_correct_witness :
  ∃ i, containing_region 16400 two_regions
         = Ok (region_at two_regions 16400) (with_last_iter i two_regions) ∧
       rm_wf (with_last_iter i two_regions).
Proof. apply (containing_region_correct two_regions 16400). apply two_regions_wf. Defined.

Lemma containing_region_unique_witness :
  contains (new_RegionDescriptor 16384 4096 16384 8192 1) 16400 ↔ Some 1%nat = Some 1%nat.
Proof.
  apply (containing_region_unique two_regions 16400 (Some 1%nat)
           (with_last_iter (Some 16384) two_regions) two_regions_wf eq_refl 16384 1%nat);
    [set_solver | reflexivity].
Defined.

Lemma region_map_invariant_witness :
  ∃ rm', add_region_entry 2 2 32768 4096 32768 8192 two_regions = Ok tt rm' ∧ rm_wf rm' ∧
    map_find (m_active_regions rm') 32768 = Some 2%nat.
Proof.
  apply (proj1 (region_map_invariant two_regions two_regions_wf)).
  - reflexivity.
  - lia.
  - intros k r rd [E|[E|E%elem_of_nil]%elem_of_cons]%elem_of_cons Hr; simplify_eq;
      vm_compute in Hr; simplify_eq; right; unfold end_, start, size; simpl; lia.
Defined.
