(* ===== verification/Config.v ===== *)
(** * Run-time configuration (the constructor and setters of
    src/src/umap/RegionManager.cpp)

    The [RegionManager] constructor reads the UMAP_* environment variables and
    falls back to defaults.  The environment, the number of hardware threads,
    the system page size and the amount of free memory in /proc/meminfo are
    inputs of the model. *)

From stdpp Require Import base list numbers strings.
From S2P Require Import Prelude.
Local Open Scope Z_scope.

(** ** [std::stringstream >> uint64_t]

    Leading white space is skipped.  When nothing is left the extraction does
    not take place and the variable keeps its old value.  Otherwise an optional
    sign and decimal digits are read; no digits give 0, too many give the
    largest value, and a minus sign negates modulo 2^64. *)

Definition is_space_char (c : Ascii.ascii) : bool :=
  let n := Ascii.nat_of_ascii c in
  bool_decide (n = 32%nat) || (bool_decide (9 ≤ n)%nat && bool_decide (n ≤ 13)%nat).

Fixpoint skip_space (s : list Ascii.ascii) : list Ascii.ascii :=
  match s with
  | c :: s' => if is_space_char c then skip_space s' else s
  | [] => []
  end.

Definition digit_val (c : Ascii.ascii) : option Z :=
  let n := Z.of_nat (Ascii.nat_of_ascii c) in
  if bool_decide (48 ≤ n ≤ 57) then Some (n - 48) else None.

(** value of the leading digits, and whether there was one *)
Fixpoint read_digits (s : list Ascii.ascii) (acc : Z) (any : bool) : Z * bool :=
  match s with
  | c :: s =>
      match digit_val c with
      | Some d => read_digits s (acc * 10 + d) true
      | None => (acc, any)
      end
  | [] => (acc, any)
  end.

Definition clamp_u64 (neg : bool) (v : Z) : Z :=
  if bool_decide (2 ^ 64 ≤ v) then 2 ^ 64 - 1 else if neg then u64 (- v) else v.

(** [None]: the extraction did not take place *)
Definition extract_u64 (s : string) : option Z :=
  match skip_space (String.list_ascii_of_string s) with
  | [] => None
  | c :: l =>
      let '(neg, digits) :=
        if bool_decide (Ascii.nat_of_ascii c = 45%nat)  (* minus *) then (true, l)
        else if bool_decide (Ascii.nat_of_ascii c = 43%nat)  (* plus *) then (false, l) else (false, c :: l) in
      let '(v, any) := read_digits digits 0 false in
      Some (if any then clamp_u64 neg v else 0)
  end.

(** [read_env_var]: [None] is a null pointer.  The local [env_val] has no
    initialiser, so an extraction that does not take place is an uninitialised
    read. *)
Definition read_env_var {S} (getenv : string → option string) (env : string) : M S (option Z) :=
  match getenv env with
  | None => mret None
  | Some s =>
      match extract_u64 s with
      | None => undefined "read of an uninitialised variable"
      | Some env_val => if bool_decide (env_val ≠ 0) then mret (Some env_val) else mret None
      end
  end.

(** ** The configuration *)

Record Version := mkVersion { major : Z; minor : Z; patch : Z }.

Record Config := mkConfig {
  m_version : Version;
  m_max_pages_in_buffer : Z;
  m_monitor_freq : Z;              (* int *)
  m_umap_page_size : Z;            (* long *)
  m_system_page_size : Z;
  m_num_fillers : Z;
  m_num_evictors : Z;
  m_evict_low_water_threshold : Z;  (* int *)
  m_evict_high_water_threshold : Z; (* int *)
  m_max_fault_events : Z
}.

Definition with_max_pages (v : Z) (c : Config) : Config :=
  mkConfig (m_version c) v (m_monitor_freq c) (m_umap_page_size c) (m_system_page_size c)
    (m_num_fillers c) (m_num_evictors c) (m_evict_low_water_threshold c)
    (m_evict_high_water_threshold c) (m_max_fault_events c).
Definition with_monitor_freq (v : Z) (c : Config) : Config :=
  mkConfig (m_version c) (m_max_pages_in_buffer c) v (m_umap_page_size c) (m_system_page_size c)
    (m_num_fillers c) (m_num_evictors c) (m_evict_low_water_threshold c)
    (m_evict_high_water_threshold c) (m_max_fault_events c).
Definition with_umap_page_size (v : Z) (c : Config) : Config :=
  mkConfig (m_version c) (m_max_pages_in_buffer c) (m_monitor_freq c) v (m_system_page_size c)
    (m_num_fillers c) (m_num_evictors c) (m_evict_low_water_threshold c)
    (m_evict_high_water_threshold c) (m_max_fault_events c).

Definition set_num_fillers (v : Z) (c : Config) : Config :=
  mkConfig (m_version c) (m_max_pages_in_buffer c) (m_monitor_freq c) (m_umap_page_size c)
    (m_system_page_size c) v (m_num_evictors c) (m_evict_low_water_threshold c)
    (m_evict_high_water_threshold c) (m_max_fault_events c).
Definition set_num_evictors (v : Z) (c : Config) : Config :=
  mkConfig (m_version c) (m_max_pages_in_buffer c) (m_monitor_freq c) (m_umap_page_size c)
    (m_system_page_size c) (m_num_fillers c) v (m_evict_low_water_threshold c)
    (m_evict_high_water_threshold c) (m_max_fault_events c).
(** the argument is an [int], the callers pass a [uint64_t] *)
Definition set_evict_high_water_threshold (v : Z) (c : Config) : Config :=
  mkConfig (m_version c) (m_max_pages_in_buffer c) (m_monitor_freq c) (m_umap_page_size c)
    (m_system_page_size c) (m_num_fillers c) (m_num_evictors c) (m_evict_low_water_threshold c)
    (i32 v) (m_max_fault_events c).
Definition set_evict_low_water_threshold (v : Z) (c : Config) : Config :=
  mkConfig (m_version c) (m_max_pages_in_buffer c) (m_monitor_freq c) (m_umap_page_size c)
    (m_system_page_size c) (m_num_fillers c) (m_num_evictors c) (i32 v)
    (m_evict_high_water_threshold c) (m_max_fault_events c).
Definition set_max_fault_events (v : Z) (c : Config) : Config :=
  mkConfig (m_version c) (m_max_pages_in_buffer c) (m_monitor_freq c) (m_umap_page_size c)
    (m_system_page_size c) (m_num_fillers c) (m_num_evictors c) (m_evict_low_water_threshold c)
    (m_evict_high_water_threshold c) v.

(** [get_umap_page_size] converts the [long] to [uint64_t] *)
Definition get_umap_page_size (c : Config) : Z := u64 (m_umap_page_size c).

(** [total_mem_kb] is the MemFree value of /proc/meminfo, 0 when there is none *)
Definition get_max_pages_in_memory (total_mem_kb : Z) : M Config Z :=
  c ← get;
  let d := get_umap_page_size c / 1024 in
  if bool_decide (d = 0) then undefined "division by zero"
  else mret (u64 ((total_mem_kb / d) * 90) / 100).

Definition set_max_pages_in_buffer (total_mem_kb max_pages : Z) : M Config unit :=
  max_pages_in_mem ← get_max_pages_in_memory total_mem_kb;
  if bool_decide (max_pages_in_mem < max_pages)
  then throw "Cannot set maximum pages"
  else modify (with_max_pages max_pages).

(** [m_system_page_size] is a [uint64_t] that [get_system_page_size] returns as a [long] *)
Definition set_umap_page_size (page_size : Z) : M Config unit :=
  c ← get;
  if bool_decide (page_size mod m_system_page_size c ≠ 0)
  then throw "page size must be a multiple of the system page size"
  else modify (with_umap_page_size page_size).

(** ** The constructor *)

Section constructor.
Context (getenv : string → option string)
  (hardware_concurrency sysconf_pagesize total_mem_kb : Z) (version : Version).

(** [if ( read_env_var(env, &env_value) != nullptr ) set(env_value); else set(default)] *)
Definition from_env (env : string) (set : Z → M Config unit) (dflt : M Config unit) : M Config unit :=
  v ← read_env_var getenv env;
  match v with
  | Some env_value => set env_value
  | None => dflt
  end.

Definition nthreads : Z := if bool_decide (hardware_concurrency = 0) then 16 else hardware_concurrency.

Definition RegionManager_ctor : M Config unit :=
  from_env "UMAP_MAX_FAULT_EVENTS" (λ v, modify (set_max_fault_events v))
    (modify (set_max_fault_events 256)) ;;
  from_env "UMAP_PAGE_FILLERS" (λ v, modify (set_num_fillers v))
    (modify (set_num_fillers nthreads)) ;;
  from_env "UMAP_PAGE_EVICTORS" (λ v, modify (set_num_evictors v))
    (modify (set_num_evictors nthreads)) ;;
  from_env "UMAP_EVICT_HIGH_WATER_THRESHOLD" (λ v, modify (set_evict_high_water_threshold v))
    (modify (set_evict_high_water_threshold 90)) ;;
  from_env "UMAP_EVICT_LOW_WATER_THRESHOLD" (λ v, modify (set_evict_low_water_threshold v))
    (modify (set_evict_low_water_threshold 70)) ;;
  from_env "UMAP_PAGESIZE" set_umap_page_size (set_umap_page_size sysconf_pagesize) ;;
  from_env "UMAP_BUFSIZE" (set_max_pages_in_buffer total_mem_kb)
    (v ← get_max_pages_in_memory total_mem_kb; set_max_pages_in_buffer total_mem_kb v) ;;
  from_env "UMAP_MONITOR_FREQ" (λ v, modify (with_monitor_freq (i32 v)))
    (modify (with_monitor_freq 0)).

(** the members before the environment is read *)
Definition ctor_start : Config :=
  mkConfig version 0 0 0 sysconf_pagesize 0 0 0 0 0.

(** ** What a constructed configuration satisfies *)

Definition threshold_of (env : string) (dflt : Z) (v : Z) : Prop :=
  match getenv env with
  | None => v = dflt
  | Some s => match extract_u64 s with
              | Some 0 => v = dflt
              | Some n => v = i32 n
              | None => False
              end
  end.

Record config_ok (c : Config) : Prop := {
  ok_page_size : m_umap_page_size c mod sysconf_pagesize = 0;
  ok_sys : m_system_page_size c = sysconf_pagesize;
  ok_bufsize : m_max_pages_in_buffer c ≤
    u64 (total_mem_kb / (get_umap_page_size c / 1024) * 90) / 100;
  ok_events : m_max_fault_events c ≠ 0;
  ok_high : threshold_of "UMAP_EVICT_HIGH_WATER_THRESHOLD" 90 (m_evict_high_water_threshold c);
  ok_low : threshold_of "UMAP_EVICT_LOW_WATER_THRESHOLD" 70 (m_evict_low_water_threshold c)
}.

Lemma read_env_Ok {S} env (s : S) o s' :
  read_env_var getenv env s = Ok o s' →
  s' = s ∧ o ≠ Some 0 ∧
  match getenv env with
  | None => o = None
  | Some str => ∃ n, extract_u64 str = Some n ∧ o = if bool_decide (n = 0) then None else Some n
  end.
Proof.
  unfold read_env_var. destruct (getenv env) as [str|]; [|by intros; inv_ok].
  destruct (extract_u64 str) as [n|] eqn:En; [|done].
  destruct (decide (n = 0)) as [E|E].
  - rewrite bool_decide_false by tauto. intros H. inv_ok. split_and!; [done|done|].
    eexists. split; [done|]. by rewrite bool_decide_true.
  - rewrite bool_decide_true by done. intros H. inv_ok. split_and!; [done|congruence|].
    eexists. split; [done|]. by rewrite bool_decide_false.
Qed.

Lemma from_env_modify env (set : Z → Config → Config) (dflt : Config → Config) c u c' :
  from_env env (λ v, modify (set v)) (modify dflt) c = Ok u c' →
  (∃ v, v ≠ 0 ∧ getenv env ≫= extract_u64 = Some v ∧ c' = set v c) ∨
  (c' = dflt c ∧ (getenv env = None ∨ getenv env ≫= extract_u64 = Some 0)).
Proof.
  unfold from_env. intros H. inv_ok. rename x into o.
  destruct (read_env_Ok _ _ _ _ H0) as (->&Hne&Hg).
  destruct (getenv env) as [str|] eqn:Eg; simpl in *.
  - destruct Hg as (n&Hn&->). case_bool_decide; inv_ok.
    + right. subst. auto.
    + left. eauto.
  - subst. inv_ok. right. auto.
Qed.

Lemma threshold_cases env dflt v :
  (∃ n, n ≠ 0 ∧ getenv env ≫= extract_u64 = Some n ∧ v = i32 n) ∨
  (v = dflt ∧ (getenv env = None ∨ getenv env ≫= extract_u64 = Some 0)) →
  threshold_of env dflt v.
Proof.
  unfold threshold_of. intros [(n&Hn&Hg&->)|[-> [Hg|Hg]]];
    destruct (getenv env) as [s|]; simpl in Hg; rewrite ?Hg; try done.
  by destruct n.
Qed.
End constructor.

Section properties.
Context (getenv : string → option string)
  (hc pagesize mem : Z) (version : Version).
Abbreviation ctor := (RegionManager_ctor getenv hc pagesize mem).

Lemma set_page_size_Ok v c u c' :
  set_umap_page_size v c = Ok u c' →
  v mod m_system_page_size c = 0 ∧ c' = with_umap_page_size v c.
Proof.
  unfold set_umap_page_size. intros H. inv_ok. case_bool_decide; inv_ok.
  done.
Qed.

Lemma set_max_pages_Ok v c u c' :
  set_max_pages_in_buffer mem v c = Ok u c' →
  c' = with_max_pages v c ∧ v ≤ u64 (mem / (get_umap_page_size c / 1024) * 90) / 100.
Proof.
  unfold set_max_pages_in_buffer, get_max_pages_in_memory. intros H. inv_ok.
  case_bool_decide; inv_ok. case_bool_decide; inv_ok. split; [done|]. lia.
Qed.

Lemma from_env_page_size c u c' :
  from_env getenv "UMAP_PAGESIZE" set_umap_page_size (set_umap_page_size pagesize) c = Ok u c' →
  ∃ v, v mod m_system_page_size c = 0 ∧ c' = with_umap_page_size v c.
Proof.
  unfold from_env. intros H. inv_ok. destruct (read_env_Ok _ _ _ _ _ H0) as (->&_&_).
  destruct x; apply set_page_size_Ok in H as []; eauto.
Qed.

Lemma from_env_bufsize c u c' :
  from_env getenv "UMAP_BUFSIZE" (set_max_pages_in_buffer mem)
    (v ← get_max_pages_in_memory mem; set_max_pages_in_buffer mem v) c = Ok u c' →
  ∃ v, c' = with_max_pages v c ∧ v ≤ u64 (mem / (get_umap_page_size c / 1024) * 90) / 100.
Proof.
  unfold from_env. intros H. inv_ok. destruct (read_env_Ok _ _ _ _ _ H0) as (->&_&_).
  destruct x; [apply set_max_pages_Ok in H as []; eauto|]. inv_ok.
  unfold get_max_pages_in_memory in H1. inv_ok. case_bool_decide; inv_ok.
  apply set_max_pages_Ok in H as []; eauto.
Qed.

(** C25 (invariant).  A [RegionManager] that is constructed has a page size
    that is a multiple of the system page size, a buffer of at most 90% of
    the free memory, a non-zero fault batch, and water thresholds that are
    the environment's values (as [int]) or the documented defaults 90 and 70
    when the variable is unset or reads as zero. *)
Theorem config_sound u c :
  ctor (ctor_start pagesize version) = Ok u c → config_ok getenv pagesize mem c.
Proof.
  unfold RegionManager_ctor. intros H. inv_ok.
  apply (from_env_modify getenv _ (λ v, with_monitor_freq (i32 v))) in H.
  repeat match goal with
  | H : from_env _ _ (λ v, modify (_ v)) _ _ = Ok _ _ |- _ => apply from_env_modify in H
  | H : from_env _ "UMAP_PAGESIZE" _ _ _ = Ok _ _ |- _ =>
      apply from_env_page_size in H as (vp&Hvp&->)
  | H : from_env _ "UMAP_BUFSIZE" _ _ _ = Ok _ _ |- _ =>
      apply from_env_bufsize in H as (vb&->&Hvb)
  end.
  repeat match goal with
  | H : (∃ v, _) ∨ _ |- _ => destruct H as [(?&?&?&->)|[-> ?]]
  end; (split; [exact Hvp | reflexivity | exact Hvb | done | |]);
    apply threshold_cases; simpl; first [left; by eauto | right; by eauto].
Qed.

(** (functional).  With no UMAP_* variable set the constructor succeeds
    and yields the documented defaults: 256 fault events, one filler and one
    evictor per hardware thread (16 when unknown), thresholds 90 and 70, the
    system page size, 90% of the free memory and no monitoring. *)
Theorem config_defaults :
  (∀ env, getenv env = None) → 1024 ≤ pagesize < 2 ^ 63 → 0 ≤ mem →
  ctor (ctor_start pagesize version) =
    Ok tt (mkConfig version (u64 (mem / (pagesize / 1024) * 90) / 100) 0 pagesize pagesize
             (nthreads hc) (nthreads hc) 70 90 256).
Proof.
  intros Hg Hp Hm. unfold RegionManager_ctor, from_env, read_env_var.
  rewrite !Hg. unfold mbind, M_bind, mret, M_ret, modify. simpl.
  unfold set_umap_page_size, get, mbind, M_bind. simpl.
  rewrite bool_decide_false by (rewrite Z.mod_same by lia; tauto). simpl.
  unfold set_max_pages_in_buffer, get_max_pages_in_memory, get, mbind, M_bind,
    get_umap_page_size. simpl.
  rewrite u64_small by (unfold is_u64; lia).
  assert (0 < pagesize / 1024) by (apply Z.div_str_pos; lia).
  rewrite bool_decide_false by lia. simpl. rewrite u64_small by (unfold is_u64; lia).
  rewrite bool_decide_false by lia. simpl. rewrite bool_decide_false by lia. done.
Qed.
End properties.

(** ** Two corners of the environment *)

Definition env_of (name value : string) (env : string) : option string :=
  if bool_decide (env = name) then Some value else None.

(** (error).  Setting a variable to the empty string makes the constructor
    read an uninitialised variable: [ss >> env_val] on an exhausted stream does
    not assign. *)
Theorem empty_env_value_uninitialised hc pagesize mem version :
  is_ub (RegionManager_ctor (env_of "UMAP_MAX_FAULT_EVENTS" "") hc pagesize mem
           (ctor_start pagesize version)) = true.
Proof. reflexivity. Qed.

(** (bounds).  The page-size check accepts sizes that are not powers of two,
    for which the address mask [a & ~(size - 1)] does not round down to a page:
    with UMAP_PAGESIZE=12288 on a 4096-byte system the constructor succeeds and
    the mask sends the page-aligned address 12288 to 0. *)
Theorem page_size_not_power_of_two version :
  ∃ c, RegionManager_ctor (env_of "UMAP_PAGESIZE" "12288") 8 4096 (2 ^ 24)
         (ctor_start 4096 version) = Ok tt c ∧
       get_umap_page_size c = 12288 ∧
       12288 mod get_umap_page_size c = 0 ∧
       mask_down 12288 (get_umap_page_size c) ≠ 12288.
Proof. eexists. split; [vm_compute; reflexivity|]. by vm_compute. Qed.

(** ** Witnesses *)

Definition no_env (_ : string) : option string := None.

Lemma config_sound_witness :
  config_ok no_env 4096 (2 ^ 24)
    (mkConfig (mkVersion 2 1 0) 3774873 0 4096 4096 8 8 70 90 256).
Proof. apply (config_sound no_env 8 4096 (2 ^ 24) (mkVersion 2 1 0) tt). vm_compute. reflexivity. Defined.

Lemma config_defaults_witness :
  RegionManager_ctor no_env 8 4096 (2 ^ 24) (ctor_start 4096 (mkVersion 2 1 0)) =
    Ok tt (mkConfig (mkVersion 2 1 0) (u64 (2 ^ 24 / (4096 / 1024) * 90) / 100) 0 4096 4096
             (nthreads 8) (nthreads 8) 70 90 256).
Proof. apply (config_defaults no_env 8 4096 (2 ^ 24) (mkVersion 2 1 0)); [done | lia | lia]. Defined.
