(* ===== verification/Engine.v ===== *)
(** * The engine state shared by the worker threads

    The [Buffer] object, the active regions and the three work queues that the
    [RegionManager] singleton ties together, as one record, and the primitive
    steps the operations of Buffer.cpp are made of: dereferencing a page
    descriptor pointer, locking, waiting on and broadcasting to the condition
    variables.  A pointer to a page descriptor is its index in [m_array]. *)

From stdpp Require Import base list numbers strings gmap.
From S2P Require Import Prelude PageDescriptor WorkQueue RegionDescriptor RegionMap.
Local Open Scope Z_scope.

(** ** State (src/src/umap/Buffer.hpp) *)

Record BufferStats := mkStats {
  lock_collision : Z;
  lock_count : Z;
  pages_inserted : Z;
  pages_deleted : Z;
  not_avail : Z;
  waits : Z;
  events_processed : Z
}.

Record Buffer := mkBuffer {
  m_size : Z;
  m_array : list PageDescriptor;
  m_present_pages : gmap Z nat;
  m_free_pages : list nat;
  m_busy_pages : list nat;
  m_evict_low_water : Z;
  m_evict_high_water : Z;
  m_mutex : bool;
  m_waits_for_avail_pd : Z;
  m_avail_pd_cond : condvar;
  m_waits_for_state_change : Z;
  m_state_change_cond : condvar;
  m_stats : BufferStats;
  is_monitor_on : bool
}.

Record Engine := mkEngine {
  buf : Buffer;
  regs : RegionMap;
  fill_wq : WorkQueue WorkItem;
  mgr_wq : WorkQueue WorkItem;
  evict_wq : WorkQueue WorkItem;
  hiwat : Z
}.

Definition with_lock_collision (v : Z) (s : BufferStats) : BufferStats :=
  mkStats v (lock_count s) (pages_inserted s) (pages_deleted s) (not_avail s) (waits s)
    (events_processed s).
Definition with_lock_count (v : Z) (s : BufferStats) : BufferStats :=
  mkStats (lock_collision s) v (pages_inserted s) (pages_deleted s) (not_avail s) (waits s)
    (events_processed s).
Definition with_pages_inserted (v : Z) (s : BufferStats) : BufferStats :=
  mkStats (lock_collision s) (lock_count s) v (pages_deleted s) (not_avail s) (waits s)
    (events_processed s).
Definition with_pages_deleted (v : Z) (s : BufferStats) : BufferStats :=
  mkStats (lock_collision s) (lock_count s) (pages_inserted s) v (not_avail s) (waits s)
    (events_processed s).
Definition with_not_avail (v : Z) (s : BufferStats) : BufferStats :=
  mkStats (lock_collision s) (lock_count s) (pages_inserted s) (pages_deleted s) v (waits s)
    (events_processed s).
Definition with_waits (v : Z) (s : BufferStats) : BufferStats :=
  mkStats (lock_collision s) (lock_count s) (pages_inserted s) (pages_deleted s) (not_avail
    s) v (events_processed s).
Definition with_events_processed (v : Z) (s : BufferStats) : BufferStats :=
  mkStats (lock_collision s) (lock_count s) (pages_inserted s) (pages_deleted s) (not_avail
    s) (waits s) v.

Definition with_m_size (v : Z) (b : Buffer) : Buffer :=
  mkBuffer v (m_array b) (m_present_pages b) (m_free_pages b) (m_busy_pages b)
    (m_evict_low_water b) (m_evict_high_water b) (m_mutex b) (m_waits_for_avail_pd b)
    (m_avail_pd_cond b) (m_waits_for_state_change b) (m_state_change_cond b) (m_stats b)
    (is_monitor_on b).
Definition with_m_array (v : list PageDescriptor) (b : Buffer) : Buffer :=
  mkBuffer (m_size b) v (m_present_pages b) (m_free_pages b) (m_busy_pages b)
    (m_evict_low_water b) (m_evict_high_water b) (m_mutex b) (m_waits_for_avail_pd b)
    (m_avail_pd_cond b) (m_waits_for_state_change b) (m_state_change_cond b) (m_stats b)
    (is_monitor_on b).
Definition with_m_present_pages (v : gmap Z nat) (b : Buffer) : Buffer :=
  mkBuffer (m_size b) (m_array b) v (m_free_pages b) (m_busy_pages b) (m_evict_low_water b)
    (m_evict_high_water b) (m_mutex b) (m_waits_for_avail_pd b) (m_avail_pd_cond b)
    (m_waits_for_state_change b) (m_state_change_cond b) (m_stats b) (is_monitor_on b).
Definition with_m_free_pages (v : list nat) (b : Buffer) : Buffer :=
  mkBuffer (m_size b) (m_array b) (m_present_pages b) v (m_busy_pages b) (m_evict_low_water
    b) (m_evict_high_water b) (m_mutex b) (m_waits_for_avail_pd b) (m_avail_pd_cond b)
    (m_waits_for_state_change b) (m_state_change_cond b) (m_stats b) (is_monitor_on b).
Definition with_m_busy_pages (v : list nat) (b : Buffer) : Buffer :=
  mkBuffer (m_size b) (m_array b) (m_present_pages b) (m_free_pages b) v (m_evict_low_water
    b) (m_evict_high_water b) (m_mutex b) (m_waits_for_avail_pd b) (m_avail_pd_cond b)
    (m_waits_for_state_change b) (m_state_change_cond b) (m_stats b) (is_monitor_on b).
Definition with_m_evict_low_water (v : Z) (b : Buffer) : Buffer :=
  mkBuffer (m_size b) (m_array b) (m_present_pages b) (m_free_pages b) (m_busy_pages b) v
    (m_evict_high_water b) (m_mutex b) (m_waits_for_avail_pd b) (m_avail_pd_cond b)
    (m_waits_for_state_change b) (m_state_change_cond b) (m_stats b) (is_monitor_on b).
Definition with_m_evict_high_water (v : Z) (b : Buffer) : Buffer :=
  mkBuffer (m_size b) (m_array b) (m_present_pages b) (m_free_pages b) (m_busy_pages b)
    (m_evict_low_water b) v (m_mutex b) (m_waits_for_avail_pd b) (m_avail_pd_cond b)
    (m_waits_for_state_change b) (m_state_change_cond b) (m_stats b) (is_monitor_on b).
Definition with_m_mutex (v : bool) (b : Buffer) : Buffer :=
  mkBuffer (m_size b) (m_array b) (m_present_pages b) (m_free_pages b) (m_busy_pages b)
    (m_evict_low_water b) (m_evict_high_water b) v (m_waits_for_avail_pd b) (m_avail_pd_cond
    b) (m_waits_for_state_change b) (m_state_change_cond b) (m_stats b) (is_monitor_on b).
Definition with_m_waits_for_avail_pd (v : Z) (b : Buffer) : Buffer :=
  mkBuffer (m_size b) (m_array b) (m_present_pages b) (m_free_pages b) (m_busy_pages b)
    (m_evict_low_water b) (m_evict_high_water b) (m_mutex b) v (m_avail_pd_cond b)
    (m_waits_for_state_change b) (m_state_change_cond b) (m_stats b) (is_monitor_on b).
Definition with_m_avail_pd_cond (v : condvar) (b : Buffer) : Buffer :=
  mkBuffer (m_size b) (m_array b) (m_present_pages b) (m_free_pages b) (m_busy_pages b)
    (m_evict_low_water b) (m_evict_high_water b) (m_mutex b) (m_waits_for_avail_pd b) v
    (m_waits_for_state_change b) (m_state_change_cond b) (m_stats b) (is_monitor_on b).
Definition with_m_waits_for_state_change (v : Z) (b : Buffer) : Buffer :=
  mkBuffer (m_size b) (m_array b) (m_present_pages b) (m_free_pages b) (m_busy_pages b)
    (m_evict_low_water b) (m_evict_high_water b) (m_mutex b) (m_waits_for_avail_pd b)
    (m_avail_pd_cond b) v (m_state_change_cond b) (m_stats b) (is_monitor_on b).
Definition with_m_state_change_cond (v : condvar) (b : Buffer) : Buffer :=
  mkBuffer (m_size b) (m_array b) (m_present_pages b) (m_free_pages b) (m_busy_pages b)
    (m_evict_low_water b) (m_evict_high_water b) (m_mutex b) (m_waits_for_avail_pd b)
    (m_avail_pd_cond b) (m_waits_for_state_change b) v (m_stats b) (is_monitor_on b).
Definition with_m_stats (v : BufferStats) (b : Buffer) : Buffer :=
  mkBuffer (m_size b) (m_array b) (m_present_pages b) (m_free_pages b) (m_busy_pages b)
    (m_evict_low_water b) (m_evict_high_water b) (m_mutex b) (m_waits_for_avail_pd b)
    (m_avail_pd_cond b) (m_waits_for_state_change b) (m_state_change_cond b) v
    (is_monitor_on b).
Definition with_is_monitor_on (v : bool) (b : Buffer) : Buffer :=
  mkBuffer (m_size b) (m_array b) (m_present_pages b) (m_free_pages b) (m_busy_pages b)
    (m_evict_low_water b) (m_evict_high_water b) (m_mutex b) (m_waits_for_avail_pd b)
    (m_avail_pd_cond b) (m_waits_for_state_change b) (m_state_change_cond b) (m_stats b) v.

Definition with_buf (v : Buffer) (e : Engine) : Engine :=
  mkEngine v (regs e) (fill_wq e) (mgr_wq e) (evict_wq e) (hiwat e).
Definition with_regs (v : RegionMap) (e : Engine) : Engine :=
  mkEngine (buf e) v (fill_wq e) (mgr_wq e) (evict_wq e) (hiwat e).
Definition with_fill_wq (v : WorkQueue WorkItem) (e : Engine) : Engine :=
  mkEngine (buf e) (regs e) v (mgr_wq e) (evict_wq e) (hiwat e).
Definition with_mgr_wq (v : WorkQueue WorkItem) (e : Engine) : Engine :=
  mkEngine (buf e) (regs e) (fill_wq e) v (evict_wq e) (hiwat e).
Definition with_evict_wq (v : WorkQueue WorkItem) (e : Engine) : Engine :=
  mkEngine (buf e) (regs e) (fill_wq e) (mgr_wq e) v (hiwat e).
Definition with_hiwat (v : Z) (e : Engine) : Engine :=
  mkEngine (buf e) (regs e) (fill_wq e) (mgr_wq e) (evict_wq e) v.

(** ** Lifting the components' operations to the engine *)

Definition lift {S A} (proj : Engine → S) (upd : S → Engine → Engine) (m : M S A) : M Engine A :=
  λ e, match m (proj e) with
       | Ok a s => Ok a (upd s e)
       | Throw msg s => Throw msg (upd s e)
       | Block c s => Block c (upd s e)
       | UB why => UB why
       end.

Definition on_fill {A} (m : M (WorkQueue WorkItem) A) : M Engine A := lift fill_wq with_fill_wq m.
Definition on_mgr {A} (m : M (WorkQueue WorkItem) A) : M Engine A := lift mgr_wq with_mgr_wq m.
Definition on_evict {A} (m : M (WorkQueue WorkItem) A) : M Engine A := lift evict_wq with_evict_wq m.
Definition on_regs {A} (m : M RegionMap A) : M Engine A := lift regs with_regs m.

Definition modify_buf (f : Buffer → Buffer) : M Engine unit := modify (λ e, with_buf (f (buf e)) e).
Definition modify_stats (f : BufferStats → BufferStats) : M Engine unit :=
  modify_buf (λ b, with_m_stats (f (m_stats b)) b).

(** [*pd] *)
Definition get_pd (i : nat) : M Engine PageDescriptor :=
  e ← get;
  match m_array (buf e) !! i with
  | Some pd => mret pd
  | None => undefined "invalid page descriptor pointer"
  end.

Definition put_pd (i : nat) (pd : PageDescriptor) (e : Engine) : Engine :=
  with_buf (with_m_array (<[i := pd]> (m_array (buf e))) (buf e)) e.

(** an operation on [*pd] that may throw *)
Definition on_pd (i : nat) (m : M PageDescriptor unit) : M Engine unit :=
  pd ← get_pd i;
  match m pd with
  | Ok _ pd' => modify (put_pd i pd')
  | Throw msg pd' => λ e, Throw msg (put_pd i pd' e)
  | Block c pd' => λ e, Block c (put_pd i pd' e)
  | UB why => undefined why
  end.

(** an assignment to a member of [*pd] *)
Definition modify_pd (i : nat) (f : PageDescriptor → PageDescriptor) : M Engine unit :=
  on_pd i (modify f).

(** [*rd] *)
Definition modify_rd (r : nat) (f : RegionDescriptor → RegionDescriptor) : M Engine unit :=
  e ← get;
  match heap (regs e) !! r with
  | Some rd => modify (λ e, with_regs (with_heap (<[r := f rd]> (heap (regs e))) (regs e)) e)
  | None => undefined "invalid region descriptor pointer"
  end.

(** ** Locking

    [contended]: the mutex was busy at [pthread_mutex_trylock] and the thread
    then slept in [pthread_mutex_lock].  While another thread holds the mutex
    the caller blocks. *)

Definition lock (contended : bool) : M Engine unit :=
  e ← get;
  if m_mutex (buf e) then block OnMutex
  else
    modify_buf (with_m_mutex true) ;;
    when contended (modify_stats (λ s, with_lock_collision (u64 (lock_collision s + 1)) s)) ;;
    modify_stats (λ s, with_lock_count (u64 (lock_count s + 1)) s).

Definition unlock : M Engine unit := modify_buf (with_m_mutex false).

(** ** Condition variables *)

Definition cond_broadcast (c : condvar) : condvar := mkCond 0 (woken c + asleep c).

Definition broadcast_state_change : M Engine unit :=
  e ← get;
  when (bool_decide (m_waits_for_state_change (buf e) ≠ 0))
    (modify_buf (λ b, with_m_state_change_cond (cond_broadcast (m_state_change_cond b)) b)).

(** [++m_stats.waits; ++m_waits_for_state_change; pthread_cond_wait(...)] *)
Definition sleep_state_change {A} : M Engine A :=
  modify_stats (λ s, with_waits (u64 (waits s + 1)) s) ;;
  modify_buf (λ b, with_m_waits_for_state_change (m_waits_for_state_change b + 1) b) ;;
  modify_buf (λ b, with_m_state_change_cond (cond_sleep (m_state_change_cond b)) b) ;;
  unlock ;;
  block OnStateChange.

(** [pthread_cond_wait] returns, with the mutex; [--m_waits_for_state_change] *)
Definition wake_state_change : M Engine unit :=
  e ← get;
  if m_mutex (buf e) then block OnMutex
  else
    modify_buf (with_m_mutex true) ;;
    modify_buf (λ b, with_m_state_change_cond (cond_return (m_state_change_cond b)) b) ;;
    modify_buf (λ b, with_m_waits_for_state_change (m_waits_for_state_change b - 1) b).
