(* ===== verification/Buffer.v ===== *)
(** * The page buffer (src/src/umap/Buffer.cpp)

    Every method of [Buffer] as an operation on the engine.  A method that can
    sleep in [pthread_cond_wait] runs up to the wait, where it ends with
    [Block]; its [_wake] variants continue at the return of the wait, the way
    the C++ loop does.  Methods take [contended] for the lock they acquire. *)

From stdpp Require Import base list numbers strings gmap.
From S2P Require Import Prelude PageDescriptor WorkQueue RegionDescriptor RegionMap.
From S2P Require Import Config Engine.
Local Open Scope Z_scope.

Definition zero_stats : BufferStats := mkStats 0 0 0 0 0 0 0.

Definition low_threshold_reached (e : Engine) : bool :=
  bool_decide (Z.of_nat (length (m_busy_pages (buf e))) ≤ m_evict_low_water (buf e)).

(** ** Descriptors back to the free list *)

Definition release_page_descriptor (pd : nat) : M Engine unit :=
  modify_buf (λ b, with_m_free_pages (m_free_pages b ++ [pd]) b) ;;
  e ← get;
  when (bool_decide (m_waits_for_avail_pd (buf e) ≠ 0))
    (modify_buf (λ b, with_m_avail_pd_cond (cond_broadcast (m_avail_pd_cond b)) b)).

Definition mark_page_as_present (contended : bool) (pd : nat) : M Engine unit :=
  lock contended ;;
  on_pd pd set_state_present ;;
  broadcast_state_change ;;
  unlock.

Definition mark_page_as_free (contended : bool) (pd : nat) : M Engine unit :=
  lock contended ;;
  p ← get_pd pd;
  match region p with
  | None => undefined "null region pointer"
  | Some r => modify_rd r (erase_page_descriptor pd)
  end ;;
  modify_buf (λ b, with_m_present_pages (delete (page p) (m_present_pages b)) b) ;;
  on_pd pd set_state_free ;;
  modify_pd pd (with_spurious_count 0) ;;
  when (negb (deferred p)) (release_page_descriptor pd) ;;
  broadcast_state_change ;;
  modify_pd pd (with_page 0) ;;
  unlock.

(** ** Waiting for a page state *)

Definition wait_for_page_state (pd : nat) (st : State) : M Engine unit :=
  p ← get_pd pd;
  if bool_decide (state p = st) then mret tt else sleep_state_change.

(** ** Eviction of the oldest page *)

Definition count_deleted : M Engine unit :=
  modify_stats (λ s, with_pages_deleted (u64 (pages_deleted s + 1)) s).

Definition pop_busy : M Engine unit :=
  modify_buf (λ b, with_m_busy_pages (pop_back (m_busy_pages b)) b).

(** the rest of an iteration, after the page was found to be deferred *)
Definition evict_deferred (pd : nat) : M Engine unit :=
  wait_for_page_state pd FREE ;; pop_busy ;; count_deleted ;; release_page_descriptor pd.

(** the rest of an iteration, for a normal page *)
Definition evict_normal (pd : nat) : M Engine unit :=
  wait_for_page_state pd PRESENT ;; pop_busy ;; count_deleted ;; on_pd pd set_state_leaving.

(** [while ( m_busy_pages.size() != 0 ) { ... }]; every iteration that does not
    leave the loop removes a page, so [length m_busy_pages] rounds suffice *)
Fixpoint evict_oldest_loop (n : nat) : M Engine (option nat) :=
  e ← get;
  match n, back (m_busy_pages (buf e)) with
  | S n, Some pd =>
      p ← get_pd pd;
      if deferred p then evict_deferred pd ;; evict_oldest_loop n
      else evict_normal pd ;; mret (Some pd)
  | _, _ => mret None
  end.

Definition finish_evict (r : option nat) : M Engine (option nat) := unlock ;; mret r.

Definition evict_oldest_page (contended : bool) : M Engine (option nat) :=
  lock contended ;;
  e ← get;
  evict_oldest_loop (length (m_busy_pages (buf e))) ≫= finish_evict.

(** woken inside [wait_for_page_state(pd, ...)]: the branch was decided before *)
Definition evict_oldest_page_wake (pd : nat) (was_deferred : bool) : M Engine (option nat) :=
  wake_state_change ;;
  if was_deferred then
    evict_deferred pd ;;
    e ← get;
    evict_oldest_loop (length (m_busy_pages (buf e))) ≫= finish_evict
  else evict_normal pd ;; finish_evict (Some pd).

(** ** Eviction of a batch of the oldest pages *)

Definition max_num_evicted_pages : nat := 32.

Definition evictable (p : PageDescriptor) : bool :=
  negb (deferred p) && bool_decide (state p = PRESENT).

(** The scan.  [i] is an unsigned index, so [i >= 0] always holds and the loop
    ends only when 32 pages were taken; reading [m_busy_pages[i]] outside the
    deque is undefined.  Every round pops one element, so the length of the
    deque plus one bounds the number of rounds. *)
Fixpoint evict_scan (fuel : nat) (i : Z) (num_evicted : nat) (evicted pending : list nat)
    : M Engine (list nat * list nat) :=
  match fuel with
  | O => undefined "loop bound exceeded"
  | S fuel =>
      if bool_decide (0 ≤ i) && bool_decide (num_evicted < max_num_evicted_pages)%nat then
        e ← get;
        match m_busy_pages (buf e) !! Z.to_nat i with
        | None => undefined "deque index out of range"
        | Some pd =>
            p ← get_pd pd;
            if evictable p then
              count_deleted ;;
              modify_pd pd (with_state LEAVING) ;;
              pop_busy ;;
              evict_scan fuel (u64 (i - 1)) (S num_evicted) (evicted ++ [pd]) pending
            else
              pop_busy ;;
              evict_scan fuel (u64 (i - 1)) num_evicted evicted (pending ++ [pd])
        end
      else mret (evicted, pending)
  end.

Definition evict_oldest_pages (contended : bool) : M Engine (list nat) :=
  lock contended ;;
  e ← get;
  let num_busy := length (m_busy_pages (buf e)) in
  r ← (if bool_decide (0 < num_busy)%nat
       then evict_scan (S num_busy) (Z.of_nat num_busy - 1) 0 [] []
       else mret ([], []));
  let '(evicted, pending) := r in
  modify_buf (λ b, with_m_busy_pages (m_busy_pages b ++ pending) b) ;;
  unlock ;;
  mret evicted.

(** ** Scheduling (src/src/umap/EvictManager.cpp) *)

Definition schedule_eviction (pd : nat) : M Engine unit :=
  on_evict (send_work (mkWork (Some pd) EVICT)).

Definition schedule_flush (pd : nat) : M Engine unit :=
  on_evict (send_work (mkWork (Some pd) FLUSH)).

Definition WaitAll : M Engine unit := on_evict wait_for_idle.
Definition WaitAll_wake : M Engine unit := on_evict wait_for_idle_resume.

(** ** Flushing dirty pages *)

(** the loop over the elements an iterator still has to visit *)
Fixpoint flush_loop (l : list nat) : M Engine unit :=
  match l with
  | [] => mret tt
  | pd :: l =>
      p ← get_pd pd;
      (if dirty p then wait_for_page_state pd PRESENT ;; schedule_flush pd else mret tt) ;;
      flush_loop l
  end.

Definition flush_dirty_pages (contended : bool) : M Engine unit :=
  lock contended ;;
  e ← get;
  flush_loop (m_busy_pages (buf e)) ;;
  WaitAll ;;
  unlock.

(** Woken in the wait for the [k]-th element of [snapshot], the deque as it was
    when the wait began: a deque that changed meanwhile has invalidated the
    iterator of the loop. *)
Definition flush_dirty_pages_wake (snapshot : list nat) (k : nat) : M Engine unit :=
  wake_state_change ;;
  e ← get;
  if bool_decide (m_busy_pages (buf e) = snapshot) then
    match snapshot !! k with
    | None => undefined "iterator out of range"
    | Some pd =>
        wait_for_page_state pd PRESENT ;; schedule_flush pd ;;
        flush_loop (drop (S k) snapshot) ;;
        WaitAll ;;
        unlock
    end
  else undefined "invalidated deque iterator".

(** the thread was woken in [WaitAll]; it held the buffer mutex all along *)
Definition flush_dirty_pages_idle : M Engine unit := WaitAll_wake ;; unlock.

(** ** Page faults *)

(** one round of the loop of [page_already_present] *)
Definition page_already_present (page_addr : Z) : M Engine (option nat) :=
  e ← get;
  match m_present_pages (buf e) !! page_addr with
  | None => mret None
  | Some pd =>
      p ← get_pd pd;
      if bool_decide (state p = PRESENT) then mret (Some pd) else sleep_state_change
  end.

(** [++m_waits_for_avail_pd; not_avail++; ++waits; ++m_waits_for_state_change;
    pthread_cond_wait(&m_avail_pd_cond, ...)] *)
Definition sleep_avail_pd {A} : M Engine A :=
  modify_buf (λ b, with_m_waits_for_avail_pd (m_waits_for_avail_pd b + 1) b) ;;
  modify_stats (λ s, with_not_avail (u64 (not_avail s + 1)) s) ;;
  modify_stats (λ s, with_waits (u64 (waits s + 1)) s) ;;
  modify_buf (λ b, with_m_waits_for_state_change (m_waits_for_state_change b + 1) b) ;;
  modify_buf (λ b, with_m_avail_pd_cond (cond_sleep (m_avail_pd_cond b)) b) ;;
  unlock ;;
  block OnAvailPd.

Definition wake_avail_pd : M Engine unit :=
  e ← get;
  if m_mutex (buf e) then block OnMutex
  else
    modify_buf (with_m_mutex true) ;;
    modify_buf (λ b, with_m_avail_pd_cond (cond_return (m_avail_pd_cond b)) b) ;;
    modify_buf (λ b, with_m_waits_for_avail_pd (m_waits_for_avail_pd b - 1) b).

Definition get_page_descriptor (vaddr : Z) (rd : nat) : M Engine nat :=
  e ← get;
  match back (m_free_pages (buf e)) with
  | None => sleep_avail_pd
  | Some rval =>
      modify_buf (λ b, with_m_free_pages (pop_back (m_free_pages b)) b) ;;
      modify_pd rval (with_page vaddr) ;;
      modify_pd rval (with_region (Some rd)) ;;
      modify_pd rval (with_dirty false) ;;
      modify_pd rval (with_deferred false) ;;
      on_pd rval set_state_filling ;;
      modify_pd rval (with_spurious_count 0) ;;
      modify_stats (λ s, with_pages_inserted (u64 (pages_inserted s + 1)) s) ;;
      modify_buf (λ b, with_m_busy_pages (rval :: m_busy_pages b) b) ;;
      mret rval
  end.

(** the end of [process_page_event]: hand the page to the fillers and kick the
    eviction daemon at the high-water mark *)
Definition dispatch (pd : nat) : M Engine unit :=
  on_fill (send_work (mkWork (Some pd) NONE)) ;;
  e ← get;
  when (bool_decide (Z.of_nat (length (m_busy_pages (buf e))) = m_evict_high_water (buf e)))
    (on_mgr (send_work (mkWork None THRESHOLD))) ;;
  modify_stats (λ s, with_events_processed (u64 (events_processed s + 1)) s) ;;
  unlock.

(** the page is already present *)
Definition fault_present (iswrite : bool) (pd : nat) : M Engine unit :=
  p ← get_pd pd;
  if iswrite && negb (dirty p) then
    modify_pd pd (with_dirty true) ;;
    on_pd pd set_state_updating ;;
    dispatch pd
  else
    modify_pd pd (with_spurious_count (spurious_count p + 1)) ;;
    modify (λ e, if bool_decide (hiwat e < spurious_count p + 1)
                 then with_hiwat (spurious_count p + 1) e else e) ;;
    unlock.

(** the page has not been brought in yet *)
Definition fault_new (paddr : Z) (iswrite : bool) (rd : nat) : M Engine unit :=
  pd ← get_page_descriptor paddr rd;
  modify_pd pd (with_data_present false) ;;
  modify_rd rd (insert_page_descriptor pd) ;;
  p ← get_pd pd;
  modify_buf (λ b, with_m_present_pages (<[page p := pd]> (m_present_pages b)) b) ;;
  when iswrite (modify_pd pd (with_dirty true)) ;;
  dispatch pd.

Definition fault_body (paddr : Z) (iswrite : bool) (rd : nat) : M Engine unit :=
  o ← page_already_present paddr;
  match o with
  | Some pd => fault_present iswrite pd
  | None => fault_new paddr iswrite rd
  end.

Definition process_page_event (contended : bool) (paddr : Z) (iswrite : bool) (rd : nat)
    : M Engine unit :=
  lock contended ;; fault_body paddr iswrite rd.

(** woken in [page_already_present] *)
Definition process_page_event_wake_present (paddr : Z) (iswrite : bool) (rd : nat) : M Engine unit :=
  wake_state_change ;; fault_body paddr iswrite rd.

(** woken in [get_page_descriptor] *)
Definition process_page_event_wake_avail (paddr : Z) (iswrite : bool) (rd : nat) : M Engine unit :=
  wake_avail_pd ;; fault_new paddr iswrite rd.

(** ** Eviction of a region *)

(** [RegionDescriptor::get_next_page_descriptor]; [pick] is the order in which
    an [unordered_set] is traversed, which the standard leaves unspecified *)
Definition get_next_page_descriptor (pick : gset nat → option nat) (rd : nat)
    : M Engine (option nat) :=
  e ← get;
  match heap (regs e) !! rd with
  | None => undefined "invalid region descriptor pointer"
  | Some d =>
      match pick (m_active_pages d) with
      | None => mret None
      | Some pd =>
          modify_pd pd (with_deferred false) ;;
          modify_rd rd (erase_page_descriptor pd) ;;
          mret (Some pd)
      end
  end.

(** one page of the loop of [evict_region], up to its first wait *)
Definition evict_region_page (pd : nat) : M Engine unit :=
  p ← get_pd pd;
  when (negb (bool_decide (state p = LEAVING)))
    (modify_pd pd (with_deferred true) ;;
     wait_for_page_state pd PRESENT ;;
     on_pd pd set_state_leaving ;;
     schedule_eviction pd) ;;
  wait_for_page_state pd FREE.

Fixpoint evict_region_loop (pick : gset nat → option nat) (n : nat) (rd : nat) : M Engine unit :=
  match n with
  | O => mret tt
  | S n =>
      o ← get_next_page_descriptor pick rd;
      match o with
      | None => mret tt
      | Some pd => evict_region_page pd ;; evict_region_loop pick n rd
      end
  end.

(** the branch with more than one active region; with a single one the code
    calls [EvictManager::EvictAll] *)
Definition evict_region_shared (pick : gset nat → option nat) (contended : bool) (rd : nat)
    : M Engine unit :=
  lock contended ;;
  e ← get;
  match heap (regs e) !! rd with
  | None => undefined "invalid region descriptor pointer"
  | Some d => evict_region_loop pick (count d) rd
  end ;;
  unlock.
