(* ===== verification/WaterMarks.v ===== *)
(** * Construction of the buffer and its water marks (src/src/umap/Buffer.cpp)

    [apply_int_percentage] in [float] arithmetic: a percentage of the buffer
    size is at most the size and monotone in the percentage, so the low-water
    mark never exceeds the high-water mark when the thresholds are ordered. *)

From Stdlib Require Import ZArith QArith Qround Qpower Lqa Lia.
From stdpp Require Import base list numbers strings gmap.
From S2P Require Import Prelude MachineFloat PageDescriptor WorkQueue Config Engine Buffer.
Local Open Scope Z_scope.

(** ** Percentages of the buffer size *)

(** [float f = (float)percentage / 100.0f; rval = f * item]: the product is
    computed in [float] and truncated *)
Definition percent_of (percentage item : Z) : Z :=
  let f := f_div 24 (f_of_int 24 percentage) (f_of_int 24 100) in
  f_trunc (f_mul 24 f (f_of_int 24 item)).

Definition apply_int_percentage {S} (percentage item : Z) : M S Z :=
  if bool_decide (percentage < 0) || bool_decide (100 < percentage)
  then throw "Invalid percentage given"
  else if bool_decide (percentage = 0) || bool_decide (percentage = 100)
  then mret item
  else mret (u64 (percent_of percentage item)).

(** ** The constructor; the engine's queues and regions are given *)

Definition new_Buffer (cfg : Config) : M unit Buffer :=
  let size := m_max_pages_in_buffer cfg in
  low ← apply_int_percentage (m_evict_low_water_threshold cfg) size;
  high ← apply_int_percentage (m_evict_high_water_threshold cfg) size;
  mret (mkBuffer size (replicate (Z.to_nat size) zero_pd) ∅ (seq 0 (Z.to_nat size)) []
          low high false 0 (mkCond 0 0) 0 (mkCond 0 0) zero_stats
          (bool_decide (0 < m_monitor_freq cfg))).

(** ** The rounding of the percentage *)

Local Open Scope Q_scope.

Lemma inject_Z_nonneg z : (0 <= z)%Z -> 0 <= inject_Z z.
Proof. intros. change 0 with (inject_Z 0). by rewrite <- Zle_Qle. Qed.

(** the [float] quotient [percentage / 100.0f] is the rounded exact quotient *)
Lemma ratio_rnd p : (0 <= p <= 100)%Z ->
  f_div 24 (f_of_int 24 p) (f_of_int 24 100) == rnd 24 (inject_Z p / inject_Z 100).
Proof.
  intros Hp. unfold f_div, f_of_int. apply rnd_eq; [lia|].
  rewrite (rnd_int 24 ltac:(lia) p) by lia.
  by rewrite (rnd_int 24 ltac:(lia) 100) by lia.
Qed.

Lemma percent_of_rnd p item : (0 <= p <= 100)%Z ->
  percent_of p item =
    Qfloor (rnd 24 (rnd 24 (inject_Z p / inject_Z 100) * rnd 24 (inject_Z item))).
Proof.
  intros Hp. unfold percent_of, f_trunc, f_mul. apply Qfloor_comp, rnd_eq; [lia|].
  by rewrite ratio_rnd.
Qed.

Lemma Qmul_mono a b c d : 0 <= a -> a <= b -> 0 <= c -> c <= d -> a * c <= b * d.
Proof. intros. nra. Qed.

Lemma percent_of_le p item :
  (0 <= p <= 99 -> 0 <= item -> 0 <= percent_of p item <= item)%Z.
Proof.
  intros Hp Hi. rewrite percent_of_rnd by lia.
  set (i := inject_Z item). pose proof (inject_Z_nonneg item Hi) as Qi. fold i in Qi.
  set (r := inject_Z p / inject_Z 100).
  assert (0 <= r /\ r <= 99 # 100) as [Hr0 Hr].
  { pose proof (inject_Z_nonneg p ltac:(lia)). unfold r. split.
    - apply Qle_shift_div_l; [reflexivity|]. lra.
    - apply Qle_shift_div_r; [reflexivity|].
      apply Qle_trans with (inject_Z 99); [rewrite <- Zle_Qle; lia|]. discriminate. }
  destruct (rnd_error 24 r Hr0) as [_ E1]. destruct (rnd_error 24 i Qi) as [_ E2].
  change (2 ^ (- (24))) with (1 # 16777216) in *.
  pose proof (rnd_nonneg 24 ltac:(lia) r) as N1. pose proof (rnd_nonneg 24 ltac:(lia) i) as N2.
  set (f := rnd 24 r) in *. set (g := rnd 24 i) in *.
  assert (0 <= f * g) as N3 by nra.
  destruct (rnd_error 24 (f * g) N3) as [_ E3]. change (2 ^ (- (24))) with (1 # 16777216) in *.
  assert (f <= 991 # 1000) as B1 by lra.
  assert (f * g <= (991 # 1000) * (i + i * (1 # 16777216))) as B2 by (apply Qmul_mono; lra).
  assert (rnd 24 (f * g) <= i) as B3 by lra.
  destruct (Qfloor_spec (rnd 24 (f * g))) as [F1 F2].
  pose proof (rnd_nonneg 24 ltac:(lia) (f * g)) as N4.
  split.
  - apply Z.lt_succ_r. apply inject_Z_lt_inv. unfold Z.succ. rewrite inject_Z_plus.
    change (inject_Z 0) with 0. change (inject_Z 1) with 1. lra.
  - apply inject_Z_le_inv. fold i. lra.
Qed.

Lemma percent_of_mono p q item :
  (0 <= p <= q -> q <= 100 -> 0 <= item -> percent_of p item <= percent_of q item)%Z.
Proof.
  intros Hp Hq Hi. rewrite !percent_of_rnd by lia. apply Qfloor_resp_le.
  apply rnd_mono; [lia|]. apply Qmult_le_compat_r; [|apply rnd_nonneg; lia].
  apply rnd_mono; [lia|]. apply Qmult_le_compat_r; [|discriminate].
  rewrite <- Zle_Qle. lia.
Qed.

Local Open Scope Z_scope.

Lemma apply_percentage_Ok {S} p item (s : S) :
  0 ≤ p ≤ 100 → 0 ≤ item < 2 ^ 64 →
  ∃ v, apply_int_percentage p item s = Ok v s ∧ 0 ≤ v ≤ item ∧
    v = if bool_decide (p = 0) || bool_decide (p = 100) then item else percent_of p item.
Proof.
  intros Hp Hi. unfold apply_int_percentage.
  rewrite !bool_decide_false by lia. simpl.
  destruct (bool_decide (p = 0) || bool_decide (p = 100)) eqn:E.
  - exists item. split; [done|]. split; [lia|done].
  - apply orb_false_elim in E as [E1%bool_decide_eq_false E2%bool_decide_eq_false].
    pose proof (percent_of_le p item ltac:(lia) ltac:(lia)).
    exists (percent_of p item). rewrite u64_small by (unfold is_u64; lia). done.
Qed.

Lemma apply_percentage_mono {S} p q item (s : S) :
  0 ≤ item < 2 ^ 64 → 1 ≤ p ≤ q → q ≤ 100 →
  ∃ v w, apply_int_percentage p item s = Ok v s ∧
         apply_int_percentage q item s = Ok w s ∧ v ≤ w.
Proof.
  intros Hi Hp Hq.
  destruct (apply_percentage_Ok p item s ltac:(lia) Hi) as (v&Ev&Bv&Dv).
  destruct (apply_percentage_Ok q item s ltac:(lia) Hi) as (w&Ew&Bw&Dw).
  exists v, w. split_and!; [done|done|].
  rewrite (bool_decide_false (p = 0)) in Dv by lia.
  rewrite (bool_decide_false (q = 0)) in Dw by lia. simpl in *.
  destruct (bool_decide (q = 100)) eqn:Eq; [lia|]. apply bool_decide_eq_false in Eq.
  destruct (bool_decide (p = 100)) eqn:E.
  + apply bool_decide_eq_true in E. lia.
  + subst. apply percent_of_mono; lia.
Qed.

(** (bounds).  [apply_int_percentage], although computed in single
    precision, returns at most the item for every percentage and every 64-bit
    item, is monotone in the percentage from 1 to 100, and throws exactly when
    the percentage is outside 0..100. *)
Theorem apply_int_percentage_bounds {S} (s : S) p q item :
  0 ≤ item < 2 ^ 64 →
  (is_throw (apply_int_percentage p item s) = true ↔ ¬ 0 ≤ p ≤ 100) ∧
  (0 ≤ p ≤ 100 → ∃ v, apply_int_percentage p item s = Ok v s ∧ 0 ≤ v ≤ item) ∧
  (1 ≤ p ≤ q → q ≤ 100 →
     ∃ v w, apply_int_percentage p item s = Ok v s ∧
            apply_int_percentage q item s = Ok w s ∧ v ≤ w).
Proof.
  intros Hi. split_and!.
  - split.
    + intros H Hp. destruct (apply_percentage_Ok p item s Hp Hi) as (v&E&_). by rewrite E in H.
    + intros Hp. unfold apply_int_percentage.
      destruct (bool_decide (p < 0)) eqn:E1; [done|].
      destruct (bool_decide (100 < p)) eqn:E2; [done|].
      apply bool_decide_eq_false in E1, E2. exfalso. lia.
  - intros Hp. destruct (apply_percentage_Ok p item s Hp Hi) as (v&?&?&_). eauto.
  - intros. by apply apply_percentage_mono.
Qed.


(** (liveness).  A one-page buffer with the default thresholds has a
    high-water mark of zero, so [m_busy_pages.size() == m_evict_high_water]
    never holds while a page is busy and the eviction daemon is never kicked. *)
Theorem one_page_buffer_never_evicts version :
  ∃ b, new_Buffer (mkConfig version 1 0 4096 4096 1 1 70 90 256) () = Ok b () ∧
    m_evict_high_water b = 0 ∧
    ∀ busy, (0 < length busy)%nat → Z.of_nat (length (A := nat) busy) ≠ m_evict_high_water b.
Proof.
  eexists. split; [vm_compute; reflexivity|]. simpl. split; [done|]. lia.
Qed.

(** ** Witnesses *)

Lemma apply_int_percentage_bounds_witness :
  ∃ v w, apply_int_percentage 70 1000 () = Ok v () ∧
         apply_int_percentage 90 1000 () = Ok w () ∧ v ≤ w.
Proof. apply (apply_int_percentage_bounds () 70 90 1000); lia. Defined.

Definition demo_config : Config :=
  mkConfig (mkVersion 2 1 0) 10 0 4096 4096 1 1 70 90 256.

