(* ===== verification/Eviction.v ===== *)
(** * Batch eviction ([Buffer::evict_oldest_pages])

    The scan of the busy deque is proved equal to a reference that cuts the
    pages, oldest first, after the 32nd evictable one.  When there are fewer,
    the unsigned loop index wraps around and the scan leaves the deque. *)

From stdpp Require Import base list numbers strings gmap.
From S2P Require Import Prelude PageDescriptor WorkQueue RegionDescriptor RegionMap.
From S2P Require Import Config Engine Buffer.
Local Open Scope Z_scope.

(** ** Reference *)

(** shortest prefix of [l] with [k] elements that satisfy [P], and the rest *)
Fixpoint cut_nth {A} (P : A → bool) (k : nat) (l : list A) : option (list A * list A) :=
  match k, l with
  | O, _ => Some ([], l)
  | S _, [] => None
  | S k', x :: l =>
      '(pre, post) ← cut_nth P (if P x then k' else k) l; Some (x :: pre, post)
  end.

Lemma cut_nth_spec {A} (P : A → bool) k l pre post :
  cut_nth P k l = Some (pre, post) →
  l = pre ++ post ∧ length (filter P pre) = k.
Proof.
  revert k pre. induction l as [|x l IH]; intros [|k] pre H; simpl in H; simplify_eq; [done|done|].
  destruct (P x) eqn:E.
  - destruct (cut_nth P k l) as [[pre' post']|] eqn:Ec; simpl in H; simplify_eq.
    apply IH in Ec as [-> <-]. rewrite filter_cons_True by (rewrite E; exact I). done.
  - destruct (cut_nth P (S k) l) as [[pre' post']|] eqn:Ec; simpl in H; simplify_eq.
    apply IH in Ec as [-> Hk]. rewrite filter_cons_False by (rewrite E; by intros []). done.
Qed.

Lemma cut_nth_None {A} (P : A → bool) k l :
  cut_nth P k l = None ↔ (length (filter P l) < k)%nat.
Proof.
  revert k. induction l as [|x l IH]; intros [|k]; simpl.
  - split; [done|lia].
  - split; [lia|done].
  - split; [done|]. intros; lia.
  - destruct (P x) eqn:E.
    + rewrite filter_cons_True by (rewrite E; exact I). simpl.
      specialize (IH k). destruct (cut_nth P k l) as [[]|]; simpl; split; intros H; try done.
      * assert (length (filter P l) < k)%nat by lia. by apply IH in H0.
      * assert (length (filter P l) < k)%nat by (by apply IH). lia.
    + rewrite filter_cons_False by (rewrite E; by intros []).
      specialize (IH (S k)). destruct (cut_nth P (S k) l) as [[]|]; simpl; split; intros H; try done.
      * by apply IH in H.
      * by apply IH.
Qed.

(** is the page behind a pointer evictable? *)
Definition evictable_in (a : list PageDescriptor) (i : nat) : bool :=
  match a !! i with Some p => evictable p | None => false end.

Definition leave (i : nat) (a : list PageDescriptor) : list PageDescriptor :=
  match a !! i with Some p => <[i := with_state LEAVING p]> a | None => a end.

Definition leave_all (l : list nat) (a : list PageDescriptor) : list PageDescriptor :=
  foldl (λ a i, leave i a) a l.

Lemma leave_lookup i j a :
  leave i a !! j = if decide (i = j) then with_state LEAVING <$> a !! j else a !! j.
Proof.
  unfold leave. destruct (a !! i) as [p|] eqn:E.
  - case_decide as Hij.
    + subst. rewrite E. rewrite list_lookup_insert_eq; [done|by eapply lookup_lt_Some].
    + by rewrite list_lookup_insert_ne.
  - case_decide; [|done]. subst. by rewrite E.
Qed.

Lemma leave_all_lookup l a j :
  leave_all l a !! j = if decide (j ∈ l) then with_state LEAVING <$> a !! j else a !! j.
Proof.
  revert a. induction l as [|i l IH]; intros a; simpl.
  - destruct (decide (j ∈ [])) as [H|H]; [|done]. by apply elem_of_nil in H.
  - unfold leave_all in *. rewrite IH, leave_lookup.
    destruct (decide (j ∈ i :: l)) as [H|H]; destruct (decide (j ∈ l)) as [H1|H1];
      destruct (decide (i = j)) as [H2|H2]; try done.
    + by destruct (a !! j).
    + apply elem_of_cons in H as [?|?]; congruence.
    + exfalso. apply H, elem_of_cons. auto.
    + exfalso. apply H, elem_of_cons. auto.
    + exfalso. apply H, elem_of_cons. auto.
Qed.

Lemma length_leave_all l a : length (leave_all l a) = length a.
Proof.
  revert a. induction l as [|i l IH]; intros a; simpl; [done|].
  unfold leave_all in *. rewrite IH. unfold leave. destruct (a !! i); [|done].
  apply length_insert.
Qed.

(** ** The scan *)

(** an engine after the scan: descriptors, deque and statistics replaced *)
Definition scanned (e : Engine) (a : list PageDescriptor) (busy : list nat) (s : BufferStats) : Engine :=
  with_buf (with_m_stats s (with_m_array a (with_m_busy_pages busy (buf e)))) e.

Lemma get_pd_run i e p : m_array (buf e) !! i = Some p → get_pd i e = Ok p e.
Proof. intros H. unfold get_pd, get, mbind, M_bind. by rewrite H. Qed.

Lemma modify_pd_run i f e p :
  m_array (buf e) !! i = Some p → modify_pd i f e = Ok tt (put_pd i (f p) e).
Proof.
  intros H. unfold modify_pd, on_pd. erewrite bind_run by by apply get_pd_run. done.
Qed.

Lemma on_pd_run i m e p p' :
  m_array (buf e) !! i = Some p → m p = Ok tt p' → on_pd i m e = Ok tt (put_pd i p' e).
Proof.
  intros H Hm. unfold on_pd. erewrite bind_run by by apply get_pd_run. by rewrite Hm.
Qed.

Lemma busy_last_index (rb : list nat) pd :
  reverse (pd :: rb) !! Z.to_nat (u64 (Z.of_nat (length (pd :: rb)) - 1)) =
    if bool_decide (Z.of_nat (length rb) < 2 ^ 64) then Some pd
    else reverse (pd :: rb) !! Z.to_nat (u64 (Z.of_nat (length (pd :: rb)) - 1)).
Proof.
  case_bool_decide as H; [|done].
  assert (Z.to_nat (u64 (Z.of_nat (length (pd :: rb)) - 1)) = length (reverse rb)) as ->.
  { rewrite length_reverse. simpl length.
    replace (Z.of_nat (S (length rb)) - 1) with (Z.of_nat (length rb)) by lia.
    rewrite u64_small by (unfold is_u64; lia). lia. }
  rewrite reverse_cons. by apply list_lookup_middle.
Qed.

Lemma scan_stop fuel i n ev pend e :
  (max_num_evicted_pages ≤ n)%nat → evict_scan (S fuel) i n ev pend e = Ok (ev, pend) e.
Proof.
  intros H. cbn [evict_scan]. rewrite (bool_decide_false (n < _)%nat) by lia.
  by rewrite andb_false_r.
Qed.

Lemma scan_spec a0 rb : ∀ k e n ev pend fuel s a,
  NoDup rb → Z.of_nat (length rb) < 2 ^ 64 →
  (∀ x, x ∈ rb → is_Some (a0 !! x) ∧ a !! x = a0 !! x) →
  (n + k = 32)%nat → (length rb < fuel)%nat →
  ∃ s',
    evict_scan fuel (u64 (Z.of_nat (length rb) - 1)) n ev pend
      (scanned e a (reverse rb) s) =
    match cut_nth (evictable_in a0) k rb with
    | None => UB "deque index out of range"
    | Some (pre, post) =>
        Ok (ev ++ filter (evictable_in a0) pre, pend ++ filter (negb ∘ evictable_in a0) pre)
           (scanned e (leave_all (filter (evictable_in a0) pre) a) (reverse post) s')
    end.
Proof.
  induction rb as [|pd rb IH]; intros k e n ev pend fuel s a Hnd Hlen Ha Hk Hf.
  - destruct fuel as [|fuel]; [simpl in Hf; lia|].
    destruct k as [|k].
    + exists s. rewrite scan_stop by (unfold max_num_evicted_pages; lia). simpl. by rewrite !app_nil_r.
    + exists s. cbn [evict_scan].
      rewrite (bool_decide_true (0 ≤ _)) by apply u64_range.
      rewrite (bool_decide_true (n < _)%nat) by (unfold max_num_evicted_pages; lia). done.
  - destruct fuel as [|fuel]; [simpl in Hf; lia|].
    destruct k as [|k].
    { exists s. rewrite scan_stop by (unfold max_num_evicted_pages; lia). simpl. by rewrite !app_nil_r. }
    apply NoDup_cons in Hnd as [Hpd Hnd].
    assert (Z.of_nat (length rb) < 2 ^ 64) as Hlen' by (simpl in Hlen; lia).
    destruct (Ha pd) as [[p Hp0] Hpa]; [apply elem_of_cons; auto|].
    rewrite Hp0 in Hpa.
    assert (evictable_in a0 pd = evictable p) as Hev by (unfold evictable_in; by rewrite Hp0).
    assert (u64 (u64 (Z.of_nat (length (pd :: rb)) - 1) - 1) = u64 (Z.of_nat (length rb) - 1)) as Hi.
    { f_equal. simpl length. replace (Z.of_nat (S (length rb)) - 1) with (Z.of_nat (length rb)) by lia.
      rewrite u64_small by (unfold is_u64; lia). done. }
    assert (∀ st b', pop_back (reverse (pd :: rb)) = b' →
      ∀ a1, with_buf (with_m_busy_pages b' (buf (scanned e a1 (reverse (pd :: rb)) st)))
              (scanned e a1 (reverse (pd :: rb)) st) = scanned e a1 b' st) as Hpop by done.
    assert (pop_back (reverse (pd :: rb)) = reverse rb) as Epop
      by (rewrite reverse_cons; apply pop_back_snoc).
    cbn [evict_scan].
    rewrite (bool_decide_true (0 ≤ _)) by apply u64_range.
    rewrite (bool_decide_true (n < _)%nat) by (unfold max_num_evicted_pages; lia). cbn [andb].
    erewrite bind_run by reflexivity.
    change (m_busy_pages (buf (scanned e a (reverse (pd :: rb)) s))) with (reverse (pd :: rb)).
    rewrite busy_last_index, bool_decide_true by done.
    erewrite bind_run by by apply get_pd_run.
    cbn [cut_nth]. rewrite Hev. destruct (evictable p) eqn:Ep.
    + erewrite bind_run by reflexivity.
      erewrite bind_run by by apply modify_pd_run.
      erewrite bind_run by reflexivity.
      rewrite Hi.
      destruct (IH k e (S n) (ev ++ [pd]) pend fuel
        (with_pages_deleted (u64 (pages_deleted s + 1)) s) (leave pd a)) as [s' Hs'];
        [done|done| |lia|simpl in Hf; lia|].
      { intros x Hx. destruct (Ha x) as [? ?]; [apply elem_of_cons; auto|]. split; [done|].
        rewrite leave_lookup. rewrite decide_False; [done|]. by intros ->. }
      exists s'. rewrite <- Epop in Hs' at 1. unfold leave in Hs' at 1. rewrite Hpa in Hs'.
      etrans; [exact Hs'|]. destruct (cut_nth _ k rb) as [[pre post]|]; [|done].
      simpl. rewrite filter_cons_True by (rewrite Hev; exact I).
      rewrite filter_cons_False by (simpl; rewrite Hev; by intros []).
      by rewrite <- app_assoc.
    + erewrite bind_run by reflexivity.
      rewrite Hi.
      destruct (IH (S k) e n ev (pend ++ [pd]) fuel s a) as [s' Hs'];
        [done|done| |lia|simpl in Hf; lia|].
      { intros x Hx. apply Ha, elem_of_cons. auto. }
      exists s'. rewrite <- Epop in Hs' at 1.
      etrans; [exact Hs'|]. destruct (cut_nth _ (S k) rb) as [[pre post]|]; [|done].
      simpl. rewrite filter_cons_False by (rewrite Hev; by intros []).
      rewrite filter_cons_True by (simpl; rewrite Hev; exact I).
      by rewrite <- app_assoc.
Qed.

(** ** The whole operation *)

Lemma lock_held b e : m_mutex (buf e) = true → lock b e = Block OnMutex e.
Proof. intros Hm. unfold lock. erewrite bind_run by reflexivity. by rewrite Hm. Qed.

Section batch.
Context (e : Engine) (contended : bool).
Hypothesis Hmutex : m_mutex (buf e) = false.
Hypothesis Hnd : NoDup (m_busy_pages (buf e)).
Hypothesis Hlen : Z.of_nat (length (m_busy_pages (buf e))) < 2 ^ 64.
Hypothesis Hvalid : ∀ x, x ∈ m_busy_pages (buf e) → is_Some (m_array (buf e) !! x).

Let oldest_first := reverse (m_busy_pages (buf e)).
Let ok := evictable_in (m_array (buf e)).

Lemma lock_run : ∃ s, lock contended e = Ok tt (with_buf (with_m_stats s (with_m_mutex true (buf e))) e).
Proof.
  unfold lock. erewrite bind_run by reflexivity. rewrite Hmutex.
  erewrite bind_run by reflexivity. destruct contended; simpl when;
    repeat (erewrite bind_run by reflexivity); eexists; reflexivity.
Qed.

Lemma evict_oldest_pages_scan :
  m_busy_pages (buf e) ≠ [] →
  match cut_nth ok max_num_evicted_pages oldest_first with
  | None => evict_oldest_pages contended e = UB "deque index out of range"
  | Some (pre, post) =>
      ∃ s, evict_oldest_pages contended e =
        Ok (filter ok pre)
           (with_buf (with_m_mutex false (buf (scanned e (leave_all (filter ok pre) (m_array (buf e)))
              (reverse post ++ filter (negb ∘ ok) pre) s))) e)
  end.
Proof.
  intros Hne. destruct lock_run as [s0 Hl].
  set (e1 := with_buf (with_m_stats s0 (with_m_mutex true (buf e))) e) in *.
  destruct (scan_spec (m_array (buf e)) oldest_first max_num_evicted_pages e1 0 [] []
    (S (length (m_busy_pages (buf e)))) s0 (m_array (buf e))) as [s' Hs'];
    [unfold oldest_first; by rewrite reverse_Permutation|unfold oldest_first; rewrite length_reverse; lia
    | |done|unfold oldest_first; rewrite length_reverse; lia|].
  { intros x Hx. split; [|done]. apply Hvalid. by apply elem_of_reverse. }
  assert (scanned e1 (m_array (buf e)) (reverse oldest_first) s0 = e1) as E1.
  { unfold scanned, oldest_first. rewrite reverse_involutive. done. }
  rewrite E1 in Hs'. unfold oldest_first in Hs' at 1. rewrite length_reverse in Hs'.
  rewrite u64_small in Hs'.
  2:{ unfold is_u64. destruct (m_busy_pages (buf e)); [done|]. simpl in *. lia. }
  unfold evict_oldest_pages. rewrite (bind_run _ _ _ _ _ Hl).
  erewrite bind_run by reflexivity. cbv zeta.
  change (m_busy_pages (buf e1)) with (m_busy_pages (buf e)).
  rewrite bool_decide_true by (destruct (m_busy_pages (buf e)); [done|simpl; lia]).
  fold ok in Hs'. destruct (cut_nth ok _ oldest_first) as [[pre post]|].
  - rewrite (bind_run _ _ _ _ _ Hs'). eexists. reflexivity.
  - unfold mbind at 1, M_bind. by rewrite Hs'.
Qed.

Lemma cut_first pre post :
  cut_nth ok max_num_evicted_pages oldest_first = Some (pre, post) →
  filter ok pre = take max_num_evicted_pages (filter ok oldest_first) ∧
  length (filter ok pre) = max_num_evicted_pages ∧
  (reverse post ++ filter (negb ∘ ok) pre) ++ filter ok pre ≡ₚ m_busy_pages (buf e).
Proof.
  intros [E Hk]%cut_nth_spec. split_and!; [|done|].
  - rewrite E, filter_app, <- Hk. by rewrite take_app_length.
  - rewrite <- (reverse_involutive (m_busy_pages (buf e))). fold oldest_first.
    rewrite E, reverse_app, <- app_assoc. f_equiv.
    rewrite reverse_Permutation. rewrite (Permutation_app_comm (filter (negb ∘ ok) pre)).
    clear. induction pre as [|x pre IH]; [done|]. rewrite !filter_cons. simpl.
    destruct (ok x); simpl; [by rewrite IH|].
    by rewrite <- Permutation_middle, IH.
Qed.
End batch.

(** What the daemon may take, independently of the scan: a page that is PRESENT
    and that nobody has deferred. *)
Definition candidate (a : list PageDescriptor) (i : nat) : bool :=
  match a !! i with
  | Some (mkPD _ _ PRESENT _ false _ _) => true
  | _ => false
  end.

Lemma filter_candidate a (l : list nat) : filter (candidate a) l = filter (evictable_in a) l.
Proof.
  apply list_filter_iff. intros i. unfold candidate, evictable_in.
  destruct (a !! i) as [[? ? st ? df ? ?]|]; [|done].
  by destruct st, df.
Qed.

(** C7 (functional).  When at least 32 pages of the buffer are evictable
    (present and not deferred), [evict_oldest_pages] returns exactly the 32
    oldest of them, oldest first; they become LEAVING and no other descriptor
    changes; the deque loses exactly these pages and the free list and the map
    of present pages are untouched; the mutex is released. *)
Theorem evict_oldest_pages_correct (contended : bool) e :
  m_mutex (buf e) = false →
  NoDup (m_busy_pages (buf e)) →
  Z.of_nat (length (m_busy_pages (buf e))) < 2 ^ 64 →
  (∀ x, x ∈ m_busy_pages (buf e) → is_Some (m_array (buf e) !! x)) →
  (32 ≤
     length (filter (candidate (m_array (buf e))) (m_busy_pages (buf e))))%nat →
  ∃ evicted e',
    evict_oldest_pages contended e = Ok evicted e' ∧
    evicted = take 32%nat
      (filter (candidate (m_array (buf e))) (reverse (m_busy_pages (buf e)))) ∧
    length evicted = 32%nat ∧
    m_busy_pages (buf e') ++ evicted ≡ₚ m_busy_pages (buf e) ∧
    (∀ i, m_array (buf e') !! i =
       if decide (i ∈ evicted) then with_state LEAVING <$> m_array (buf e) !! i
       else m_array (buf e) !! i) ∧
    m_free_pages (buf e') = m_free_pages (buf e) ∧
    m_present_pages (buf e') = m_present_pages (buf e) ∧
    m_mutex (buf e') = false.
Proof.
  rewrite !filter_candidate. change 32%nat with max_num_evicted_pages.
  intros Hm Hnd Hlen Hv Hc.
  destruct (cut_nth (evictable_in (m_array (buf e))) max_num_evicted_pages
    (reverse (m_busy_pages (buf e)))) as [[pre post]|] eqn:E.
  - pose proof (evict_oldest_pages_scan e contended Hm Hnd Hlen Hv) as H.
    rewrite E in H. destruct H as [s Hs].
    { intros Hb. rewrite Hb in Hc. simpl in Hc. unfold max_num_evicted_pages in Hc. lia. }
    destruct (cut_first e pre post E) as (H1&H2&H3).
    eexists _, _. split; [exact Hs|]. split_and!; [done|done|exact H3| |done..].
    intros i. simpl. by rewrite leave_all_lookup.
  - exfalso. apply cut_nth_None in E.
    enough (length (filter (evictable_in (m_array (buf e))) (reverse (m_busy_pages (buf e)))) =
      length (filter (evictable_in (m_array (buf e))) (m_busy_pages (buf e)))) by lia.
    apply Permutation_length. by rewrite reverse_Permutation.
Qed.

(** (error).  The loop of [evict_oldest_pages] is documented to take "at
    most 32" pages, but its index is unsigned and [i >= 0] never ends it: on a
    non-empty buffer with fewer than 32 evictable pages it reads the deque
    outside its bounds, whatever the states of the pages are. *)
Theorem evict_oldest_pages_underflow (contended : bool) e :
  m_mutex (buf e) = false →
  NoDup (m_busy_pages (buf e)) →
  Z.of_nat (length (m_busy_pages (buf e))) < 2 ^ 64 →
  (∀ x, x ∈ m_busy_pages (buf e) → is_Some (m_array (buf e) !! x)) →
  m_busy_pages (buf e) ≠ [] →
  (length (filter (candidate (m_array (buf e))) (m_busy_pages (buf e))) <
     32)%nat →
  is_ub (evict_oldest_pages contended e) = true.
Proof.
  rewrite filter_candidate. change 32%nat with max_num_evicted_pages.
  intros Hm Hnd Hlen Hv Hne Hc.
  pose proof (evict_oldest_pages_scan e contended Hm Hnd Hlen Hv Hne) as H.
  assert (cut_nth (evictable_in (m_array (buf e))) max_num_evicted_pages
    (reverse (m_busy_pages (buf e))) = None) as E.
  { apply cut_nth_None. eapply Nat.le_lt_trans; [|exact Hc].
    apply Nat.eq_le_incl, Permutation_length. by rewrite reverse_Permutation. }
  rewrite E in H. by rewrite H.
Qed.

(** ** Witnesses: 40 pages, of which every fifth is still being filled; then a
    buffer of 10 present pages *)

Definition busy_pd (i : nat) : PageDescriptor :=
  mkPD (Z.of_nat i * 4096) (Some 0%nat) (if bool_decide (i mod 5 = 0)%nat then FILLING else PRESENT)
    false false true 0.

Definition busy_engine (n : nat) : Engine :=
  mkEngine
    (mkBuffer (Z.of_nat n) (busy_pd <$> seq 0 n) ∅ [] (reverse (seq 0 n)) 1 1 false 0 (mkCond 0 0) 0
       (mkCond 0 0) zero_stats false)
    (mkRM [] None ∅) (new_WorkQueue 1) (new_WorkQueue 1) (new_WorkQueue 1) 0.

Lemma busy_engine_valid n x :
  x ∈ m_busy_pages (buf (busy_engine n)) → is_Some (m_array (buf (busy_engine n)) !! x).
Proof.
  intros Hx. simpl in *. apply elem_of_reverse, elem_of_seq in Hx.
  apply lookup_lt_is_Some. rewrite length_fmap, length_seq. lia.
Qed.

Lemma evict_oldest_pages_correct_witness :
  ∃ evicted e', evict_oldest_pages false (busy_engine 40) = Ok evicted e' ∧
    length evicted = max_num_evicted_pages.
Proof.
  destruct (evict_oldest_pages_correct false (busy_engine 40)) as (ev&e'&H1&_&H3&_);
    [reflexivity|decide_now|decide_now|apply busy_engine_valid|decide_now|].
  exists ev, e'. exact (conj H1 H3).
Defined.

Lemma evict_oldest_pages_underflow_witness :
  is_ub (evict_oldest_pages false (busy_engine 10)) = true.
Proof.
  apply (evict_oldest_pages_underflow false (busy_engine 10));
    [reflexivity|decide_now|decide_now|apply busy_engine_valid|discriminate|decide_now].
Defined.
