(* ===== verification/Uffd.v ===== *)
(** * The page-fault monitor (src/src/umap/Uffd.{hpp,cpp})

    The kernel interface of userfaultfd as a class [UffdOS] of operations with
    their documented behaviour as laws [UffdLaws]; the wrappers [Uffd] puts
    around the ioctls; one round of the handler's poll loop; and the treatment
    of a batch of fault messages: addresses rounded to umap pages, sorted, and
    processed once per page.  [ro] is the compile-time switch [UMAP_RO_MODE]. *)

From stdpp Require Import base list numbers strings gmap sorting.
From Stdlib Require Import Strings.Byte.
From S2P Require Import Prelude PageDescriptor WorkQueue Store RegionDescriptor RegionMap.
From S2P Require Import Config Engine Buffer.
Local Open Scope Z_scope.

(** ** The kernel *)

(** [None] is a system call that returns -1.  Pages are [psize] bytes, the
    [len] of every request the code makes except for (un)registering. *)
Class UffdOS (O : Type) := {
  ioctl_api : Z → O → option (Z * O);                (* features granted *)
  ioctl_register : Z → Z → Z → O → option (Z * O);   (* start len mode: ioctls *)
  ioctl_unregister : Z → Z → O → option O;
  ioctl_copy : Z → bytes → Z → O → option O;         (* dst src mode *)
  ioctl_writeprotect : Z → Z → O → option O;         (* start mode *)
  madvise_dontneed : Z → O → option O;
  load_page : Z → O → option bytes;                  (* what a load from the page sees *)
  store_page : Z → bytes → O → option O              (* a store; [None] when it faults *)
}.

Definition UFFDIO_COPY_MODE_WP : Z := 2.
Definition UFFDIO_WRITEPROTECT_MODE_WP : Z := 1.
Definition UFFDIO_REGISTER_MODE_MISSING : Z := 1.
Definition UFFDIO_REGISTER_MODE_WP : Z := 2.
Definition UFFD_FEATURE_PAGEFAULT_FLAG_WP : Z := 1.
Definition _UFFDIO_COPY : Z := 3.
Definition _UFFDIO_WRITEPROTECT : Z := 6.

(** [pte o a]: the page mapped at [a], with its write-protection, if any.
    These are the statements of userfaultfd(2), ioctl_userfaultfd(2) and
    madvise(2) about a registered range of private anonymous memory. *)
Class UffdLaws (O : Type) `{UffdOS O} := {
  pte : O → Z → option (bytes * bool);
  copy_law o a src mode :
    pte o a = None →
    ∃ o', ioctl_copy a src mode o = Some o' ∧
      ∀ b, pte o' b = if decide (b = a)
                      then Some (src, bool_decide (mode = UFFDIO_COPY_MODE_WP)) else pte o b;
  writeprotect_law o a mode d wp :
    pte o a = Some (d, wp) →
    ∃ o', ioctl_writeprotect a mode o = Some o' ∧
      ∀ b, pte o' b = if decide (b = a)
                      then Some (d, bool_decide (mode = UFFDIO_WRITEPROTECT_MODE_WP)) else pte o b;
  madvise_law o a :
    ∃ o', madvise_dontneed a o = Some o' ∧
      ∀ b, pte o' b = if decide (b = a) then None else pte o b;
  load_law o a : load_page a o = fst <$> pte o a;
  store_law o a d data :
    pte o a = Some (d, false) →
    ∃ o', store_page a data o = Some o' ∧
      ∀ b, pte o' b = if decide (b = a) then Some (data, false) else pte o b;
  store_fault_law o a data :
    (∀ d, pte o a ≠ Some (d, false)) → store_page a data o = None
}.

Section wrappers.
Context {O : Type} `{UffdOS O} (ro : bool).

Definition ioctl_or_throw {A} (call : O → option (A * O)) (msg : string) : M O A :=
  o ← get;
  match call o with
  | Some (a, o') => modify (λ _, o') ;; mret a
  | None => throw msg
  end.

Definition call_or_throw (call : O → option O) (msg : string) : M O unit :=
  ioctl_or_throw (λ o, (λ o', (tt, o')) <$> call o) msg.

Definition enable_write_protect (page_address : Z) : M O unit :=
  if ro then mret tt
  else call_or_throw (ioctl_writeprotect page_address UFFDIO_WRITEPROTECT_MODE_WP)
         "ioctl(UFFDIO_WRITEPROTECT)".

Definition disable_write_protect (page_address : Z) : M O unit :=
  if ro then mret tt
  else call_or_throw (ioctl_writeprotect page_address 0) "ioctl(UFFDIO_WRITEPROTECT)".

Definition copy_in_page (data : bytes) (page_address : Z) : M O unit :=
  call_or_throw (ioctl_copy page_address data 0) "UFFDIO_COPY failed".

Definition copy_in_page_and_write_protect (data : bytes) (page_address : Z) : M O unit :=
  call_or_throw (ioctl_copy page_address data (if ro then 0 else UFFDIO_COPY_MODE_WP))
    "UFFDIO_COPY failed @".

(** [has_wp_ioctl]: the headers define [UFFDIO_WRITEPROTECT] *)
Definition register_region (has_wp_ioctl : bool) (rd : RegionDescriptor) : M O unit :=
  ioctls ← ioctl_or_throw
    (ioctl_register (start rd) (size rd)
      (if ro then UFFDIO_REGISTER_MODE_MISSING
       else Z.lor UFFDIO_REGISTER_MODE_MISSING UFFDIO_REGISTER_MODE_WP))
    "ioctl(UFFDIO_REGISTER) failed";
  if negb (Z.testbit ioctls _UFFDIO_COPY)
     || (has_wp_ioctl && negb (Z.testbit ioctls _UFFDIO_WRITEPROTECT))
  then throw "unexpected userfaultfd ioctl set" else mret tt.

(** the ioctl of [unregister_region]; it first calls [evict_region] *)
Definition unregister_range (rd : RegionDescriptor) : M O unit :=
  call_or_throw (ioctl_unregister (start rd) (size rd)) "ioctl(UFFDIO_UNREGISTER) failed".

Definition check_uffd_compatibility : M O unit :=
  features ← ioctl_or_throw
    (ioctl_api (if ro then 0 else UFFD_FEATURE_PAGEFAULT_FLAG_WP)) "ioctl(UFFDIO_API) Failed";
  if negb ro && bool_decide (Z.land features UFFD_FEATURE_PAGEFAULT_FLAG_WP = 0)
  then throw "UFFD Compatibilty Check - unsupported userfaultfd WP" else mret tt.
End wrappers.

Section wrapper_lemmas.
Context {O : Type} `{UffdLaws O}.

Lemma call_or_throw_run call msg (o o' : O) :
  call o = Some o' → call_or_throw call msg o = Ok tt o'.
Proof.
  intros E. unfold call_or_throw, ioctl_or_throw. erewrite bind_run by reflexivity.
  cbv beta. rewrite E. done.
Qed.

Lemma copy_in_run o a data :
  pte o a = None →
  ∃ o', copy_in_page data a o = Ok tt o' ∧
    ∀ b, pte o' b = if decide (b = a) then Some (data, false) else pte o b.
Proof.
  intros (o'&E&Hp)%(copy_law o a data 0). exists o'. split; [by apply call_or_throw_run|].
  intros b. by rewrite Hp.
Qed.

Lemma copy_in_wp_run o a data :
  pte o a = None →
  ∃ o', copy_in_page_and_write_protect false data a o = Ok tt o' ∧
    ∀ b, pte o' b = if decide (b = a) then Some (data, true) else pte o b.
Proof.
  intros (o'&E&Hp)%(copy_law o a data UFFDIO_COPY_MODE_WP). exists o'.
  split; [by apply call_or_throw_run|]. intros b. by rewrite Hp.
Qed.

Lemma enable_wp_run o a d wp :
  pte o a = Some (d, wp) →
  ∃ o', enable_write_protect false a o = Ok tt o' ∧
    ∀ b, pte o' b = if decide (b = a) then Some (d, true) else pte o b.
Proof.
  intros (o'&E&Hp)%(writeprotect_law o a UFFDIO_WRITEPROTECT_MODE_WP). exists o'.
  split; [by apply call_or_throw_run|]. intros b. by rewrite Hp.
Qed.

Lemma disable_wp_run o a d wp :
  pte o a = Some (d, wp) →
  ∃ o', disable_write_protect false a o = Ok tt o' ∧
    ∀ b, pte o' b = if decide (b = a) then Some (d, false) else pte o b.
Proof.
  intros (o'&E&Hp)%(writeprotect_law o a 0). exists o'.
  split; [by apply call_or_throw_run|]. intros b. by rewrite Hp.
Qed.
End wrapper_lemmas.

(** A kernel that keeps its mappings in a finite map. *)
Definition memos : Type := gmap Z (bytes * bool).

#[export] Instance memos_ops : UffdOS memos := {|
  ioctl_api f o := Some (f, o);
  ioctl_register _ _ _ o := Some (Z.lor (Z.shiftl 1 _UFFDIO_COPY) (Z.shiftl 1 _UFFDIO_WRITEPROTECT), o);
  ioctl_unregister _ _ o := Some o;
  ioctl_copy a src mode o :=
    match (o : gmap Z (bytes * bool)) !! a with
    | None => Some (<[a := (src, bool_decide (mode = UFFDIO_COPY_MODE_WP))]> (o : gmap Z (bytes * bool)))
    | Some _ => None
    end;
  ioctl_writeprotect a mode o :=
    match (o : gmap Z (bytes * bool)) !! a with
    | Some (d, _) =>
        Some (<[a := (d, bool_decide (mode = UFFDIO_WRITEPROTECT_MODE_WP))]> (o : gmap Z (bytes * bool)))
    | None => Some o
    end;
  madvise_dontneed a o := Some (delete a (o : gmap Z (bytes * bool)));
  load_page a o := fst <$> (o : gmap Z (bytes * bool)) !! a;
  store_page a data o :=
    match (o : gmap Z (bytes * bool)) !! a with
    | Some (_, false) => Some (<[a := (data, false)]> (o : gmap Z (bytes * bool)))
    | _ => None
    end
|}.

#[export, refine] Instance memos_laws : UffdLaws memos := {|
  pte o a := (o : gmap Z (bytes * bool)) !! a
|}.
Proof.
  - intros o a src mode E. simpl. rewrite E. eexists. split; [done|]. intros b.
    unfold memos in *. case_decide; [subst; apply lookup_insert_eq|by apply lookup_insert_ne].
  - intros o a mode d wp E. simpl. rewrite E. eexists. split; [done|]. intros b.
    unfold memos in *. case_decide; [subst; apply lookup_insert_eq|by apply lookup_insert_ne].
  - intros o a. simpl. eexists. split; [done|]. intros b.
    unfold memos in *. case_decide; [subst; apply lookup_delete_eq|by apply lookup_delete_ne].
  - done.
  - intros o a d data E. simpl. rewrite E. eexists. split; [done|]. intros b.
    unfold memos in *. case_decide; [subst; apply lookup_insert_eq|by apply lookup_insert_ne].
  - intros o a data E. simpl. destruct (_ !! a) as [[d []]|]; [done| |done]. by destruct (E d).
Defined.

(** ** The handler *)

(** the members of [uffd_msg.arg.pagefault] the code uses *)
Record uffd_msg := mkMsg { address : Z; flags : Z }.

#[export] Instance uffd_msg_eq_dec : EqDecision uffd_msg.
Proof. solve_decision. Defined.

Definition UFFD_PAGEFAULT_FLAG_WRITE : Z := 1.
Definition UFFD_PAGEFAULT_FLAG_WP : Z := 2.

Definition less_than_key (lhs rhs : uffd_msg) : bool :=
  if bool_decide (address lhs = address rhs)
  then bool_decide (flags rhs < flags lhs)
  else bool_decide (address lhs < address rhs).

(** [std::sort] with [less_than_key]: a permutation in which no element is less
    than its predecessor; the order is total on the modelled members, so the
    result is determined *)
Definition not_after (a b : uffd_msg) : Prop := less_than_key b a = false.

#[export] Instance not_after_dec a b : Decision (not_after a b).
Proof. unfold not_after. apply _. Defined.

Definition sort_events (l : list uffd_msg) : list uffd_msg := merge_sort not_after l.

(** [flags & (WP | WRITE) != 0]: [!=] binds tighter than [&] *)
Definition iswrite_of (ro : bool) (fl : Z) : bool :=
  if ro then false
  else bool_decide
    (Z.land fl (Z.b2z (bool_decide
       (Z.lor UFFD_PAGEFAULT_FLAG_WP UFFD_PAGEFAULT_FLAG_WRITE ≠ 0))) ≠ 0).

(** [m_events[i].arg.pagefault.address &= ~(m_page_size-1)] *)
Definition to_umap_page (psize : Z) (m : uffd_msg) : uffd_msg :=
  mkMsg (mask_down (address m) psize) (flags m).

(** the calls of [process_page] the loop over the sorted events makes *)
Fixpoint page_events (ro : bool) (last_addr : Z) (l : list uffd_msg) : list (bool * Z) :=
  match l with
  | [] => []
  | m :: l =>
      if bool_decide (address m = last_addr) then page_events ro last_addr l
      else (iswrite_of ro (flags m), address m) :: page_events ro (address m) l
  end.

Definition batch (ro : bool) (psize : Z) (msgs : list uffd_msg) : list (bool * Z) :=
  page_events ro 0 (sort_events (to_umap_page psize <$> msgs)).

(** *** One round of [while ( wq_is_empty() )] *)

Inductive read_result := ReadMsgs (l : list uffd_msg) | ReadAgain | ReadError.
Inductive round := Leave | Again | Batch (l : list uffd_msg).

(** [pollres], the [revents] of the pipe and of the fault descriptor, and the
    result of [read], to what the round does *)
Definition uffd_round {S} (max_fault_events : Z) (pollres : Z) (pipe_in fd_err fd_in : bool)
    (r : read_result) : M S round :=
  if bool_decide (pollres = 1) then
    if pipe_in then mret Leave
    else if fd_err then throw "POLLERR: "
    else if negb fd_in then mret Again
    else match r with
         | ReadError => throw "read failed"
         | ReadAgain => mret Again
         | ReadMsgs l =>
             if bool_decide (1 ≤ Z.of_nat (length l) ∧ Z.of_nat (length l) ≤ max_fault_events)
             then mret (Batch l) else undefined "invalid message size"
         end
  else if bool_decide (pollres = -1) then throw "poll failed"
  else throw "poll: unexpected result".

(** [Uffd::process_page]; the look-up takes and releases the region manager's
    mutex *)
Definition process_page (contended iswrite : bool) (addr : Z) : M Engine unit :=
  rd ← on_regs (containing_region addr);
  match rd with
  | Some rd => process_page_event contended addr iswrite rd
  | None => mret tt
  end.

(** ** Lemmas on the batch *)

Definition key_le (a b : uffd_msg) : Prop :=
  address a < address b ∨ (address a = address b ∧ flags b ≤ flags a).

Lemma not_after_iff a b : not_after a b ↔ key_le a b.
Proof.
  unfold not_after, less_than_key, key_le. case_bool_decide as E.
  - rewrite bool_decide_eq_false. lia.
  - rewrite bool_decide_eq_false. lia.
Qed.

#[export] Instance not_after_total : Total not_after.
Proof. intros a b. rewrite !not_after_iff. unfold key_le. lia. Qed.

#[export] Instance not_after_trans : Transitive not_after.
Proof. intros a b c. rewrite !not_after_iff. unfold key_le. lia. Qed.

#[export] Instance not_after_antisym : AntiSymm (=) not_after.
Proof.
  intros [a f] [b g]. rewrite !not_after_iff. unfold key_le. simpl. intros.
  f_equal; lia.
Qed.

(** The specification of [std::sort] determines the result: any sorted
    permutation is the list computed here. *)
Lemma sort_events_unique l l' :
  StronglySorted not_after l' → l' ≡ₚ l → l' = sort_events l.
Proof.
  intros Hs Hp. apply (StronglySorted_unique not_after); [done| |].
  - apply StronglySorted_merge_sort; apply _.
  - unfold sort_events. by rewrite merge_sort_Permutation.
Qed.

Lemma sort_events_sorted l : StronglySorted not_after (sort_events l).
Proof. apply StronglySorted_merge_sort; apply _. Qed.

Lemma sort_events_perm l : sort_events l ≡ₚ l.
Proof. apply merge_sort_Permutation. Qed.

(** in a sorted list whose addresses are at least [last], the calls are for
    the addresses other than [last], in increasing order, each once, with the
    flags of the first message for the page *)
Lemma page_events_spec ro last l :
  StronglySorted not_after l → (∀ m, m ∈ l → last ≤ address m) →
  StronglySorted Z.lt (snd <$> page_events ro last l) ∧
  (∀ w a, (w, a) ∈ page_events ro last l →
     last < a ∧
     ∃ m, m ∈ l ∧ address m = a ∧ w = iswrite_of ro (flags m) ∧
       ∀ m', m' ∈ l → address m' = a → flags m' ≤ flags m) ∧
  (∀ m, m ∈ l → address m ≠ last → ∃ w, (w, address m) ∈ page_events ro last l).
Proof.
  intros Hs. revert last. induction Hs as [|m l Hs IH Hall]; intros last Hge; simpl.
  { split_and!; [constructor|intros ? ? []%elem_of_nil|intros ? []%elem_of_nil]. }
  assert (∀ m', m' ∈ l → key_le m m') as Hkey.
  { intros m' Hm'. apply not_after_iff. by eapply Forall_forall in Hall. }
  case_bool_decide as E.
  - destruct (IH last) as (H1&H2&H3); [set_solver|]. split_and!; [done| |].
    + intros w a Hin. destruct (H2 w a Hin) as (Hlt&m'&?&?&?&?). split; [done|].
      exists m'. split_and!; [set_solver|done|done|].
      intros m2 [->|Hm2]%elem_of_cons Ha; [lia|auto].
    + intros m' [->|Hm']%elem_of_cons Hne; [done|auto].
  - assert (last ≤ address m) as Hlast by (apply Hge; set_solver).
    destruct (IH (address m)) as (H1&H2&H3).
    { intros m' Hm'. destruct (Hkey m' Hm'); lia. }
    split_and!.
    + simpl. constructor; [done|]. apply Forall_forall. intros a ([w a']&->&Hin)%list_elem_of_fmap.
      by destruct (H2 w a' Hin).
    + intros w a [Heq|Hin]%elem_of_cons.
      * simplify_eq. split; [lia|]. exists m. split_and!; [set_solver|done|done|].
        intros m' [->|Hm']%elem_of_cons Ha; [done|]. destruct (Hkey m' Hm'); lia.
      * destruct (H2 w a Hin) as (Hlt&m'&?&?&?&?). split; [lia|].
        exists m'. split_and!; [set_solver|done|done|].
        intros m2 [->|Hm2]%elem_of_cons Ha; [lia|auto].
    + intros m' [->|Hm']%elem_of_cons Hne; [exists (iswrite_of ro (flags m)); apply elem_of_cons; auto|].
      destruct (decide (address m' = address m)) as [Ea|Ea]; [rewrite Ea; exists (iswrite_of ro (flags m)); apply elem_of_cons; auto|].
      destruct (H3 m' Hm' Ea) as [w Hw]. exists w. set_solver.
Qed.

(** ** Properties *)

(** C10 (functional).  A batch of fault messages is turned into calls of
    [process_page] in increasing address order, exactly one for every umap page
    (other than page 0) that some message faulted on, and none for any other:
    duplicates are skipped and no fault is dropped. *)
Theorem batch_each_page_once (ro : bool) (k : Z) msgs :
  0 ≤ k < 64 → (∀ m, m ∈ msgs → is_u64 (address m)) →
  StronglySorted Z.lt (snd <$> batch ro (2 ^ k) msgs) ∧
  NoDup (snd <$> batch ro (2 ^ k) msgs) ∧
  (∀ a, a ∈ snd <$> batch ro (2 ^ k) msgs ↔
     a ≠ 0 ∧ ∃ m, m ∈ msgs ∧ a = address m - address m mod 2 ^ k).
Proof.
  intros Hk Hu. unfold batch.
  destruct (page_events_spec ro 0 (sort_events (to_umap_page (2 ^ k) <$> msgs))
    (sort_events_sorted _)) as (H1&H2&H3).
  { intros m Hm. rewrite sort_events_perm in Hm.
    apply list_elem_of_fmap in Hm as (m0&->&Hm0). simpl. by apply mask_down_bounds; [apply Hu|]. }
  split_and!; [done| |].
  - clear -H1. induction H1 as [|a l H1 IH Hall]; constructor; [|done].
    intros Hin. eapply Forall_forall in Hall; [|exact Hin]. lia.
  - intros a. split.
    + intros ([w a']&->&Hin)%list_elem_of_fmap. destruct (H2 w a' Hin) as (Hlt&m&Hm&<-&_).
      split; [simpl; lia|]. rewrite sort_events_perm in Hm.
      apply list_elem_of_fmap in Hm as (m0&->&Hm0). exists m0. split; [done|].
      simpl. by rewrite mask_down_pow2 by auto.
    + intros (Hne&m&Hm&->). rewrite <- mask_down_pow2 in Hne |- * by auto.
      destruct (H3 (to_umap_page (2 ^ k) m)) as [w Hw].
      * rewrite sort_events_perm. by apply list_elem_of_fmap_2.
      * done.
      * apply list_elem_of_fmap. by exists (w, address (to_umap_page (2 ^ k) m)).
Qed.

(** C11 (functional).  When the kernel marks every write-protection fault as a
    write as well (message flags are none, WRITE, or WRITE and WP), the one
    call made for a page is a write exactly when some message of the batch for
    that page is a write or write-protection fault: skipping the duplicates
    loses no write intent, because the messages of a page are ordered by
    decreasing flags. *)
Theorem batch_keeps_write_intent (k : Z) msgs :
  0 ≤ k < 64 → (∀ m, m ∈ msgs → is_u64 (address m)) →
  (∀ m, m ∈ msgs → flags m = 0 ∨ flags m = UFFD_PAGEFAULT_FLAG_WRITE ∨
     flags m = Z.lor UFFD_PAGEFAULT_FLAG_WRITE UFFD_PAGEFAULT_FLAG_WP) →
  ∀ w a, (w, a) ∈ batch false (2 ^ k) msgs →
    (w = true ↔ ∃ m, m ∈ msgs ∧ a = address m - address m mod 2 ^ k ∧ flags m ≠ 0).
Proof.
  intros Hk Hu Hf w a Hin. unfold batch in Hin.
  destruct (page_events_spec false 0 (sort_events (to_umap_page (2 ^ k) <$> msgs))
    (sort_events_sorted _)) as (_&H2&_).
  { intros m Hm. rewrite sort_events_perm in Hm.
    apply list_elem_of_fmap in Hm as (m0&->&Hm0). simpl. by apply mask_down_bounds; [apply Hu|]. }
  destruct (H2 w a Hin) as (_&m&Hm&Ha&->&Hmax). rewrite sort_events_perm in Hm.
  apply list_elem_of_fmap in Hm as (m0&->&Hm0). simpl in *. split.
  - intros Hw. exists m0. split_and!; [done|by rewrite <- mask_down_pow2 by auto|].
    intros E. by rewrite E in Hw.
  - intros (m'&Hm'&Ea&Hne). specialize (Hmax (to_umap_page (2 ^ k) m')).
    rewrite sort_events_perm in Hmax. simpl in Hmax.
    assert (flags m' ≤ flags m0) as Hle.
    { apply Hmax; [by apply list_elem_of_fmap_2|]. by rewrite mask_down_pow2 by auto. }
    destruct (Hf m0 Hm0) as [E|[E|E]]; rewrite E in *; [|done|done].
    destruct (Hf m' Hm') as [E'|[E'|E']]; rewrite E' in *; done.
Qed.

(** (error).  The write test of the handler reads
    [flags & (WP | WRITE) != 0], which C++ parses as [flags & ((WP | WRITE) != 0)]:
    only the WRITE bit is looked at.  A message that carries the WP bit alone
    is handled as a read, and it hides a WRITE message for the same page. *)
Theorem wp_only_message_is_a_read :
  iswrite_of false UFFD_PAGEFAULT_FLAG_WP = false ∧
  (∀ fl, iswrite_of false fl = Z.testbit fl 0) ∧
  batch false 4096 [mkMsg 8192 UFFD_PAGEFAULT_FLAG_WRITE; mkMsg 8200 UFFD_PAGEFAULT_FLAG_WP]
    = [(false, 8192)].
Proof.
  split_and!; [reflexivity| |vm_compute; reflexivity].
  intros fl. unfold iswrite_of.
  change (Z.b2z (bool_decide (Z.lor _ _ ≠ 0))) with (Z.ones 1). rewrite Z.land_ones by lia.
  change (2 ^ 1) with 2. rewrite <- Z.bit0_mod. by destruct (Z.testbit fl 0).
Qed.

(** ** Witnesses *)

Definition demo_msgs : list uffd_msg :=
  [mkMsg 20500 0; mkMsg 8200 1; mkMsg 8192 0; mkMsg 4100 0; mkMsg 9000 3].

Lemma demo_msgs_u64 m : m ∈ demo_msgs → is_u64 (address m).
Proof. revert m. apply Forall_forall. repeat constructor; simpl; lia. Qed.

Lemma batch_each_page_once_witness :
  snd <$> batch false (2 ^ 12) demo_msgs = [4096; 8192; 20480] ∧
  NoDup (snd <$> batch false (2 ^ 12) demo_msgs).
Proof.
  split; [vm_compute; reflexivity|].
  apply (batch_each_page_once false 12 demo_msgs); [lia|apply demo_msgs_u64].
Defined.

Lemma batch_keeps_write_intent_witness :
  true = true ↔ ∃ m, m ∈ demo_msgs ∧ 8192 = address m - address m mod 2 ^ 12 ∧ flags m ≠ 0.
Proof.
  apply (batch_keeps_write_intent 12 demo_msgs); [lia|apply demo_msgs_u64| |].
  - apply Forall_forall. unfold demo_msgs. rewrite !Forall_cons, Forall_nil.
    split_and!; [by left|by right; left|by left|by left|by right; right|done].
  - assert (batch false (2 ^ 12) demo_msgs = [(false, 4096); (true, 8192); (false, 20480)]) as ->
      by (vm_compute; reflexivity). set_solver.
Defined.
