(* ===== verification/Workers.v ===== *)
(** * Fill workers, evict workers and the eviction manager
      (src/src/umap/FillWorkers.cpp, EvictWorkers.cpp, EvictManager.cpp)

    The body of each worker loop, as the atomic pieces between which other
    threads may run (a piece is one access to the shared store, the kernel or a
    critical section of the buffer) and as their sequential composition.  The
    stores are reached through a pointer and virtual methods: a bank of stores
    indexed by pointer, with the laws [BankLaws] that the worker theorems are
    proved against and that a bank of [StoreFile]s discharges. *)

From stdpp Require Import base list numbers strings gmap.
From Stdlib Require Import Strings.Byte.
From S2P Require Import Prelude PageDescriptor WorkQueue Store RegionDescriptor RegionMap.
From S2P Require Import Config Engine Buffer Uffd.
Local Open Scope Z_scope.

(** ** Stores behind pointers *)

Class StoreBank (S : Type) := {
  bank_read : nat → nat → Z → M S (Z * bytes);
  bank_write : nat → bytes → Z → M S Z
}.

(** every store is an array of pages, and stores do not overlap *)
Class BankLaws (S : Type) `{StoreBank S} (psize : nat) (cap : nat → Z) := {
  bank_ok : S → Prop;
  bank_page : S → nat → Z → bytes;
  bank_page_length s id off :
    bank_ok s → page_offset (Z.of_nat psize) (cap id) off → length (bank_page s id off) = psize;
  bank_read_law s id off :
    bank_ok s → page_offset (Z.of_nat psize) (cap id) off →
    ∃ s', bank_read id psize off s = Ok (Z.of_nat psize, bank_page s id off) s' ∧ bank_ok s' ∧
      ∀ i o, page_offset (Z.of_nat psize) (cap i) o → bank_page s' i o = bank_page s i o;
  bank_write_law s id off buf :
    bank_ok s → page_offset (Z.of_nat psize) (cap id) off → length buf = psize →
    ∃ s', bank_write id buf off s = Ok (Z.of_nat psize) s' ∧ bank_ok s' ∧
      ∀ i o, page_offset (Z.of_nat psize) (cap i) o →
        bank_page s' i o = if decide ((i, o) = (id, off)) then buf else bank_page s i o
}.

Section file_bank.
Context {F : Type} `{FileLaws F} (files : nat → StoreFile).

Definition file_bank : StoreBank F :=
  {| bank_read id := sf_read_from_store (files id);
     bank_write id := sf_write_to_store (files id) |}.

(** Stores over distinct files, each as long as its capacity, form a bank. *)
#[refine] Definition file_bank_laws (psize : nat) (cap : nat → Z)
    (Hp : (0 < psize)%nat) (Hb : Z.of_nat psize < 2 ^ 63)
    (Hinj : ∀ i j, sf_fd (files i) = sf_fd (files j) → i = j) :
    @BankLaws F file_bank psize cap :=
  {| bank_ok f := ∀ id, 0 < cap id →
       ∃ l, contents f (sf_fd (files id)) = Some l ∧ cap id ≤ Z.of_nat (length l);
     bank_page f id off := page_of (PageStore := StoreFile_PageStore (files id) psize (cap id) Hp Hb) f off |}.
Proof.
  - intros f id off Hok Hoff. apply page_of_length; [|done]. apply Hok. destruct Hoff. lia.
  - intros f id off Hok Hoff.
    destruct (@read_page _ _ _ _ (StoreFile_PageStore (files id) psize (cap id) Hp Hb) f off)
      as (f'&E&_&_); [apply Hok; destruct Hoff; lia|done|].
    assert (f' = f) as ->.
    { destruct (Hok id) as (l&Hc&Hl); [destruct Hoff; lia|]. simpl in E.
      rewrite (sf_read_ok _ _ _ _ l) in E by (done || (destruct Hoff; lia)). congruence. }
    exists f. split_and!; [exact E|done|done].
  - intros f id off buf Hok Hoff Hlen.
    destruct (Hok id) as (l&Hc&Hl); [destruct Hoff; lia|].
    destruct (@write_page _ _ _ _ (StoreFile_PageStore (files id) psize (cap id) Hp Hb) f off buf)
      as (f'&E&Hok'&Hpg); [by exists l|done|done|].
    destruct (sf_write_ok (files id) buf off f l Hc) as (f2&E2&Hc2&Hfr);
      [destruct Hoff; lia|lia|]. simpl in E. rewrite E2 in E. simplify_eq.
    exists f'. split_and!; [done| |].
    + intros i Hi. destruct (decide (i = id)) as [->|Hne]; [done|].
      rewrite Hfr; [by apply Hok|]. intros ?%Hinj. done.
    + intros i o Ho. destruct (decide (i = id)) as [->|Hne].
      * rewrite Hpg by done. destruct (decide (o = off)) as [->|Hne'].
        { by rewrite decide_True. }
        rewrite decide_False by congruence. done.
      * rewrite decide_False by congruence. simpl. rewrite Hfr; [done|].
        intros ?%Hinj. done.
Defined.
End file_bank.

(** ** The world the workers act on *)

Definition zoom {W S A} (proj : W → S) (upd : S → W → W) (m : M S A) : M W A :=
  λ w, match m (proj w) with
       | Ok a s => Ok a (upd s w)
       | Throw msg s => Throw msg (upd s w)
       | Block c s => Block c (upd s w)
       | UB why => UB why
       end.

Lemma zoom_run {W S A} (proj : W → S) upd (m : M S A) w a s :
  m (proj w) = Ok a s → zoom proj upd m w = Ok a (upd s w).
Proof. intros E. unfold zoom. by rewrite E. Qed.

Record World (O St : Type) := mkWorld { eng : Engine; kernel : O; disk : St }.
Arguments mkWorld {O St}.
Arguments eng {O St}.
Arguments kernel {O St}.
Arguments disk {O St}.

Section workers.
Context {O St : Type} `{UffdOS O} `{StoreBank St} (ro : bool) (psize : nat).
Abbreviation World := (World O St).

Definition with_eng (e : Engine) (w : World) : World := mkWorld e (kernel w) (disk w).
Definition with_kernel (o : O) (w : World) : World := mkWorld (eng w) o (disk w).
Definition with_disk (d : St) (w : World) : World := mkWorld (eng w) (kernel w) d.

Definition on_eng {A} (m : M Engine A) : M World A := zoom eng with_eng m.
Definition on_kernel {A} (m : M O A) : M World A := zoom kernel with_kernel m.
Definition on_disk {A} (m : M St A) : M World A := zoom disk with_disk m.

(** [pd->region->store()] and [pd->region->store_offset(pd->page)] *)
Definition store_location (pd : nat) : M World (nat * Z) :=
  p ← on_eng (get_pd pd);
  w ← get;
  match region p with
  | None => undefined "null region pointer"
  | Some r =>
      match heap (regs (eng w)) !! r with
      | None => undefined "invalid region descriptor pointer"
      | Some rd =>
          match store_offset rd (page p) with
          | Some off => mret (m_store rd, off)
          | None => undefined "Invalid address for calculating offset"
          end
      end
  end.

Definition deref_item (w : WorkItem) : M World nat :=
  match page_desc w with
  | Some pd => mret pd
  | None => undefined "null page descriptor pointer"
  end.

(** *** [FillWorkers::FillWorker]

    [copyin_buf] is the thread's buffer, which keeps its contents from one
    work item to the next. *)

(** unprotect a page that is already there, or read its data *)
Definition fill_read (pd : nat) (copyin_buf : bytes) : M World (option bytes) :=
  p ← on_eng (get_pd pd);
  if dirty p && data_present p then
    on_kernel (disable_write_protect ro (page p)) ;; mret None
  else
    '(store, offset) ← store_location pd;
    '(n, data) ← on_disk (bank_read store psize offset);
    if bool_decide (n = -1) then throw "read_from_store failed"
    else mret (Some (overwrite data copyin_buf)).

Definition fill_install (pd : nat) (copyin_buf : bytes) : M World unit :=
  p ← on_eng (get_pd pd);
  (if negb (dirty p)
   then on_kernel (copy_in_page_and_write_protect ro copyin_buf (page p))
   else on_kernel (copy_in_page copyin_buf (page p))) ;;
  on_eng (modify_pd pd (with_data_present true)).

Definition fill_finish (contended : bool) (pd : nat) : M World unit :=
  on_eng (mark_page_as_present contended pd).

(** one round of the loop after [get_work]: the new contents of the thread's
    buffer, or [None] when it leaves *)
Definition FillWorker (contended : bool) (w : WorkItem) (copyin_buf : bytes)
    : M World (option bytes) :=
  if is_exit w then mret None
  else
    pd ← deref_item w;
    r ← fill_read pd copyin_buf;
    match r with
    | Some buf => fill_install pd buf
    | None => mret tt
    end ;;
    fill_finish contended pd ;;
    mret (Some (default copyin_buf r)).

(** *** [EvictWorkers::EvictWorker] *)

Definition evict_protect (pd : nat) : M World bool :=
  p ← on_eng (get_pd pd);
  if dirty p then
    store_location pd ;;
    on_kernel (enable_write_protect ro (page p)) ;;
    mret true
  else mret false.

(** [write_to_store(pd->page, page_size, offset)] reads the mapped page *)
Definition evict_write (pd : nat) : M World unit :=
  p ← on_eng (get_pd pd);
  '(store, offset) ← store_location pd;
  w ← get;
  match load_page (page p) (kernel w) with
  | None => undefined "write_to_store from an unmapped page"
  | Some data =>
      n ← on_disk (bank_write store data offset);
      if bool_decide (n = -1) then throw "write_to_store failed" else mret tt
  end.

Definition evict_clean (pd : nat) : M World unit := on_eng (modify_pd pd (with_dirty false)).

Definition evict_drop (t : WorkType) (pd : nat) : M World unit :=
  if bool_decide (t = FAST_EVICT) then mret tt
  else
    p ← on_eng (get_pd pd);
    on_kernel (call_or_throw (madvise_dontneed (page p)) "madvise failed").

Definition evict_finish (contended : bool) (pd : nat) : M World unit :=
  on_eng (mark_page_as_free contended pd).

(** one round of the loop after [get_work]; [false] when the worker leaves *)
Definition EvictWorker (contended : bool) (w : WorkItem) : M World bool :=
  if is_exit w then mret false
  else
    pd ← deref_item w;
    d ← evict_protect pd;
    when d (evict_write pd ;; evict_clean pd) ;;
    (if bool_decide (type w = FLUSH) then mret tt
     else evict_drop (type w) pd ;; evict_finish contended pd) ;;
    mret true.
End workers.

(** ** [EvictManager] *)

(** one round of [while ( ! m_buffer->low_threshold_reached() )]: the pages to
    send to the evict workers, or [None] at the low-water mark *)
Definition evict_mgr_round (contended : bool) : M Engine (option (list nat)) :=
  e ← get;
  if low_threshold_reached e then mret None
  else l ← evict_oldest_pages contended; mret (Some l).

(** the sequential composition of a round and of sending its pages *)
Definition EvictMgr_round (contended : bool) : M Engine bool :=
  r ← evict_mgr_round contended;
  match r with
  | None => mret false
  | Some l => for_each l schedule_eviction ;; mret true
  end.

(** the body of the loop of [EvictAll] for the page [evict_oldest_page] gave *)
Definition evict_all_page (contended : bool) (pd : nat) : M Engine unit :=
  p ← get_pd pd;
  if dirty p then on_evict (send_work (mkWork (Some pd) FAST_EVICT))
  else mark_page_as_free contended pd.

(** every round removes a page from the busy deque *)
Fixpoint EvictAll_loop (contended : bool) (n : nat) : M Engine unit :=
  match n with
  | O => undefined "loop bound exceeded"
  | S n =>
      r ← evict_oldest_page contended;
      match r with
      | None => mret tt
      | Some pd => evict_all_page contended pd ;; EvictAll_loop contended n
      end
  end.

Definition EvictAll (contended : bool) : M Engine unit :=
  e ← get;
  EvictAll_loop contended (S (length (m_busy_pages (buf e)))) ;;
  WaitAll.

(** [Buffer::evict_region] *)
Definition evict_region (pick : gset nat → option nat) (contended : bool) (rd : nat)
    : M Engine unit :=
  e ← get;
  if bool_decide (1 < get_num_active_regions (regs e))
  then evict_region_shared pick contended rd
  else EvictAll contended.
