(* ===== verification/BufferSpec.v ===== *)
(** * What the buffer operations do to the page bookkeeping

    The statistics, wait counters and condition variables of the engine do not
    influence which descriptors are where.  [core] projects them away; [runs]
    and [blocks] say what an operation does to the core, from every engine that
    has it, and compose along the sequencing of the monad.  The specifications
    of the operations of Buffer.cpp in these terms are what the system-level
    proofs use. *)

From stdpp Require Import base list numbers strings gmap.
From S2P Require Import Prelude PageDescriptor WorkQueue Store RegionDescriptor RegionMap.
From S2P Require Import Config Engine Buffer Eviction Uffd.
Local Open Scope Z_scope.

(** ** The core *)

Record Core := mkCore {
  c_array : list PageDescriptor;
  c_present : gmap Z nat;
  c_free : list nat;
  c_busy : list nat;
  c_low : Z;
  c_high : Z;
  c_mutex : bool;
  c_regs : RegionMap;
  c_fillq : list WorkItem;
  c_mgrq : list WorkItem;
  c_evictq : list WorkItem;
  c_ewait : Z;                 (* evict workers that wait for work *)
  c_emax : Z                   (* all of them *)
}.

Definition set_array (v : list PageDescriptor) (c : Core) : Core :=
  mkCore v (c_present c) (c_free c) (c_busy c) (c_low c) (c_high c) (c_mutex c) (c_regs c)
    (c_fillq c) (c_mgrq c) (c_evictq c) (c_ewait c) (c_emax c).
Definition set_present (v : gmap Z nat) (c : Core) : Core :=
  mkCore (c_array c) v (c_free c) (c_busy c) (c_low c) (c_high c) (c_mutex c) (c_regs c)
    (c_fillq c) (c_mgrq c) (c_evictq c) (c_ewait c) (c_emax c).
Definition set_free (v : list nat) (c : Core) : Core :=
  mkCore (c_array c) (c_present c) v (c_busy c) (c_low c) (c_high c) (c_mutex c) (c_regs c)
    (c_fillq c) (c_mgrq c) (c_evictq c) (c_ewait c) (c_emax c).
Definition set_busy (v : list nat) (c : Core) : Core :=
  mkCore (c_array c) (c_present c) (c_free c) v (c_low c) (c_high c) (c_mutex c) (c_regs c)
    (c_fillq c) (c_mgrq c) (c_evictq c) (c_ewait c) (c_emax c).
Definition set_low (v : Z) (c : Core) : Core :=
  mkCore (c_array c) (c_present c) (c_free c) (c_busy c) v (c_high c) (c_mutex c) (c_regs c)
    (c_fillq c) (c_mgrq c) (c_evictq c) (c_ewait c) (c_emax c).
Definition set_high (v : Z) (c : Core) : Core :=
  mkCore (c_array c) (c_present c) (c_free c) (c_busy c) (c_low c) v (c_mutex c) (c_regs c)
    (c_fillq c) (c_mgrq c) (c_evictq c) (c_ewait c) (c_emax c).
Definition set_mutex (v : bool) (c : Core) : Core :=
  mkCore (c_array c) (c_present c) (c_free c) (c_busy c) (c_low c) (c_high c) v (c_regs c)
    (c_fillq c) (c_mgrq c) (c_evictq c) (c_ewait c) (c_emax c).
Definition set_regs (v : RegionMap) (c : Core) : Core :=
  mkCore (c_array c) (c_present c) (c_free c) (c_busy c) (c_low c) (c_high c) (c_mutex c) v
    (c_fillq c) (c_mgrq c) (c_evictq c) (c_ewait c) (c_emax c).
Definition set_fillq (v : list WorkItem) (c : Core) : Core :=
  mkCore (c_array c) (c_present c) (c_free c) (c_busy c) (c_low c) (c_high c) (c_mutex c)
    (c_regs c) v (c_mgrq c) (c_evictq c) (c_ewait c) (c_emax c).
Definition set_mgrq (v : list WorkItem) (c : Core) : Core :=
  mkCore (c_array c) (c_present c) (c_free c) (c_busy c) (c_low c) (c_high c) (c_mutex c)
    (c_regs c) (c_fillq c) v (c_evictq c) (c_ewait c) (c_emax c).
Definition set_evictq (v : list WorkItem) (c : Core) : Core :=
  mkCore (c_array c) (c_present c) (c_free c) (c_busy c) (c_low c) (c_high c) (c_mutex c)
    (c_regs c) (c_fillq c) (c_mgrq c) v (c_ewait c) (c_emax c).
Definition set_ewait (v : Z) (c : Core) : Core :=
  mkCore (c_array c) (c_present c) (c_free c) (c_busy c) (c_low c) (c_high c) (c_mutex c)
    (c_regs c) (c_fillq c) (c_mgrq c) (c_evictq c) v (c_emax c).
Definition set_emax (v : Z) (c : Core) : Core :=
  mkCore (c_array c) (c_present c) (c_free c) (c_busy c) (c_low c) (c_high c) (c_mutex c)
    (c_regs c) (c_fillq c) (c_mgrq c) (c_evictq c) (c_ewait c) v.

Definition core (e : Engine) : Core :=
  mkCore (m_array (buf e)) (m_present_pages (buf e)) (m_free_pages (buf e)) (m_busy_pages (buf e))
    (m_evict_low_water (buf e)) (m_evict_high_water (buf e)) (m_mutex (buf e)) (regs e)
    (m_queue (fill_wq e)) (m_queue (mgr_wq e)) (m_queue (evict_wq e))
    (m_waiting_workers (evict_wq e)) (m_max_waiting (evict_wq e)).
Definition put_core_pd (i : nat) (p : PageDescriptor) (c : Core) : Core :=
  set_array (<[i := p]> (c_array c)) c.

(** ** Runs on cores *)

Definition runs {A} (m : M Engine A) (c : Core) (a : A) (c' : Core) : Prop :=
  ∀ e, core e = c → ∃ e', m e = Ok a e' ∧ core e' = c'.

Definition blocks {A} (m : M Engine A) (c : Core) (on : waitpoint) (c' : Core) : Prop :=
  ∀ e, core e = c → ∃ e', m e = Block on e' ∧ core e' = c'.

Lemma runs_bind {A B} (m : M Engine A) (k : A → M Engine B) c a c1 b c' :
  runs m c a c1 → runs (k a) c1 b c' → runs (m ≫= k) c b c'.
Proof.
  intros Hm Hk e He. destruct (Hm e He) as (e1&E1&H1). destruct (Hk e1 H1) as (e2&E2&H2).
  exists e2. split; [|done]. by rewrite (bind_run _ _ _ _ _ E1).
Qed.

Lemma blocks_bind {A B} (m : M Engine A) (k : A → M Engine B) c a c1 w c' :
  runs m c a c1 → blocks (k a) c1 w c' → blocks (m ≫= k) c w c'.
Proof.
  intros Hm Hk e He. destruct (Hm e He) as (e1&E1&H1). destruct (Hk e1 H1) as (e2&E2&H2).
  exists e2. split; [|done]. by rewrite (bind_run _ _ _ _ _ E1).
Qed.

Lemma blocks_first {A B} (m : M Engine A) (k : A → M Engine B) c w c' :
  blocks m c w c' → blocks (m ≫= k) c w c'.
Proof.
  intros Hm e He. destruct (Hm e He) as (e1&E1&H1). exists e1. split; [|done].
  unfold mbind, M_bind. by rewrite E1.
Qed.

Lemma runs_get {B} (k : Engine → M Engine B) c b c' :
  (∀ e, core e = c → runs (k e) c b c') → runs (get ≫= k) c b c'.
Proof. intros Hk e He. by apply (Hk e He e). Qed.

Lemma blocks_get {B} (k : Engine → M Engine B) c w c' :
  (∀ e, core e = c → blocks (k e) c w c') → blocks (get ≫= k) c w c'.
Proof. intros Hk e He. by apply (Hk e He e). Qed.

Lemma runs_ret {A} (a : A) c : runs (mret a) c a c.
Proof. intros e He. by exists e. Qed.

Lemma runs_modify f c : (∀ e, core e = c → core (f e) = c) → runs (modify f) c tt c.
Proof. intros H e He. exists (f e). split; [done|]. by apply H. Qed.

Lemma runs_modify_to f c c' : (∀ e, core e = c → core (f e) = c') → runs (modify f) c tt c'.
Proof. intros H e He. exists (f e). split; [done|]. by apply H. Qed.

Lemma runs_when b m c c' :
  (b = true → runs m c tt c') → (b = false → c' = c) → runs (when b m) c tt c'.
Proof.
  intros Ht Hf. destruct b; simpl; [by apply Ht|]. rewrite Hf by done. apply runs_ret.
Qed.

(** runs the sub-terms of an operation, left to right *)
Create HintDb runs.
Ltac run_step := first [eapply runs_bind | eapply blocks_bind]; [solve [eauto with runs]|].

(** changes that leave the core alone *)
Ltac core_noise := intros; match goal with H : core _ = _ |- _ => rewrite <- H end; reflexivity.

Lemma runs_stats f c : runs (modify_stats f) c tt c.
Proof. apply runs_modify. core_noise. Qed.

Lemma runs_waits f c :
  runs (modify_buf (λ b, with_m_waits_for_state_change (f b) b)) c tt c.
Proof. apply runs_modify. core_noise. Qed.

Lemma runs_waits_avail f c :
  runs (modify_buf (λ b, with_m_waits_for_avail_pd (f b) b)) c tt c.
Proof. apply runs_modify. core_noise. Qed.

Lemma runs_cond f c :
  runs (modify_buf (λ b, with_m_state_change_cond (f b) b)) c tt c.
Proof. apply runs_modify. core_noise. Qed.

Lemma runs_cond_avail f c :
  runs (modify_buf (λ b, with_m_avail_pd_cond (f b) b)) c tt c.
Proof. apply runs_modify. core_noise. Qed.

Lemma runs_mutex v c : runs (modify_buf (with_m_mutex v)) c tt (set_mutex v c).
Proof. apply runs_modify_to. core_noise. Qed.

Lemma runs_present f c :
  runs (modify_buf (λ b, with_m_present_pages (f (m_present_pages b)) b)) c tt
    (set_present (f (c_present c)) c).
Proof. apply runs_modify_to. core_noise. Qed.

Lemma runs_free f c :
  runs (modify_buf (λ b, with_m_free_pages (f (m_free_pages b)) b)) c tt
    (set_free (f (c_free c)) c).
Proof. apply runs_modify_to. core_noise. Qed.

Lemma runs_busy f c :
  runs (modify_buf (λ b, with_m_busy_pages (f (m_busy_pages b)) b)) c tt
    (set_busy (f (c_busy c)) c).
Proof. apply runs_modify_to. core_noise. Qed.

#[export] Hint Resolve runs_ret runs_stats runs_waits runs_waits_avail runs_cond
  runs_cond_avail runs_mutex : runs.

Lemma runs_lock b c : c_mutex c = false → runs (lock b) c tt (set_mutex true c).
Proof.
  intros Hm. apply runs_get. intros e He.
  replace (m_mutex (buf e)) with false by (by rewrite <- Hm, <- He).
  run_step. eapply runs_bind; [|apply runs_stats].
  apply runs_when; intros; [apply runs_stats|done].
Qed.

Lemma runs_unlock c : runs unlock c tt (set_mutex false c).
Proof. apply runs_mutex. Qed.

Lemma runs_broadcast c : runs broadcast_state_change c tt c.
Proof. apply runs_get. intros e He. apply runs_when; intros; [apply runs_cond|done]. Qed.

Lemma blocks_sleep_state {A} c : blocks (sleep_state_change (A := A)) c OnStateChange (set_mutex false c).
Proof.
  do 3 run_step. eapply blocks_bind; [apply runs_unlock|]. intros e He. by exists e.
Qed.

Lemma blocks_sleep_avail {A} c : blocks (sleep_avail_pd (A := A)) c OnAvailPd (set_mutex false c).
Proof.
  do 5 run_step. eapply blocks_bind; [apply runs_unlock|]. intros e He. by exists e.
Qed.

Lemma runs_wake_state c : c_mutex c = false → runs wake_state_change c tt (set_mutex true c).
Proof.
  intros Hm. apply runs_get. intros e He.
  replace (m_mutex (buf e)) with false by (by rewrite <- Hm, <- He).
  do 2 run_step. apply runs_waits.
Qed.

Lemma runs_wake_avail c : c_mutex c = false → runs wake_avail_pd c tt (set_mutex true c).
Proof.
  intros Hm. apply runs_get. intros e He.
  replace (m_mutex (buf e)) with false by (by rewrite <- Hm, <- He).
  do 2 run_step. apply runs_waits_avail.
Qed.

#[export] Hint Resolve runs_lock runs_unlock runs_broadcast runs_wake_state runs_wake_avail : runs.

(** *** Descriptors *)

Lemma runs_get_pd i p c : c_array c !! i = Some p → runs (get_pd i) c p c.
Proof.
  intros Hp e He. exists e. split; [|done]. apply get_pd_run. by rewrite <- Hp, <- He.
Qed.

Lemma runs_on_pd i m p p' c :
  c_array c !! i = Some p → m p = Ok tt p' → runs (on_pd i m) c tt (put_core_pd i p' c).
Proof.
  intros Hp Hm e He. eexists. split; [eapply on_pd_run; [|exact Hm]; by rewrite <- Hp, <- He|].
  rewrite <- He. done.
Qed.

Lemma runs_modify_pd i f p c :
  c_array c !! i = Some p → runs (modify_pd i f) c tt (put_core_pd i (f p) c).
Proof. intros Hp. by eapply runs_on_pd. Qed.

Lemma runs_modify_rd r f d c :
  heap (c_regs c) !! r = Some d →
  runs (modify_rd r f) c tt (set_regs (with_heap (<[r := f d]> (heap (c_regs c))) (c_regs c)) c).
Proof.
  intros Hd. apply runs_get. intros e He.
  replace (heap (regs e) !! r) with (Some d) by (by rewrite <- Hd, <- He).
  apply runs_modify_to. core_noise.
Qed.

(** *** Queues *)

Lemma runs_send_fill w c : runs (on_fill (send_work w)) c tt (set_fillq (c_fillq c ++ [w]) c).
Proof. intros e He. eexists. split; [reflexivity|]. by rewrite <- He. Qed.
Lemma runs_send_mgr w c : runs (on_mgr (send_work w)) c tt (set_mgrq (c_mgrq c ++ [w]) c).
Proof. intros e He. eexists. split; [reflexivity|]. by rewrite <- He. Qed.
Lemma runs_send_evict w c : runs (on_evict (send_work w)) c tt (set_evictq (c_evictq c ++ [w]) c).
Proof. intros e He. eexists. split; [reflexivity|]. by rewrite <- He. Qed.

#[export] Hint Resolve runs_get_pd runs_send_fill runs_send_mgr runs_send_evict : runs.

Lemma put_core_pd_lookup i p p' c :
  c_array c !! i = Some p → c_array (put_core_pd i p' c) !! i = Some p'.
Proof. intros H. apply list_lookup_insert_eq. by eapply lookup_lt_Some. Qed.

Lemma put_core_pd_twice i p p' c : put_core_pd i p (put_core_pd i p' c) = put_core_pd i p c.
Proof. unfold put_core_pd. simpl. by rewrite list_insert_insert_eq. Qed.

Lemma core_eta_mutex c : c_mutex c = false → set_mutex false (set_mutex true c) = c.
Proof. destruct c. simpl. by intros ->. Qed.

(** ** The operations *)

Section specs.
Context (c : Core) (b : bool).
Hypothesis Hm : c_mutex c = false.

Lemma mark_present_spec pd p :
  c_array c !! pd = Some p → state p = FILLING ∨ state p = UPDATING →
  runs (mark_page_as_present b pd) c tt (put_core_pd pd (with_state PRESENT p) c).
Proof.
  intros Hp Hst. run_step. eapply runs_bind.
  { apply (runs_on_pd pd set_state_present p (with_state PRESENT p)); [done|].
    unfold set_state_present. by destruct Hst as [->| ->]. }
  run_step. replace (put_core_pd pd _ c) with
    (set_mutex false (put_core_pd pd (with_state PRESENT p) (set_mutex true c))).
  - apply runs_unlock.
  - destruct c. simpl in *. by subst.
Qed.

(** the core after [mark_page_as_free] *)
Definition freed_pd (p : PageDescriptor) : PageDescriptor :=
  with_page 0 (with_spurious_count 0 (with_state FREE p)).

Definition freed (pd : nat) (p : PageDescriptor) (r : nat) (d : RegionDescriptor) : Core :=
  put_core_pd pd (freed_pd p)
    (set_free (if deferred p then c_free c else c_free c ++ [pd])
      (set_present (delete (page p) (c_present c))
        (set_regs (with_heap (<[r := erase_page_descriptor pd d]> (heap (c_regs c))) (c_regs c)) c))).

Lemma mark_free_spec pd p r d :
  c_array c !! pd = Some p → state p = LEAVING → region p = Some r →
  heap (c_regs c) !! r = Some d →
  runs (mark_page_as_free b pd) c tt (freed pd p r d).
Proof.
  intros Hp Hst Hr Hd. run_step. eapply runs_bind; [by apply runs_get_pd|].
  rewrite Hr. eapply runs_bind; [by apply (runs_modify_rd r _ d)|].
  eapply runs_bind; [apply (runs_present (delete (page p)))|].
  eapply runs_bind.
  { apply (runs_on_pd pd set_state_free p (with_state FREE p)); [done|].
    unfold set_state_free. by rewrite Hst. }
  eapply runs_bind; [apply runs_modify_pd; eapply put_core_pd_lookup; exact Hp|].
  rewrite put_core_pd_twice.
  eapply runs_bind.
  { apply (runs_when (negb (deferred p)) _ _
      (put_core_pd pd (with_spurious_count 0 (with_state FREE p))
        (set_free (if deferred p then c_free c else c_free c ++ [pd])
          (set_present (delete (page p) (c_present c))
            (set_regs (with_heap (<[r := erase_page_descriptor pd d]> (heap (c_regs c))) (c_regs c))
              (set_mutex true c)))))).
    - intros Hdef. apply negb_true_iff in Hdef. rewrite Hdef.
      eapply runs_bind; [apply (runs_free (λ l, l ++ [pd]))|].
      apply runs_get. intros e He. apply runs_when; intros; [apply runs_cond_avail|done].
    - intros Hdef. apply negb_false_iff in Hdef. rewrite Hdef. done. }
  run_step. eapply runs_bind; [apply runs_modify_pd; eapply put_core_pd_lookup; exact Hp|].
  rewrite put_core_pd_twice.
  replace (freed pd p r d) with (set_mutex false (put_core_pd pd (freed_pd p)
    (set_free (if deferred p then c_free c else c_free c ++ [pd])
      (set_present (delete (page p) (c_present c))
        (set_regs (with_heap (<[r := erase_page_descriptor pd d]> (heap (c_regs c))) (c_regs c))
          (set_mutex true c)))))).
  - apply runs_unlock.
  - unfold freed. destruct c. simpl in *. by subst.
Qed.

(** *** Page faults *)

(** what [dispatch] enqueues *)
Definition dispatched (pd : nat) (c : Core) : Core :=
  set_mutex false
    (set_mgrq (if bool_decide (Z.of_nat (length (c_busy c)) = c_high c)
               then c_mgrq c ++ [mkWork None THRESHOLD] else c_mgrq c)
      (set_fillq (c_fillq c ++ [mkWork (Some pd) NONE]) c)).

Lemma dispatch_spec pd c1 : runs (dispatch pd) c1 tt (dispatched pd c1).
Proof.
  run_step. apply runs_get. intros e He. eapply runs_bind.
  - apply (runs_when _ _ _ (set_mgrq (if bool_decide (Z.of_nat (length (c_busy c1)) = c_high c1)
               then c_mgrq c1 ++ [mkWork None THRESHOLD] else c_mgrq c1)
      (set_fillq (c_fillq c1 ++ [mkWork (Some pd) NONE]) c1)));
      replace (m_busy_pages (buf e)) with (c_busy c1) by (by apply (f_equal c_busy) in He);
      replace (m_evict_high_water (buf e)) with (c_high c1) by (by apply (f_equal c_high) in He);
      intros ->; [|done];
      apply (runs_send_mgr _ (set_fillq (c_fillq c1 ++ [mkWork (Some pd) NONE]) c1)).
  - run_step. apply runs_unlock.
Qed.

(** the descriptor a new page gets *)
Definition new_pd (paddr : Z) (iswrite : bool) (r : nat) : PageDescriptor :=
  mkPD paddr (Some r) FILLING iswrite false false 0.

Definition inserted (paddr : Z) (iswrite : bool) (r : nat) (d : RegionDescriptor) (pd : nat) : Core :=
  dispatched pd
    (put_core_pd pd (new_pd paddr iswrite r)
      (set_present (<[paddr := pd]> (c_present c))
        (set_regs (with_heap (<[r := insert_page_descriptor pd d]> (heap (c_regs c))) (c_regs c))
          (set_busy (pd :: c_busy c) (set_free (pop_back (c_free c)) (set_mutex true c)))))).

Lemma fault_new_spec paddr iswrite r d pd p :
  heap (c_regs c) !! r = Some d → back (c_free c) = Some pd →
  c_array c !! pd = Some p → state p = FREE →
  runs (fault_new paddr iswrite r) (set_mutex true c) tt (inserted paddr iswrite r d pd).
Proof.
  intros Hd Hb Hp Hst.
  set (p1 := mkPD paddr (Some r) FILLING false false (data_present p) 0).
  set (c1 := put_core_pd pd p1 (set_busy (pd :: c_busy c) (set_free (pop_back (c_free c)) (set_mutex true c)))).
  eapply (runs_bind _ _ _ pd c1).
  { apply runs_get. intros e He.
    replace (m_free_pages (buf e)) with (c_free c) by (by apply (f_equal c_free) in He).
    rewrite Hb. eapply runs_bind; [apply (runs_free pop_back)|].
    eapply runs_bind; [eapply runs_modify_pd; exact Hp|].
    do 3 (eapply runs_bind; [eapply runs_modify_pd; eapply put_core_pd_lookup; exact Hp|];
          rewrite put_core_pd_twice).
    eapply runs_bind; [eapply runs_on_pd; [eapply put_core_pd_lookup; exact Hp|]|].
    { unfold set_state_filling. simpl. rewrite Hst. reflexivity. }
    rewrite put_core_pd_twice.
    eapply runs_bind; [eapply runs_modify_pd; eapply put_core_pd_lookup; exact Hp|].
    rewrite put_core_pd_twice. run_step.
    eapply runs_bind; [apply (runs_busy (cons pd))|]. apply runs_ret. }
  eapply runs_bind; [apply runs_modify_pd; eapply put_core_pd_lookup; exact Hp|].
  unfold c1. rewrite put_core_pd_twice.
  eapply runs_bind; [by apply (runs_modify_rd r _ d)|].
  eapply runs_bind; [apply runs_get_pd; eapply put_core_pd_lookup; exact Hp|].
  eapply runs_bind; [apply (runs_present (<[paddr := pd]>))|].
  eapply (runs_bind _ _ _ tt).
  - apply (runs_when iswrite _ _ (put_core_pd pd (new_pd paddr iswrite r)
      (set_present (<[paddr := pd]> (c_present c))
        (set_regs (with_heap (<[r := insert_page_descriptor pd d]> (heap (c_regs c))) (c_regs c))
          (set_busy (pd :: c_busy c) (set_free (pop_back (c_free c)) (set_mutex true c))))))).
    + intros ->.
      set (c2 := set_present (<[paddr := pd]> (c_present c))
            (set_regs (with_heap (<[r := insert_page_descriptor pd d]> (heap (c_regs c))) (c_regs c))
              (set_busy (pd :: c_busy c) (set_free (pop_back (c_free c)) (set_mutex true c))))).
      change (runs (modify_pd pd (with_dirty true)) (put_core_pd pd (new_pd paddr false r) c2) tt
                (put_core_pd pd (with_dirty true (new_pd paddr false r)) c2)).
      rewrite <- (put_core_pd_twice pd (with_dirty true _) (new_pd paddr false r) c2).
      apply runs_modify_pd. eapply put_core_pd_lookup; exact Hp.
    + intros ->. done.
  - apply dispatch_spec.
Qed.

Lemma page_present_spec paddr i p :
  c_present c !! paddr = Some i → c_array c !! i = Some p → state p = PRESENT →
  runs (page_already_present paddr) (set_mutex true c) (Some i) (set_mutex true c).
Proof.
  intros Hi Hp Hst. apply runs_get. intros e He.
  replace (m_present_pages (buf e)) with (c_present c) by (by apply (f_equal c_present) in He).
  rewrite Hi. eapply runs_bind; [apply runs_get_pd; exact Hp|].
  rewrite bool_decide_true by done. apply runs_ret.
Qed.

(** a fault on a resident page *)
Definition write_enabled (i : nat) (p : PageDescriptor) : Core :=
  dispatched i (put_core_pd i (with_state UPDATING (with_dirty true p)) c).

Definition counted (p : PageDescriptor) : PageDescriptor :=
  with_spurious_count (spurious_count p + 1) p.

Lemma fault_hit_write paddr r i p :
  c_present c !! paddr = Some i → c_array c !! i = Some p → state p = PRESENT →
  dirty p = false →
  runs (fault_body paddr true r) (set_mutex true c) tt (write_enabled i p).
Proof.
  intros Hi Hp Hst Hd. eapply runs_bind; [by eapply page_present_spec|].
  eapply runs_bind; [apply runs_get_pd; exact Hp|]. rewrite Hd. simpl.
  eapply runs_bind; [apply runs_modify_pd; exact Hp|].
  eapply runs_bind.
  { eapply runs_on_pd; [eapply put_core_pd_lookup; exact Hp|].
    unfold set_state_updating. simpl. by rewrite Hst. }
  rewrite put_core_pd_twice. apply dispatch_spec.
Qed.

Lemma fault_hit_spurious paddr w r i p :
  c_present c !! paddr = Some i → c_array c !! i = Some p → state p = PRESENT →
  w && negb (dirty p) = false →
  runs (fault_body paddr w r) (set_mutex true c) tt (put_core_pd i (counted p) c).
Proof.
  intros Hi Hp Hst Hw. eapply runs_bind; [by eapply page_present_spec|].
  eapply runs_bind; [apply runs_get_pd; exact Hp|]. rewrite Hw.
  eapply runs_bind; [apply runs_modify_pd; exact Hp|].
  eapply runs_bind.
  { apply (runs_modify_to _ _ (put_core_pd i (counted p) (set_mutex true c))).
    intros e He. case_bool_decide; exact He. }
  replace (put_core_pd i (counted p) c) with
    (set_mutex false (put_core_pd i (counted p) (set_mutex true c)))
    by (destruct c; simpl in *; by subst).
  apply runs_unlock.
Qed.

Lemma fault_wait paddr w r i p :
  c_present c !! paddr = Some i → c_array c !! i = Some p → state p ≠ PRESENT →
  blocks (fault_body paddr w r) (set_mutex true c) OnStateChange c.
Proof.
  intros Hi Hp Hst. apply blocks_first. apply blocks_get. intros e He.
  replace (m_present_pages (buf e)) with (c_present c) by (by apply (f_equal c_present) in He).
  rewrite Hi. eapply blocks_bind; [apply runs_get_pd; exact Hp|].
  rewrite bool_decide_false by done. rewrite <- (core_eta_mutex c Hm) at 2.
  apply blocks_sleep_state.
Qed.

Lemma page_absent_spec paddr :
  c_present c !! paddr = None →
  runs (page_already_present paddr) (set_mutex true c) None (set_mutex true c).
Proof.
  intros Hi. apply runs_get. intros e He.
  replace (m_present_pages (buf e)) with (c_present c) by (by apply (f_equal c_present) in He).
  rewrite Hi. apply runs_ret.
Qed.

Lemma fault_new_full paddr w r :
  c_free c = [] → blocks (fault_new paddr w r) (set_mutex true c) OnAvailPd c.
Proof.
  intros Hf. apply blocks_first, blocks_get. intros e He.
  replace (m_free_pages (buf e)) with (c_free c) by (by apply (f_equal c_free) in He).
  rewrite Hf. simpl. rewrite <- (core_eta_mutex c Hm) at 2. apply blocks_sleep_avail.
Qed.

Lemma fault_full paddr w r :
  c_present c !! paddr = None → c_free c = [] →
  blocks (fault_body paddr w r) (set_mutex true c) OnAvailPd c.
Proof.
  intros Hi Hf. eapply blocks_bind; [by apply page_absent_spec|]. by apply fault_new_full.
Qed.

Lemma fault_miss paddr w r d pd p :
  c_present c !! paddr = None →
  heap (c_regs c) !! r = Some d → back (c_free c) = Some pd →
  c_array c !! pd = Some p → state p = FREE →
  runs (fault_body paddr w r) (set_mutex true c) tt (inserted paddr w r d pd).
Proof.
  intros Hi Hd Hb Hp Hst. eapply runs_bind; [by apply page_absent_spec|].
  by eapply fault_new_spec.
Qed.
End specs.

(** *** Batch eviction *)

Lemma evict_batch_spec b c pre post :
  c_mutex c = false → NoDup (c_busy c) → Z.of_nat (length (c_busy c)) < 2 ^ 64 →
  (∀ x, x ∈ c_busy c → is_Some (c_array c !! x)) →
  cut_nth (evictable_in (c_array c)) max_num_evicted_pages (reverse (c_busy c)) = Some (pre, post) →
  runs (evict_oldest_pages b) c (filter (evictable_in (c_array c)) pre)
    (set_array (leave_all (filter (evictable_in (c_array c)) pre) (c_array c))
      (set_busy (reverse post ++ filter (negb ∘ evictable_in (c_array c)) pre) c)).
Proof.
  intros Hm Hnd Hlen Hv Hcut e He.
  assert (c_busy c ≠ []) as Hne by (intros E; rewrite E in Hcut; done).
  subst c. pose proof (evict_oldest_pages_scan e b Hm Hnd Hlen Hv Hne) as H.
  simpl in Hcut. rewrite Hcut in H. destruct H as [s Hs].
  eexists. split; [exact Hs|]. unfold core. simpl. simpl in Hm. by rewrite Hm.
Qed.

Lemma evict_batch_ub b e :
  m_mutex (buf e) = false → NoDup (m_busy_pages (buf e)) →
  Z.of_nat (length (m_busy_pages (buf e))) < 2 ^ 64 →
  (∀ x, x ∈ m_busy_pages (buf e) → is_Some (m_array (buf e) !! x)) →
  m_busy_pages (buf e) ≠ [] →
  cut_nth (evictable_in (m_array (buf e))) max_num_evicted_pages (reverse (m_busy_pages (buf e))) = None →
  evict_oldest_pages b e = UB "deque index out of range".
Proof.
  intros Hm Hnd Hlen Hv Hne Hcut.
  pose proof (evict_oldest_pages_scan e b Hm Hnd Hlen Hv Hne) as H. by rewrite Hcut in H.
Qed.

Lemma evict_batch_empty b c :
  c_mutex c = false → c_busy c = [] → runs (evict_oldest_pages b) c [] c.
Proof.
  intros Hm Hb. run_step. apply runs_get. intros e He.
  replace (m_busy_pages (buf e)) with (@nil nat)
    by (apply (f_equal c_busy) in He; simpl in He; congruence).
  eapply (runs_bind _ _ _ ([], [])); [apply runs_ret|].
  eapply runs_bind; [apply (runs_busy (λ l, l ++ []))|].
  eapply runs_bind; [apply runs_unlock|].
  replace (set_mutex false _) with c; [apply runs_ret|].
  destruct c. simpl in *. subst. done.
Qed.

(** *** Eviction of the oldest page *)

Section oldest.
Context (c : Core) (pd : nat) (p : PageDescriptor).
Hypothesis Hm : c_mutex c = false.
Hypothesis Hp : c_array c !! pd = Some p.

(** the core after the page was taken *)
Definition left_core : Core :=
  put_core_pd pd (with_state LEAVING p) (set_busy (pop_back (c_busy c)) c).

Lemma evict_normal_runs :
  state p = PRESENT → runs (evict_normal pd) (set_mutex true c) tt (set_mutex true left_core).
Proof.
  intros Sp. unfold evict_normal, wait_for_page_state.
  eapply runs_bind.
  { eapply runs_bind; [by apply runs_get_pd|]. rewrite bool_decide_true by done. apply runs_ret. }
  eapply runs_bind; [apply (runs_busy pop_back)|]. eapply runs_bind; [apply runs_stats|].
  apply (runs_on_pd pd set_state_leaving p (with_state LEAVING p)); [done|].
  unfold set_state_leaving. by rewrite Sp.
Qed.

Lemma evict_normal_blocks :
  state p ≠ PRESENT → blocks (evict_normal pd) (set_mutex true c) OnStateChange c.
Proof.
  intros Sp. apply blocks_first. eapply blocks_bind; [by apply runs_get_pd|].
  rewrite bool_decide_false by done. rewrite <- (core_eta_mutex c) at 2 by done.
  apply blocks_sleep_state.
Qed.

Lemma finish_evict_runs r :
  runs (finish_evict r) (set_mutex true left_core) r left_core.
Proof.
  eapply runs_bind; [apply runs_unlock|]. rewrite core_eta_mutex by done. apply runs_ret.
Qed.

Hypothesis Hback : back (c_busy c) = Some pd.
Hypothesis Hdef : deferred p = false.

Lemma oldest_loop_enter n e :
  core e = set_mutex true c →
  evict_oldest_loop (S n) e = (evict_normal pd ;; mret (Some pd)) e.
Proof.
  intros He. simpl. erewrite bind_run by reflexivity.
  replace (back (m_busy_pages (buf e))) with (Some pd)
    by (apply (f_equal c_busy) in He; cbn in He; by rewrite He).
  assert (get_pd pd e = Ok p e) as E
    by (apply get_pd_run; apply (f_equal c_array) in He; cbn in He; by rewrite He).
  rewrite (bind_run _ _ _ _ _ E). by rewrite Hdef.
Qed.

Lemma busy_length e : core e = set_mutex true c → ∃ n, length (m_busy_pages (buf e)) = S n.
Proof.
  intros He%(f_equal c_busy). cbn in He. rewrite He.
  destruct (c_busy c); [done|]. by eexists.
Qed.

Lemma evict_oldest_runs b :
  state p = PRESENT → runs (evict_oldest_page b) c (Some pd) left_core.
Proof.
  intros Sp. eapply runs_bind; [by apply runs_lock|]. apply runs_get. intros e He.
  eapply (runs_bind _ _ _ (Some pd)); [|apply finish_evict_runs].
  destruct (busy_length e He) as [n ->]. intros e1 He1. rewrite oldest_loop_enter by done.
  exact (runs_bind _ (λ _, mret (Some pd)) _ tt _ _ _ (evict_normal_runs Sp) (runs_ret _ _) e1 He1).
Qed.

Lemma evict_oldest_blocks b :
  state p ≠ PRESENT → blocks (evict_oldest_page b) c OnStateChange c.
Proof.
  intros Sp. eapply blocks_bind; [by apply runs_lock|]. apply blocks_get. intros e He.
  apply blocks_first. destruct (busy_length e He) as [n ->].
  intros e1 He1. rewrite oldest_loop_enter by done.
  by apply (blocks_first _ _ _ _ _ (evict_normal_blocks Sp) e1).
Qed.

Lemma evict_wake_runs :
  state p = PRESENT → runs (evict_oldest_page_wake pd false) c (Some pd) left_core.
Proof.
  intros Sp. eapply runs_bind; [by apply runs_wake_state|].
  eapply runs_bind; [by apply evict_normal_runs|]. apply finish_evict_runs.
Qed.

Lemma evict_wake_blocks :
  state p ≠ PRESENT → blocks (evict_oldest_page_wake pd false) c OnStateChange c.
Proof.
  intros Sp. eapply blocks_bind; [by apply runs_wake_state|].
  apply blocks_first. by apply evict_normal_blocks.
Qed.
End oldest.

Lemma evict_oldest_empty c b :
  c_mutex c = false → c_busy c = [] → runs (evict_oldest_page b) c None c.
Proof.
  intros Hm Hb. eapply runs_bind; [by apply runs_lock|]. apply runs_get. intros e He.
  replace (m_busy_pages (buf e)) with (@nil nat)
    by (apply (f_equal c_busy) in He; simpl in He; congruence).
  eapply (runs_bind _ _ _ None); [apply runs_get; intros; apply runs_ret|].
  eapply runs_bind; [apply runs_unlock|]. rewrite core_eta_mutex by done. apply runs_ret.
Qed.

(** *** Waiting for the evict workers *)

Lemma wait_loop_spec c :
  if bool_decide (c_evictq c = []) && bool_decide (c_ewait c = c_emax c)
  then runs (on_evict wait_for_idle_loop) c tt c else blocks (on_evict wait_for_idle_loop) c OnIdle c.
Proof.
  assert (∀ e, core e = c →
    idle (evict_wq e) = bool_decide (c_evictq c = []) && bool_decide (c_ewait c = c_emax c)) as Hi.
  { intros e <-. unfold idle. cbn. f_equal. apply bool_decide_ext. split; [by intros ?%nil_length_inv|by intros ->]. }
  destruct (_ && _) eqn:E.
  - intros e He. eexists. unfold on_evict, lift, wait_for_idle_loop.
    erewrite bind_run by reflexivity. rewrite Hi by done. by split; [reflexivity|].
  - intros e He. eexists. unfold on_evict, lift, wait_for_idle_loop.
    erewrite bind_run by reflexivity. rewrite Hi by done. by split; [reflexivity|].
Qed.

Lemma WaitAll_spec c (m : M Engine unit) :
  m = WaitAll ∨ m = WaitAll_wake →
  if bool_decide (c_evictq c = []) && bool_decide (c_ewait c = c_emax c)
  then runs m c tt c else blocks m c OnIdle c.
Proof.
  pose proof (wait_loop_spec c) as H. intros [->| ->]; destruct (_ && _); intros e He;
    unfold WaitAll, WaitAll_wake, on_evict, lift, wait_for_idle, wait_for_idle_resume;
    erewrite bind_run by reflexivity.
  - destruct (H (with_evict_wq (with_idle_waiters (m_idle_waiters (evict_wq e) + 1) (evict_wq e)) e) He)
      as (e'&E&He'). by exists e'.
  - destruct (H (with_evict_wq (with_idle_waiters (m_idle_waiters (evict_wq e) + 1) (evict_wq e)) e) He)
      as (e'&E&He'). by exists e'.
  - destruct (H (with_evict_wq (with_idle_cond (cond_return (m_idle_cond (evict_wq e))) (evict_wq e)) e) He)
      as (e'&E&He'). by exists e'.
  - destruct (H (with_evict_wq (with_idle_cond (cond_return (m_idle_cond (evict_wq e))) (evict_wq e)) e) He)
      as (e'&E&He'). by exists e'.
Qed.

(** *** Taking work *)

(** [m] takes the first item of the queue, or goes to sleep on an empty one;
    [a] tells whether the thread already counts as waiting when it starts *)
Definition takes (a : Z) (m : M (WorkQueue WorkItem) WorkItem) : Prop :=
  (∀ q w l, m_queue q = w :: l → ∃ q', m q = Ok w q' ∧ m_queue q' = l ∧
     m_waiting_workers q' = m_waiting_workers q - a ∧ m_max_waiting q' = m_max_waiting q) ∧
  (∀ q, m_queue q = [] → ∃ q', m q = Block OnQueue q' ∧ m_queue q' = [] ∧
     m_waiting_workers q' = m_waiting_workers q + 1 - a ∧ m_max_waiting q' = m_max_waiting q).

Lemma dequeue_loop_takes : takes 1 dequeue_loop.
Proof.
  split.
  - intros q w l Hq. unfold dequeue_loop, mbind, M_bind, modify, get. rewrite Hq.
    eexists. by split.
  - intros q Hq. unfold dequeue_loop. erewrite bind_run by reflexivity. rewrite Hq.
    destruct (_ && _); simpl when; (eexists; split_and!; [reflexivity|done|simpl; lia|done]).
Qed.

Lemma get_work_takes : takes 0 get_work.
Proof.
  destruct dequeue_loop_takes as [H1 H2]. split.
  - intros q w l Hq. destruct (H1 (with_waiting (m_waiting_workers q + 1) q) w l Hq)
      as (q'&E&?&Hw&?). exists q'. split_and!; try done. simpl in Hw. lia.
  - intros q Hq. destruct (H2 (with_waiting (m_waiting_workers q + 1) q) Hq) as (q'&E&?&Hw&?).
    exists q'. split_and!; try done. simpl in Hw. lia.
Qed.

Lemma resume_takes : takes 1 dequeue_resume.
Proof.
  destruct dequeue_loop_takes as [H1 H2].
  split; intros; [by eapply (H1 (with_cond _ q))|by eapply (H2 (with_cond _ q))].
Qed.

Section take.
Context (a : Z) (m : M (WorkQueue WorkItem) WorkItem) (c : Core) (w : WorkItem) (l : list WorkItem).
Hypothesis Hm : takes a m.

Lemma lift_runs proj upd c' :
  (∀ e q, core e = c → m_queue q = l → m_waiting_workers q = m_waiting_workers (proj e) - a →
     m_max_waiting q = m_max_waiting (proj e) → core (upd q e) = c') →
  (∀ e, core e = c → m_queue (proj e) = w :: l) →
  runs (lift proj upd m) c w c'.
Proof.
  intros Hupd Hq e He. destruct (proj1 Hm (proj e) w l (Hq e He)) as (q&E&Hl&?&?).
  exists (upd q e). unfold lift. rewrite E. eauto.
Qed.

Lemma lift_blocks {proj upd c'} :
  (∀ e q, core e = c → m_queue q = [] → m_waiting_workers q = m_waiting_workers (proj e) + 1 - a →
     m_max_waiting q = m_max_waiting (proj e) → core (upd q e) = c') →
  (∀ e, core e = c → m_queue (proj e) = []) →
  blocks (lift proj upd m) c OnQueue c'.
Proof.
  intros Hupd Hq e He. destruct (proj2 Hm (proj e) (Hq e He)) as (q&E&Hl&?&?).
  exists (upd q e). unfold lift. rewrite E. eauto.
Qed.

Lemma take_fill : c_fillq c = w :: l → runs (on_fill m) c w (set_fillq l c).
Proof. intros Hq. apply lift_runs; intros; subst; done. Qed.
Lemma take_fill_empty : c_fillq c = [] → blocks (on_fill m) c OnQueue c.
Proof. intros Hq. apply lift_blocks; intros e; [|by intros <-]. intros q <- E _ _. unfold core. simpl. by rewrite E, <- Hq. Qed.
Lemma take_mgr : c_mgrq c = w :: l → runs (on_mgr m) c w (set_mgrq l c).
Proof. intros Hq. apply lift_runs; intros; subst; done. Qed.
Lemma take_mgr_empty : c_mgrq c = [] → blocks (on_mgr m) c OnQueue c.
Proof. intros Hq. apply lift_blocks; intros e; [|by intros <-]. intros q <- E _ _. unfold core. simpl. by rewrite E, <- Hq. Qed.
Lemma take_evict :
  c_evictq c = w :: l → runs (on_evict m) c w (set_ewait (c_ewait c - a) (set_evictq l c)).
Proof.
  intros Hq. apply lift_runs; [|by intros e <-]. intros e q <- <- Hw Hx. unfold core. simpl.
  by rewrite Hw, Hx.
Qed.
Lemma take_evict_empty :
  c_evictq c = [] → blocks (on_evict m) c OnQueue (set_ewait (c_ewait c + 1 - a) c).
Proof.
  intros Hq. apply lift_blocks; intros e; [|by intros <-]. intros q <- E Hw Hx. unfold core. simpl.
  by rewrite E, Hw, Hx, <- Hq.
Qed.
End take.
