(* ===== verification/BufferInv.v ===== *)
(** * The page bookkeeping invariant

    Every descriptor is in exactly one place: on the free list, in the busy
    deque, or in the hands of the evictors ([he]); those being filled or updated
    are exactly the ones in the hands of the fillers ([hf]); the map of present
    pages and the regions' sets of active pages are the inverse images of the
    descriptors' [page] and [region] members.  The effect of every buffer
    operation, as BufferSpec.v states it, preserves the invariant. *)

From stdpp Require Import base list numbers strings gmap.
From S2P Require Import Prelude PageDescriptor WorkQueue Store RegionDescriptor RegionMap.
From S2P Require Import Config Engine Buffer Eviction Uffd BufferSpec.
Local Open Scope Z_scope.

Definition filling (s : State) : Prop := s = FILLING ∨ s = UPDATING.

#[export] Instance filling_dec s : Decision (filling s).
Proof. unfold filling. apply _. Defined.

(** ** Geometry of the regions *)

Section geometry.
Context (psize : nat) (cap : nat → Z).
Abbreviation psz := (Z.of_nat psize).

(** [a] is the address of a page of the region *)
Definition region_page (d : RegionDescriptor) (a : Z) : Prop :=
  contains d a ∧ page_offset psz (cap (m_store d)) (a - start d).

Record regs_ok (rm : RegionMap) : Prop := {
  ro_wf : rm_wf rm;
  ro_live : ∀ r d, heap rm !! r = Some d → ∃ k, (k, r) ∈ m_active_regions rm;
  ro_geom : ∀ r d, heap rm !! r = Some d →
    0 ≤ start d ∧ end_ d ≤ 2 ^ 64 ∧ start d mod psz = 0 ∧ size d mod psz = 0 ∧
    size d ≤ cap (m_store d);
  ro_store : ∀ r d r' d', heap rm !! r = Some d → heap rm !! r' = Some d' →
    m_store d = m_store d' → r = r'
}.

Lemma wf_list_active h l r d s :
  wf_list h l → h !! r = Some d → wf_list (<[r := with_active s d]> h) l.
Proof.
  intros Hwf Hr. induction Hwf as [|k r' rd l Hr' Hst Hsz Hsep Hwf IH]; [constructor|].
  destruct (decide (r' = r)) as [->|Hne].
  - simplify_eq. eapply wf_cons; [apply lookup_insert_eq|done|done|done|done].
  - eapply wf_cons; [by rewrite lookup_insert_ne|done|done|done|done].
Qed.

Lemma regs_ok_active rm r d s :
  regs_ok rm → heap rm !! r = Some d →
  regs_ok (with_heap (<[r := with_active s d]> (heap rm)) rm).
Proof.
  intros [[Hwf Hlast] Hlive Hgeom Hstore] Hr.
  assert (∀ r' d', <[r := with_active s d]> (heap rm) !! r' = Some d' →
    ∃ d0, heap rm !! r' = Some d0 ∧ start d' = start d0 ∧ size d' = size d0 ∧ m_store d' = m_store d0)
    as Hd.
  { intros r' d' [[-> <-]|[_ ?]]%lookup_insert_Some; eauto. }
  split; simpl.
  - split; [by apply wf_list_active|done].
  - intros r' d' (d0&?&_)%Hd. eauto.
  - intros r' d' (d0&?&E1&E2&E3)%Hd. unfold end_. rewrite E1, E2, E3. by eapply Hgeom.
  - intros r1 d1 r2 d2 (?&?&_&_&E1)%Hd (?&?&_&_&E2)%Hd. rewrite E1, E2. by eapply Hstore.
Qed.

Lemma regs_ok_last rm i : regs_ok rm → rm_wf (with_last_iter i rm) → regs_ok (with_last_iter i rm).
Proof. intros [? ? ? ?] ?. by split. Qed.

Lemma region_unique rm r d r' d' a :
  regs_ok rm → heap rm !! r = Some d → heap rm !! r' = Some d' →
  contains d a → contains d' a → r = r'.
Proof.
  intros [[Hwf _] Hlive _ _] Hr Hr' Hc Hc'.
  destruct (Hlive _ _ Hr) as [k Hk]. destruct (Hlive _ _ Hr') as [k' Hk'].
  by eapply unique_container.
Qed.

(** an aligned address of a region is one of its pages *)
Lemma aligned_region_page rm r d a :
  (0 < psize)%nat → regs_ok rm → heap rm !! r = Some d → contains d a → a mod psz = 0 →
  region_page d a.
Proof.
  intros Hp Hok Hr Hc Ha. destruct (ro_geom _ Hok _ _ Hr) as (?&?&Hs&Hn&Hcap).
  split; [done|]. unfold contains, end_ in Hc.
  apply Z.mod_divide in Ha as [x Hx]; [|lia]. apply Z.mod_divide in Hs as [y Hy]; [|lia].
  apply Z.mod_divide in Hn as [z Hz]; [|lia]. split_and!; [lia| |].
  - assert (x - y < z) by nia. nia.
  - replace (a - start d) with ((x - y) * psz) by lia. apply Z.mod_mul. lia.
Qed.

Lemma region_page_store_offset rm r d a :
  regs_ok rm → heap rm !! r = Some d → region_page d a →
  store_offset d a = Some (a - start d).
Proof.
  intros Hok Hr [Hc _]. destruct (ro_geom _ Hok _ _ Hr) as (?&?&_). by apply store_offset_in.
Qed.

(** ** The invariant *)

Definition pd_ok (c : Core) (hf he : list nat) (i : nat) (p : PageDescriptor) : Prop :=
  (state p = FREE ↔ i ∈ c_free c) ∧
  (state p = LEAVING ↔ i ∈ he) ∧
  (filling (state p) ↔ i ∈ hf) ∧
  (state p ≠ FREE →
     deferred p = false ∧ c_present c !! page p = Some i ∧
     ∃ r d, region p = Some r ∧ heap (c_regs c) !! r = Some d ∧
       i ∈ m_active_pages d ∧ region_page d (page p)).

Record binv (c : Core) (hf he : list nat) : Prop := {
  b_mutex : c_mutex c = false;
  b_part : c_free c ++ c_busy c ++ he ≡ₚ seq 0 (length (c_array c));
  b_hf : NoDup hf;
  b_hf_valid : ∀ i, i ∈ hf → is_Some (c_array c !! i);
  b_pd : ∀ i p, c_array c !! i = Some p → pd_ok c hf he i p;
  b_pres : ∀ a i, c_present c !! a = Some i →
    ∃ p, c_array c !! i = Some p ∧ state p ≠ FREE ∧ page p = a;
  b_act : ∀ r d i, heap (c_regs c) !! r = Some d → i ∈ m_active_pages d →
    ∃ p, c_array c !! i = Some p ∧ state p ≠ FREE ∧ region p = Some r;
  b_regs : regs_ok (c_regs c)
}.

#[export] Instance binv_proper c : Proper ((≡ₚ) ==> (≡ₚ) ==> iff) (binv c).
Proof.
  assert (∀ hf hf' he he', hf ≡ₚ hf' → he ≡ₚ he' → binv c hf he → binv c hf' he') as H.
  { intros hf hf' he he' Hf He [? Hpart ? Hv Hpd ? ? ?]. split; try done.
    - by rewrite <- He.
    - by rewrite <- Hf.
    - intros i. rewrite <- Hf. apply Hv.
    - intros i p Hp. destruct (Hpd i p Hp) as (?&?&?&?). unfold pd_ok. by rewrite <- Hf, <- He. }
  intros hf hf' Hf he he' He. split; apply H; done.
Qed.

Section facts.
Context (c : Core) (hf he : list nat).
Hypothesis Hinv : binv c hf he.

Lemma binv_nodup : NoDup (c_free c ++ c_busy c ++ he).
Proof. rewrite (b_part _ _ _ Hinv). apply NoDup_seq. Qed.

Lemma binv_valid i : i ∈ c_free c ++ c_busy c ++ he ↔ is_Some (c_array c !! i).
Proof. rewrite (b_part _ _ _ Hinv), elem_of_seq, lookup_lt_is_Some. lia. Qed.

Lemma binv_free_pd i : i ∈ c_free c → ∃ p, c_array c !! i = Some p ∧ state p = FREE.
Proof.
  intros Hi. destruct (proj1 (binv_valid i)) as [p Hp]; [rewrite elem_of_app; auto|].
  exists p. split; [done|]. by apply (b_pd _ _ _ Hinv i p Hp).
Qed.

Lemma binv_leaving_pd i : i ∈ he → ∃ p, c_array c !! i = Some p ∧ state p = LEAVING.
Proof.
  intros Hi. destruct (proj1 (binv_valid i)) as [p Hp]; [rewrite !elem_of_app; auto|].
  exists p. split; [done|]. by apply (b_pd _ _ _ Hinv i p Hp).
Qed.

Lemma binv_filling_pd i : i ∈ hf → ∃ p, c_array c !! i = Some p ∧ filling (state p).
Proof.
  intros Hi. destruct (b_hf_valid _ _ _ Hinv i Hi) as [p Hp].
  exists p. split; [done|]. by apply (b_pd _ _ _ Hinv i p Hp).
Qed.

(** distinct descriptors in use hold distinct pages *)
Lemma binv_page_inj i p j q :
  c_array c !! i = Some p → c_array c !! j = Some q → state p ≠ FREE → state q ≠ FREE →
  page p = page q → i = j.
Proof.
  intros Hp Hq Sp Sq E. destruct (b_pd _ _ _ Hinv i p Hp) as (_&_&_&H1).
  destruct (b_pd _ _ _ Hinv j q Hq) as (_&_&_&H2).
  destruct (H1 Sp) as (_&E1&_). destruct (H2 Sq) as (_&E2&_). rewrite E in E1. congruence.
Qed.

Lemma binv_pd_region i p :
  c_array c !! i = Some p → state p ≠ FREE →
  ∃ r d, region p = Some r ∧ heap (c_regs c) !! r = Some d ∧ region_page d (page p).
Proof.
  intros Hp Sp. destruct (b_pd _ _ _ Hinv i p Hp) as (_&_&_&H1).
  destruct (H1 Sp) as (_&_&r&d&?&?&?&?). eauto.
Qed.
End facts.

(** ** Preservation *)

(** the general step: a descriptor in use changes its state, and with it the
    hands it is in *)
Lemma binv_restate c hf he hf' he' busy' i p p' :
  binv c hf he → c_array c !! i = Some p → state p ≠ FREE → state p' ≠ FREE →
  page p' = page p → region p' = region p → deferred p' = deferred p →
  c_free c ++ busy' ++ he' ≡ₚ seq 0 (length (c_array c)) → NoDup hf' →
  (state p' = LEAVING ↔ i ∈ he') → (filling (state p') ↔ i ∈ hf') →
  (∀ j, j ≠ i → (j ∈ he' ↔ j ∈ he)) → (∀ j, j ≠ i → (j ∈ hf' ↔ j ∈ hf)) →
  binv (set_busy busy' (put_core_pd i p' c)) hf' he'.
Proof.
  intros [Hm Hpart Hnd Hv Hpd Hpres Hact Hregs] Hp Sp Sp' Epg Erg Edf Hpart' Hnd' Hl Hf Hle Hfe.
  pose proof (lookup_lt_Some _ _ _ Hp) as Hlt.
  assert (∀ j q, <[i := p']> (c_array c) !! j = Some q → state q ≠ FREE →
    ∃ q0, c_array c !! j = Some q0 ∧ state q0 ≠ FREE ∧ page q = page q0 ∧ region q = region q0) as Hback.
  { intros j q [(<-&<-&_)|[_ ?]]%list_lookup_insert_Some ?; eauto 10. }
  assert (∀ j q0, c_array c !! j = Some q0 → state q0 ≠ FREE →
    ∃ q, <[i := p']> (c_array c) !! j = Some q ∧ state q ≠ FREE ∧ page q = page q0 ∧ region q = region q0) as Hforth.
  { intros j q0 Hj Sq. destruct (decide (j = i)) as [->|Hne].
    - simplify_eq. exists p'. by rewrite list_lookup_insert_eq.
    - exists q0. by rewrite list_lookup_insert_ne. }
  split; simpl; try done.
  - by rewrite length_insert.
  - intros j Hj. apply lookup_lt_is_Some. rewrite length_insert. apply lookup_lt_is_Some.
    destruct (decide (j = i)) as [->|Hne]; [by eexists|]. apply Hv, Hfe; done.
  - intros j q [(<-&<-&_)|[Hne Hq]]%list_lookup_insert_Some.
    + destruct (Hpd i p Hp) as (H1&_&_&H4). split_and!; simpl; [|done|done|].
      * split; [done|]. intros ?%H1. done.
      * intros _. rewrite Epg, Erg, Edf. by apply H4.
    + destruct (Hpd j q Hq) as (?&?&?&?). split_and!; simpl; [done|..].
      * by rewrite Hle.
      * by rewrite Hfe.
      * done.
  - intros a j (q0&Hq0&Sq0&<-)%Hpres. destruct (Hforth j q0 Hq0 Sq0) as (q&?&?&?&?). eauto.
  - intros r d j Hr Hj. destruct (Hact r d j Hr Hj) as (q0&Hq0&Sq0&Hrq).
    destruct (Hforth j q0 Hq0 Sq0) as (q&?&?&?&?). exists q. by split_and!; congruence.
Qed.

Lemma set_busy_same c : set_busy (c_busy c) c = c.
Proof. by destruct c. Qed.

(** a member that plays no role in the bookkeeping changes *)
Lemma binv_put_same c hf he i p p' :
  binv c hf he → c_array c !! i = Some p → state p ≠ FREE →
  page p' = page p → region p' = region p → deferred p' = deferred p → state p' = state p →
  binv (put_core_pd i p' c) hf he.
Proof.
  intros Hinv Hp Sp E1 E2 E3 E4. rewrite <- (set_busy_same (put_core_pd i p' c)).
  destruct (b_pd _ _ _ Hinv i p Hp) as (_&H2&H3&_).
  eapply binv_restate; try done; try congruence; rewrite ?E4; try done; apply Hinv.
Qed.

(** [mark_page_as_present] *)
Lemma binv_present c hf he i p :
  binv c (i :: hf) he → c_array c !! i = Some p →
  binv (put_core_pd i (with_state PRESENT p) c) hf he.
Proof.
  intros Hinv Hp. rewrite <- (set_busy_same (put_core_pd i _ c)).
  destruct (b_pd _ _ _ Hinv i p Hp) as (_&H2&H3&_).
  assert (filling (state p)) as Sp by (apply H3; set_solver).
  pose proof (b_hf _ _ _ Hinv) as [Hi Hnd]%NoDup_cons.
  eapply binv_restate; try done; simpl.
  - intros E. rewrite E in Sp. by destruct Sp.
  - apply Hinv.
  - split; [done|]. intros ?%H2. rewrite H in Sp. by destruct Sp.
  - split; [by intros [?|?]|done].
  - set_solver.
Qed.

(** a write fault on a clean resident page *)
Lemma binv_update c hf he i p d :
  binv c hf he → c_array c !! i = Some p → state p = PRESENT →
  binv (put_core_pd i (with_state UPDATING (with_dirty d p)) c) (i :: hf) he.
Proof.
  intros Hinv Hp Sp. rewrite <- (set_busy_same (put_core_pd i _ c)).
  destruct (b_pd _ _ _ Hinv i p Hp) as (_&H2&H3&_).
  assert (i ∉ hf) as Hi by (intros [?|?]%H3; congruence).
  eapply binv_restate; try done; simpl.
  - congruence.
  - apply Hinv.
  - apply NoDup_cons. split; [done|apply Hinv].
  - split; [done|]. intros ?%H2. congruence.
  - split; [set_solver|]. intros _. by right.
  - set_solver.
Qed.

(** one page of an eviction batch *)
Lemma binv_leave c hf he i p busy' :
  binv c hf he → c_array c !! i = Some p → state p = PRESENT →
  c_busy c ≡ₚ i :: busy' →
  binv (set_busy busy' (put_core_pd i (with_state LEAVING p) c)) hf (i :: he).
Proof.
  intros Hinv Hp Sp Hb. destruct (b_pd _ _ _ Hinv i p Hp) as (_&H2&H3&_).
  eapply binv_restate; try done; simpl.
  - congruence.
  - rewrite <- (b_part _ _ _ Hinv), Hb. simpl. by rewrite <- Permutation_middle.
  - apply Hinv.
  - split; [set_solver|done].
  - split; [by intros [?|?]|]. intros [?|?]%H3; congruence.
  - set_solver.
Qed.

Lemma binv_busy_perm c hf he busy' :
  binv c hf he → c_busy c ≡ₚ busy' → binv (set_busy busy' c) hf he.
Proof. intros [? Hpart ? ? Hpd ? ? ?] Hb. split; try done. simpl. by rewrite <- Hb. Qed.

Lemma binv_leave_all c hf he l busy' :
  binv c hf he → c_busy c ≡ₚ l ++ busy' →
  (∀ i, i ∈ l → evictable_in (c_array c) i = true) →
  binv (set_array (leave_all l (c_array c)) (set_busy busy' c)) hf (l ++ he).
Proof.
  revert c he. induction l as [|i l IH]; intros c he Hinv Hb Hev; simpl.
  - replace (set_array _ _) with (set_busy busy' c) by by destruct c.
    by apply binv_busy_perm.
  - assert (evictable_in (c_array c) i = true) as Hi by (apply Hev; set_solver).
    unfold evictable_in in Hi. destruct (c_array c !! i) as [p|] eqn:Hp; [|done].
    unfold evictable in Hi. apply andb_prop in Hi as [_ Sp%bool_decide_eq_true].
    pose proof (binv_leave c hf he i p (l ++ busy') Hinv Hp Sp Hb) as Hinv1.
    assert (i ∉ l) as Hil.
    { pose proof (binv_nodup _ _ _ Hinv) as Hnd. rewrite Hb in Hnd.
      apply NoDup_app in Hnd as (_&_&Hnd). simpl in Hnd.
      apply NoDup_cons in Hnd as [Hnd _]. set_solver. }
    rewrite Permutation_middle.
    assert (leave_all l (leave i (c_array c)) =
      leave_all l (c_array (put_core_pd i (with_state LEAVING p) c))) as ->.
    { unfold leave. by rewrite Hp. }
    eapply (IH (set_busy (l ++ busy') (put_core_pd i (with_state LEAVING p) c))) in Hinv1; [|done|].
    + done.
    + intros j Hj. unfold evictable_in. simpl.
      rewrite list_lookup_insert_ne by (intros ->; done). apply Hev. set_solver.
Qed.

(** the queues are not part of the bookkeeping *)
Lemma binv_queues c hf he q1 q2 q3 v :
  binv c hf he → binv (set_ewait v (set_fillq q1 (set_mgrq q2 (set_evictq q3 c)))) hf he.
Proof. by intros [? ? ? ? ? ? ? ?]. Qed.

Lemma binv_fillq c hf he q : binv c hf he → binv (set_fillq q c) hf he.
Proof. by intros [? ? ? ? ? ? ? ?]. Qed.
Lemma binv_mgrq c hf he q : binv c hf he → binv (set_mgrq q c) hf he.
Proof. by intros [? ? ? ? ? ? ? ?]. Qed.
Lemma binv_evictq c hf he q : binv c hf he → binv (set_evictq q c) hf he.
Proof. by intros [? ? ? ? ? ? ? ?]. Qed.

Lemma binv_dispatched c hf he i :
  binv (set_mutex false c) hf he → binv (dispatched i c) hf he.
Proof. intros [Hm ? ? ? ? ? ? ?]. split; try done. Qed.

Lemma binv_last_iter c hf he i :
  binv c hf he → rm_wf (with_last_iter i (c_regs c)) →
  binv (set_regs (with_last_iter i (c_regs c)) c) hf he.
Proof. intros [? ? ? ? ? ? ? ?] Hwf. split; try done. by apply regs_ok_last. Qed.

(** [mark_page_as_free] *)
Lemma binv_freed c hf he i p r d :
  binv c hf (i :: he) → c_array c !! i = Some p → region p = Some r →
  heap (c_regs c) !! r = Some d →
  binv (freed c i p r d) hf he.
Proof.
  intros Hinv Hp Hr Hd. pose proof (binv_nodup _ _ _ Hinv) as Hnd.
  pose proof (binv_page_inj _ _ _ Hinv) as Hinj.
  destruct Hinv as [Hm Hpart Hndf Hv Hpd Hpres Hact Hregs].
  destruct (Hpd i p Hp) as (Hi1&Hi2&Hi3&Hi4).
  assert (state p = LEAVING) as Sp by (apply Hi2; set_solver).
  destruct Hi4 as (Hdef&Hpg&_); [congruence|].
  assert (i ∉ he ∧ i ∉ c_free c) as [Hihe Hifree].
  { clear -Hnd. rewrite app_assoc, <- Permutation_middle in Hnd.
    apply NoDup_cons in Hnd as [Hnd _]. set_solver. }
  assert (∀ j q, j ≠ i → <[i := freed_pd p]> (c_array c) !! j = Some q ↔ c_array c !! j = Some q) as Harr.
  { intros j q Hne. by rewrite list_lookup_insert_ne. }
  unfold freed. rewrite Hdef. split; simpl; try done.
  - rewrite length_insert, <- Hpart, <- app_assoc.
    apply Permutation_app_head. simpl. by rewrite Permutation_middle.
  - intros j Hj. apply lookup_lt_is_Some. rewrite length_insert. by apply lookup_lt_is_Some, Hv.
  - intros j q [(<-&<-&_)|[Hne Hq]]%list_lookup_insert_Some.
    + split_and!; simpl; [set_solver|set_solver| |done].
      split; [by intros [?|?]|]. intros [?|?]%Hi3; congruence.
    + destruct (Hpd j q Hq) as (H1&H2&H3&H4). split_and!; simpl; [set_solver|set_solver|done|].
      intros Sq. destruct (H4 Sq) as (Hdq&Hpq&r'&d'&Hr'&Hd'&Ha&Hpage). split_and!; [done| |].
      * rewrite lookup_delete_ne; [done|]. intros E. apply Hne. symmetry.
        eapply Hinj; try done. congruence.
      * destruct (decide (r' = r)) as [->|Hner].
        -- assert (d' = d) as -> by congruence. exists r, (erase_page_descriptor i d). rewrite lookup_insert_eq.
           split_and!; [done|done|set_solver|done].
        -- exists r', d'. by rewrite lookup_insert_ne.
  - intros a j [Ha Hj]%lookup_delete_Some. destruct (Hpres a j Hj) as (q&Hq&Sq&<-).
    exists q. split_and!; [|done|done]. apply Harr; [|done]. intros ->. simplify_eq.
  - intros r' d' j [[<- <-]|[Hner Hd']]%lookup_insert_Some Hj.
    + simpl in Hj. destruct (Hact r d j Hd) as (q&Hq&Sq&Hrq); [set_solver|].
      exists q. split_and!; [|done|done]. apply Harr; [|done]. set_solver.
    + destruct (Hact r' d' j Hd' Hj) as (q&Hq&Sq&Hrq).
      exists q. split_and!; [|done|done]. apply Harr; [|done]. intros ->. simplify_eq.
  - by apply regs_ok_active.
Qed.

(** a page fault on a page that is not there *)
Lemma binv_inserted c hf he a w r d i :
  binv c hf he → heap (c_regs c) !! r = Some d → region_page d a →
  c_present c !! a = None → back (c_free c) = Some i →
  binv (inserted c a w r d i) (i :: hf) he.
Proof.
  intros Hinv Hd Ha Habs Hb. pose proof (binv_nodup _ _ _ Hinv) as Hnd.
  apply back_Some_inv in Hb.
  assert (i ∈ c_free c) as Hifree by (rewrite Hb; set_solver).
  destruct (binv_free_pd _ _ _ Hinv i Hifree) as (p&Hp&Sp).
  pose proof (lookup_lt_Some _ _ _ Hp) as Hlt.
  destruct Hinv as [Hm Hpart Hndf Hv Hpd Hpres Hact Hregs].
  destruct (Hpd i p Hp) as (_&Hi2&Hi3&_).
  assert (i ∉ hf) as Hihf by (intros [?|?]%Hi3; congruence).
  assert (i ∉ he) as Hihe by (intros ?%Hi2; congruence).
  assert (i ∉ pop_back (c_free c)) as Hipop.
  { rewrite Hb in Hnd. apply NoDup_app in Hnd as (Hnd&_). apply NoDup_app in Hnd as (_&Hnd&_).
    intros Hin. apply (Hnd i Hin). set_solver. }
  assert (∀ j, j ≠ i → j ∈ pop_back (c_free c) ↔ j ∈ c_free c) as Hpop.
  { intros j Hne. rewrite Hb at 2. set_solver. }
  apply binv_dispatched. split; simpl; try done.
  - rewrite length_insert, <- Hpart. rewrite Hb at 2. rewrite <- app_assoc. simpl.
    by rewrite <- Permutation_middle.
  - by apply NoDup_cons.
  - intros j Hj. apply lookup_lt_is_Some. rewrite length_insert.
    apply elem_of_cons in Hj as [->|Hj]; [done|]. by apply lookup_lt_is_Some, Hv.
  - intros j q [(<-&<-&_)|[Hne Hq]]%list_lookup_insert_Some.
    + split_and!; simpl; [done|done|split; [set_solver|by left]|]. intros _.
      split_and!; [done|apply lookup_insert_eq|]. exists r, (insert_page_descriptor i d).
      rewrite lookup_insert_eq. split_and!; [done|done|set_solver|done].
    + destruct (Hpd j q Hq) as (H1&H2&H3&H4). split_and!; simpl; [|done|set_solver|].
      { by rewrite Hpop by done. }
      intros Sq. destruct (H4 Sq) as (Hdq&Hpq&r'&d'&Hr'&Hd'&Hact'&Hpage). split_and!; [done| |].
      * rewrite lookup_insert_ne; [done|]. intros ->. congruence.
      * destruct (decide (r' = r)) as [->|Hner].
        -- assert (d' = d) as -> by congruence. exists r, (insert_page_descriptor i d). rewrite lookup_insert_eq.
           split_and!; [done|done|set_solver|done].
        -- exists r', d'. by rewrite lookup_insert_ne.
  - intros a' j [[<- <-]|[Hne Hj]]%lookup_insert_Some.
    + exists (new_pd a w r). by rewrite list_lookup_insert_eq.
    + destruct (Hpres a' j Hj) as (q&Hq&Sq&<-). exists q. split_and!; [|done|done].
      rewrite list_lookup_insert_ne; [done|]. intros ->. congruence.
  - intros r' d' j [[<- <-]|[Hner Hd']]%lookup_insert_Some Hj.
    + simpl in Hj. destruct (decide (j = i)) as [->|Hne].
      * exists (new_pd a w r). by rewrite list_lookup_insert_eq.
      * destruct (Hact r d j Hd) as (q&Hq&Sq&Hrq); [set_solver|].
        exists q. by rewrite list_lookup_insert_ne.
    + destruct (Hact r' d' j Hd' Hj) as (q&Hq&Sq&Hrq).
      exists q. split_and!; [|done|done]. rewrite list_lookup_insert_ne; [done|]. intros ->. congruence.
  - by apply regs_ok_active.
Qed.
End geometry.
