(* ===== verification/System.v ===== *)
(** * The running engine: faults, fills and evictions as a transition system

    The threads [addRegion] starts (the fault handler, the fill workers, the
    eviction manager and the evict workers) with the application's stores, each
    thread advancing by the atomic pieces of Workers.v, Buffer.v and Uffd.v in
    any order.  A thread that sleeps on a condition variable may be woken at any
    time, as POSIX allows, so the properties hold under every schedule.  The
    active regions are fixed, there is no concurrent [umap_prefetch] or
    [umap_flush], and the build is the one with write protection.

    The application ends with [uunmap] of the last region, whose eviction of
    all pages ([EvictManager::EvictAll]) runs against the workers.  It may call
    it when no thread uses the region any more: no fault is pending, the
    eviction manager is idle, and nobody stores into the region afterwards.

    [ghost] is the specification: a flat memory that only the application's
    stores change.  It is what a load of a resident page must see and what the
    stores must hold for pages that are not resident. *)

From stdpp Require Import base list numbers strings gmap.
From Stdlib Require Import Strings.Byte.
From S2P Require Import Prelude PageDescriptor WorkQueue Store RegionDescriptor RegionMap.
From S2P Require Import Config Engine Buffer Eviction Uffd Workers BufferSpec BufferInv.
Local Open Scope Z_scope.

(** ** Program counters *)

Inductive UffdPc :=
| URun (l : list (bool * Z))                                (* events still to process *)
| UFault (a : Z) (w : bool) (r : nat) (l : list (bool * Z)) (* region found *)
| UWaitState (a : Z) (w : bool) (r : nat) (l : list (bool * Z))
| UWaitAvail (a : Z) (w : bool) (r : nat) (l : list (bool * Z)).

(** every filler owns its [copyin_buf] *)
Inductive FillPc :=
| FIdle (buf : bytes)
| FAsleep (buf : bytes)
| FGot (w : WorkItem) (buf : bytes)
| FRead (pd : nat) (buf : bytes)
| FDone (pd : nat) (buf : bytes)
| FExit.

Inductive MgrPc := MIdle | MAsleep | MLoop | MSend (l : list nat) | MExit.

Inductive EvictPc :=
| EIdle
| EAsleep
| EGot (w : WorkItem)
| EProt (t : WorkType) (pd : nat)
| EWrote (t : WorkType) (pd : nat)
| EClean (t : WorkType) (pd : nat)
| EGone (t : WorkType) (pd : nat)
| EExit.

(** the application thread: using the memory, or inside [EvictAll] *)
Inductive AppPc :=
| ARun
| AEvict                            (* about to call [evict_oldest_page] *)
| AWait (pd : nat) (deferred : bool) (* asleep in it, waiting for the page *)
| AGot (pd : nat)                   (* it returned the page *)
| AIdle                             (* about to wait for the evict workers *)
| AIdleAsleep
| ADone.

#[export] Instance AppPc_eq_dec : EqDecision AppPc.
Proof. solve_decision. Defined.

Record Sys (O St : Type) := mkSys {
  world : World O St;
  upc : UffdPc;
  fpcs : list FillPc;
  mpc : MgrPc;
  epcs : list EvictPc;
  apc : AppPc;
  ghost : Z → bytes
}.
Arguments mkSys {O St}.
Arguments world {O St}.
Arguments upc {O St}.
Arguments fpcs {O St}.
Arguments mpc {O St}.
Arguments epcs {O St}.
Arguments apc {O St}.
Arguments ghost {O St}.

Inductive thread :=
| TBatch (msgs : list uffd_msg)          (* the handler reads a batch of messages *)
| TUffd (contended : bool)
| TFill (contended : bool) (k : nat)
| TMgr (contended : bool)
| TEvict (contended : bool) (k : nat)
| TStore (a : Z) (data : bytes)          (* the application stores into a page *)
| TUnmap (contended : bool).             (* the application unmaps the region *)

Section run.
Context {O St : Type} `{UffdOS O} `{StoreBank St} (psize : nat).
Abbreviation Sys := (Sys O St).

Definition with_world (w : World O St) (s : Sys) : Sys :=
  mkSys w (upc s) (fpcs s) (mpc s) (epcs s) (apc s) (ghost s).
Definition with_upc (u : UffdPc) (s : Sys) : Sys :=
  mkSys (world s) u (fpcs s) (mpc s) (epcs s) (apc s) (ghost s).
Definition with_fpcs (l : list FillPc) (s : Sys) : Sys :=
  mkSys (world s) (upc s) l (mpc s) (epcs s) (apc s) (ghost s).
Definition with_mpc (m : MgrPc) (s : Sys) : Sys :=
  mkSys (world s) (upc s) (fpcs s) m (epcs s) (apc s) (ghost s).
Definition with_epcs (l : list EvictPc) (s : Sys) : Sys :=
  mkSys (world s) (upc s) (fpcs s) (mpc s) l (apc s) (ghost s).
Definition with_ghost (g : Z → bytes) (s : Sys) : Sys :=
  mkSys (world s) (upc s) (fpcs s) (mpc s) (epcs s) (apc s) g.
Definition with_apc (a : AppPc) (s : Sys) : Sys :=
  mkSys (world s) (upc s) (fpcs s) (mpc s) (epcs s) a (ghost s).

Definition on_world {A} (m : M (World O St) A) : M Sys A := zoom world with_world m.
Definition set_upc (u : UffdPc) : M Sys unit := modify (with_upc u).
Definition set_fpc (k : nat) (pc : FillPc) : M Sys unit :=
  modify (λ s, with_fpcs (<[k := pc]> (fpcs s)) s).
Definition set_mpc (m : MgrPc) : M Sys unit := modify (with_mpc m).
Definition set_apc (a : AppPc) : M Sys unit := modify (with_apc a).
Definition set_epc (k : nat) (pc : EvictPc) : M Sys unit :=
  modify (λ s, with_epcs (<[k := pc]> (epcs s)) s).

(** a thread that goes to sleep continues at the program counter [slept] *)
Definition or_sleep {A} (m : M Sys A) (k : A → M Sys unit)
    (slept : waitpoint → option (M Sys unit)) : M Sys unit := λ s,
  match m s with
  | Ok a s' => k a s'
  | Block c s' => match slept c with Some h => h s' | None => Block c s' end
  | Throw msg s' => Throw msg s'
  | UB why => UB why
  end.

Definition on_queue_sleep (h : M Sys unit) (c : waitpoint) : option (M Sys unit) :=
  if bool_decide (c = OnQueue) then Some h else None.

(** *** The fault handler *)

Definition event (m : M Engine unit) (a : Z) (w : bool) (r : nat) (l : list (bool * Z)) : M Sys unit :=
  or_sleep (on_world (on_eng m)) (λ _, set_upc (URun l))
    (λ c, match c with
          | OnStateChange => Some (set_upc (UWaitState a w r l))
          | OnAvailPd => Some (set_upc (UWaitAvail a w r l))
          | _ => None
          end).

Definition uffd_run (contended : bool) : M Sys unit :=
  s ← get;
  match upc s with
  | URun [] => block OnQueue
  | URun ((w, a) :: l) =>
      rd ← on_world (on_eng (on_regs (containing_region a)));
      set_upc (match rd with Some r => UFault a w r l | None => URun l end)
  | UFault a w r l => event (process_page_event contended a w r) a w r l
  | UWaitState a w r l => event (process_page_event_wake_present a w r) a w r l
  | UWaitAvail a w r l => event (process_page_event_wake_avail a w r) a w r l
  end.

Definition uffd_batch (msgs : list uffd_msg) : M Sys unit :=
  s ← get;
  match upc s with
  | URun [] => set_upc (URun (batch false (Z.of_nat psize) msgs))
  | _ => block OnQueue
  end.

(** *** The fill workers *)

Definition fill_take (m : M (WorkQueue WorkItem) WorkItem) (k : nat) (buf : bytes) : M Sys unit :=
  or_sleep (on_world (on_eng (on_fill m))) (λ w, set_fpc k (FGot w buf))
    (on_queue_sleep (set_fpc k (FAsleep buf))).

Definition fill_run (contended : bool) (k : nat) : M Sys unit :=
  s ← get;
  match fpcs s !! k with
  | None | Some FExit => block OnQueue
  | Some (FIdle buf) => fill_take get_work k buf
  | Some (FAsleep buf) => fill_take dequeue_resume k buf
  | Some (FGot w buf) =>
      if is_exit w then set_fpc k FExit
      else
        pd ← on_world (deref_item w);
        r ← on_world (fill_read false psize pd buf);
        set_fpc k (match r with Some b => FRead pd b | None => FDone pd buf end)
  | Some (FRead pd buf) => on_world (fill_install false pd buf) ;; set_fpc k (FDone pd buf)
  | Some (FDone pd buf) => on_world (fill_finish contended pd) ;; set_fpc k (FIdle buf)
  end.

(** *** The eviction manager *)

Definition mgr_take (m : M (WorkQueue WorkItem) WorkItem) : M Sys unit :=
  or_sleep (on_world (on_eng (on_mgr m))) (λ w, set_mpc (if is_exit w then MExit else MLoop))
    (on_queue_sleep (set_mpc MAsleep)).

Definition mgr_run (contended : bool) : M Sys unit :=
  s ← get;
  match mpc s with
  | MIdle => mgr_take get_work
  | MAsleep => mgr_take dequeue_resume
  | MLoop =>
      r ← on_world (on_eng (evict_mgr_round contended));
      set_mpc (match r with None => MIdle | Some l => MSend l end)
  | MSend [] => set_mpc MLoop
  | MSend (pd :: l) => on_world (on_eng (schedule_eviction pd)) ;; set_mpc (MSend l)
  | MExit => block OnQueue
  end.

(** *** The evict workers *)

Definition evict_take (m : M (WorkQueue WorkItem) WorkItem) (k : nat) : M Sys unit :=
  or_sleep (on_world (on_eng (on_evict m))) (λ w, set_epc k (EGot w))
    (on_queue_sleep (set_epc k EAsleep)).

Definition evict_run (contended : bool) (k : nat) : M Sys unit :=
  s ← get;
  match epcs s !! k with
  | None | Some EExit => block OnQueue
  | Some EIdle => evict_take get_work k
  | Some EAsleep => evict_take dequeue_resume k
  | Some (EGot w) =>
      if is_exit w then set_epc k EExit
      else
        pd ← on_world (deref_item w);
        d ← on_world (evict_protect false pd);
        set_epc k (if d : bool then EProt (type w) pd else EClean (type w) pd)
  | Some (EProt t pd) => on_world (evict_write pd) ;; set_epc k (EWrote t pd)
  | Some (EWrote t pd) => on_world (evict_clean pd) ;; set_epc k (EClean t pd)
  | Some (EClean t pd) =>
      if bool_decide (t = FLUSH) then set_epc k EIdle
      else on_world (evict_drop t pd) ;; set_epc k (EGone t pd)
  | Some (EGone _ pd) => on_world (evict_finish contended pd) ;; set_epc k EIdle
  end.

(** *** The application *)

(** a store into a page; when it faults the application thread sleeps in the
    kernel and tries again *)
Definition app_store (a : Z) (data : bytes) : M Sys unit :=
  s ← get;
  match store_page a data (kernel (world s)) with
  | Some o =>
      modify (λ s, with_world (with_kernel o (world s)) s) ;;
      modify (λ s, with_ghost (λ b, if decide (b = a) then data else ghost s b) s)
  | None => block OnStateChange
  end.

(** asleep in [evict_oldest_page]: the page it waits for is the oldest one *)
Definition unmap_wait : M Sys unit :=
  s ← get;
  match back (m_busy_pages (buf (eng (world s)))) with
  | None => undefined "no page to wait for"
  | Some pd =>
      p ← on_world (on_eng (get_pd pd));
      set_apc (AWait pd (deferred p))
  end.

Definition unmap_evict (m : M Engine (option nat)) : M Sys unit :=
  or_sleep (on_world (on_eng m))
    (λ r, set_apc (match r with Some pd => AGot pd | None => AIdle end))
    (λ c, if bool_decide (c = OnStateChange) then Some unmap_wait else None).

Definition unmap_idle (m : M Engine unit) : M Sys unit :=
  or_sleep (on_world (on_eng m)) (λ _, set_apc ADone)
    (λ c, if bool_decide (c = OnIdle) then Some (set_apc AIdleAsleep) else None).

(** no fault is being handled and the eviction manager has nothing to do *)
Definition quiescent (s : Sys) : bool :=
  match upc s, mpc s with
  | URun [], (MIdle | MAsleep) => bool_decide (m_queue (mgr_wq (eng (world s))) = [])
  | _, _ => false
  end.

Definition unmap_run (contended : bool) : M Sys unit :=
  s ← get;
  match apc s with
  | ARun => if quiescent s then set_apc AEvict else block OnStateChange
  | AEvict => unmap_evict (evict_oldest_page contended)
  | AWait pd df => unmap_evict (evict_oldest_page_wake pd df)
  | AGot pd => on_world (on_eng (evict_all_page contended pd)) ;; set_apc AEvict
  | AIdle => unmap_idle WaitAll
  | AIdleAsleep => unmap_idle WaitAll_wake
  | ADone => block OnIdle
  end.

(** the application uses its memory until it unmaps it *)
Definition in_use (s : Sys) : bool := match apc s with ARun => true | _ => false end.

Definition while_in_use (m : M Sys unit) : M Sys unit :=
  s ← get;
  if in_use s then m else block OnStateChange.

Definition run (t : thread) : M Sys unit :=
  match t with
  | TBatch msgs =>
      if bool_decide (Forall (λ m, 0 ≤ address m < 2 ^ 64) msgs) then while_in_use (uffd_batch msgs)
      else block OnQueue
  | TUffd c => uffd_run c
  | TFill c k => fill_run c k
  | TMgr c => mgr_run c
  | TEvict c k => evict_run c k
  | TStore a data =>
      if bool_decide (length data = psize) then while_in_use (app_store a data)
      else block OnStateChange
  | TUnmap c => unmap_run c
  end.

Definition step (s s' : Sys) : Prop := ∃ t, run t s = Ok tt s'.
End run.
