(* ===== verification/SystemInv.v ===== *)
(** * Invariants of the running engine

    The invariant of System.v's transition system, its preservation by every
    thread, and the properties that follow from it: no operation ever fails or
    leaves the defined behaviour of C++ (the eviction manager's scan apart), the
    page bookkeeping is consistent, and the engine implements a flat memory. *)

From stdpp Require Import base list numbers strings gmap.
From Stdlib Require Import Strings.Byte.
From S2P Require Import Prelude PageDescriptor WorkQueue Store RegionDescriptor RegionMap.
From S2P Require Import Config Engine Buffer Eviction Uffd Workers BufferSpec BufferInv System.
Local Open Scope Z_scope.
#[local] Arguments core : simpl never.

(** ** What a worker knows about the page it works on *)

Inductive Tag :=
| TWait                    (* queued for, or taken by, a filler *)
| TRead (buf : bytes)      (* the filler has read the page's data *)
| TFilled                  (* the page is mapped, not yet marked *)
| TPresent                 (* nobody works on the page *)
| TLeave                   (* queued for, or taken by, an evictor *)
| TProt                    (* write protected *)
| TWrote                   (* written to the store *)
| TClean                   (* identical to the store *)
| TGone.                   (* unmapped *)

(** the page as the kernel maps it, for a page whose data is [g] *)
Definition resident (p : PageDescriptor) (m : option (bytes * bool)) (sp g : bytes) : Prop :=
  m = Some (g, negb (dirty p)) ∧ (dirty p = false → sp = g).

(** [m]: the kernel's mapping; [sp]: the page in its store; [g]: its contents
    according to the specification *)
Definition data_ok (t : Tag) (p : PageDescriptor) (m : option (bytes * bool)) (sp g : bytes) : Prop :=
  match t with
  | TWait =>
      (state p = FILLING ∧ data_present p = false ∧ m = None ∧ sp = g) ∨
      (state p = UPDATING ∧ data_present p = true ∧ dirty p = true ∧ m = Some (g, true))
  | TRead buf => state p = FILLING ∧ data_present p = false ∧ m = None ∧ sp = g ∧ buf = g
  | TFilled => filling (state p) ∧ data_present p = true ∧ resident p m sp g
  | TPresent => state p = PRESENT ∧ data_present p = true ∧ resident p m sp g
  | TLeave => state p = LEAVING ∧ resident p m sp g
  | TProt => state p = LEAVING ∧ m = Some (g, true)
  | TWrote => state p = LEAVING ∧ m = Some (g, true) ∧ sp = g
  | TClean => state p = LEAVING ∧ m = Some (g, true) ∧ sp = g
  | TGone => state p = LEAVING ∧ m = None ∧ sp = g
  end.

Definition claims : Type := list (nat * Tag).

(** the tag of a descriptor in use; one nobody claims is present *)
Definition has_tag (cl : claims) (i : nat) (t : Tag) : Prop :=
  (i, t) ∈ cl ∨ (i ∉ cl.*1 ∧ t = TPresent).

#[export] Instance has_tag_proper : Proper ((≡ₚ) ==> (=) ==> (=) ==> iff) has_tag.
Proof. intros cl cl' E i ? <- t ? <-. unfold has_tag. by rewrite E. Qed.

Lemma has_tag_head cl i t : has_tag ((i, t) :: cl) i t.
Proof. left. set_solver. Qed.

Lemma has_tag_swap cl i t t' j u :
  j ≠ i → has_tag ((i, t) :: cl) j u → has_tag ((i, t') :: cl) j u.
Proof.
  unfold has_tag. intros Hne [[?|?]%elem_of_cons|[Hn ->]].
  - simplify_eq.
  - left. set_solver.
  - right. split; [|done]. simpl in *. set_solver.
Qed.

Lemma has_tag_drop cl i t j u : j ≠ i → has_tag ((i, t) :: cl) j u → has_tag cl j u.
Proof.
  unfold has_tag. intros Hne [[?|?]%elem_of_cons|[Hn ->]].
  - simplify_eq.
  - by left.
  - right. split; [|done]. simpl in *. set_solver.
Qed.

Lemma has_tag_add cl i t j u : j ≠ i → has_tag cl j u → has_tag ((i, t) :: cl) j u.
Proof.
  unfold has_tag. intros Hne [?|[Hn ->]].
  - left. set_solver.
  - right. split; [|done]. simpl. set_solver.
Qed.

Lemma has_tag_unclaimed cl i t : NoDup (((i, t) :: cl).*1) → has_tag cl i TPresent.
Proof. intros [Hn _]%NoDup_cons. by right. Qed.

Lemma has_tag_claimed cl i t u : NoDup (((i, t) :: cl).*1) → has_tag ((i, t) :: cl) i u → u = t.
Proof.
  intros [Hn _]%NoDup_cons [[?|Hin]%elem_of_cons|[Hc _]]; [congruence| |].
  - exfalso. apply Hn. by eapply (list_elem_of_fmap_2 fst _ (i, u)).
  - exfalso. apply Hc. simpl. set_solver.
Qed.

(** ** Claims of the threads *)

Definition fill_claim (pc : FillPc) : claims :=
  match pc with
  | FGot w _ => match page_desc w with Some i => [(i, TWait)] | None => [] end
  | FRead i buf => [(i, TRead buf)]
  | FDone i _ => [(i, TFilled)]
  | _ => []
  end.

Definition evict_claim (pc : EvictPc) : claims :=
  match pc with
  | EGot w => match page_desc w with Some i => [(i, TLeave)] | None => [] end
  | EProt _ i => [(i, TProt)]
  | EWrote _ i => [(i, TWrote)]
  | EClean _ i => [(i, TClean)]
  | EGone t i => [(i, if bool_decide (t = FAST_EVICT) then TClean else TGone)]
  | _ => []
  end.

Definition mgr_claim (pc : MgrPc) : claims :=
  match pc with MSend l => (λ i, (i, TLeave)) <$> l | _ => [] end.

Definition app_claim (pc : AppPc) : claims :=
  match pc with AGot i => [(i, TLeave)] | _ => [] end.

Definition queued (t : Tag) (q : list WorkItem) : claims := (λ i, (i, t)) <$> omap page_desc q.

Lemma queued_snoc t q i ty : queued t (q ++ [mkWork (Some i) ty]) = queued t q ++ [(i, t)].
Proof. unfold queued. by rewrite omap_app, fmap_app. Qed.

Lemma queued_cons t q i ty : queued t (mkWork (Some i) ty :: q) = (i, t) :: queued t q.
Proof. done. Qed.

Lemma claims_fst (l : list nat) t (cl : claims) : (((λ i, (i, t)) <$> l) ++ cl).*1 = l ++ cl.*1.
Proof. rewrite fmap_app, <- list_fmap_compose. unfold compose. simpl. by rewrite list_fmap_id. Qed.

(** replacing one thread's program counter replaces its claims *)
Lemma claims_insert {A} (f : A → claims) l k x :
  l !! k = Some x →
  ∃ rest, l ≫= f ≡ₚ f x ++ rest ∧ ∀ y, <[k := y]> l ≫= f ≡ₚ f y ++ rest.
Proof.
  intros Hk. assert (k < length l)%nat as Hlt by by eapply lookup_lt_Some.
  exists ((take k l ≫= f) ++ (drop (S k) l ≫= f)). split.
  - rewrite <- (take_drop_middle l k x Hk) at 1. rewrite bind_app. simpl.
    by rewrite app_assoc, (Permutation_app_comm (take k l ≫= f)), <- app_assoc.
  - intros y. rewrite insert_take_drop by done. rewrite bind_app. simpl.
    by rewrite app_assoc, (Permutation_app_comm (take k l ≫= f)), <- app_assoc.
Qed.

Section invariant.
Context {O St : Type} `{!UffdOS O} `{!UffdLaws O} `{!StoreBank St}.
Context (psize : nat) (cap : nat → Z) `{!BankLaws St psize cap}.
Abbreviation psz := (Z.of_nat psize).
Abbreviation Sys := (Sys O St).

(** the page of region [d] at address [a], in its store *)
Definition stored (dk : St) (d : RegionDescriptor) (a : Z) : bytes :=
  bank_page dk (m_store d) (a - start d).

(** ** The data invariant *)

(** [cls]: the region is being unmapped.  A page that [EvictAll] has released
    stays mapped, write protected. *)
Record dinv {cls : bool} (c : Core) (cl : claims) (o : O) (dk : St) (g : Z → bytes) : Prop := {
  d_data : ∀ i p r d, c_array c !! i = Some p → state p ≠ FREE →
    region p = Some r → heap (c_regs c) !! r = Some d →
    ∃ t, has_tag cl i t ∧ data_ok t p (pte o (page p)) (stored dk d (page p)) (g (page p));
  d_absent : ∀ r d a, heap (c_regs c) !! r = Some d → region_page psize cap d a →
    c_present c !! a = None →
    (pte o a = None ∨ cls = true ∧ pte o a = Some (g a, true)) ∧ stored dk d a = g a;
  d_disk : bank_ok dk;
  d_length : ∀ r d a, heap (c_regs c) !! r = Some d → region_page psize cap d a →
    length (g a) = psize
}.

Lemma dinv_claims {cls} c cl cl' o dk g : cl ≡ₚ cl' → dinv (cls:=cls) c cl o dk g → dinv (cls:=cls) c cl' o dk g.
Proof.
  intros E [Hd ? ? ?]. split; try done. intros i p r d Hp Sp Hr Hh.
  destruct (Hd i p r d Hp Sp Hr Hh) as (t&Ht&?). exists t. by rewrite <- E.
Qed.

Lemma dinv_close c cl o dk g : dinv (cls:=false) c cl o dk g → dinv (cls:=true) c cl o dk g.
Proof.
  intros [? Ha ? ?]. split; try done. intros r d a Hh Hp Hn.
  destruct (Ha r d a Hh Hp Hn) as [[?|[? _]] ?]; [by split; [left|]|done].
Qed.

Lemma dinv_queue {cls} c cl o dk g c' :
  c_array c' = c_array c → c_present c' = c_present c → heap (c_regs c') = heap (c_regs c) →
  dinv (cls:=cls) c cl o dk g → dinv (cls:=cls) c' cl o dk g.
Proof. intros E1 E2 E3 [Hd Ha ? ?]. split; rewrite ?E1, ?E2, ?E3; done. Qed.

(** one page changes: its descriptor, its mapping, its stored copy or its
    specified contents *)
Lemma dinv_upd {cls} c cl hf he o dk g c' cl' o' dk' g' i p p' :
  binv psize cap c hf he → dinv (cls:=cls) c cl o dk g →
  c_array c !! i = Some p → state p ≠ FREE →
  c_array c' = <[i := p']> (c_array c) → c_present c' = c_present c →
  heap (c_regs c') = heap (c_regs c) →
  page p' = page p → region p' = region p →
  (∀ b, b ≠ page p → pte o' b = pte o b) →
  (∀ r d b, heap (c_regs c) !! r = Some d → region_page psize cap d b → b ≠ page p →
     stored dk' d b = stored dk d b) →
  (∀ b, b ≠ page p → g' b = g b) → bank_ok dk' → length (g' (page p)) = psize →
  (∀ j u, j ≠ i → has_tag cl j u → has_tag cl' j u) →
  (∀ r d u, heap (c_regs c) !! r = Some d → region_page psize cap d (page p) →
     length (g (page p)) = psize → has_tag cl i u →
     data_ok u p (pte o (page p)) (stored dk d (page p)) (g (page p)) →
     ∃ t', has_tag cl' i t' ∧
       data_ok t' p' (pte o' (page p)) (stored dk' d (page p)) (g' (page p))) →
  dinv (cls:=cls) c' cl' o' dk' g'.
Proof.
  intros Hinv [Hd Ha Hdk Hlen] Hp Sp Ea Ep Eh Epg Erg Ho Hs Hg Hdk' Hl' Htag Hok.
  destruct (binv_pd_region psize cap _ _ _ Hinv i p Hp Sp) as (r0&d0&Hr0&Hh0&Hpage0).
  split.
  - rewrite Ea, Eh. intros j q r d [(<-&<-&_)|[Hne Hq]]%list_lookup_insert_Some Sq Hr Hh.
    + rewrite Epg. assert (d0 = d) as -> by congruence.
      destruct (Hd i p r0 d Hp Sp Hr0 Hh0) as (u&Hu&Hok'). eapply Hok; eauto.
    + assert (page q ≠ page p) as Hpne.
      { intros E. apply Hne. symmetry. by eapply (binv_page_inj psize cap _ _ _ Hinv). }
      destruct (Hd j q r d Hq Sq Hr Hh) as (u&Hu&Hok'). exists u. split; [auto|].
      destruct (binv_pd_region psize cap _ _ _ Hinv j q Hq Sq) as (r1&d1&Hr1&Hh1&Hpage1).
      assert (d1 = d) as -> by congruence. rewrite Ho by done. erewrite Hs by done.
      by rewrite Hg.
  - rewrite Ep, Eh. intros r d a Hh Hpg Habs.
    assert (a ≠ page p) as Hne.
    { intros ->. destruct (b_pd _ _ _ _ _ Hinv i p Hp) as (_&_&_&H4).
      destruct (H4 Sp) as (_&?&_). congruence. }
    rewrite Ho by done. erewrite Hs by done. rewrite Hg by done. by eapply Ha.
  - done.
  - rewrite Eh. intros r d a Hh Hpg. destruct (decide (a = page p)) as [->|Hne]; [done|].
    rewrite Hg by done. by eapply Hlen.
Qed.

(** a worker's step on the page it has claimed *)
Lemma dinv_work {cls} c cl hf he o dk g o' dk' i p p' t t' :
  binv psize cap c hf he → dinv (cls:=cls) c ((i, t) :: cl) o dk g → NoDup (((i, t) :: cl).*1) →
  c_array c !! i = Some p → state p ≠ FREE →
  page p' = page p → region p' = region p →
  (∀ b, b ≠ page p → pte o' b = pte o b) →
  (∀ r d b, heap (c_regs c) !! r = Some d → region_page psize cap d b → b ≠ page p →
     stored dk' d b = stored dk d b) → bank_ok dk' →
  (∀ r d, region p = Some r → heap (c_regs c) !! r = Some d → region_page psize cap d (page p) →
     length (g (page p)) = psize →
     data_ok t p (pte o (page p)) (stored dk d (page p)) (g (page p)) →
     data_ok t' p' (pte o' (page p)) (stored dk' d (page p)) (g (page p))) →
  dinv (cls:=cls) (put_core_pd i p' c) ((i, t') :: cl) o' dk' g.
Proof.
  intros Hinv Hd Hnd Hp Sp Epg Erg Ho Hs Hdk' Hok.
  destruct (binv_pd_region psize cap _ _ _ Hinv i p Hp Sp) as (r0&d0&Hr0&Hh0&Hpage0).
  pose proof (d_length _ _ _ _ _ Hd _ _ _ Hh0 Hpage0) as Hlen.
  eapply (dinv_upd c _ _ _ o dk g); try done.
  - intros j u Hne Hu. by eapply has_tag_swap.
  - intros r d u Hh Hpg _ Hu Hok'. apply has_tag_claimed in Hu as ->; [|done].
    exists t'. split; [apply has_tag_head|].
    assert (r = r0) as -> by (eapply region_unique; [apply Hinv|done|done|apply Hpg|apply Hpage0]).
    by eapply Hok.
Qed.

(** what a worker can conclude about its page *)
Lemma dinv_claim {cls} c cl hf he o dk g i p t :
  binv psize cap c hf he → dinv (cls:=cls) c ((i, t) :: cl) o dk g → NoDup (((i, t) :: cl).*1) →
  c_array c !! i = Some p → state p ≠ FREE →
  ∃ r d, region p = Some r ∧ heap (c_regs c) !! r = Some d ∧ region_page psize cap d (page p) ∧
    store_offset d (page p) = Some (page p - start d) ∧ length (g (page p)) = psize ∧
    data_ok t p (pte o (page p)) (stored dk d (page p)) (g (page p)).
Proof.
  intros Hinv Hd Hnd Hp Sp.
  destruct (binv_pd_region psize cap _ _ _ Hinv i p Hp Sp) as (r&d&Hr&Hh&Hpage).
  exists r, d. split_and!; try done.
  - eapply region_page_store_offset; [apply Hinv|done|done].
  - by eapply d_length.
  - destruct (d_data _ _ _ _ _ Hd i p r d Hp Sp Hr Hh) as (u&Hu&Hok).
    by apply has_tag_claimed in Hu as ->.
Qed.

(** ** The invariant of the system *)

Abbreviation ecore s := (core (eng (world s))).

Definition fcl (s : Sys) : claims := queued TWait (c_fillq (ecore s)) ++ (fpcs s ≫= fill_claim).
Definition ecl (s : Sys) : claims :=
  queued TLeave (c_evictq (ecore s)) ++ (mgr_claim (mpc s) ++ app_claim (apc s)) ++
  (epcs s ≫= evict_claim).

Definition closing (s : Sys) : bool := negb (in_use s).

(** the kinds of work the evict workers get: [EvictAll] sends FAST_EVICT *)
Definition evict_type (cls : bool) (t : WorkType) : Prop :=
  t = EVICT ∨ cls = true ∧ t = FAST_EVICT.
Definition evict_work (cls : bool) (w : WorkItem) : Prop :=
  ∃ i t, w = mkWork (Some i) t ∧ evict_type cls t.

Lemma evict_type_close t : evict_type false t → evict_type true t.
Proof. intros [?|[? _]]; [by left|done]. Qed.

Definition fpc_ok (pc : FillPc) : Prop :=
  match pc with
  | FIdle buf | FAsleep buf | FDone _ buf => length buf = psize
  | FRead _ buf => length buf = psize
  | FGot w buf => length buf = psize ∧ ∃ i, w = mkWork (Some i) NONE
  | FExit => False
  end.

Definition epc_ok (cls : bool) (pc : EvictPc) : Prop :=
  match pc with
  | EGot w => evict_work cls w
  | EProt t _ | EWrote t _ | EClean t _ | EGone t _ => evict_type cls t
  | EExit => False
  | _ => True
  end.

Definition is_asleep (pc : EvictPc) : bool := match pc with EAsleep => true | _ => false end.

(** the waiting counter of the evict workers' queue is exact *)
Definition ewait_ok (c : Core) (l : list EvictPc) : Prop :=
  c_ewait c = Z.of_nat (length (filter is_asleep l)) ∧ c_emax c = Z.of_nat (length l).

(** what the application thread can rely on while it unmaps the region: nobody
    inserts pages any more, and nobody else takes them from the deque *)
Definition app_ok (a : AppPc) (u : UffdPc) (m : MgrPc) (c : Core) : Prop :=
  match a with
  | ARun => True
  | _ =>
      u = URun [] ∧ (m = MIdle ∨ m = MAsleep) ∧ c_mgrq c = [] ∧
      match a with
      | AWait pd df => df = false ∧ back (c_busy c) = Some pd
      | AIdle | AIdleAsleep | ADone => c_busy c = []
      | _ => True
      end
  end.

Definition aligned (l : list (bool * Z)) : Prop := Forall (λ e : bool * Z, e.2 mod psz = 0) l.

Definition upc_ok (c : Core) (u : UffdPc) : Prop :=
  match u with
  | URun l => aligned l
  | UFault a _ r l | UWaitState a _ r l =>
      aligned l ∧ ∃ d, heap (c_regs c) !! r = Some d ∧ region_page psize cap d a
  | UWaitAvail a _ r l =>
      aligned l ∧ c_present c !! a = None ∧
      ∃ d, heap (c_regs c) !! r = Some d ∧ region_page psize cap d a
  end.

Record sinv (s : Sys) : Prop := {
  i_binv : binv psize cap (ecore s) (fcl s).*1 (ecl s).*1;
  i_data : dinv (cls:=closing s) (ecore s) (fcl s ++ ecl s) (kernel (world s)) (disk (world s)) (ghost s);
  i_fillq : Forall (λ w, ∃ i, w = mkWork (Some i) NONE) (c_fillq (ecore s));
  i_mgrq : Forall (λ w, w = mkWork None THRESHOLD) (c_mgrq (ecore s));
  i_evictq : Forall (evict_work (closing s)) (c_evictq (ecore s));
  i_upc : upc_ok (ecore s) (upc s);
  i_fpcs : Forall fpc_ok (fpcs s);
  i_epcs : Forall (epc_ok (closing s)) (epcs s);
  i_mpc : mpc s ≠ MExit;
  i_app : app_ok (apc s) (upc s) (mpc s) (ecore s);
  i_done : apc s = ADone → ecl s = [];
  i_ewait : ewait_ok (ecore s) (epcs s);
  i_small : Z.of_nat (length (c_array (ecore s))) < 2 ^ 64
}.

Lemma sinv_nodup s : sinv s → NoDup ((fcl s ++ ecl s).*1).
Proof.
  intros Hs. pose proof (i_binv _ Hs) as Hb. rewrite fmap_app. apply NoDup_app. split_and!.
  - apply Hb.
  - intros i Hf He. destruct (binv_filling_pd _ _ _ _ _ Hb i Hf) as (p&Hp&Sp).
    destruct (binv_leaving_pd _ _ _ _ _ Hb i He) as (q&Hq&Sq).
    simplify_eq. rewrite Sq in Sp. by destruct Sp.
  - pose proof (binv_nodup _ _ _ _ _ Hb) as Hnd.
    apply NoDup_app in Hnd as (_&_&Hnd). by apply NoDup_app in Hnd as (_&_&?).
Qed.

(** the application still uses its memory when a fault is being handled or the
    eviction manager is at work *)
Lemma app_in_use s :
  sinv s → upc s ≠ URun [] ∨ c_mgrq (ecore s) ≠ [] ∨ (mpc s ≠ MIdle ∧ mpc s ≠ MAsleep) →
  apc s = ARun.
Proof.
  intros Hs H. pose proof (i_app _ Hs) as Ha.
  destruct (apc s); try done; destruct Ha as (?&?&?&_); naive_solver.
Qed.

(** *** Steps of the fill workers *)

Lemma fcl_pc s k pc :
  fpcs s !! k = Some pc →
  ∃ rest, fcl s ≡ₚ fill_claim pc ++ rest ∧
    ∀ w' pc', c_fillq (core (eng w')) = c_fillq (ecore s) →
      fcl (with_fpcs (<[k := pc']> (fpcs s)) (with_world w' s)) ≡ₚ fill_claim pc' ++ rest.
Proof.
  intros Hk. destruct (claims_insert fill_claim (fpcs s) k pc Hk) as (rest&E1&E2).
  exists (queued TWait (c_fillq (ecore s)) ++ rest). unfold fcl. split.
  - rewrite E1, app_assoc, (Permutation_app_comm _ (fill_claim pc)), <- app_assoc. done.
  - intros w' pc' Hq. cbn [fpcs world with_fpcs with_world]. rewrite Hq, E2, app_assoc,
      (Permutation_app_comm _ (fill_claim pc')), <- app_assoc. done.
Qed.

(** a filler works on its page without changing the page's state *)
Lemma sinv_fill_step s k pc pc' i t t' p p' e' o' dk' :
  sinv s → fpcs s !! k = Some pc → fill_claim pc = [(i, t)] → fill_claim pc' = [(i, t')] →
  fpc_ok pc' → c_array (ecore s) !! i = Some p →
  core e' = put_core_pd i p' (ecore s) →
  page p' = page p → region p' = region p → deferred p' = deferred p → state p' = state p →
  (∀ b, b ≠ page p → pte o' b = pte (kernel (world s)) b) →
  (∀ r d b, heap (c_regs (ecore s)) !! r = Some d → region_page psize cap d b → b ≠ page p →
     stored dk' d b = stored (disk (world s)) d b) → bank_ok dk' →
  (∀ r d, region p = Some r → heap (c_regs (ecore s)) !! r = Some d →
     region_page psize cap d (page p) → length (ghost s (page p)) = psize →
     data_ok t p (pte (kernel (world s)) (page p)) (stored (disk (world s)) d (page p)) (ghost s (page p)) →
     data_ok t' p' (pte o' (page p)) (stored dk' d (page p)) (ghost s (page p))) →
  sinv (with_fpcs (<[k := pc']> (fpcs s)) (with_world (mkWorld e' o' dk') s)).
Proof.
  intros Hs Hk Hpc Hpc' Hok Hp He E1 E2 E3 E4 Ho Hst Hdk Hd.
  destruct (fcl_pc s k pc Hk) as (rest&Hf&Hf'). rewrite Hpc in Hf.
  specialize (Hf' (mkWorld e' o' dk') pc'). rewrite Hpc' in Hf'. simpl in Hf'.
  assert (c_fillq (core e') = c_fillq (ecore s)) as Hq by (by rewrite He).
  specialize (Hf' Hq). pose proof (sinv_nodup s Hs) as Hnd.
  pose proof (i_binv _ Hs) as Hb. rewrite Hf in Hb.
  destruct (binv_filling_pd _ _ _ _ _ Hb i) as (q&Hq'&Sq); [set_solver|]. simplify_eq.
  assert (state p ≠ FREE) as Sp by (intros E; rewrite E in Sq; by destruct Sq).
  set (s' := with_fpcs _ _) in *.
  assert (ecl s' = ecl s) as Hecl by (unfold ecl; cbn; by rewrite He).
  split; try (cbn; rewrite He; by apply Hs); try by apply Hs.
  - rewrite Hf', Hecl. cbn. rewrite He. by eapply binv_put_same.
  - rewrite Hecl. eapply dinv_claims; [by rewrite Hf'|]. cbn.
    rewrite He. eapply dinv_work; [exact Hb| | |exact Hp|done..].
    + eapply dinv_claims; [|apply Hs]. by rewrite Hf.
    + by rewrite Hf in Hnd.
  - cbn. apply Forall_insert; [apply Hs|done].
  - rewrite Hecl. apply Hs.
  - cbn. rewrite He. simpl. rewrite length_insert. apply Hs.
Qed.

(** *** Steps that move work between the queues and the threads *)

Abbreviation fill_item := (λ w, ∃ i, w = mkWork (Some i) NONE).
Abbreviation mgr_item := (λ w, w = mkWork None THRESHOLD).

Lemma sinv_requeue s s' q1 q2 q3 v :
  sinv s → ecore s' = set_ewait v (set_fillq q1 (set_mgrq q2 (set_evictq q3 (ecore s)))) →
  kernel (world s') = kernel (world s) → disk (world s') = disk (world s) → ghost s' = ghost s →
  fcl s' ≡ₚ fcl s → ecl s' ≡ₚ ecl s → closing s' = closing s →
  Forall fill_item q1 → Forall mgr_item q2 → Forall (evict_work (closing s)) q3 →
  upc_ok (ecore s) (upc s') → Forall fpc_ok (fpcs s') → Forall (epc_ok (closing s)) (epcs s') →
  mpc s' ≠ MExit → app_ok (apc s') (upc s') (mpc s') (ecore s') → (apc s' = ADone → ecl s = []) →
  ewait_ok (ecore s') (epcs s') → sinv s'.
Proof.
  intros Hs Hc Hk Hd Hg Hf He Hcl H1 H2 H3 Hu Hfp Hep Hm Happ Hdone Hw.
  split; rewrite ?Hcl; try done; rewrite ?Hc; try done.
  - rewrite Hf, He. apply binv_queues, Hs.
  - rewrite Hk, Hd, Hg. eapply (dinv_claims _ (fcl s ++ ecl s)); [by rewrite Hf, He|].
    eapply dinv_queue; [| | |apply Hs]; done.
  - intros H. apply Hdone in H. rewrite H in He. by apply Permutation_nil_r in He.
  - apply Hs.
Qed.

Lemma core_queues_id c :
  set_ewait (c_ewait c) (set_fillq (c_fillq c) (set_mgrq (c_mgrq c) (set_evictq (c_evictq c) c))) = c.
Proof. by destruct c. Qed.

Lemma sinv_repc s s' :
  sinv s → ecore s' = ecore s →
  kernel (world s') = kernel (world s) → disk (world s') = disk (world s) → ghost s' = ghost s →
  fcl s' ≡ₚ fcl s → ecl s' ≡ₚ ecl s → closing s' = closing s →
  upc_ok (ecore s) (upc s') → Forall fpc_ok (fpcs s') → Forall (epc_ok (closing s)) (epcs s') →
  mpc s' ≠ MExit → app_ok (apc s') (upc s') (mpc s') (ecore s') → (apc s' = ADone → ecl s = []) →
  ewait_ok (ecore s') (epcs s') → sinv s'.
Proof.
  intros Hs Hc ? ? ? ? ? ? ? ? ? ? ? ? ?.
  eapply (sinv_requeue s s' (c_fillq (ecore s)) (c_mgrq (ecore s)) (c_evictq (ecore s)) (c_ewait (ecore s)));
    rewrite ?core_queues_id; try done; apply Hs.
Qed.

(** runs and blocks of engine operations, inside the system *)
Lemma sys_runs {A} (m : M Engine A) (s : Sys) a c' :
  runs m (ecore s) a c' →
  ∃ e', on_world (on_eng m) s = Ok a (with_world (with_eng e' (world s)) s) ∧ core e' = c'.
Proof.
  intros Hr. destruct (Hr (eng (world s)) eq_refl) as (e'&E&Hc). exists e'. split; [|done].
  unfold on_world, on_eng, zoom. by rewrite E.
Qed.

Lemma sys_blocks {A} (m : M Engine A) (s : Sys) c c' :
  blocks m (ecore s) c c' →
  ∃ e', on_world (on_eng m) s = Block c (with_world (with_eng e' (world s)) s) ∧ core e' = c'.
Proof.
  intros Hr. destruct (Hr (eng (world s)) eq_refl) as (e'&E&Hc). exists e'. split; [|done].
  unfold on_world, on_eng, zoom. by rewrite E.
Qed.

(** ** Every step preserves the invariant *)

(** the outcome of a thread's next piece: it succeeds and preserves the
    invariant, or the thread blocks; nothing throws, and nothing is undefined
    but the scan of the eviction manager with too few evictable pages *)
Definition good (t : thread) (s : Sys) (o : outcome Sys unit) : Prop :=
  match o with
  | Ok _ s' => sinv s'
  | Block _ _ => True
  | Throw _ _ => False
  | UB _ =>
      ∃ b, t = TMgr b ∧ mpc s = MLoop ∧
        (length (filter (evictable_in (c_array (ecore s))) (c_busy (ecore s)))
           < max_num_evicted_pages)%nat
  end.

(** the work the workers and [EvictAll] still have to do: a bound on the
    pieces they need when no page is brought in any more *)
Definition fill_weight (pc : FillPc) : nat :=
  match pc with FGot _ _ => 3 | FRead _ _ => 2 | FDone _ _ => 1 | _ => 0 end.
Definition evict_weight (pc : EvictPc) : nat :=
  match pc with
  | EGot _ => 6 | EProt _ _ => 5 | EWrote _ _ => 4 | EClean _ _ => 3 | EGone _ _ => 2 | EIdle => 1
  | EAsleep | EExit => 0
  end.
Definition app_weight (pc : AppPc) : nat :=
  match pc with
  | AGot _ => 13 | AEvict => 5 | AWait _ _ => 4 | AIdle => 3 | AIdleAsleep => 2
  | ARun | ADone => 0
  end.
Definition work_left (s : Sys) : nat :=
  sum_list (fill_weight <$> fpcs s) + 4 * length (c_fillq (ecore s)) +
  sum_list (evict_weight <$> epcs s) + 7 * length (c_evictq (ecore s)) +
  10 * length (c_busy (ecore s)) + app_weight (apc s).

(** a piece that succeeds, preserves the invariant and leaves less work *)
Definition makes (s : Sys) (o : outcome Sys unit) : Prop :=
  ∃ s', o = Ok tt s' ∧ sinv s' ∧ (work_left s' < work_left s)%nat.

Lemma makes_ok s s' : sinv s' → (work_left s' < work_left s)%nat → makes s (Ok tt s').
Proof. intros. by exists s'. Qed.

Lemma makes_good t s o : makes s o → good t s o.
Proof. by intros (s'&->&?&_). Qed.

Lemma sum_insert {A} (f : A → nat) l k x y :
  l !! k = Some x → (sum_list (f <$> <[k := y]> l) + f x = sum_list (f <$> l) + f y)%nat.
Proof.
  revert k. induction l as [|z l IH]; intros [|k] Hk; simplify_eq/=; [lia|].
  specialize (IH k Hk). lia.
Qed.

(** closes the comparison of the work left before and after a worker's step *)
Ltac less_work Hk He :=
  unfold work_left; cbn; rewrite ?He;
  match goal with
  | |- context [<[?k := ?y]> (fpcs ?s)] => pose proof (sum_insert fill_weight _ _ _ y Hk)
  | |- context [<[?k := ?y]> (epcs ?s)] => pose proof (sum_insert evict_weight _ _ _ y Hk)
  end; cbn in *; lia.

Lemma fill_take_makes s x m k pc buf :
  sinv s → takes x m → fpcs s !! k = Some pc → fill_claim pc = [] → length buf = psize →
  c_fillq (ecore s) ≠ [] → makes s (fill_take m k buf s).
Proof.
  intros Hs Hm Hk Hpc Hb Hne. unfold fill_take, or_sleep.
  destruct (c_fillq (ecore s)) as [|w l] eqn:Eq; [done|].
  destruct (sys_runs _ s _ _ (take_fill x m (ecore s) w l Hm Eq)) as (e'&E&Hc).
  rewrite E. cbn. pose proof (i_fillq _ Hs) as Hq. rewrite Eq in Hq.
  apply Forall_cons in Hq as [[i ->] Hq].
  apply makes_ok.
  - eapply (sinv_requeue s _ l (c_mgrq (ecore s)) (c_evictq (ecore s)) (c_ewait (ecore s)) Hs);
      cbn; try done; try apply Hs; try (rewrite Hc; by apply Hs).
    + destruct (claims_insert fill_claim (fpcs s) k pc Hk) as (rest'&E1&E2). rewrite Hpc in E1.
      unfold fcl. cbn. rewrite Hc, Eq, E1, E2. simpl. by rewrite Permutation_middle.
    + unfold ecl. cbn. by rewrite Hc.
    + apply Forall_insert; [apply Hs|]. simpl. eauto.
  - unfold work_left. cbn. rewrite Hc, Eq.
    pose proof (sum_insert fill_weight _ _ _ (FGot (mkWork (Some i) NONE) buf) Hk). cbn in *. lia.
Qed.

Lemma fill_take_good t s x m k pc buf :
  sinv s → takes x m → fpcs s !! k = Some pc → fill_claim pc = [] → length buf = psize →
  good t s (fill_take m k buf s).
Proof.
  intros Hs Hm Hk Hpc Hb. destruct (decide (c_fillq (ecore s) = [])) as [Eq|Hne].
  2:{ eapply makes_good, fill_take_makes; eauto. }
  destruct (fcl_pc s k pc Hk) as (rest&Hf&Hf'). rewrite Hpc in Hf. unfold fill_take, or_sleep.
  destruct (sys_blocks _ s _ _ (take_fill_empty x m (ecore s) Hm Eq)) as (e'&E&Hc).
  rewrite E. cbn. apply (sinv_repc s _ Hs); cbn; try done; try apply Hs;
    try (rewrite Hc; by apply Hs).
  - rewrite Hf. apply (Hf' (with_eng e' (world s))). by rewrite <- Hc.
  - unfold ecl. cbn. by rewrite Hc.
  - apply Forall_insert; [apply Hs|done].
Qed.

Lemma world_get_pd (w : World O St) i p :
  c_array (core (eng w)) !! i = Some p → on_eng (get_pd i) w = Ok p w.
Proof. intros Hp. unfold on_eng, zoom. rewrite (get_pd_run i (eng w) p Hp). by destruct w. Qed.

Lemma store_location_run (w : World O St) i p r d off :
  c_array (core (eng w)) !! i = Some p → region p = Some r →
  heap (c_regs (core (eng w))) !! r = Some d → store_offset d (page p) = Some off →
  store_location i w = Ok (m_store d, off) w.
Proof.
  intros Hp Hr Hh Ho. unfold store_location. rewrite (bind_run _ _ _ _ _ (world_get_pd w i p Hp)).
  erewrite bind_run by reflexivity. change (heap (regs (eng w)) !! r = Some d) in Hh.
  by rewrite Hr, Hh, Ho.
Qed.

Lemma put_core_pd_id c i p : c_array c !! i = Some p → put_core_pd i p c = c.
Proof. intros Hp. unfold put_core_pd. rewrite list_insert_id by done. by destruct c. Qed.

(** the page a filler has claimed *)
Lemma fill_claimed s k pc i t :
  sinv s → fpcs s !! k = Some pc → fill_claim pc = [(i, t)] →
  ∃ p r d, c_array (ecore s) !! i = Some p ∧ filling (state p) ∧ region p = Some r ∧
    heap (c_regs (ecore s)) !! r = Some d ∧ region_page psize cap d (page p) ∧
    store_offset d (page p) = Some (page p - start d) ∧
    length (ghost s (page p)) = psize ∧
    data_ok t p (pte (kernel (world s)) (page p)) (stored (disk (world s)) d (page p))
      (ghost s (page p)).
Proof.
  intros Hs Hk Hpc. destruct (fcl_pc s k pc Hk) as (rest&Hf&_). rewrite Hpc in Hf.
  pose proof (i_binv _ Hs) as Hb.
  destruct (binv_filling_pd _ _ _ _ _ Hb i) as (p&Hp&Sp); [rewrite Hf; set_solver|].
  assert (state p ≠ FREE) as Sp' by (intros E; rewrite E in Sp; by destruct Sp).
  destruct (dinv_claim (cls:=closing s) (ecore s) (rest ++ ecl s) _ _ (kernel (world s)) (disk (world s)) (ghost s)
    i p t Hb) as (r&d&?&?&?&?&?&?); try done.
  - eapply dinv_claims; [|apply Hs]. by rewrite Hf.
  - pose proof (sinv_nodup s Hs) as Hnd. by rewrite Hf in Hnd.
  - exists p, r, d. done.
Qed.

Lemma fill_got_makes s k i buf :
  sinv s → fpcs s !! k = Some (FGot (mkWork (Some i) NONE) buf) → length buf = psize →
  makes s ((r ← on_world (fill_read false psize i buf);
             set_fpc k (match r with Some b => FRead i b | None => FDone i buf end)) s).
Proof.
  intros Hs Hk Hbuf.
  destruct (fill_claimed s k _ i TWait Hs Hk eq_refl) as (p&r&d&Hp&Sp&Hr&Hh&Hpg&Hoff&Hlen&Hok).
  assert (core (eng (world s)) = put_core_pd i p (ecore s)) as Hid by (by rewrite put_core_pd_id).
  unfold fill_read. destruct Hok as [(Sf&Hdp&Hm&Hsp)|(Su&Hdp&Hdirty&Hm)].
  - destruct (bank_read_law (disk (world s)) (m_store d) (page p - start d)) as (dk'&Er&Hdk'&Hsame);
      [apply Hs|apply Hpg|].
    set (data := bank_page _ _ _) in Er.
    assert (length data = psize) as Hld by (apply bank_page_length; [apply Hs|apply Hpg]).
    erewrite bind_run.
    2:{ unfold on_world. apply zoom_run. rewrite (bind_run _ _ _ _ _ (world_get_pd _ i p Hp)).
        rewrite Hdp, andb_false_r. rewrite (bind_run _ _ _ _ _ (store_location_run _ i p r d _ Hp Hr Hh Hoff)).
        cbn beta iota. unfold on_disk. rewrite (bind_run _ _ _ _ _ (zoom_run _ _ _ _ _ _ Er)). cbn beta iota.
        rewrite bool_decide_false by lia. reflexivity. }
    cbn. rewrite overwrite_all by lia.
    apply makes_ok; [|less_work Hk Hp]. eapply (sinv_fill_step s k _ (FRead i data) i TWait (TRead data) p p
      (eng (world s)) (kernel (world s)) dk'); try done.
    + intros r' d' b Hh' Hpg' _. unfold stored. apply Hsame, Hpg'.
    + intros r' d' Hr' Hh' Hpg' _ _. assert (d' = d) as -> by congruence.
      split_and!; try done. unfold stored. rewrite Hsame by apply Hpg. done.
  - destruct (disable_wp_run _ _ _ _ Hm) as (o'&Eo&Hpte).
    erewrite bind_run.
    2:{ unfold on_world. apply zoom_run. rewrite (bind_run _ _ _ _ _ (world_get_pd _ i p Hp)).
        rewrite Hdirty, Hdp. cbn beta iota delta [andb]. unfold on_kernel.
        rewrite (bind_run _ _ _ _ _ (zoom_run _ _ _ _ _ _ Eo)). reflexivity. }
    cbn. apply makes_ok; [|less_work Hk Hp]. eapply (sinv_fill_step s k _ (FDone i buf) i TWait TFilled p p
      (eng (world s)) o' (disk (world s))); try done.
    + intros b Hne. by rewrite Hpte, decide_False.
    + apply Hs.
    + intros r' d' Hr' Hh' Hpg' _ _. rewrite Hpte, decide_True by done.
      split_and!; [by right|done|]. unfold resident. by rewrite Hdirty.
Qed.

Lemma world_modify_pd (w : World O St) i f p :
  c_array (core (eng w)) !! i = Some p →
  ∃ e', on_eng (modify_pd i f) w = Ok tt (with_eng e' w) ∧
    core e' = put_core_pd i (f p) (core (eng w)).
Proof.
  intros Hp. exists (put_pd i (f p) (eng w)). split; [|done].
  apply zoom_run. by apply modify_pd_run.
Qed.

Lemma fill_read_makes s k i buf :
  sinv s → fpcs s !! k = Some (FRead i buf) →
  makes s ((on_world (fill_install false i buf) ;; set_fpc k (FDone i buf)) s).
Proof.
  intros Hs Hk.
  assert (length buf = psize) as Hbuf
    by exact (Forall_lookup_1 _ _ _ _ (i_fpcs _ Hs) Hk).
  destruct (fill_claimed s k _ i (TRead buf) Hs Hk eq_refl)
    as (p&r&d&Hp&Sp&Hr&Hh&Hpg&Hoff&Hlen&(Sf&Hdp&Hm&Hsp&->)).
  assert (∃ o', (if negb (dirty p)
      then on_kernel (copy_in_page_and_write_protect false (ghost s (page p)) (page p))
      else on_kernel (copy_in_page (ghost s (page p)) (page p))) (world s) =
        Ok tt (with_kernel o' (world s)) ∧
      ∀ b, pte o' b = if decide (b = page p) then Some (ghost s (page p), negb (dirty p))
                      else pte (kernel (world s)) b) as (o'&Eo&Hpte).
  { destruct (dirty p); cbn [negb].
    - destruct (copy_in_run _ _ (ghost s (page p)) Hm) as (o'&Eo&Hpte). exists o'.
      split; [by apply zoom_run|done].
    - destruct (copy_in_wp_run _ _ (ghost s (page p)) Hm) as (o'&Eo&Hpte). exists o'.
      split; [by apply zoom_run|done]. }
  destruct (world_modify_pd (with_kernel o' (world s)) i (with_data_present true) p Hp) as (e'&Ee&He).
  erewrite bind_run.
  2:{ unfold on_world. apply zoom_run. unfold fill_install.
      rewrite (bind_run _ _ _ _ _ (world_get_pd _ i p Hp)).
      rewrite (bind_run _ _ _ _ _ Eo). exact Ee. }
  cbn. apply makes_ok; [|less_work Hk He]. eapply (sinv_fill_step s k _ (FDone i (ghost s (page p))) i (TRead (ghost s (page p))) TFilled p
    (with_data_present true p) e' o' (disk (world s))); try done.
  - intros b Hne. by rewrite Hpte, decide_False.
  - apply Hs.
  - intros r' d' Hr' Hh' Hpg' _ (_&_&_&Hsp'&_). rewrite Hpte, decide_True by done.
    split_and!; [by left|done|]. split; [done|]. by intros _.
Qed.

Lemma fill_done_makes s b k i buf :
  sinv s → fpcs s !! k = Some (FDone i buf) →
  makes s ((on_world (fill_finish b i) ;; set_fpc k (FIdle buf)) s).
Proof.
  intros Hs Hk.
  assert (length buf = psize) as Hbuf
    by exact (Forall_lookup_1 _ _ _ _ (i_fpcs _ Hs) Hk).
  destruct (fill_claimed s k _ i TFilled Hs Hk eq_refl)
    as (p&r&d&Hp&Sp&Hr&Hh&Hpg&Hoff&Hlen&Hok).
  destruct (fcl_pc s k _ Hk) as (rest&Hf&Hf'). cbn [fill_claim] in Hf.
  pose proof (i_binv _ Hs) as Hb. rewrite Hf in Hb. pose proof (sinv_nodup s Hs) as Hnd. rewrite Hf in Hnd.
  destruct (sys_runs _ s _ _ (mark_present_spec (ecore s) b (b_mutex _ _ _ _ _ Hb) i p Hp Sp)) as (e'&E&He).
  unfold fill_finish. rewrite (bind_run _ _ _ _ _ E). cbn.
  specialize (Hf' (with_eng e' (world s)) (FIdle buf) (f_equal c_fillq He)). cbn [fill_claim app] in Hf'.
  apply makes_ok; [|less_work Hk He]. set (s' := with_fpcs _ _) in *.
  assert (ecl s' = ecl s) as Hecl by (unfold ecl; cbn; by rewrite He).
  assert (state p ≠ FREE) as Sp' by (intros E'; rewrite E' in Sp; by destruct Sp).
  split; try (cbn; rewrite He; by apply Hs); try by apply Hs.
  - rewrite Hf', Hecl. cbn. rewrite He. by apply binv_present.
  - rewrite Hecl. eapply (dinv_claims _ (rest ++ ecl s)); [by rewrite Hf'|]. cbn. rewrite He.
    eapply (dinv_upd (cls:=closing s) (ecore s) ((i, TFilled) :: rest ++ ecl s)); [exact Hb| |exact Hp|try done..].
    + eapply dinv_claims; [|apply Hs]. by rewrite Hf.
    + apply Hs.
    + intros j u Hne Hu. by eapply has_tag_drop.
    + intros r' d' u Hh' Hpg' _ Hu Hok'. apply has_tag_claimed in Hu as ->; [|done].
      exists TPresent. split; [exact (has_tag_unclaimed _ _ TFilled Hnd)|]. by destruct Hok' as (_&?&?).
  - apply Forall_insert; [apply Hs|done].
  - rewrite Hecl. apply Hs.
  - cbn. rewrite He. cbn. rewrite length_insert. apply Hs.
Qed.

(** the filler has something to do *)
Definition fill_working (s : Sys) (k : nat) : Prop :=
  match fpcs s !! k with
  | None | Some FExit => False
  | Some (FIdle _ | FAsleep _) => c_fillq (ecore s) ≠ []
  | Some _ => True
  end.

Lemma fill_run_makes s b k : sinv s → fill_working s k → makes s (fill_run psize b k s).
Proof.
  intros Hs Hwk. unfold fill_run. erewrite bind_run by reflexivity. unfold fill_working in Hwk.
  destruct (fpcs s !! k) as [pc|] eqn:Hk; [|done].
  pose proof (Forall_lookup_1 _ _ _ _ (i_fpcs _ Hs) Hk) as HF.
  destruct pc as [buf|buf|w buf|i buf|i buf|]; cbn in HF.
  - eapply fill_take_makes; try done. apply get_work_takes.
  - eapply fill_take_makes; try done. apply resume_takes.
  - destruct HF as [Hbuf [i ->]]. cbn [is_exit].
    change (is_exit (mkWork (Some i) NONE)) with false. cbn iota.
    erewrite bind_run by reflexivity. cbn beta.
    replace (with_world _ s) with s by by destruct s as [[] ? ? ? ? ?].
    by apply fill_got_makes.
  - by apply fill_read_makes.
  - by apply fill_done_makes.
  - done.
Qed.

Lemma fill_run_good s b k : sinv s → good (TFill b k) s (fill_run psize b k s).
Proof.
  intros Hs. pose proof (fill_run_makes s b k Hs) as H.
  unfold fill_working, fill_run in *. erewrite bind_run in * by reflexivity.
  destruct (fpcs s !! k) as [pc|] eqn:Hk; [|done].
  pose proof (Forall_lookup_1 _ _ _ _ (i_fpcs _ Hs) Hk) as HF.
  destruct pc as [buf|buf|w buf|i buf|i buf|]; cbn in HF; try by apply makes_good, H.
  - eapply fill_take_good; try done. apply get_work_takes.
  - eapply fill_take_good; try done. apply resume_takes.
Qed.

(** *** Steps of the evict workers *)

Lemma ecl_pc s k pc :
  epcs s !! k = Some pc →
  ∃ rest, ecl s ≡ₚ evict_claim pc ++ rest ∧
    ∀ w' pc', c_evictq (core (eng w')) = c_evictq (ecore s) →
      ecl (with_epcs (<[k := pc']> (epcs s)) (with_world w' s)) ≡ₚ evict_claim pc' ++ rest.
Proof.
  intros Hk. destruct (claims_insert evict_claim (epcs s) k pc Hk) as (rest&E1&E2).
  exists ((queued TLeave (c_evictq (ecore s)) ++ mgr_claim (mpc s) ++ app_claim (apc s)) ++ rest). unfold ecl. split.
  - rewrite E1, !app_assoc, (Permutation_app_comm _ (evict_claim pc)), <- !app_assoc. done.
  - intros w' pc' Hq. cbn [epcs mpc apc world with_epcs with_world]. rewrite Hq, E2, !app_assoc,
      (Permutation_app_comm _ (evict_claim pc')), <- !app_assoc. done.
Qed.

Lemma ewait_ok_insert c c' l k pc pc' :
  ewait_ok c l → l !! k = Some pc → c_emax c' = c_emax c →
  c_ewait c' = c_ewait c - Z.b2z (is_asleep pc) + Z.b2z (is_asleep pc') →
  ewait_ok c' (<[k := pc']> l).
Proof.
  intros [Hw Hx] Hk Ex Ew. split; [|by rewrite length_insert, Ex].
  rewrite Ew, Hw. pose proof (lookup_lt_Some _ _ _ Hk) as Hlt.
  rewrite insert_take_drop by done. rewrite <- (take_drop_middle l k pc Hk) at 1.
  rewrite !filter_app, !filter_cons, !length_app.
  destruct (is_asleep pc), (is_asleep pc'); simpl; lia.
Qed.

Lemma ewait_ok_keep c l k pc pc' :
  ewait_ok c l → l !! k = Some pc → is_asleep pc = false → is_asleep pc' = false →
  ewait_ok c (<[k := pc']> l).
Proof. intros H Hk E E'. eapply ewait_ok_insert; [done..|]. rewrite E, E'. simpl. lia. Qed.

Lemma sinv_evict_step s k pc pc' i t t' p p' e' o' dk' :
  sinv s → epcs s !! k = Some pc → evict_claim pc = [(i, t)] → evict_claim pc' = [(i, t')] →
  epc_ok (closing s) pc' → is_asleep pc = false → is_asleep pc' = false → c_array (ecore s) !! i = Some p →
  core e' = put_core_pd i p' (ecore s) →
  page p' = page p → region p' = region p → deferred p' = deferred p → state p' = state p →
  (∀ b, b ≠ page p → pte o' b = pte (kernel (world s)) b) →
  (∀ r d b, heap (c_regs (ecore s)) !! r = Some d → region_page psize cap d b → b ≠ page p →
     stored dk' d b = stored (disk (world s)) d b) → bank_ok dk' →
  (∀ r d, region p = Some r → heap (c_regs (ecore s)) !! r = Some d →
     region_page psize cap d (page p) → length (ghost s (page p)) = psize →
     data_ok t p (pte (kernel (world s)) (page p)) (stored (disk (world s)) d (page p)) (ghost s (page p)) →
     data_ok t' p' (pte o' (page p)) (stored dk' d (page p)) (ghost s (page p))) →
  sinv (with_epcs (<[k := pc']> (epcs s)) (with_world (mkWorld e' o' dk') s)).
Proof.
  intros Hs Hk Hpc Hpc' Hok Has Has' Hp He E1 E2 E3 E4 Ho Hst Hdk Hd.
  destruct (ecl_pc s k pc Hk) as (rest&Hf&Hf'). rewrite Hpc in Hf.
  specialize (Hf' (mkWorld e' o' dk') pc' (f_equal c_evictq He)). rewrite Hpc' in Hf'.
  pose proof (sinv_nodup s Hs) as Hnd. pose proof (i_binv _ Hs) as Hb. rewrite Hf in Hb.
  destruct (binv_leaving_pd _ _ _ _ _ Hb i) as (q&Hq'&Sq); [set_solver|]. simplify_eq.
  assert (state p ≠ FREE) as Sp by congruence.
  set (s' := with_epcs _ _) in *.
  assert (fcl s' = fcl s) as Hfcl by (unfold fcl; cbn; by rewrite He).
  split; try (cbn; rewrite He; by apply Hs); try by apply Hs.
  - rewrite Hf', Hfcl. cbn. rewrite He. by eapply binv_put_same.
  - rewrite Hfcl. eapply (dinv_claims _ ((i, t') :: fcl s ++ rest)).
    { rewrite Hf'. simpl. by rewrite <- Permutation_middle. }
    cbn. rewrite He. eapply dinv_work; [exact Hb| | |exact Hp|done..].
    + eapply dinv_claims; [|apply Hs]. rewrite Hf. simpl. by rewrite <- Permutation_middle.
    + rewrite Hf in Hnd. simpl in Hnd. by rewrite <- Permutation_middle in Hnd.
  - apply Forall_insert; [apply Hs|done].
  - intros Hd'. apply (i_done _ Hs) in Hd'. rewrite Hd' in Hf. by apply Permutation_nil_l in Hf.
  - cbn. rewrite He. by eapply (ewait_ok_keep _ _ k pc); [apply (i_ewait _ Hs)|..].
  - cbn. rewrite He. cbn. rewrite length_insert. apply Hs.
Qed.

(** the page somebody is evicting *)
Lemma leaving_claimed s i t rest :
  sinv s → ecl s ≡ₚ (i, t) :: rest →
  ∃ p r d, c_array (ecore s) !! i = Some p ∧ state p = LEAVING ∧ region p = Some r ∧
    heap (c_regs (ecore s)) !! r = Some d ∧ region_page psize cap d (page p) ∧
    store_offset d (page p) = Some (page p - start d) ∧
    length (ghost s (page p)) = psize ∧
    data_ok t p (pte (kernel (world s)) (page p)) (stored (disk (world s)) d (page p))
      (ghost s (page p)).
Proof.
  intros Hs Hf. pose proof (i_binv _ Hs) as Hb.
  destruct (binv_leaving_pd _ _ _ _ _ Hb i) as (p&Hp&Sp); [rewrite Hf; set_solver|].
  destruct (dinv_claim (cls:=closing s) (ecore s) (fcl s ++ rest) _ _ (kernel (world s))
    (disk (world s)) (ghost s) i p t Hb) as (r&d&?&?&?&?&?&?); try done; [| |congruence|].
  - eapply dinv_claims; [|apply Hs]. rewrite Hf. simpl. by rewrite <- Permutation_middle.
  - pose proof (sinv_nodup s Hs) as Hnd. rewrite Hf in Hnd. by rewrite <- Permutation_middle in Hnd.
  - exists p, r, d. done.
Qed.

Lemma evict_claimed s k pc i t :
  sinv s → epcs s !! k = Some pc → evict_claim pc = [(i, t)] →
  ∃ p r d, c_array (ecore s) !! i = Some p ∧ state p = LEAVING ∧ region p = Some r ∧
    heap (c_regs (ecore s)) !! r = Some d ∧ region_page psize cap d (page p) ∧
    store_offset d (page p) = Some (page p - start d) ∧
    length (ghost s (page p)) = psize ∧
    data_ok t p (pte (kernel (world s)) (page p)) (stored (disk (world s)) d (page p))
      (ghost s (page p)).
Proof.
  intros Hs Hk Hpc. destruct (ecl_pc s k pc Hk) as (rest&Hf&_). rewrite Hpc in Hf.
  by eapply leaving_claimed.
Qed.

Lemma evict_take_makes s m k pc :
  sinv s → takes (Z.b2z (is_asleep pc)) m → epcs s !! k = Some pc → pc = EIdle ∨ pc = EAsleep ∧ c_evictq (ecore s) ≠ [] →
  makes s (evict_take m k s).
Proof.
  intros Hs Hm Hk Hidle.
  assert (evict_claim pc = []) as Hpc by (by destruct Hidle as [->|[-> _]]).
  destruct (claims_insert evict_claim (epcs s) k pc Hk) as (rest'&E1&E2).
  rewrite Hpc in E1. unfold evict_take, or_sleep.
  destruct (c_evictq (ecore s)) as [|w l] eqn:Eq.
  - destruct (sys_blocks _ s _ _ (take_evict_empty _ m (ecore s) Hm Eq)) as (e'&E&Hc).
    destruct Hidle as [->|[_ ?]]; [|done].
    rewrite E. cbn. apply makes_ok; [|less_work Hk Hc]. eapply (sinv_requeue s _ (c_fillq (ecore s)) (c_mgrq (ecore s)) (c_evictq (ecore s)) _ Hs);
      cbn; try exact Hc; try done; try apply Hs; try (rewrite Hc; by apply Hs).
    + unfold fcl. cbn. by rewrite Hc.
    + unfold ecl. cbn. by rewrite Hc, E1, E2.
    + apply Forall_insert; [apply Hs|done].
    + rewrite Hc. eapply (ewait_ok_insert (ecore s)); [apply Hs|exact Hk|done|]. cbn. lia.
  - destruct (sys_runs _ s _ _ (take_evict _ m (ecore s) w l Hm Eq)) as (e'&E&Hc).
    rewrite E. cbn. pose proof (i_evictq _ Hs) as Hq. rewrite Eq in Hq.
    apply Forall_cons in Hq as [Hw Hq]. apply makes_ok.
    2:{ unfold work_left. cbn. rewrite Hc.
        pose proof (sum_insert evict_weight _ _ _ (EGot w) Hk) as Hsum.
        assert (length (c_evictq (ecore s)) = S (length l)) by by rewrite Eq.
        destruct Hidle as [->|[-> _]]; cbn in *; lia. }
    eapply (sinv_requeue s _ (c_fillq (ecore s)) (c_mgrq (ecore s)) l _ Hs);
      cbn; try exact Hc; try done; try apply Hs; try (rewrite Hc; by apply Hs).
    + unfold fcl. cbn. by rewrite Hc.
    + unfold ecl. cbn. rewrite Hc, Eq, E1, E2. destruct Hw as (i&ty&->&_). simpl.
      rewrite app_assoc, <- Permutation_middle, <- app_assoc. done.
    + apply Forall_insert; [apply Hs|done].
    + rewrite Hc. eapply (ewait_ok_insert (ecore s)); [apply Hs|exact Hk|done|]. cbn. lia.
Qed.

Lemma evict_got_makes s k i ty :
  sinv s → epcs s !! k = Some (EGot (mkWork (Some i) ty)) → evict_type (closing s) ty →
  makes s ((d ← on_world (evict_protect false i);
             set_epc k (if d : bool then EProt ty i else EClean ty i)) s).
Proof.
  intros Hs Hk Hty.
  destruct (evict_claimed s k _ i TLeave Hs Hk eq_refl)
    as (p&r&d&Hp&Sp&Hr&Hh&Hpg&Hoff&Hlen&(_&Hm&Hsp)).
  assert (core (eng (world s)) = put_core_pd i p (ecore s)) as Hid by (by rewrite put_core_pd_id).
  unfold evict_protect. destruct (dirty p) eqn:Hdirty; cbn [negb] in Hm.
  - destruct (enable_wp_run _ _ _ _ Hm) as (o'&Eo&Hpte).
    erewrite bind_run.
    2:{ unfold on_world. apply zoom_run. rewrite (bind_run _ _ _ _ _ (world_get_pd _ i p Hp)).
        rewrite Hdirty. rewrite (bind_run _ _ _ _ _ (store_location_run _ i p r d _ Hp Hr Hh Hoff)).
        unfold on_kernel. rewrite (bind_run _ _ _ _ _ (zoom_run _ _ _ _ _ _ Eo)). reflexivity. }
    cbn. apply makes_ok; [|less_work Hk Hp]. eapply (sinv_evict_step s k _ (EProt ty i) i TLeave TProt p p
      (eng (world s)) o' (disk (world s))); try done.
    + intros b Hne. by rewrite Hpte, decide_False.
    + apply Hs.
    + intros r' d' Hr' Hh' Hpg' _ _. by rewrite Hpte, decide_True.
  - erewrite bind_run.
    2:{ unfold on_world. apply zoom_run. rewrite (bind_run _ _ _ _ _ (world_get_pd _ i p Hp)).
        rewrite Hdirty. reflexivity. }
    cbn. replace (world s) with (mkWorld (eng (world s)) (kernel (world s)) (disk (world s))) at 1
      by by destruct (world s).
    apply makes_ok; [|less_work Hk Hp]. eapply (sinv_evict_step s k _ (EClean ty i) i TLeave TClean p p); try done.
    + apply Hs.
    + intros r' d' Hr' Hh' Hpg' _ _. assert (d' = d) as -> by congruence.
      split_and!; [done|done|]. by apply Hsp.
Qed.

(** writing a page changes that page of that store only *)
Lemma stored_other s r d r' d' a b :
  sinv s → heap (c_regs (ecore s)) !! r = Some d → heap (c_regs (ecore s)) !! r' = Some d' →
  region_page psize cap d' b → b ≠ a → (m_store d', b - start d') ≠ (m_store d, a - start d).
Proof.
  intros Hs Hh Hh' Hpg Hne Heq. simplify_eq.
  assert (r' = r) as ->
    by (eapply ro_store; [apply (b_regs _ _ _ _ _ (i_binv _ Hs))|done|done|done]).
  simplify_eq. lia.
Qed.

Lemma evict_prot_makes s k i ty :
  sinv s → epcs s !! k = Some (EProt ty i) → evict_type (closing s) ty →
  makes s ((on_world (evict_write i) ;; set_epc k (EWrote ty i)) s).
Proof.
  intros Hs Hk Hty.
  destruct (evict_claimed s k _ i TProt Hs Hk eq_refl)
    as (p&r&d&Hp&Sp&Hr&Hh&Hpg&Hoff&Hlen&(_&Hm)).
  assert (core (eng (world s)) = put_core_pd i p (ecore s)) as Hid by (by rewrite put_core_pd_id).
  destruct (bank_write_law (disk (world s)) (m_store d) (page p - start d) (ghost s (page p)))
    as (dk'&Ew&Hdk'&Hpages); [apply Hs|apply Hpg|done|].
  unfold evict_write. erewrite bind_run.
  2:{ unfold on_world. apply zoom_run. rewrite (bind_run _ _ _ _ _ (world_get_pd _ i p Hp)).
      rewrite (bind_run _ _ _ _ _ (store_location_run _ i p r d _ Hp Hr Hh Hoff)).
      cbn beta iota. erewrite bind_run by reflexivity. rewrite load_law, Hm. cbn beta iota.
      unfold on_disk. cbn [fmap option_fmap option_map fst]. rewrite (bind_run _ _ _ _ _ (zoom_run _ _ _ _ _ _ Ew)).
      rewrite bool_decide_false by lia. reflexivity. }
  cbn. apply makes_ok; [|less_work Hk Hp]. eapply (sinv_evict_step s k _ (EWrote ty i) i TProt TWrote p p
    (eng (world s)) (kernel (world s)) dk'); try done.
  - intros r' d' b Hh' Hpg' Hne. unfold stored. rewrite Hpages by apply Hpg'.
    rewrite decide_False; [done|]. by eapply stored_other.
  - intros r' d' Hr' Hh' Hpg' _ _. assert (d' = d) as -> by congruence.
    split_and!; [done|done|]. unfold stored. rewrite Hpages by apply Hpg. by rewrite decide_True.
Qed.

Lemma evict_wrote_makes s k i ty :
  sinv s → epcs s !! k = Some (EWrote ty i) → evict_type (closing s) ty →
  makes s ((on_world (evict_clean i) ;; set_epc k (EClean ty i)) s).
Proof.
  intros Hs Hk Hty.
  destruct (evict_claimed s k _ i TWrote Hs Hk eq_refl)
    as (p&r&d&Hp&Sp&Hr&Hh&Hpg&Hoff&Hlen&Hok).
  destruct (world_modify_pd (world s) i (with_dirty false) p Hp) as (e'&Ee&He).
  unfold evict_clean. erewrite bind_run by (unfold on_world; apply zoom_run; exact Ee).
  cbn. apply makes_ok; [|less_work Hk He]. eapply (sinv_evict_step s k _ (EClean ty i) i TWrote TClean p (with_dirty false p)
    e' (kernel (world s)) (disk (world s))); try done.
  apply Hs.
Qed.

Lemma evict_clean_makes s k i ty :
  sinv s → epcs s !! k = Some (EClean ty i) → evict_type (closing s) ty →
  makes s ((on_world (evict_drop ty i) ;; set_epc k (EGone ty i)) s).
Proof.
  intros Hs Hk Hty.
  destruct (evict_claimed s k _ i TClean Hs Hk eq_refl)
    as (p&r&d&Hp&Sp&Hr&Hh&Hpg&Hoff&Hlen&(_&Hm&Hsp)).
  assert (core (eng (world s)) = put_core_pd i p (ecore s)) as Hid by (by rewrite put_core_pd_id).
  unfold evict_drop. case_bool_decide as Ef.
  - subst ty. erewrite bind_run by (unfold on_world; apply zoom_run; reflexivity). cbn.
    replace (world s) with (mkWorld (eng (world s)) (kernel (world s)) (disk (world s))) at 1
      by by destruct (world s).
    apply makes_ok; [|less_work Hk Hp]. eapply (sinv_evict_step s k _ (EGone FAST_EVICT i) i TClean TClean p p); try done.
    apply Hs.
  - destruct (madvise_law (kernel (world s)) (page p)) as (o'&Eo&Hpte). erewrite bind_run.
    2:{ unfold on_world. apply zoom_run. rewrite (bind_run _ _ _ _ _ (world_get_pd _ i p Hp)).
        apply zoom_run, call_or_throw_run, Eo. }
    cbn. apply makes_ok; [|less_work Hk Hp]. eapply (sinv_evict_step s k _ (EGone ty i) i TClean TGone p p
      (eng (world s)) o' (disk (world s))); try done.
    + cbn. by rewrite bool_decide_false.
    + intros b Hne. by rewrite Hpte, decide_False.
    + apply Hs.
    + intros r' d' Hr' Hh' Hpg' _ (_&_&Hsp'). rewrite Hpte, decide_True by done. done.
Qed.

(** regions differ only in their sets of active pages *)
Lemma heap_active (h : gmap nat RegionDescriptor) r d s0 r' d' :
  h !! r = Some d → <[r := with_active s0 d]> h !! r' = Some d' →
  ∃ d0, h !! r' = Some d0 ∧ (∀ a, region_page psize cap d' a ↔ region_page psize cap d0 a) ∧
    (∀ dk a, stored dk d' a = stored dk d0 a).
Proof. intros Hr [[<- <-]|[_ ?]]%lookup_insert_Some; eauto. Qed.

Lemma dinv_freed {cls} c cl hf he o dk g i p r d t :
  binv psize cap c hf he → dinv (cls:=cls) c ((i, t) :: cl) o dk g → NoDup (((i, t) :: cl).*1) →
  c_array c !! i = Some p → state p ≠ FREE → region p = Some r → heap (c_regs c) !! r = Some d →
  (∀ m sp g, data_ok t p m sp g → (m = None ∨ cls = true ∧ m = Some (g, true)) ∧ sp = g) →
  dinv (cls:=cls) (freed c i p r d) cl o dk g.
Proof.
  intros Hinv Hdi Hnd Hp Sp Hr Hh Hrel.
  destruct (dinv_claim _ _ _ _ _ _ _ _ _ _ Hinv Hdi Hnd Hp Sp) as (r0&d0&Hr0&Hh0&Hpg&_&_&Hgone).
  assert (r0 = r) as -> by congruence. assert (d0 = d) as -> by congruence.
  destruct Hdi as [Hd Ha Hdk Hlen]. split; cbn.
  - intros j q r' d' [(<-&<-&_)|[Hne Hq]]%list_lookup_insert_Some Sq Hr' Hh'; [done|].
    destruct (heap_active _ _ _ _ _ _ Hh Hh') as (d1&Hh1&_&Hst).
    destruct (Hd j q r' d1 Hq Sq Hr' Hh1) as (u&Hu&Hok). exists u. rewrite Hst.
    split; [|done]. by eapply has_tag_drop.
  - intros r' d' a Hh' Hpg' Habs.
    destruct (heap_active _ _ _ _ _ _ Hh Hh') as (d1&Hh1&Hpg1&Hst). rewrite Hst.
    apply lookup_delete_None in Habs as [<-|Habs].
    + assert (r' = r) as -> by (eapply region_unique; [apply Hinv|done|done|by apply Hpg1|apply Hpg]).
      assert (d1 = d) as -> by congruence. exact (Hrel _ _ _ Hgone).
    + eapply Ha; [done|by apply Hpg1|done].
  - done.
  - intros r' d' a Hh' Hpg'. destruct (heap_active _ _ _ _ _ _ Hh Hh') as (d1&Hh1&Hpg1&_).
    eapply Hlen; [done|by apply Hpg1].
Qed.

Lemma upc_ok_freed c u i p r d :
  heap (c_regs c) !! r = Some d → upc_ok c u → upc_ok (freed c i p r d) u.
Proof.
  intros Hh.
  assert (∀ r' a, (∃ d', heap (c_regs c) !! r' = Some d' ∧ region_page psize cap d' a) →
    ∃ d', heap (c_regs (freed c i p r d)) !! r' = Some d' ∧ region_page psize cap d' a) as H.
  { intros r' a (d'&Hd'&Hpg). cbn. destruct (decide (r' = r)) as [->|Hne].
    - simplify_eq. rewrite lookup_insert_eq. eauto.
    - rewrite lookup_insert_ne by done. eauto. }
  destruct u as [l|a w r' l|a w r' l|a w r' l]; [done|..]; cbn [upc_ok].
  - intros [? ?]. auto.
  - intros [? ?]. auto.
  - intros (?&Habs&?). split_and!; [done| |auto]. apply lookup_delete_None. auto.
Qed.

(** a page that was evicted goes back to the free list *)
Lemma sinv_freed s s' i t rest p r d e' :
  sinv s → ecl s ≡ₚ (i, t) :: rest → c_array (ecore s) !! i = Some p → state p = LEAVING →
  region p = Some r → heap (c_regs (ecore s)) !! r = Some d →
  (∀ m sp g, data_ok t p m sp g → (m = None ∨ closing s = true ∧ m = Some (g, true)) ∧ sp = g) →
  core e' = freed (ecore s) i p r d →
  world s' = with_eng e' (world s) → ghost s' = ghost s → upc s' = upc s → fpcs s' = fpcs s →
  mpc s' = mpc s → closing s' = closing s → ecl s' ≡ₚ rest →
  Forall (epc_ok (closing s)) (epcs s') → app_ok (apc s') (upc s) (mpc s) (ecore s) →
  (apc s' = ADone → apc s = ADone) → ewait_ok (ecore s) (epcs s') → sinv s'.
Proof.
  intros Hs Hf Hp Sp Hr Hh Hrel He Hw Hg Hu Hfp Hm Hcl Hrest Hep Happ Hdone Hew.
  assert (state p ≠ FREE) as Sp' by congruence.
  pose proof (i_binv _ Hs) as Hb. rewrite Hf in Hb.
  pose proof (sinv_nodup s Hs) as Hnd. rewrite Hf, <- Permutation_middle in Hnd.
  assert (ecore s' = freed (ecore s) i p r d) as Hc by (by rewrite Hw).
  assert (fcl s' = fcl s) as Hfcl by (unfold fcl; by rewrite Hc, Hfp).
  split; rewrite ?Hcl, ?Hc, ?Hu, ?Hfp, ?Hm; try done; try by apply Hs.
  - rewrite Hrest, Hfcl. by apply binv_freed.
  - rewrite Hfcl, Hw, Hg. eapply (dinv_claims _ (fcl s ++ rest)); [by rewrite Hrest|].
    eapply dinv_freed; try done.
    eapply dinv_claims; [|apply Hs]. rewrite Hf. by rewrite <- Permutation_middle.
  - apply upc_ok_freed; [done|apply Hs].
  - intros Hd'%Hdone%(i_done _ Hs). rewrite Hd' in Hf. by apply Permutation_nil_l in Hf.
  - cbn. rewrite length_insert. apply Hs.
Qed.

Lemma evict_gone_makes s b k i ty :
  sinv s → epcs s !! k = Some (EGone ty i) → evict_type (closing s) ty →
  makes s ((on_world (evict_finish b i) ;; set_epc k EIdle) s).
Proof.
  intros Hs Hk Hty. destruct (ecl_pc s k _ Hk) as (rest&Hf&Hf'). cbn [evict_claim] in Hf.
  destruct (leaving_claimed s i _ rest Hs Hf) as (p&r&d&Hp&Sp&Hr&Hh&Hpg&Hoff&Hlen&Hok).
  pose proof (i_binv _ Hs) as Hb.
  destruct (sys_runs _ s _ _ (mark_free_spec (ecore s) b (b_mutex _ _ _ _ _ Hb) i p r d Hp Sp Hr Hh))
    as (e'&E&He).
  unfold evict_finish. rewrite (bind_run _ _ _ _ _ E). cbn.
  apply makes_ok; [|less_work Hk He]. eapply (sinv_freed s _ i _ rest p r d e' Hs Hf); try done.
  - destruct Hty as [->|[Hcl ->]]; cbn; intros m sp g (_&?&?); auto.
  - exact (Hf' (with_eng e' (world s)) EIdle (f_equal c_evictq He)).
  - apply Forall_insert; [apply Hs|done].
  - apply Hs.
  - by eapply (ewait_ok_keep _ _ k); [apply (i_ewait _ Hs)|..].
Qed.

Lemma evict_sleep_good t s m k :
  sinv s → takes 1 m → epcs s !! k = Some EAsleep → c_evictq (ecore s) = [] →
  good t s (evict_take m k s).
Proof.
  intros Hs Hm Hk Eq. destruct (claims_insert evict_claim (epcs s) k _ Hk) as (rest'&E1&E2).
  unfold evict_take, or_sleep.
  destruct (sys_blocks _ s _ _ (take_evict_empty _ m (ecore s) Hm Eq)) as (e'&E&Hc). rewrite E. cbn.
  eapply (sinv_requeue s _ (c_fillq (ecore s)) (c_mgrq (ecore s)) (c_evictq (ecore s)) _ Hs);
    cbn; try exact Hc; try done; try apply Hs; try (rewrite Hc; by apply Hs).
  - unfold fcl. cbn. by rewrite Hc.
  - unfold ecl. cbn. by rewrite Hc, E1, E2.
  - apply Forall_insert; [apply Hs|done].
  - rewrite Hc. eapply (ewait_ok_insert (ecore s)); [apply Hs|exact Hk|done|]. cbn. lia.
Qed.

(** the evictor has something to do *)
Definition evict_working (s : Sys) (k : nat) : Prop :=
  match epcs s !! k with
  | None | Some EExit => False
  | Some EAsleep => c_evictq (ecore s) ≠ []
  | Some _ => True
  end.

Lemma evict_run_makes s b k : sinv s → evict_working s k → makes s (evict_run b k s).
Proof.
  intros Hs Hwk. unfold evict_run. erewrite bind_run by reflexivity. unfold evict_working in Hwk.
  destruct (epcs s !! k) as [pc|] eqn:Hk; [|done].
  pose proof (Forall_lookup_1 _ _ _ _ (i_epcs _ Hs) Hk) as HF.
  destruct pc as [| |w|t i|t i|t i|t i|]; cbn in HF.
  - apply (evict_take_makes s _ k EIdle Hs get_work_takes Hk). by left.
  - apply (evict_take_makes s _ k EAsleep Hs resume_takes Hk). by right.
  - destruct HF as (i&ty&->&Hty).
    replace (is_exit (mkWork (Some i) ty)) with false by by destruct Hty as [->|[_ ->]].
    erewrite bind_run by reflexivity. cbn beta.
    replace (with_world _ s) with s by by destruct s as [[] ? ? ? ? ?].
    by apply evict_got_makes.
  - by apply evict_prot_makes.
  - by apply evict_wrote_makes.
  - rewrite bool_decide_false by (by destruct HF as [->|[_ ->]]). by apply evict_clean_makes.
  - by eapply evict_gone_makes.
  - done.
Qed.

Lemma evict_run_good s b k : sinv s → good (TEvict b k) s (evict_run b k s).
Proof.
  intros Hs. pose proof (evict_run_makes s b k Hs) as H.
  unfold evict_working, evict_run in *. erewrite bind_run in * by reflexivity.
  destruct (epcs s !! k) as [pc|] eqn:Hk; [|done].
  destruct pc as [| |w|t i|t i|t i|t i|]; try by apply makes_good, H.
  - destruct (decide (c_evictq (ecore s) = [])) as [Eq|Hne]; [|by apply makes_good, H].
    eapply evict_sleep_good; try done. apply resume_takes.
  - done.
Qed.

(** *** Steps of the eviction manager *)

Lemma app_ok_asleep a u m c : app_ok a u m c → app_ok a u MAsleep c.
Proof. destruct a; cbn; naive_solver. Qed.

Lemma mgr_take_good t s x m :
  sinv s → takes x m → mgr_claim (mpc s) = [] → good t s (mgr_take m s).
Proof.
  intros Hs Hm Hpc. unfold mgr_take, or_sleep.
  destruct (c_mgrq (ecore s)) as [|w l] eqn:Eq.
  - destruct (sys_blocks _ s _ _ (take_mgr_empty x m (ecore s) Hm Eq)) as (e'&E&Hc).
    rewrite E. cbn. apply (sinv_repc s _ Hs); cbn; try done; try apply Hs;
      try (rewrite Hc; by apply Hs).
    + unfold fcl. cbn. by rewrite Hc.
    + unfold ecl. cbn. by rewrite Hc, Hpc.
    + rewrite Hc. eapply app_ok_asleep, Hs.
  - destruct (sys_runs _ s _ _ (take_mgr x m (ecore s) w l Hm Eq)) as (e'&E&Hc).
    assert (apc s = ARun) as Ha by (apply app_in_use; [done|]; rewrite Eq; auto).
    pose proof (i_mgrq _ Hs) as Hq. rewrite Eq in Hq. apply Forall_cons in Hq as [-> Hq].
    rewrite E. cbn.
    eapply (sinv_requeue s _ (c_fillq (ecore s)) l (c_evictq (ecore s)) (c_ewait (ecore s)) Hs);
      cbn; try done; try apply Hs; try (rewrite Hc; by apply Hs).
    + unfold fcl. cbn. by rewrite Hc.
    + unfold ecl. cbn. by rewrite Hc, Hpc.
    + by rewrite Ha.
Qed.

Lemma data_present_tag u p m sp g : data_ok u p m sp g → state p = PRESENT → u = TPresent ∧ resident p m sp g.
Proof.
  intros Hok Sp. destruct u; cbn in Hok; rewrite Sp in Hok.
  - by destruct Hok as [[? _]|[? _]].
  - by destruct Hok.
  - destruct Hok as [[?|?] _]; done.
  - by destruct Hok as (_&_&?).
  - by destruct Hok.
  - by destruct Hok.
  - by destruct Hok.
  - by destruct Hok.
  - by destruct Hok.
Qed.

Lemma evictable_in_present a i : evictable_in a i = true → ∃ p, a !! i = Some p ∧ state p = PRESENT.
Proof.
  unfold evictable_in. destruct (a !! i) as [p|]; [|done]. unfold evictable.
  intros [_ ?%bool_decide_eq_true]%andb_prop. eauto.
Qed.

Lemma dinv_leave_all {cls} c cl o dk g l busy' :
  dinv (cls:=cls) c cl o dk g → (∀ i, i ∈ l → evictable_in (c_array c) i = true) →
  dinv (cls:=cls) (set_array (leave_all l (c_array c)) (set_busy busy' c))
    (((λ i, (i, TLeave)) <$> l) ++ cl) o dk g.
Proof.
  intros [Hd Ha Hdk Hlen] Hev. split; try done. cbn.
  intros i p r d Hp Sp Hr Hh. rewrite leave_all_lookup in Hp. case_decide as Hi.
  - destruct (evictable_in_present _ _ (Hev i Hi)) as (p0&Hp0&Sp0).
    rewrite Hp0 in Hp. cbn in Hp. injection Hp as <-.
    destruct (Hd i p0 r d Hp0) as (u&Hu&Hok); [congruence|done|done|].
    apply data_present_tag in Hok as [-> Hres]; [|done].
    exists TLeave. split; [|by split]. left. apply elem_of_app. left.
    by apply (list_elem_of_fmap_2 (λ i, (i, TLeave))).
  - destruct (Hd i p r d Hp Sp Hr Hh) as (u&Hu&Hok). exists u. split; [|done].
    destruct Hu as [Hu|[Hu ->]]; [left; set_solver|]. right. split; [|done].
    rewrite claims_fst, elem_of_app. tauto.
Qed.

Lemma mgr_loop_good s b :
  sinv s → mpc s = MLoop →
  good (TMgr b) s ((r ← on_world (on_eng (evict_mgr_round b));
    set_mpc (match r with None => MIdle | Some l => MSend l end)) s).
Proof.
  intros Hs Hpc.
  assert (apc s = ARun) as Ha
    by (apply app_in_use; [done|]; right; right; rewrite Hpc; by split).
  pose proof (i_binv _ Hs) as Hb.
  pose proof (binv_nodup _ _ _ _ _ Hb) as Hnd.
  apply NoDup_app in Hnd as (_&_&Hnd). apply NoDup_app in Hnd as (Hndb&_&_).
  assert (∀ x, x ∈ c_busy (ecore s) → is_Some (c_array (ecore s) !! x)) as Hval.
  { intros x Hx. apply (binv_valid _ _ _ _ _ Hb). rewrite !elem_of_app. auto. }
  assert (Z.of_nat (length (c_busy (ecore s))) < 2 ^ 64) as Hlen.
  { pose proof (i_small _ Hs). pose proof (Permutation_length (b_part _ _ _ _ _ Hb)) as HP.
    rewrite !length_app, length_seq in HP. lia. }
  assert (ecl s = queued TLeave (c_evictq (ecore s)) ++ (epcs s ≫= evict_claim)) as Hecl
    by (unfold ecl; by rewrite Hpc, Ha).
  destruct (low_threshold_reached (eng (world s))) eqn:Elow.
  { erewrite bind_run.
    2:{ unfold on_world, on_eng. apply zoom_run, zoom_run. unfold evict_mgr_round.
        erewrite bind_run by reflexivity. by rewrite Elow. }
    cbn. apply (sinv_repc s _ Hs); try done; try apply Hs.
    - by unfold ecl; cbn; rewrite Hpc.
    - cbn. by rewrite Ha. }
  destruct (cut_nth (evictable_in (c_array (ecore s))) max_num_evicted_pages
    (reverse (c_busy (ecore s)))) as [[pre post]|] eqn:Ecut.
  - set (l := filter (evictable_in (c_array (ecore s))) pre).
    destruct (evict_batch_spec b (ecore s) pre post (b_mutex _ _ _ _ _ Hb) Hndb Hlen Hval Ecut
      (eng (world s)) eq_refl) as (e'&E&He).
    fold l in E, He.
    erewrite bind_run.
    2:{ unfold on_world, on_eng. apply zoom_run, zoom_run. unfold evict_mgr_round.
        erewrite bind_run by reflexivity. rewrite Elow. rewrite (bind_run _ _ _ _ _ E). reflexivity. }
    cbn. destruct (cut_first (eng (world s)) pre post Ecut) as (_&_&Hperm).
    assert (∀ i, i ∈ l → evictable_in (c_array (ecore s)) i = true) as Hev.
    { intros i [Hi _]%list_elem_of_filter. by destruct (evictable_in _ i). }
    set (s' := with_mpc _ _).
    assert (fcl s' = fcl s) as Hfcl by (unfold fcl; cbn; by rewrite He).
    assert (ecl s' ≡ₚ ((λ i, (i, TLeave)) <$> l) ++ ecl s) as Hecl'.
    { unfold ecl at 1. cbn. rewrite He, Hecl, Ha, app_nil_r. cbn.
      fold (queued TLeave (c_evictq (ecore s))).
      by rewrite app_assoc, (Permutation_app_comm (queued _ _)), <- app_assoc. }
    split; try (cbn; rewrite He; by apply Hs); try by apply Hs.
    + rewrite Hfcl, Hecl'. cbn. rewrite He, claims_fst. apply binv_leave_all; [done| |done].
      rewrite <- Hperm. by rewrite Permutation_app_comm.
    + rewrite Hfcl. eapply (dinv_claims _ (((λ i, (i, TLeave)) <$> l) ++ fcl s ++ ecl s)).
      { rewrite Hecl'. rewrite !app_assoc. by rewrite (Permutation_app_comm (fcl s)). }
      cbn. rewrite He. apply dinv_leave_all; [apply Hs|done].
    + done.
    + cbn. by rewrite Ha.
    + cbn. by rewrite Ha.
    + cbn. rewrite He. cbn. rewrite length_leave_all. apply Hs.
  - destruct (decide (c_busy (ecore s) = [])) as [Hempty|Hne].
    + destruct (evict_batch_empty b (ecore s) (b_mutex _ _ _ _ _ Hb) Hempty (eng (world s)) eq_refl)
        as (e'&E&He).
      erewrite bind_run.
      2:{ unfold on_world, on_eng. apply zoom_run, zoom_run. unfold evict_mgr_round.
          erewrite bind_run by reflexivity. rewrite Elow. rewrite (bind_run _ _ _ _ _ E). reflexivity. }
      cbn. apply (sinv_repc s _ Hs); cbn; try done; try apply Hs; try (rewrite He; by apply Hs).
      * unfold fcl. cbn. by rewrite He.
      * unfold ecl. cbn. by rewrite He, Hpc.
      * by rewrite Ha.
    + pose proof (evict_batch_ub b (eng (world s)) (b_mutex _ _ _ _ _ Hb) Hndb Hlen Hval Hne Ecut) as E.
      assert (on_world (on_eng (evict_mgr_round b)) s = UB "deque index out of range") as Eub.
      { unfold on_world, on_eng, zoom, evict_mgr_round. erewrite bind_run by reflexivity.
        rewrite Elow. unfold mbind, M_bind. by rewrite E. }
      unfold mbind, M_bind. rewrite Eub. cbn. exists b. split_and!; [done|done|].
      apply cut_nth_None in Ecut. eapply Nat.le_lt_trans; [|exact Ecut].
      apply Nat.eq_le_incl, Permutation_length. by rewrite reverse_Permutation.
Qed.

Lemma mgr_run_good s b : sinv s → good (TMgr b) s (mgr_run b s).
Proof.
  intros Hs. unfold mgr_run. erewrite bind_run by reflexivity.
  destruct (mpc s) as [| | |[|i l]|] eqn:Hpc.
  - eapply mgr_take_good; [done|apply get_work_takes|by rewrite Hpc].
  - eapply mgr_take_good; [done|apply resume_takes|by rewrite Hpc].
  - by apply mgr_loop_good.
  - assert (apc s = ARun) as Ha
      by (apply app_in_use; [done|]; right; right; rewrite Hpc; by split).
    cbn. apply (sinv_repc s _ Hs); try done; try apply Hs.
    + by unfold ecl; cbn; rewrite Hpc.
    + cbn. by rewrite Ha.
  - assert (apc s = ARun) as Ha
      by (apply app_in_use; [done|]; right; right; rewrite Hpc; by split).
    destruct (sys_runs _ s _ _ (runs_send_evict (mkWork (Some i) EVICT) (ecore s))) as (e'&E&He).
    unfold schedule_eviction. rewrite (bind_run _ _ _ _ _ E). cbn.
    eapply (sinv_requeue s _ (c_fillq (ecore s)) (c_mgrq (ecore s))
      (c_evictq (ecore s) ++ [mkWork (Some i) EVICT]) (c_ewait (ecore s)) Hs);
      cbn; try done; try apply Hs; try (rewrite He; by apply Hs).
    + unfold fcl. cbn. by rewrite He.
    + unfold ecl. cbn. rewrite He, Hpc. cbn [c_evictq set_evictq]. rewrite queued_snoc. cbn.
      by rewrite <- app_assoc.
    + apply Forall_app. split; [apply Hs|]. constructor; [|constructor].
      exists i, EVICT. by split; [|left].
    + by rewrite Ha.
  - done.
Qed.

(** *** Steps of the fault handler *)

Lemma uffd_lookup_good s b a w l :
  (0 < psize)%nat → sinv s → upc s = URun ((w, a) :: l) → good (TUffd b) s (uffd_run b s).
Proof.
  intros Hp0 Hs Hu.
  assert (apc s = ARun) as Ha by (apply app_in_use; [done|]; left; by rewrite Hu).
  unfold uffd_run. erewrite bind_run by reflexivity. rewrite Hu.
  pose proof (i_binv _ Hs) as Hb. pose proof (b_regs _ _ _ _ _ Hb) as Hro.
  destruct (containing_region_run (c_regs (ecore s)) a (ro_wf _ _ _ Hro)) as (it&E&Hwf).
  pose proof (i_upc _ Hs) as Hup. rewrite Hu in Hup. apply Forall_cons in Hup as [Hal Hl].
  set (e' := with_regs (with_last_iter it (c_regs (ecore s))) (eng (world s))).
  erewrite bind_run.
  2:{ unfold on_world, on_eng. apply zoom_run, zoom_run. unfold on_regs, lift.
      change (regs (eng (world s))) with (c_regs (ecore s)). rewrite E. reflexivity. }
  cbn. fold e'. set (s' := with_upc _ _).
  assert (core e' = set_regs (with_last_iter it (c_regs (ecore s))) (ecore s)) as He by done.
  assert (fcl s' = fcl s) as Hfcl by done. assert (ecl s' = ecl s) as Hecl by done.
  clearbody e'. split; try (cbn; rewrite He; by apply Hs); try by apply Hs.
  - rewrite Hfcl, Hecl. cbn. rewrite He. by apply binv_last_iter.
  - rewrite Hfcl, Hecl. cbn. rewrite He. eapply dinv_queue; [..|apply Hs]; done.
  - cbn. rewrite He. destruct (region_at (c_regs (ecore s)) a) as [r|] eqn:Er; [|done].
    apply region_at_Some in Er as (k&d&_&Hd&Hc). split; [done|]. exists d. split; [done|].
    eapply aligned_region_page; eauto.
  - cbn. by rewrite Ha.
  - cbn. by rewrite Ha.
Qed.

Lemma event_blocks_good t s m a w r l c d :
  sinv s → apc s = ARun → blocks m (ecore s) c (ecore s) → aligned l →
  heap (c_regs (ecore s)) !! r = Some d → region_page psize cap d a →
  (c = OnStateChange ∨ c = OnAvailPd ∧ c_present (ecore s) !! a = None) →
  good t s (event m a w r l s).
Proof.
  intros Hs Har Hbl Hl Hd Ha Hc. unfold event, or_sleep.
  destruct (sys_blocks _ s _ _ Hbl) as (e'&E&He). rewrite E.
  destruct Hc as [->|[-> Habs]]; cbn; apply (sinv_repc s _ Hs); cbn; try done; try apply Hs;
    try (rewrite He; by apply Hs); try by rewrite Har.
  - unfold fcl. cbn. by rewrite He.
  - unfold ecl. cbn. by rewrite He.
  - eauto.
  - unfold fcl. cbn. by rewrite He.
  - unfold ecl. cbn. by rewrite He.
  - eauto.
Qed.

Lemma dispatched_mgrq i c : Forall mgr_item (c_mgrq c) → Forall mgr_item (c_mgrq (dispatched i c)).
Proof.
  intros Hq. cbn. case_bool_decide; [|done]. apply Forall_app. split; [done|].
  constructor; [done|constructor].
Qed.

Lemma dispatched_fillq i c : Forall fill_item (c_fillq c) → Forall fill_item (c_fillq (dispatched i c)).
Proof.
  intros Hq. cbn. apply Forall_app. split; [done|]. constructor; [by eexists|constructor].
Qed.

(** the page goes to the fillers *)
Lemma fcl_dispatched s s' i c :
  ecore s' = dispatched i c → c_fillq c = c_fillq (ecore s) → fpcs s' = fpcs s →
  fcl s' ≡ₚ (i, TWait) :: fcl s.
Proof.
  intros Hc Hq Hf. unfold fcl. rewrite Hc, Hf. cbn [c_fillq dispatched set_mutex set_mgrq set_fillq].
  rewrite queued_snoc, Hq, <- app_assoc. simpl. by rewrite <- Permutation_middle.
Qed.

Lemma event_runs m a w r l (s : Sys) c' :
  runs m (ecore s) tt c' →
  ∃ e', event m a w r l s = Ok tt (with_upc (URun l) (with_world (with_eng e' (world s)) s)) ∧
    core e' = c'.
Proof.
  intros Hr. destruct (sys_runs _ s _ _ Hr) as (e'&E&He). exists e'. split; [|done].
  unfold event, or_sleep. by rewrite E.
Qed.

Lemma event_spurious_good t s m a w r l i p :
  sinv s → apc s = ARun → aligned l → c_array (ecore s) !! i = Some p → state p = PRESENT →
  runs m (ecore s) tt (put_core_pd i (counted p) (ecore s)) →
  good t s (event m a w r l s).
Proof.
  intros Hs Har Hl Hp Sp Hr. destruct (event_runs m a w r l s _ Hr) as (e'&->&He). cbn.
  set (s' := with_upc _ _). pose proof (i_binv _ Hs) as Hb. pose proof (i_data _ Hs) as Hd.
  assert (fcl s' = fcl s) as Hfcl by (unfold fcl; cbn; by rewrite He).
  assert (ecl s' = ecl s) as Hecl by (unfold ecl; cbn; by rewrite He).
  assert (state p ≠ FREE) as Sp' by congruence.
  split; try (cbn; rewrite He; by apply Hs); try (by apply Hs); try (cbn; by rewrite Har).
  - rewrite Hfcl, Hecl. cbn. rewrite He. by eapply binv_put_same.
  - rewrite Hfcl, Hecl. cbn. rewrite He.
    eapply (dinv_upd (cls:=closing s) (ecore s) (fcl s ++ ecl s)); [exact Hb|exact Hd|exact Hp|try done..].
    + apply Hd.
    + destruct (binv_pd_region _ _ _ _ _ Hb i p Hp Sp') as (r0&d0&_&?&?).
      by eapply (d_length _ _ _ _ _ Hd).
    + intros r' d' u _ _ _ Hu Hok. exists u. split; [done|]. by destruct u.
  - done.
  - cbn. rewrite He. cbn. rewrite length_insert. apply Hs.
Qed.

Lemma event_write_good t s m a w r l i p :
  sinv s → apc s = ARun → aligned l → c_array (ecore s) !! i = Some p → state p = PRESENT → dirty p = false →
  runs m (ecore s) tt (write_enabled (ecore s) i p) →
  good t s (event m a w r l s).
Proof.
  intros Hs Har Hl Hp Sp Hdirty Hr. destruct (event_runs m a w r l s _ Hr) as (e'&->&He). cbn.
  set (s' := with_upc _ _). pose proof (i_binv _ Hs) as Hb. pose proof (i_data _ Hs) as Hd.
  assert (fcl s' ≡ₚ (i, TWait) :: fcl s) as Hfcl
    by (apply (fcl_dispatched s s' i (put_core_pd i (with_state UPDATING (with_dirty true p)) (ecore s)));
        [exact He|done|done]).
  assert (ecl s' = ecl s) as Hecl by (unfold ecl; cbn; by rewrite He).
  assert (state p ≠ FREE) as Sp' by congruence.
  assert (binv psize cap (put_core_pd i (with_state UPDATING (with_dirty true p)) (ecore s))
    (i :: (fcl s).*1) (ecl s).*1) as Hb' by (by apply binv_update).
  split; try (cbn; rewrite He; by apply Hs); try (by apply Hs); try (cbn; by rewrite Har).
  - rewrite Hfcl, Hecl. cbn. rewrite He. apply binv_dispatched.
    replace (set_mutex false _) with (put_core_pd i (with_state UPDATING (with_dirty true p)) (ecore s));
      [done|]. pose proof (b_mutex _ _ _ _ _ Hb) as Hm. by destruct (ecore s); cbn in *; subst.
  - rewrite Hecl. eapply (dinv_claims _ ((i, TWait) :: fcl s ++ ecl s)); [by rewrite Hfcl|].
    cbn. rewrite He.
    eapply (dinv_upd (cls:=closing s) (ecore s) (fcl s ++ ecl s)); [exact Hb|exact Hd|exact Hp|try done..].
    + apply Hd.
    + destruct (binv_pd_region _ _ _ _ _ Hb i p Hp Sp') as (r0&d0&_&?&?).
      by eapply (d_length _ _ _ _ _ Hd).
    + intros j u Hne Hu. by apply has_tag_add.
    + intros r' d' u _ _ _ Hu Hok. exists TWait. split; [apply has_tag_head|]. right.
      pose proof (data_present_tag _ _ _ _ _ Hok Sp) as [-> [Hm _]]. rewrite Hdirty in Hm.
      by destruct Hok as (_&?&_).
  - cbn. rewrite He. apply dispatched_fillq, Hs.
  - cbn. rewrite He. apply dispatched_mgrq, Hs.
  - done.
  - cbn. rewrite He. cbn. rewrite length_insert. apply Hs.
Qed.

Lemma dinv_inserted {cls} c cl hf he o dk g a w r d i p :
  cls = false → binv psize cap c hf he → dinv (cls:=cls) c cl o dk g → c_array c !! i = Some p → state p = FREE →
  heap (c_regs c) !! r = Some d → region_page psize cap d a → c_present c !! a = None →
  dinv (cls:=cls) (inserted c a w r d i) ((i, TWait) :: cl) o dk g.
Proof.
  intros -> Hinv [Hd Ha Hdk Hlen] Hp Sp Hh Hpg Habs. pose proof (lookup_lt_Some _ _ _ Hp) as Hlt.
  split; cbn.
  - intros j q r' d' [(<-&<-&_)|[Hne Hq]]%list_lookup_insert_Some Sq Hr' Hh'.
    + exists TWait. split; [apply has_tag_head|]. cbn in Hr'. injection Hr' as <-.
      rewrite lookup_insert_eq in Hh'. injection Hh' as <-. left.
      destruct (Ha r d a Hh Hpg Habs) as [[?|[? _]] ?]; done.
    + destruct (heap_active _ _ _ _ _ _ Hh Hh') as (d1&Hh1&_&Hst).
      destruct (Hd j q r' d1 Hq Sq Hr' Hh1) as (u&Hu&Hok). exists u. rewrite Hst.
      split; [|done]. by apply has_tag_add.
  - intros r' d' b Hh' Hpg' [Hb Hne]%lookup_insert_None.
    destruct (heap_active _ _ _ _ _ _ Hh Hh') as (d1&Hh1&Hpg1&Hst). rewrite Hst.
    eapply Ha; [done|by apply Hpg1|done].
  - done.
  - intros r' d' b Hh' Hpg'. destruct (heap_active _ _ _ _ _ _ Hh Hh') as (d1&Hh1&Hpg1&_).
    eapply Hlen; [done|by apply Hpg1].
Qed.

Lemma event_insert_good t s m a w r l d i :
  sinv s → apc s = ARun → aligned l → heap (c_regs (ecore s)) !! r = Some d → region_page psize cap d a →
  c_present (ecore s) !! a = None → back (c_free (ecore s)) = Some i →
  runs m (ecore s) tt (inserted (ecore s) a w r d i) →
  good t s (event m a w r l s).
Proof.
  intros Hs Har Hl Hh Hpg Habs Hbk Hr. destruct (event_runs m a w r l s _ Hr) as (e'&->&He). cbn.
  set (s' := with_upc _ _). pose proof (i_binv _ Hs) as Hb. pose proof (i_data _ Hs) as Hd.
  assert (fcl s' ≡ₚ (i, TWait) :: fcl s) as Hfcl
    by (eapply (fcl_dispatched s s' i); [exact He|done|done]).
  assert (ecl s' = ecl s) as Hecl by (unfold ecl; cbn; by rewrite He).
  assert (i ∈ c_free (ecore s)) as Hi by (apply back_Some_inv in Hbk; rewrite Hbk; set_solver).
  destruct (binv_free_pd _ _ _ _ _ Hb i Hi) as (p&Hp&Sp).
  split; try (cbn; rewrite He; by apply Hs); try (by apply Hs); try (cbn; by rewrite Har).
  - rewrite Hfcl, Hecl. cbn. rewrite He. by apply binv_inserted.
  - rewrite Hecl. eapply (dinv_claims _ ((i, TWait) :: fcl s ++ ecl s)); [by rewrite Hfcl|].
    cbn. rewrite He. eapply dinv_inserted; try done. unfold closing, in_use. cbn. by rewrite Har.
  - cbn. rewrite He. apply dispatched_fillq, Hs.
  - cbn. rewrite He. apply dispatched_mgrq, Hs.
  - done.
  - cbn. rewrite He. cbn. rewrite length_insert. apply Hs.
Qed.

(** [get_page_descriptor] and what follows it *)
Lemma fault_new_good t s (X : M Engine unit) (body : M Engine unit) a w r l d :
  sinv s → apc s = ARun → aligned l → heap (c_regs (ecore s)) !! r = Some d → region_page psize cap d a →
  c_present (ecore s) !! a = None →
  runs X (ecore s) tt (set_mutex true (ecore s)) →
  (c_free (ecore s) = [] → blocks body (set_mutex true (ecore s)) OnAvailPd (ecore s)) →
  (∀ i p, back (c_free (ecore s)) = Some i → c_array (ecore s) !! i = Some p → state p = FREE →
     runs body (set_mutex true (ecore s)) tt (inserted (ecore s) a w r d i)) →
  good t s (event (X ;; body) a w r l s).
Proof.
  intros Hs Har Hl Hh Hpg Habs HX Hfull Hnew.
  destruct (back (c_free (ecore s))) as [i|] eqn:Hbk.
  - assert (i ∈ c_free (ecore s)) as Hi.
    { pose proof (back_Some_inv _ _ Hbk) as E. rewrite E. set_solver. }
    destruct (binv_free_pd _ _ _ _ _ (i_binv _ Hs) i Hi) as (p&Hp&Sp).
    eapply event_insert_good; try done. eapply runs_bind; [exact HX|]. by eapply Hnew.
  - apply last_None in Hbk. eapply event_blocks_good; try done; [|by right].
    eapply blocks_bind; [exact HX|]. by apply Hfull.
Qed.

Lemma fault_good t s (X : M Engine unit) a w r l d :
  sinv s → apc s = ARun → aligned l → heap (c_regs (ecore s)) !! r = Some d → region_page psize cap d a →
  runs X (ecore s) tt (set_mutex true (ecore s)) →
  good t s (event (X ;; fault_body a w r) a w r l s).
Proof.
  intros Hs Har Hl Hh Hpg HX. pose proof (i_binv _ Hs) as Hb. pose proof (b_mutex _ _ _ _ _ Hb) as Hm.
  destruct (c_present (ecore s) !! a) as [i|] eqn:Hpres.
  - destruct (b_pres _ _ _ _ _ Hb a i Hpres) as (p&Hp&Sp&<-).
    destruct (decide (state p = PRESENT)) as [Spp|Spp].
    + destruct (w && negb (dirty p)) eqn:Ew.
      * apply andb_prop in Ew as [-> Hd%negb_true_iff].
        eapply event_write_good; try done. eapply runs_bind; [exact HX|]. by apply fault_hit_write.
      * eapply event_spurious_good; try done. eapply runs_bind; [exact HX|].
        by apply fault_hit_spurious.
    + eapply event_blocks_good; try done; [|by left]. eapply blocks_bind; [exact HX|].
      by eapply fault_wait.
  - eapply fault_new_good; try done.
    + intros Hf. by apply fault_full.
    + intros i p Hbk Hp Sp. by eapply fault_miss.
Qed.

Lemma uffd_run_good s b : (0 < psize)%nat → sinv s → good (TUffd b) s (uffd_run b s).
Proof.
  intros Hp0 Hs. destruct (upc s) as [[|[w a] l]|a w r l|a w r l|a w r l] eqn:Hu.
  - unfold uffd_run. erewrite bind_run by reflexivity. by rewrite Hu.
  - by eapply uffd_lookup_good.
  - assert (apc s = ARun) as Ha by (apply app_in_use; [done|]; left; by rewrite Hu).
    unfold uffd_run. erewrite bind_run by reflexivity. rewrite Hu.
    pose proof (i_upc _ Hs) as Hup. rewrite Hu in Hup. destruct Hup as (Hl&d&Hd&Hpg).
    eapply fault_good; try done. apply runs_lock, (i_binv _ Hs).
  - assert (apc s = ARun) as Ha by (apply app_in_use; [done|]; left; by rewrite Hu).
    unfold uffd_run. erewrite bind_run by reflexivity. rewrite Hu.
    pose proof (i_upc _ Hs) as Hup. rewrite Hu in Hup. destruct Hup as (Hl&d&Hd&Hpg).
    eapply fault_good; try done. apply runs_wake_state, (i_binv _ Hs).
  - assert (apc s = ARun) as Ha by (apply app_in_use; [done|]; left; by rewrite Hu).
    unfold uffd_run. erewrite bind_run by reflexivity. rewrite Hu.
    pose proof (i_upc _ Hs) as Hup. rewrite Hu in Hup. destruct Hup as (Hl&Habs&d&Hd&Hpg).
    eapply fault_new_good; try done.
    + apply runs_wake_avail, (i_binv _ Hs).
    + intros Hf. apply fault_new_full; [apply (i_binv _ Hs)|done].
    + intros i p Hbk Hp Sp. by eapply fault_new_spec.
Qed.

Lemma batch_aligned k msgs :
  psz = 2 ^ k → 0 ≤ k < 64 → Forall (λ m, 0 ≤ address m < 2 ^ 64) msgs →
  aligned (batch false psz msgs).
Proof.
  intros Hk Hr Hm. unfold batch. apply Forall_forall. intros [w a] Hin. cbn. rewrite Hk in *.
  destruct (page_events_spec false 0 (sort_events (to_umap_page (2 ^ k) <$> msgs))
    (sort_events_sorted _)) as (_&H2&_).
  { intros m Hin'. rewrite sort_events_perm in Hin'.
    apply list_elem_of_fmap in Hin' as (m0&->&Hm0). cbn.
    apply mask_down_bounds; [|done]. by eapply Forall_forall in Hm. }
  destruct (H2 w a Hin) as (_&m&Hin'&<-&_). rewrite sort_events_perm in Hin'.
  apply list_elem_of_fmap in Hin' as (m0&->&Hm0). cbn.
  apply mask_down_mult; [|done]. by eapply Forall_forall in Hm.
Qed.

Lemma uffd_batch_good t s k msgs :
  psz = 2 ^ k → 0 ≤ k < 64 → Forall (λ m, 0 ≤ address m < 2 ^ 64) msgs → sinv s → apc s = ARun →
  good t s (uffd_batch psize msgs s).
Proof.
  intros Hk Hr Hm Hs Ha. unfold uffd_batch. erewrite bind_run by reflexivity.
  destruct (upc s) as [[|]| | |]; try done. cbn.
  apply (sinv_repc s _ Hs); try done; try apply Hs.
  - by eapply batch_aligned.
  - cbn. by rewrite Ha.
Qed.

(** *** Stores of the application *)

Lemma app_store_good t s a data :
  length data = psize → sinv s → apc s = ARun → good t s (app_store a data s).
Proof.
  intros Hlen Hs Ha.
  assert (closing s = false) as Hcl by (unfold closing, in_use; by rewrite Ha).
  unfold app_store. erewrite bind_run by reflexivity.
  destruct (store_page a data (kernel (world s))) as [o'|] eqn:E; [|done]. cbn.
  assert (∃ d0, pte (kernel (world s)) a = Some (d0, false)) as [d0 Hpte0].
  { destruct (pte (kernel (world s)) a) as [[d0 []]|] eqn:Ep; [|by eauto|];
      rewrite store_fault_law in E; try done; intros d1; rewrite Ep; congruence. }
  destruct (store_law _ _ _ data Hpte0) as (o2&E2&Hpte). rewrite E in E2. injection E2 as <-.
  pose proof (i_binv _ Hs) as Hb. pose proof (i_data _ Hs) as Hd.
  split; try by apply Hs. cbn.
  change (fcl (with_ghost _ _)) with (fcl s). change (ecl (with_ghost _ _)) with (ecl s).
  destruct (c_present (ecore s) !! a) as [i|] eqn:Hpres.
  - destruct (b_pres _ _ _ _ _ Hb a i Hpres) as (p&Hp&Sp&<-).
    eapply (dinv_upd (cls:=closing s) (ecore s) (fcl s ++ ecl s)); [exact Hb|exact Hd|exact Hp|try done..].
    + cbn. by rewrite list_insert_id.
    + intros b Hne. by rewrite Hpte, decide_False.
    + intros b Hne. by rewrite decide_False.
    + apply Hd.
    + by rewrite decide_True.
    + intros r d u Hh Hpg _ Hu Hok. exists u. split; [done|].
      rewrite Hpte, !decide_True by done. rewrite Hpte0 in Hok. clear -Hok.
      assert (∀ sp g, resident p (Some (d0, false)) sp g → resident p (Some (data, false)) sp data) as Hres.
      { intros sp g [Hm _]. injection Hm as _ Hdir. split; [by rewrite <- Hdir|].
        intros E. by rewrite E in Hdir. }
      destruct u; cbn in *; try by destruct Hok as (?&?&?&?).
      * destruct Hok as [(_&_&?&_)|(_&_&_&?)]; congruence.
      * destruct Hok as (?&?&?%Hres). done.
      * destruct Hok as (?&?&?%Hres). done.
      * destruct Hok as (?&?%Hres). done.
      * destruct Hok as (?&?). congruence.
      * destruct Hok as (?&?&?). congruence.
      * destruct Hok as (?&?&?). congruence.
      * destruct Hok as (?&?&?). congruence.
  - destruct Hd as [Hdat Habs Hdk Hl]. split; cbn; try done.
    + intros i p r d Hp Sp Hr Hh. destruct (Hdat i p r d Hp Sp Hr Hh) as (u&Hu&Hok).
      exists u. split; [done|].
      assert (page p ≠ a) as Hne.
      { intros <-. destruct (b_pd _ _ _ _ _ Hb i p Hp) as (_&_&_&H4).
        destruct (H4 Sp) as (_&?&_). congruence. }
      by rewrite Hpte, !decide_False.
    + intros r d b Hh Hpg Hb'. destruct (Habs r d b Hh Hpg Hb') as [[Hn|[Hn _]] Hst]; [|by rewrite Hcl in Hn].
      assert (b ≠ a) by (intros ->; congruence). rewrite Hpte, !decide_False by done. auto.
    + intros r d b Hh Hpg. case_decide; [done|]. by eapply Hl.
Qed.

(** *** Steps of [uunmap] *)

Lemma unmap_start_good s :
  sinv s → apc s = ARun → quiescent s = true → sinv (with_apc AEvict s).
Proof.
  intros Hs Ha Hq.
  assert (closing s = false) as Hcl by (unfold closing, in_use; by rewrite Ha).
  assert (ecl (with_apc AEvict s) = ecl s) as Hecl by (unfold ecl; cbn; by rewrite Ha).
  split; try by apply Hs.
  - rewrite Hecl. apply Hs.
  - rewrite Hecl. apply dinv_close. rewrite <- Hcl. apply Hs.
  - eapply Forall_impl; [apply Hs|]. rewrite Hcl. intros w (i&t&->&?%evict_type_close).
    by exists i, t.
  - eapply Forall_impl; [apply Hs|]. rewrite Hcl. intros [| |w| | | | |]; cbn; try done;
      try apply evict_type_close. intros (i&t&->&?%evict_type_close). by exists i, t.
  - unfold quiescent in Hq. cbn. destruct (upc s) as [[|]| | |]; try done.
    destruct (mpc s); try done; apply bool_decide_eq_true in Hq; auto.
  - done.
Qed.

Lemma back_perm {A} (l : list A) x : back l = Some x → l ≡ₚ x :: pop_back l.
Proof. intros E%back_Some_inv. rewrite E at 1. by rewrite Permutation_app_comm. Qed.

(** the descriptors in the deque *)
Lemma busy_pd s i :
  sinv s → back (c_busy (ecore s)) = Some i →
  ∃ p, c_array (ecore s) !! i = Some p ∧ state p ≠ FREE ∧ deferred p = false.
Proof.
  intros Hs Hi. pose proof (i_binv _ Hs) as Hb.
  assert (i ∈ c_busy (ecore s)) as Hin by (rewrite (back_perm _ _ Hi); set_solver).
  destruct (proj1 (binv_valid _ _ _ _ _ Hb i)) as [p Hp]; [rewrite !elem_of_app; auto|].
  exists p. destruct (b_pd _ _ _ _ _ Hb i p Hp) as (H1&_&_&H4).
  assert (state p ≠ FREE) as Sp.
  { intros Hf%H1. pose proof (binv_nodup _ _ _ _ _ Hb) as (_&Hd&_)%NoDup_app.
    apply (Hd i Hf). set_solver. }
  split_and!; [done..|]. by destruct (H4 Sp).
Qed.

Lemma unmap_took_good s i p e' :
  sinv s → apc s = AEvict ∨ (∃ df, apc s = AWait i df) → back (c_busy (ecore s)) = Some i →
  c_array (ecore s) !! i = Some p → state p = PRESENT → deferred p = false →
  core e' = left_core (ecore s) i p →
  sinv (with_apc (AGot i) (with_world (with_eng e' (world s)) s)).
Proof.
  intros Hs Ha Hbk Hp Sp Hdef He. set (s' := with_apc _ _).
  assert (app_claim (apc s) = []) as Hcl by by destruct Ha as [->|[? ->]].
  assert (closing s' = closing s) as Hcls
    by (unfold closing, in_use; cbn; by destruct Ha as [->|[? ->]]).
  assert (fcl s' = fcl s) as Hfcl by (unfold fcl; cbn; by rewrite He).
  assert (ecl s' ≡ₚ (i, TLeave) :: ecl s) as Hecl.
  { unfold ecl. cbn. rewrite He, Hcl, app_nil_r. cbn. rewrite <- !app_assoc. cbn.
    rewrite app_assoc, <- Permutation_middle, <- app_assoc. done. }
  pose proof (i_binv _ Hs) as Hb. pose proof (i_data _ Hs) as Hd.
  split; rewrite ?Hcls; try (cbn; rewrite He; by apply Hs); try by apply Hs.
  - rewrite Hfcl, Hecl. cbn. rewrite He. by apply (binv_leave _ _ _ _ _ i p _ Hb Hp Sp), back_perm.
  - rewrite Hfcl. eapply (dinv_claims _ ((i, TLeave) :: fcl s ++ ecl s)).
    { rewrite Hecl. by rewrite Permutation_middle. }
    cbn. rewrite He. unfold left_core, put_core_pd.
    pose proof (dinv_leave_all _ _ _ _ _ [i] (pop_back (c_busy (ecore s))) Hd) as HL.
    cbn in HL. unfold leave in HL. rewrite Hp in HL. apply HL. intros j ->%list_elem_of_singleton.
    unfold evictable_in, evictable. by rewrite Hp, Hdef, Sp.
  - cbn. rewrite He. pose proof (i_app _ Hs) as Happ.
    destruct Ha as [E|[df E]]; rewrite E in Happ; naive_solver.
  - done.
  - cbn. rewrite He. cbn. rewrite length_insert. apply Hs.
Qed.

(** what [evict_oldest_page] does: it takes the oldest page, sleeps until it is
    PRESENT, or finds no page *)
Lemma unmap_evict_cases s m :
  sinv s →
  (∃ b, apc s = AEvict ∧ m = evict_oldest_page b) ∨
  (∃ i, apc s = AWait i false ∧ m = evict_oldest_page_wake i false) →
  (∃ i p, back (c_busy (ecore s)) = Some i ∧ c_array (ecore s) !! i = Some p ∧
     state p = PRESENT ∧ deferred p = false ∧ (apc s = AEvict ∨ ∃ df, apc s = AWait i df) ∧
     runs m (ecore s) (Some i) (left_core (ecore s) i p)) ∨
  (∃ i p, back (c_busy (ecore s)) = Some i ∧ c_array (ecore s) !! i = Some p ∧
     state p ≠ PRESENT ∧ deferred p = false ∧ (apc s = AEvict ∨ ∃ df, apc s = AWait i df) ∧
     blocks m (ecore s) OnStateChange (ecore s)) ∨
  (c_busy (ecore s) = [] ∧ apc s = AEvict ∧ runs m (ecore s) None (ecore s)).
Proof.
  intros Hs Hpc. pose proof (b_mutex _ _ _ _ _ (i_binv _ Hs)) as Hm.
  pose proof (i_app _ Hs) as Happ.
  destruct (back (c_busy (ecore s))) as [i|] eqn:Hbk.
  - destruct (busy_pd s i Hs Hbk) as (p&Hp&Sf&Hdef).
    assert (∀ j, apc s = AWait j false → j = i) as Hj.
    { intros j E. rewrite E in Happ. destruct Happ as (_&_&_&_&E'). congruence. }
    assert (apc s = AEvict ∨ ∃ df, apc s = AWait i df) as Ha.
    { destruct Hpc as [(b&E&_)|(j&E&_)]; [auto|]. rewrite (Hj j E) in E. eauto. }
    destruct (decide (state p = PRESENT)) as [Sp|Sp]; [left|right; left];
      exists i, p; split_and!; try done; destruct Hpc as [(b&E&->)|(j&E&->)].
    + by apply evict_oldest_runs.
    + rewrite (Hj j E). by apply evict_wake_runs.
    + by eapply evict_oldest_blocks.
    + rewrite (Hj j E). by eapply evict_wake_blocks.
  - apply last_None in Hbk. right; right.
    destruct Hpc as [(b&Ha&->)|(j&E&_)].
    + split_and!; [done..|]. by apply evict_oldest_empty.
    + rewrite E in Happ. destruct Happ as (_&_&_&_&E'). by rewrite Hbk in E'.
Qed.

Lemma unmap_evict_sleeps s m i p :
  sinv s → back (c_busy (ecore s)) = Some i → c_array (ecore s) !! i = Some p →
  deferred p = false → (apc s = AEvict ∨ ∃ df, apc s = AWait i df) →
  blocks m (ecore s) OnStateChange (ecore s) →
  ∃ s', unmap_evict m s = Ok tt s' ∧ sinv s' ∧
    (apc s = AEvict → (work_left s' < work_left s)%nat).
Proof.
  intros Hs Hbk Hp Hdef Ha Hbl. pose proof (i_app _ Hs) as Happ. unfold unmap_evict, or_sleep.
  destruct (sys_blocks _ s _ _ Hbl) as (e'&->&He). rewrite bool_decide_true by done.
  unfold unmap_wait. erewrite bind_run by reflexivity. cbn [world with_world eng with_eng].
  replace (m_busy_pages (buf e')) with (c_busy (ecore s)) by (by rewrite <- He).
  rewrite Hbk. erewrite bind_run.
  2:{ unfold on_world. apply zoom_run. apply (world_get_pd _ i p). cbn. by rewrite He. }
  cbn. rewrite Hdef. eexists. split_and!; [reflexivity| |].
  - apply (sinv_repc s _ Hs); cbn; try done; try apply Hs; try (rewrite He; by apply Hs).
    + unfold fcl. cbn. by rewrite He.
    + unfold ecl. cbn. rewrite He. by destruct Ha as [->|[df ->]].
    + unfold closing, in_use. cbn. by destruct Ha as [->|[df ->]].
    + rewrite He. destruct Ha as [E|[df E]]; rewrite E in Happ; destruct Happ as (?&?&?&_); by split_and!.
  - intros E. unfold work_left. cbn. rewrite He, E. cbn. lia.
Qed.

Lemma unmap_evict_makes s m :
  sinv s →
  (∃ b, apc s = AEvict ∧ m = evict_oldest_page b) ∨
  (∃ i p, apc s = AWait i false ∧ m = evict_oldest_page_wake i false ∧
     c_array (ecore s) !! i = Some p ∧ state p = PRESENT) →
  makes s (unmap_evict m s).
Proof.
  intros Hs Hpc. pose proof (i_app _ Hs) as Happ.
  destruct (unmap_evict_cases s m Hs) as [(i&p&Hbk&Hp&Sp&Hdef&Ha&Hr)|[(i&p&Hbk&Hp&Sp&Hdef&Ha&Hbl)|(Hb&Ha&Hr)]].
  { destruct Hpc as [?|(i&p&?&?&_)]; eauto. }
  - unfold unmap_evict, or_sleep. destruct (sys_runs _ s _ _ Hr) as (e'&->&He). cbn. apply makes_ok.
    + by eapply unmap_took_good.
    + unfold work_left. cbn. rewrite He. cbn. pose proof (back_perm _ _ Hbk) as HP.
      apply Permutation_length in HP. cbn in HP. destruct Ha as [->|[df ->]]; cbn; lia.
  - destruct Hpc as [(b&E&->)|(j&q&E&->&Hq&Sq)].
    + destruct (unmap_evict_sleeps s _ i p Hs Hbk Hp Hdef Ha Hbl) as (s'&->&Hs'&Hw).
      apply makes_ok; auto.
    + rewrite E in Happ. destruct Happ as (_&_&_&_&E'). congruence.
  - unfold unmap_evict, or_sleep. destruct (sys_runs _ s _ _ Hr) as (e'&->&He). cbn. apply makes_ok.
    + apply (sinv_repc s _ Hs); cbn; try done; try apply Hs; try (rewrite He; by apply Hs).
      * unfold fcl. cbn. by rewrite He.
      * unfold ecl. cbn. by rewrite He, Ha.
      * unfold closing, in_use. cbn. by rewrite Ha.
      * rewrite He. rewrite Ha in Happ. destruct Happ as (?&?&?&_). by split_and!.
    + unfold work_left. cbn. rewrite He, Ha. cbn. lia.
Qed.

Lemma unmap_got_makes s b i :
  sinv s → apc s = AGot i →
  makes s ((on_world (on_eng (evict_all_page b i)) ;; set_apc AEvict) s).
Proof.
  intros Hs Ha. pose proof (i_app _ Hs) as Happ. rewrite Ha in Happ. destruct Happ as (Hu&Hmp&Hmq&_).
  assert (closing s = true) as Hcl by (unfold closing, in_use; by rewrite Ha).
  set (rest := queued TLeave (c_evictq (ecore s)) ++ mgr_claim (mpc s) ++ (epcs s ≫= evict_claim)).
  assert (ecl s ≡ₚ (i, TLeave) :: rest) as Hf.
  { unfold ecl, rest. rewrite Ha. cbn. rewrite <- app_assoc. cbn.
    rewrite app_assoc, <- Permutation_middle, <- app_assoc. done. }
  destruct (leaving_claimed s i _ rest Hs Hf) as (p&r&d&Hp&Sp&Hr&Hh&Hpg&Hoff&Hlen&_).
  pose proof (b_mutex _ _ _ _ _ (i_binv _ Hs)) as Hm. destruct (dirty p) eqn:Hdirty.
  - assert (runs (evict_all_page b i) (ecore s) tt
      (set_evictq (c_evictq (ecore s) ++ [mkWork (Some i) FAST_EVICT]) (ecore s))) as Hrun.
    { eapply runs_bind; [by apply runs_get_pd|]. rewrite Hdirty. apply runs_send_evict. }
    destruct (sys_runs _ s _ _ Hrun) as (e'&E&He). rewrite (bind_run _ _ _ _ _ E). cbn.
    apply makes_ok.
    2:{ unfold work_left. cbn. rewrite He, Ha. cbn. rewrite length_app. cbn. lia. }
    eapply (sinv_requeue s _ (c_fillq (ecore s)) (c_mgrq (ecore s))
      (c_evictq (ecore s) ++ [mkWork (Some i) FAST_EVICT]) (c_ewait (ecore s)) Hs);
      cbn; try done; try apply Hs; try (rewrite He; by apply Hs).
    + unfold fcl. cbn. by rewrite He.
    + rewrite Hf. unfold ecl, rest. cbn. rewrite He. cbn [c_evictq set_evictq].
      rewrite queued_snoc, app_nil_r, <- app_assoc.
      cbn. by rewrite <- Permutation_middle.
    + apply Forall_app. split; [apply Hs|]. constructor; [|constructor].
      exists i, FAST_EVICT. split; [done|]. by right.
    + rewrite He. by split_and!.
  - assert (runs (evict_all_page b i) (ecore s) tt (freed (ecore s) i p r d)) as Hrun.
    { eapply runs_bind; [by apply runs_get_pd|]. rewrite Hdirty. by apply mark_free_spec. }
    destruct (sys_runs _ s _ _ Hrun) as (e'&E&He). rewrite (bind_run _ _ _ _ _ E). cbn.
    apply makes_ok.
    2:{ unfold work_left. cbn. rewrite He, Ha. cbn. lia. }
    eapply (sinv_freed s _ i TLeave rest p r d e' Hs Hf); try done; try by apply Hs.
    + cbn. intros m sp g (_&Hres&Hsp). rewrite Hdirty in Hres, Hsp. cbn in Hres. auto.
    + unfold ecl, rest. cbn. rewrite He. cbn. by rewrite app_nil_r.
Qed.

Lemma all_asleep l : length (filter is_asleep l) = length l → l ≫= evict_claim = [].
Proof.
  induction l as [|pc l IH]; [done|]. pose proof (length_filter is_asleep l) as Hle.
  intros H. destruct (is_asleep pc) eqn:E.
  - rewrite filter_cons_True in H by (rewrite E; exact I). destruct pc; try done.
    apply IH. by injection H.
  - rewrite filter_cons_False in H by (rewrite E; by intros []). cbn in H. lia.
Qed.

(** when the evict workers are idle, no page is being evicted *)
Lemma idle_no_claims s :
  sinv s → closing s = true → app_claim (apc s) = [] →
  c_evictq (ecore s) = [] → c_ewait (ecore s) = c_emax (ecore s) → ecl s = [].
Proof.
  intros Hs Hcl Hac Hq Hw. destruct (i_ewait _ Hs) as [Hw1 Hw2].
  assert (mgr_claim (mpc s) = []) as Hmc.
  { pose proof (i_app _ Hs) as Happ. unfold closing, in_use in Hcl.
    destruct (apc s); try done; destruct Happ as (_&[->| ->]&_); done. }
  unfold ecl. rewrite Hq, Hmc, Hac. cbn. apply all_asleep. lia.
Qed.

Lemma unmap_idle_spec s m :
  sinv s → apc s = AIdle ∨ apc s = AIdleAsleep → m = WaitAll ∨ m = WaitAll_wake →
  ∃ s', unmap_idle m s = Ok tt s' ∧ sinv s' ∧
    (c_evictq (ecore s) = [] ∧ c_ewait (ecore s) = c_emax (ecore s) ∨ apc s = AIdle →
     (work_left s' < work_left s)%nat).
Proof.
  intros Hs Ha Hmeq. pose proof (i_app _ Hs) as Happ.
  assert (app_ok ADone (upc s) (mpc s) (ecore s) ∧ app_ok AIdleAsleep (upc s) (mpc s) (ecore s)) as [Hd Hz]
    by (destruct Ha as [E|E]; rewrite E in Happ; by split).
  assert (closing s = true) as Hcl by (unfold closing, in_use; by destruct Ha as [->| ->]).
  assert (app_claim (apc s) = []) as Hac by (by destruct Ha as [->| ->]).
  pose proof (WaitAll_spec (ecore s) m Hmeq) as Hw. unfold unmap_idle, or_sleep.
  destruct (bool_decide _ && bool_decide _) eqn:E.
  - apply andb_prop in E as [Eq%bool_decide_eq_true Ew%bool_decide_eq_true].
    destruct (sys_runs _ s _ _ Hw) as (e'&->&He). eexists. split_and!; [reflexivity| |].
    + apply (sinv_repc s _ Hs); cbn; try done; try apply Hs; try (rewrite He; by apply Hs).
      * unfold fcl. cbn. by rewrite He.
      * unfold ecl. cbn. by rewrite He, Hac.
      * by rewrite He.
      * intros _. by apply idle_no_claims.
    + intros _. unfold work_left. cbn. rewrite He. destruct Ha as [->| ->]; cbn; lia.
  - destruct (sys_blocks _ s _ _ Hw) as (e'&->&He). rewrite bool_decide_true by done.
    eexists. split_and!; [reflexivity| |].
    + apply (sinv_repc s _ Hs); cbn; try done; try apply Hs; try (rewrite He; by apply Hs).
      * unfold fcl. cbn. by rewrite He.
      * unfold ecl. cbn. by rewrite He, Hac.
      * by rewrite He.
    + intros [[Eq Ew]|Ha']; [by rewrite !bool_decide_true in E by done|].
      unfold work_left. cbn. rewrite He, Ha'. cbn. lia.
Qed.

(** [EvictAll] can go on *)
Definition unmap_working (s : Sys) : Prop :=
  match apc s with
  | ARun | ADone => False
  | AWait i _ => ∃ p, c_array (ecore s) !! i = Some p ∧ state p = PRESENT
  | AIdleAsleep => c_evictq (ecore s) = [] ∧ c_ewait (ecore s) = c_emax (ecore s)
  | _ => True
  end.

Lemma unmap_run_makes s b : sinv s → unmap_working s → makes s (unmap_run b s).
Proof.
  intros Hs Hwk. unfold unmap_run. erewrite bind_run by reflexivity. unfold unmap_working in Hwk.
  pose proof (i_app _ Hs) as Happ. destruct (apc s) as [| |i df|i| | |] eqn:Ha; try done.
  - apply unmap_evict_makes; [done|]. left. by exists b.
  - destruct Happ as (_&_&_&->&_). destruct Hwk as (p&?&?).
    apply unmap_evict_makes; [done|]. right. by exists i, p.
  - by apply unmap_got_makes.
  - destruct (unmap_idle_spec s WaitAll Hs) as (s'&->&?&?); auto. apply makes_ok; auto.
  - destruct (unmap_idle_spec s WaitAll_wake Hs) as (s'&->&?&?); auto. apply makes_ok; auto.
Qed.

Lemma unmap_run_good s b : sinv s → good (TUnmap b) s (unmap_run b s).
Proof.
  intros Hs. pose proof (unmap_run_makes s b Hs) as H. unfold unmap_working in H.
  pose proof (i_app _ Hs) as Happ. unfold unmap_run in *. erewrite bind_run in * by reflexivity.
  destruct (apc s) as [| |i df|i| | |] eqn:Ha; try by apply makes_good, H.
  - destruct (quiescent s) eqn:Hq; [|done]. by apply unmap_start_good.
  - destruct Happ as (_&_&_&->&_).
    destruct (unmap_evict_cases s (evict_oldest_page_wake i false) Hs)
      as [(j&p&Hbk&Hp&Sp&Hdef&Ha'&Hr)|[(j&p&Hbk&Hp&Sp&Hdef&Ha'&Hbl)|(Hb&Ha'&Hr)]]; [eauto| | |].
    + apply makes_good, H. exists p. split; [|done].
      destruct Ha' as [E|[df E]]; [congruence|]. rewrite Ha in E. by simplify_eq.
    + destruct (unmap_evict_sleeps s _ j p Hs Hbk Hp Hdef Ha' Hbl) as (s'&->&Hs'&_). exact Hs'.
    + congruence.
  - destruct (unmap_idle_spec s WaitAll_wake Hs) as (s'&->&Hs'&_); auto.
  - done.
Qed.

Lemma in_use_good t s m :
  sinv s → (apc s = ARun → good t s (m s)) → good t s (while_in_use m s).
Proof.
  intros Hs Hm. unfold while_in_use. erewrite bind_run by reflexivity.
  unfold in_use. destruct (apc s); try done. by apply Hm.
Qed.

Lemma run_good s t k :
  psz = 2 ^ k → 0 ≤ k < 64 → sinv s → good t s (run psize t s).
Proof.
  intros Hk Hr Hs.
  assert (0 < psize)%nat as Hp0 by (assert (0 < 2 ^ k) by (apply Z.pow_pos_nonneg; lia); lia).
  destruct t as [msgs|b|b n|b|b n|a data|b]; cbn [run].
  - case_bool_decide; [|done]. apply in_use_good; [done|]. by eapply uffd_batch_good.
  - by apply uffd_run_good.
  - by apply fill_run_good.
  - by apply mgr_run_good.
  - by apply evict_run_good.
  - case_bool_decide; [|done]. apply in_use_good; [done|]. by apply app_store_good.
  - by apply unmap_run_good.
Qed.
End invariant.
