(* ===== verification/SystemProps.v ===== *)
(** * Properties of the running engine

    The states reachable from a freshly created engine, and what holds in all
    of them under every schedule: no operation throws or leaves the defined
    behaviour of C++ (the eviction scan apart), the page bookkeeping is
    consistent, and the engine implements a flat memory. *)

From stdpp Require Import base list numbers strings gmap.
From Stdlib Require Import Strings.Byte.
From S2P Require Import Prelude PageDescriptor WorkQueue Store RegionDescriptor RegionMap.
From S2P Require Import Config Engine Buffer WaterMarks Eviction Uffd Workers BufferSpec BufferInv System SystemInv.
Local Open Scope Z_scope.

Section props.
Context {O St : Type} `{!UffdOS O} `{!UffdLaws O} `{!StoreBank St}.
Context (psize : nat) (cap : nat → Z) `{!BankLaws St psize cap}.
Abbreviation psz := (Z.of_nat psize).
Abbreviation Sys := (Sys O St).
Abbreviation engine s := (eng (world s)).

(** a new engine over registered regions: [addRegion] on an empty manager *)
Record init (cfg : Config) (s : Sys) : Prop := {
  init_buf : new_Buffer cfg tt = Ok (buf (engine s)) tt;
  init_size : m_max_pages_in_buffer cfg < 2 ^ 64;
  init_fillq : m_queue (fill_wq (engine s)) = [];
  init_mgrq : m_queue (mgr_wq (engine s)) = [];
  init_evictq : m_queue (evict_wq (engine s)) = [];
  init_waiting : m_waiting_workers (evict_wq (engine s)) = 0;
  init_evictors : m_max_waiting (evict_wq (engine s)) = Z.of_nat (length (epcs s));
  init_regs : regs_ok psize cap (regs (engine s));
  init_empty : ∀ r d, heap (regs (engine s)) !! r = Some d → m_active_pages d = ∅;
  init_upc : upc s = URun [];
  init_fpcs : Forall (λ pc, ∃ buf, pc = FIdle buf ∧ length buf = psize) (fpcs s);
  init_mpc : mpc s = MIdle;
  init_epcs : Forall (λ pc, pc = EIdle) (epcs s);
  init_apc : apc s = ARun;
  init_disk : bank_ok (disk (world s));
  init_kernel : ∀ r d a, heap (regs (engine s)) !! r = Some d → region_page psize cap d a →
    pte (kernel (world s)) a = None;
  init_ghost : ∀ r d a, heap (regs (engine s)) !! r = Some d → region_page psize cap d a →
    ghost s a = stored psize cap (disk (world s)) d a
}.

Lemma new_buffer_core cfg b :
  new_Buffer cfg tt = Ok b tt →
  m_array b = replicate (Z.to_nat (m_max_pages_in_buffer cfg)) zero_pd ∧
  m_free_pages b = seq 0 (Z.to_nat (m_max_pages_in_buffer cfg)) ∧
  m_busy_pages b = [] ∧ m_present_pages b = ∅ ∧ m_mutex b = false.
Proof. unfold new_Buffer. intros H. inv_ok. done. Qed.

Lemma claims_nil {A} (f : A → claims) l : Forall (λ x, f x = []) l → l ≫= f = [].
Proof. induction 1 as [|x l Hx _ IH]; [done|]. by rewrite bind_cons, Hx, IH. Qed.

Lemma init_sinv cfg s : init cfg s → sinv psize cap s.
Proof.
  intros [Hb Hsz Hfq Hmq Heq Hwt Hmx' Hro Hemp Hu Hf Hm He Hap Hd Hk Hg].
  destruct (new_buffer_core _ _ Hb) as (Harr&Hfree&Hbusy&Hpres&Hmx).
  assert (fcl s = []) as Hfcl.
  { unfold fcl. cbn. rewrite Hfq. cbn. apply claims_nil. eapply Forall_impl; [exact Hf|].
    by intros ? (?&->&_). }
  assert (ecl s = []) as Hecl.
  { unfold ecl. cbn. rewrite Heq, Hm, Hap. cbn. apply claims_nil. eapply Forall_impl; [exact He|].
    by intros ? ->. }
  assert (∀ i p, m_array (buf (engine s)) !! i = Some p → p = zero_pd) as Hz.
  { intros i p. rewrite Harr. intros ?%lookup_replicate_1. naive_solver. }
  split; try done.
  - rewrite Hfcl, Hecl. split; cbn; try done.
    + rewrite Hfree, Hbusy, Harr, length_replicate, !app_nil_r. done.
    + constructor.
    + by intros i ?%elem_of_nil.
    + intros i p Hp. rewrite (Hz i p Hp). split_and!; cbn; try done.
      * split; [|done]. intros _. rewrite Hfree. apply elem_of_seq.
        apply lookup_lt_Some in Hp. rewrite Harr, length_replicate in Hp. lia.
      * split; [done|]. by intros ?%elem_of_nil.
      * split; [by intros [?|?]|]. by intros ?%elem_of_nil.
    + rewrite Hpres. by intros a i ?%lookup_empty_Some.
    + intros r d i Hr Hi. rewrite (Hemp r d Hr) in Hi. set_solver.
  - split; cbn; try done.
    + intros i p r d Hp Sp. by rewrite (Hz i p Hp) in Sp.
    + intros r d a Hr Ha _. split; [left; by eapply Hk|]. symmetry. by eapply Hg.
    + intros r d a Hr Ha. rewrite (Hg r d a Hr Ha). apply bank_page_length; [done|apply Ha].
  - cbn. rewrite Hfq. constructor.
  - cbn. rewrite Hmq. constructor.
  - cbn. rewrite Heq. constructor.
  - rewrite Hu. constructor.
  - eapply Forall_impl; [exact Hf|]. by intros ? (?&->&?).
  - eapply Forall_impl; [exact He|]. by intros ? ->.
  - by rewrite Hm.
  - by rewrite Hap.
  - split; cbn; [|done]. rewrite Hwt. clear -He.
    induction He as [|pc l -> _ IH]; [done|]. by rewrite filter_cons_False by by intros [].
  - cbn. rewrite Harr, length_replicate. lia.
Qed.

(** the states some schedule of the threads leads to *)
Definition reach (cfg : Config) : Sys → Prop := reachable (init cfg) (step psize).

Lemma reach_sinv k cfg s :
  psz = 2 ^ k → 0 ≤ k < 64 → reach cfg s → sinv psize cap s.
Proof.
  intros Hk Hk64. apply invariant_reachable; [apply init_sinv|].
  intros s1 s2 Hs [t Ht]. pose proof (run_good psize cap s1 t k Hk Hk64 Hs) as Hg.
  by rewrite Ht in Hg.
Qed.

(** ** The specification: a flat memory *)

(** what a step of the engine is for the memory: a store of the application
    writes the page, everything else is invisible *)
Definition flat_step (t : thread) (g g' : Z → bytes) : Prop :=
  ∀ b, g' b = match t with
              | TStore a data => if decide (b = a) then data else g b
              | _ => g b
              end.

(** [keeps R m]: what [m] does to the state is within the preorder [R] *)
Definition keeps (R : Sys → Sys → Prop) {A} (m : M Sys A) : Prop :=
  ∀ s a s', m s = Ok a s' → R s s'.

Section keeps.
Context (R : Sys → Sys → Prop) `{!PreOrder R}.
Hypothesis Hworld : ∀ s w, R s (with_world w s).

Lemma keeps_bind {A B} (m : M Sys A) (f : A → M Sys B) :
  keeps R m → (∀ a, keeps R (f a)) → keeps R (m ≫= f).
Proof. intros Hm Hf s b s' (a&s1&E1&E2)%bind_Ok. etrans; [by eapply Hm|by eapply Hf]. Qed.

Lemma keeps_get {B} (f : Sys → M Sys B) : (∀ s, keeps R (f s)) → keeps R (get ≫= f).
Proof. intros Hf. apply keeps_bind; [|done]. intros s a s' E. by inv_ok. Qed.

Lemma keeps_world {A} (m : M (World O St) A) : keeps R (on_world m).
Proof. intros s a s'. unfold on_world, zoom. destruct (m (world s)); naive_solver. Qed.

Lemma keeps_modify f : (∀ s, R s (f s)) → keeps R (modify f).
Proof. intros Hf s a s' E. inv_ok. apply Hf. Qed.

Lemma keeps_block {A} c : keeps R (block (A := A) c).
Proof. by intros s a s' E. Qed.

Lemma keeps_undefined {A} why : keeps R (undefined (A := A) why).
Proof. by intros s a s' E. Qed.

Lemma keeps_sleep {A} (m : M (World O St) A) f h :
  (∀ a, keeps R (f a)) → (∀ c m', h c = Some m' → keeps R m') → keeps R (or_sleep (on_world m) f h).
Proof.
  intros Hf Hh s a s'. unfold or_sleep, on_world, zoom.
  destruct (m (world s)) as [x w|msg w|c w|why] eqn:E; try done.
  - intros E1. etrans; [apply Hworld|by eapply Hf].
  - destruct (h c) as [m'|] eqn:Eh; [|done]. intros E1. etrans; [apply Hworld|by eapply Hh].
Qed.

Lemma keeps_queue_sleep (h : M Sys unit) c m' :
  keeps R h → on_queue_sleep h c = Some m' → keeps R m'.
Proof. unfold on_queue_sleep. case_bool_decide; naive_solver. Qed.
End keeps.

(** reduces [keeps R m] to [R s (f s)] for the updates [f] that [m] performs *)
Ltac keeps_tac :=
  repeat match goal with
    | H : on_queue_sleep _ _ = Some _ |- _ => apply keeps_queue_sleep with (2 := H); clear H
    | H : match ?c with _ => _ end = Some _ |- _ => destruct c; simplify_eq
    | |- forall _, keeps _ _ => intro
    | |- forall _, forall _, _ = _ -> keeps _ _ => intros ? ? ?
    | |- keeps _ (block _) => apply keeps_block
    | |- keeps _ (undefined _) => apply keeps_undefined
    | |- keeps _ (on_world _) => apply keeps_world; [solve [intros; done]]
    | |- keeps _ (modify _) => apply keeps_modify; intro
    | |- keeps _ (or_sleep _ _ _) => apply keeps_sleep; [apply _|solve [intros; done]|..]
    | |- keeps _ (get ≫= _) => apply keeps_get; [apply _|]
    | |- keeps _ (_ ≫= _) => apply keeps_bind; [apply _|..]
    | |- keeps _ (match ?x with _ => _ end) => destruct x
    end.

Definition same_ghost (s s' : Sys) : Prop := ghost s' = ghost s.
#[local] Instance same_ghost_preorder : PreOrder same_ghost.
Proof. split; unfold same_ghost; repeat intro; congruence. Qed.

Lemma run_flat t s s' : run psize t s = Ok tt s' → flat_step t (ghost s) (ghost s').
Proof.
  assert (keeps same_ghost (match t with TStore _ _ => block OnQueue | _ => run psize t end)) as Hkeep.
  { destruct t; cbn [run];
      unfold uffd_batch, uffd_run, event, fill_run, fill_take, mgr_run, mgr_take, evict_run,
        evict_take, unmap_run, unmap_evict, unmap_wait, unmap_idle, while_in_use, set_apc, set_upc,
        set_fpc, set_mpc, set_epc; keeps_tac; done. }
  intros E. destruct t as [| | | | |a data|]; cbn [flat_step];
    try (intros b; by rewrite (Hkeep _ _ _ E)).
  cbn [run] in E. case_bool_decide; [|done].
  unfold while_in_use in E. inv_ok. destruct (in_use _); [|done]. unfold app_store in E. inv_ok.
  destruct (store_page a data _); [|done]. inv_ok. done.
Qed.

(** no step changes the number of workers, and an unmap is never undone *)
Definition same_shape (s s' : Sys) : Prop :=
  length (fpcs s') = length (fpcs s) ∧ length (epcs s') = length (epcs s) ∧
  (closing s = true → closing s' = true).
#[local] Instance same_shape_preorder : PreOrder same_shape.
Proof.
  split; [by intros s|]. intros s1 s2 s3 (?&?&?) (?&?&?). split_and!; [congruence|congruence|auto].
Qed.

Lemma run_shape t s s' : run psize t s = Ok tt s' → same_shape s s'.
Proof.
  revert s s'. enough (keeps same_shape (run psize t)) as H by (intros s s'; apply H).
  destruct t; cbn [run];
    unfold uffd_batch, uffd_run, event, fill_run, fill_take, mgr_run, mgr_take, evict_run,
      evict_take, app_store, unmap_run, unmap_evict, unmap_wait, unmap_idle, while_in_use, set_apc,
      set_upc, set_fpc, set_mpc, set_epc; keeps_tac;
    unfold same_shape, closing, in_use; cbn; rewrite ?length_insert; try done.
  all: by repeat case_match.
Qed.

(** ** Schedules *)

(** the state after the pieces of the threads [ts], if each of them succeeds *)
Fixpoint run_all (ts : list thread) (s : Sys) : option Sys :=
  match ts with
  | [] => Some s
  | t :: ts => match run psize t s with Ok _ s' => run_all ts s' | _ => None end
  end.

Lemma run_all_reach cfg ts s s' : reach cfg s → run_all ts s = Some s' → reach cfg s'.
Proof.
  revert s. induction ts as [|t ts IH]; intros s Hs E; simpl in E; [by simplify_eq|].
  destruct (run psize t s) as [[] s1| | |] eqn:Et; try done.
  eapply IH; [|exact E]. eapply reach_step; [exact Hs|]. by exists t.
Qed.

(** ** Properties *)


(** C5 (invariant).  In every reachable state each page descriptor is in
    exactly one place: the free list holds the FREE ones, the busy deque those
    that are FILLING, PRESENT or UPDATING, and neither holds those LEAVING.
    A descriptor in use is the one the map of present pages and its region's
    set of active pages give for its page, the page lies in that region, and
    these maps hold nothing else. *)
Theorem page_bookkeeping k cfg s :
  psz = 2 ^ k → 0 ≤ k < 64 → reach cfg s →
  let b := buf (engine s) in
  NoDup (m_free_pages b ++ m_busy_pages b) ∧
  (∀ i p, m_array b !! i = Some p →
     (i ∈ m_free_pages b ↔ state p = FREE) ∧
     (i ∈ m_busy_pages b ↔ state p = FILLING ∨ state p = PRESENT ∨ state p = UPDATING) ∧
     (state p ≠ FREE →
        m_present_pages b !! page p = Some i ∧
        ∃ r d, region p = Some r ∧ heap (regs (engine s)) !! r = Some d ∧
          i ∈ m_active_pages d ∧ contains d (page p))) ∧
  (∀ a i, m_present_pages b !! a = Some i →
     ∃ p, m_array b !! i = Some p ∧ state p ≠ FREE ∧ page p = a) ∧
  (∀ r d i, heap (regs (engine s)) !! r = Some d → i ∈ m_active_pages d →
     ∃ p, m_array b !! i = Some p ∧ state p ≠ FREE ∧ region p = Some r).
Proof.
  intros Hk Hk64 Hr b. pose proof (i_binv _ _ _ (reach_sinv k cfg s Hk Hk64 Hr)) as Hb.
  pose proof (binv_nodup _ _ _ _ _ Hb) as Hnd. pose proof (binv_valid _ _ _ _ _ Hb) as Hv.
  cbn in Hnd, Hv. fold b in Hnd, Hv. split_and!.
  - rewrite app_assoc in Hnd. by apply NoDup_app in Hnd as (?&_&_).
  - intros i p Hp. destruct (b_pd _ _ _ _ _ Hb i p Hp) as (H1&H2&H3&H4). split_and!.
    + symmetry. apply H1.
    + split.
      * intros Hi. destruct (state p) eqn:Sp; try tauto; exfalso.
        -- assert (i ∈ m_free_pages b) as Hf by (by apply H1).
           apply NoDup_app in Hnd as (_&Hnd&_). apply (Hnd i Hf). set_solver.
        -- assert (i ∈ (ecl s).*1) as He by (by apply H2).
           apply NoDup_app in Hnd as (_&_&Hnd). apply NoDup_app in Hnd as (_&Hnd&_).
           by apply (Hnd i Hi).
      * intros Sp. assert (i ∈ m_free_pages b ++ m_busy_pages b ++ (ecl s).*1) as Hi
          by (apply Hv; by eexists).
        rewrite !elem_of_app in Hi. destruct Hi as [Hi|[Hi|Hi]]; [|done|].
        -- apply H1 in Hi. rewrite Hi in Sp. naive_solver.
        -- apply H2 in Hi. rewrite Hi in Sp. naive_solver.
    + intros Sp. destruct (H4 Sp) as (_&?&r&d&?&?&?&[? _]). split; [done|]. by exists r, d.
  - apply (b_pres _ _ _ _ _ Hb).
  - apply (b_act _ _ _ _ _ Hb).
Qed.

Lemma data_ok_flat t p m sp g :
  data_ok t p m sp g → match m with Some (x, _) => x = g | None => sp = g end.
Proof.
  assert (resident p m sp g → match m with Some (x, _) => x = g | None => sp = g end) as Hres
    by by intros [-> _].
  destruct t; cbn; intros Hok.
  - destruct Hok as [(_&_&->&?)|(_&_&_&->)]; done.
  - destruct Hok as (_&_&->&?&_). done.
  - apply Hres, Hok.
  - apply Hres, Hok.
  - apply Hres, Hok.
  - by destruct Hok as (_&->).
  - by destruct Hok as (_&->&_).
  - by destruct Hok as (_&->&_).
  - by destruct Hok as (_&->&?).
Qed.

(** C1 (refinement).  The engine implements a flat memory.  Every step of a
    thread is a step of the memory: a store of the application writes its
    page, and nothing the engine does changes the contents.  In every
    reachable state a load of a page of a region that is mapped sees these
    contents, and the contents of a page that is not mapped are in the
    region's store, from where the next fault brings them in: paging never
    loses, mixes up or corrupts data. *)
Theorem flat_memory_refinement k cfg s :
  psz = 2 ^ k → 0 ≤ k < 64 → reach cfg s →
  (∀ t s', run psize t s = Ok tt s' → flat_step t (ghost s) (ghost s')) ∧
  (∀ r d a, heap (regs (engine s)) !! r = Some d → region_page psize cap d a →
     match load_page a (kernel (world s)) with
     | Some data => data = ghost s a
     | None => stored psize cap (disk (world s)) d a = ghost s a
     end).
Proof.
  intros Hk Hk64 Hr. pose proof (reach_sinv k cfg s Hk Hk64 Hr) as Hs.
  split; [intros t s'; apply run_flat|]. intros r d a Hd Ha. rewrite load_law.
  pose proof (i_data _ _ _ Hs) as Hdi. pose proof (i_binv _ _ _ Hs) as Hb.
  destruct (m_present_pages (buf (engine s)) !! a) as [i|] eqn:Hpres.
  - destruct (b_pres _ _ _ _ _ Hb a i Hpres) as (p&Hp&Sp&<-).
    destruct (binv_pd_region _ _ _ _ _ Hb i p Hp Sp) as (r0&d0&Hr0&Hh0&Hpg0).
    assert (r0 = r) as -> by (eapply region_unique; [apply Hb|done|done|apply Hpg0|apply Ha]).
    assert (d0 = d) as -> by (cbn in Hh0; congruence).
    destruct (d_data _ _ _ _ _ _ _ Hdi i p r d Hp Sp Hr0 Hh0) as (t&_&Hok).
    apply data_ok_flat in Hok. by destruct (pte _ (page p)) as [[x wp]|].
  - by destruct (d_absent _ _ _ _ _ _ _ Hdi r d a Hd Ha Hpres) as [[->|[_ ->]] ?].
Qed.

(** C6 (safety).  The dirty bit of a page nobody works on tells exactly
    whether the page can be written: a page that is PRESENT and clean is write
    protected, so that the next store to it faults, and is identical to its
    store; a page that is PRESENT and dirty is writable, so that no store to it
    waits for a fault that nobody would serve. *)
Theorem dirty_iff_writable k cfg s i p r d :
  psz = 2 ^ k → 0 ≤ k < 64 → reach cfg s →
  m_array (buf (engine s)) !! i = Some p → state p = PRESENT →
  region p = Some r → heap (regs (engine s)) !! r = Some d →
  load_page (page p) (kernel (world s)) = Some (ghost s (page p)) ∧
  (∀ data, is_Some (store_page (page p) data (kernel (world s))) ↔ dirty p = true) ∧
  (dirty p = false → stored psize cap (disk (world s)) d (page p) = ghost s (page p)).
Proof.
  intros Hk Hk64 Hr Hp Sp Hrg Hd. pose proof (reach_sinv k cfg s Hk Hk64 Hr) as Hs.
  destruct (d_data _ _ _ _ _ _ _ (i_data _ _ _ Hs) i p r d Hp) as (t&_&Hok);
    [congruence|done|done|].
  apply data_present_tag in Hok as [-> [Hm Hst]]; [|done]. split_and!; [|intros data|done].
  - by rewrite load_law, Hm.
  - destruct (dirty p); cbn in Hm.
    + split; [done|]. intros _. destruct (store_law _ _ _ data Hm) as (o'&->&_). eauto.
    + rewrite store_fault_law; [|congruence]. split; [by intros []|done].
Qed.
End props.

(** ** A concrete engine, for the witnesses

    Pages of four bytes, one region of three pages over a file of twelve bytes,
    a buffer of two pages, one filler and one evictor. *)

Definition demo_cap (id : nat) : Z := match id with O => 12 | _ => 0 end.
Definition demo_files (id : nat) : StoreFile := make_store 4096 12 4 (Z.of_nat id).
#[local] Instance demo_bank : StoreBank memfs := file_bank demo_files.
Lemma demo_files_inj i j : sf_fd (demo_files i) = sf_fd (demo_files j) → i = j.
Proof. cbn. lia. Qed.
#[local] Instance demo_bank_laws : BankLaws memfs 4 demo_cap :=
  file_bank_laws demo_files 4 demo_cap ltac:(lia) ltac:(lia) demo_files_inj.

Definition demo_cfg : Config := mkConfig (mkVersion 2 1 0) 2 0 4 4 1 1 70 90 256.
Definition demo_disk : memfs :=
  {[ 0 := [x01; x02; x03; x04; x05; x06; x07; x08; x09; x0a; x0b; x0c] ]}.
Definition demo_regs : RegionMap :=
  mkRM [(4096, 0%nat)] None {[ 0%nat := new_RegionDescriptor 4096 12 4096 16 0 ]}.
Definition demo_buffer : Buffer :=
  mkBuffer 2 [zero_pd; zero_pd] ∅ [0%nat; 1%nat] [] 1 1 false 0 (mkCond 0 0) 0 (mkCond 0 0)
    zero_stats false.
Definition demo_engine (b : Buffer) : Engine :=
  mkEngine b demo_regs (new_WorkQueue 1) (new_WorkQueue 1) (new_WorkQueue 1) 0.

Definition demo_ghost (a : Z) : bytes := take 4 (drop (Z.to_nat (a - 4096))
  [x01; x02; x03; x04; x05; x06; x07; x08; x09; x0a; x0b; x0c]).

Definition demo_with (b : Buffer) : Sys memos memfs :=
  mkSys (mkWorld (demo_engine b) ∅ demo_disk) (URun []) [FIdle [x00; x00; x00; x00]] MIdle [EIdle]
    ARun demo_ghost.
Definition demo_sys : Sys memos memfs := demo_with demo_buffer.

Lemma demo_init_with cfg b :
  new_Buffer cfg tt = Ok b tt → m_max_pages_in_buffer cfg < 2 ^ 64 →
  init 4 demo_cap cfg (demo_with b).
Proof.
  intros Hb Hsz.
  assert (∀ r d, heap demo_regs !! r = Some d → r = 0%nat ∧ d = new_RegionDescriptor 4096 12 4096 16 0) as Hone.
  { intros r d. cbn. intros [<- <-]%lookup_singleton_Some. done. }
  split; try done.
  - split.
    + split; [|done]. econstructor; [reflexivity|done|done| |constructor]. by intros k r ?%elem_of_nil.
    + intros r d [-> ->]%Hone. exists 4096. set_solver.
    + intros r d [-> ->]%Hone. split_and!; by vm_compute.
    + by intros r d r' d' [-> _]%Hone [-> _]%Hone.
  - by intros r d [_ ->]%Hone.
  - constructor; [by eexists|constructor].
  - constructor; [done|constructor].
  - intros [|id] Hc; [|done]. cbn. eexists. split; [reflexivity|]. cbn. lia.
  - intros r d a [-> ->]%Hone _. reflexivity.
Qed.

Lemma demo_init : init 4 demo_cap demo_cfg demo_sys.
Proof. apply demo_init_with; reflexivity. Qed.

(** a write fault on the first page and a read fault on the second, filled by
    the one filler, then a store to the first page *)
Definition demo_schedule : list thread :=
  [ TBatch [mkMsg 4101 0; mkMsg 4098 1];
    TUffd false; TUffd false; TUffd false; TUffd false;
    TFill false 0; TFill false 0; TFill false 0; TFill false 0;
    TFill false 0; TFill false 0; TFill false 0; TFill false 0;
    TStore 4096 [x0f; x0f; x0f; x0f] ].

Definition demo_run : Sys memos memfs := default demo_sys (run_all 4 demo_schedule demo_sys).

Lemma demo_run_reachable : reach 4 demo_cap demo_cfg demo_run.
Proof.
  apply (run_all_reach 4 demo_cap demo_cfg demo_schedule demo_sys); [apply reach_init, demo_init|].
  vm_compute. reflexivity.
Qed.


Lemma page_bookkeeping_witness :
  NoDup (m_free_pages (buf (eng (world demo_run))) ++ m_busy_pages (buf (eng (world demo_run)))) ∧
  m_busy_pages (buf (eng (world demo_run))) = [0%nat; 1%nat].
Proof.
  split; [|vm_compute; reflexivity].
  apply (page_bookkeeping 4 demo_cap 2 demo_cfg demo_run eq_refl ltac:(lia) demo_run_reachable).
Defined.

Lemma flat_memory_refinement_witness :
  load_page 4096 (kernel (world demo_run)) = Some [x0f; x0f; x0f; x0f] ∧
  ghost demo_run 4096 = [x0f; x0f; x0f; x0f].
Proof.
  split; [vm_compute; reflexivity|].
  destruct (flat_memory_refinement 4 demo_cap 2 demo_cfg demo_run eq_refl ltac:(lia)
    demo_run_reachable) as [_ H].
  assert (heap (regs (eng (world demo_run))) !! 0%nat =
    Some (with_active {[0%nat; 1%nat]} (new_RegionDescriptor 4096 12 4096 16 0))) as Hd
    by (vm_compute; reflexivity).
  specialize (H 0%nat _ 4096 Hd).
  assert (load_page 4096 (kernel (world demo_run)) = Some [x0f; x0f; x0f; x0f]) as El
    by (vm_compute; reflexivity).
  rewrite El in H. symmetry. apply H. split; decide_now.
Defined.

Lemma dirty_iff_writable_witness :
  is_Some (store_page 4100 [x0f; x0f; x0f; x0f] (kernel (world demo_run))) ↔ false = true.
Proof.
  apply (dirty_iff_writable 4 demo_cap 2 demo_cfg demo_run 0
    (mkPD 4100 (Some 0%nat) PRESENT false false true 0) 0
    (with_active {[0%nat; 1%nat]} (new_RegionDescriptor 4096 12 4096 16 0)));
    [reflexivity|lia|apply demo_run_reachable|vm_compute; reflexivity..].
Defined.
