(* ===== verification/Unmap.v ===== *)
(** * Unmapping the last region

    What [uunmap] of the last region achieves before it takes the engine down:
    [EvictManager::EvictAll], run by the application thread against the fill
    workers and the evict workers of System.v, writes every modified page back
    to its store, leaves no page behind, and can always run to its end. *)

From stdpp Require Import base list numbers strings gmap.
From Stdlib Require Import Strings.Byte.
From S2P Require Import Prelude PageDescriptor WorkQueue Store RegionDescriptor RegionMap.
From S2P Require Import Config Engine Buffer WaterMarks Uffd Workers BufferSpec BufferInv.
From S2P Require Import System SystemInv SystemProps.
Local Open Scope Z_scope.
#[local] Arguments core : simpl never.

Section unmap.
Context {O St : Type} `{!UffdOS O} `{!UffdLaws O} `{!StoreBank St}.
Context (psize : nat) (cap : nat → Z) `{!BankLaws St psize cap}.
Abbreviation Sys := (Sys O St).
Abbreviation sinv := (sinv psize cap).
Abbreviation ecore s := (core (eng (world s))).

(** nothing is left in the buffer, and the stores hold the memory *)
Definition written_back (s : Sys) : Prop :=
  m_present_pages (buf (eng (world s))) = ∅ ∧ m_busy_pages (buf (eng (world s))) = [] ∧
  (∀ i p, m_array (buf (eng (world s))) !! i = Some p → state p = FREE) ∧
  (∀ r d a, heap (regs (eng (world s))) !! r = Some d → region_page psize cap d a →
     stored psize cap (disk (world s)) d a = ghost s a).

Lemma done_written_back s : sinv s → apc s = ADone → written_back s.
Proof.
  intros Hs Ha. pose proof (i_binv _ _ _ Hs) as Hb. pose proof (i_app _ _ _ Hs) as Happ.
  rewrite Ha in Happ. destruct Happ as (_&_&_&Hbusy).
  pose proof (b_part _ _ _ _ _ Hb) as Hpart. rewrite Hbusy, (i_done _ _ _ Hs Ha) in Hpart.
  cbn in Hpart. rewrite app_nil_r in Hpart.
  assert (∀ i p, c_array (ecore s) !! i = Some p → state p = FREE) as Hfree.
  { intros i p Hp. pose proof (lookup_lt_Some _ _ _ Hp) as Hlt.
    apply (b_pd _ _ _ _ _ Hb i p Hp). rewrite Hpart. apply elem_of_seq. lia. }
  assert (c_present (ecore s) = ∅) as Hpres.
  { apply map_empty. intros a. destruct (c_present (ecore s) !! a) as [i|] eqn:E; [|done].
    destruct (b_pres _ _ _ _ _ Hb a i E) as (p&Hp&Sp&_). by apply Hfree in Hp. }
  split_and!; [done|done|done|]. intros r d a Hd Hpg.
  apply (d_absent _ _ _ _ _ _ _ (i_data _ _ _ Hs) r d a Hd Hpg). by rewrite Hpres.
Qed.

(** ** Somebody can always go on *)

(** a page that is being filled is with a filler *)
Lemma filler_working s i :
  sinv s → fpcs s ≠ [] → i ∈ (fcl s).*1 → ∃ k, fill_working s k.
Proof.
  intros Hs Hne Hi. unfold fcl in Hi. rewrite fmap_app, elem_of_app in Hi. destruct Hi as [Hi|Hi].
  - assert (c_fillq (ecore s) ≠ []) as Hq by (intros E; rewrite E in Hi; by apply elem_of_nil in Hi).
    destruct (fpcs s) as [|pc l] eqn:E; [done|]. exists 0%nat. unfold fill_working. rewrite E. cbn.
    destruct pc; try done.
    pose proof (Forall_lookup_1 _ _ 0%nat FExit (i_fpcs _ _ _ Hs)) as HF. by apply HF; rewrite E.
  - apply list_elem_of_fmap in Hi as (x&->&(pc&Hx&Hpc)%list_elem_of_bind).
    apply list_elem_of_lookup in Hpc as [k Hk]. exists k. unfold fill_working. rewrite Hk.
    destruct pc; try done; by apply elem_of_nil in Hx.
Qed.

(** when the evict workers are not idle, one of them has work *)
Lemma evictor_working s :
  sinv s → epcs s ≠ [] → ¬ (c_evictq (ecore s) = [] ∧ c_ewait (ecore s) = c_emax (ecore s)) →
  ∃ k, evict_working s k.
Proof.
  intros Hs Hne Hid. destruct (i_ewait _ _ _ Hs) as [Hw Hx].
  destruct (decide (Exists (λ pc, is_asleep pc = false) (epcs s))) as [Hex|Hall].
  - apply Exists_exists in Hex as (pc&[k Hk]%list_elem_of_lookup&Hpc). exists k. unfold evict_working. rewrite Hk. destruct pc; try done.
    by pose proof (Forall_lookup_1 _ _ k EExit (i_epcs _ _ _ Hs) Hk).
  - assert (∀ k pc, epcs s !! k = Some pc → pc = EAsleep) as Hsl.
    { intros k pc Hk. destruct (is_asleep pc) eqn:E; [by destruct pc|].
      exfalso. apply Hall, Exists_exists. exists pc. split; [by eapply list_elem_of_lookup_2|done]. }
    assert (filter is_asleep (epcs s) = epcs s) as Hf.
    { clear -Hsl. induction (epcs s) as [|pc l IH]; [done|].
      assert (pc = EAsleep) as -> by (by apply (Hsl 0%nat)).
      rewrite filter_cons_True by done. f_equal. apply IH. intros k q. apply (Hsl (S k)). }
    rewrite Hf in Hw. destruct (epcs s) as [|pc l] eqn:E; [done|]. exists 0%nat.
    unfold evict_working. rewrite E. cbn. rewrite (Hsl 0%nat pc eq_refl).
    intros Eq. apply Hid. split; [done|]. congruence.
Qed.
Lemma unmap_progress s :
  sinv s → closing s = true → apc s ≠ ADone → fpcs s ≠ [] → epcs s ≠ [] →
  ∃ t, (∀ a data, t ≠ TStore a data) ∧ makes psize cap s (run psize t s).
Proof.
  intros Hs Hcl Hnd Hf He.
  assert (unmap_working s ∨ (∃ k, fill_working s k) ∨ ∃ k, evict_working s k) as [H|[[k H]|[k H]]].
  { unfold unmap_working. destruct (apc s) as [| |i df|i| | |] eqn:Ha; try auto.
    - unfold closing, in_use in Hcl. by rewrite Ha in Hcl.
    - pose proof (i_app _ _ _ Hs) as Happ. rewrite Ha in Happ. destruct Happ as (_&_&_&_&Hbk).
      destruct (busy_pd _ _ s i Hs Hbk) as (p&Hp&Sp&_). pose proof (i_binv _ _ _ Hs) as Hb.
      destruct (decide (state p = PRESENT)) as [?|Spp]; [left; eauto|]. right; left.
      apply (filler_working s i Hs Hf). destruct (b_pd _ _ _ _ _ Hb i p Hp) as (_&H2&H3&_).
      apply H3. unfold filling. destruct (state p) eqn:E; auto; [done..|]. exfalso.
      pose proof (binv_nodup _ _ _ _ _ Hb) as (_&_&(_&Hdis&_)%NoDup_app)%NoDup_app.
      apply (Hdis i); [rewrite (back_perm _ _ Hbk); set_solver|by apply H2].
    - destruct (decide (c_evictq (ecore s) = [] ∧ c_ewait (ecore s) = c_emax (ecore s))); [by left|].
      right; right. by apply evictor_working. }
  - exists (TUnmap false). split; [done|]. by apply unmap_run_makes.
  - exists (TFill false k). split; [done|]. by apply fill_run_makes.
  - exists (TEvict false k). split; [done|]. by apply evict_run_makes.
Qed.

Lemma unmap_completes s :
  sinv s → closing s = true → fpcs s ≠ [] → epcs s ≠ [] →
  ∃ ts s', run_all psize ts s = Some s' ∧ (length ts ≤ work_left s)%nat ∧ sinv s' ∧ apc s' = ADone ∧
    ∀ b, ghost s' b = ghost s b.
Proof.
  remember (work_left s) as n eqn:En. revert s En.
  induction (lt_wf n) as [n _ IH]; intros s -> Hs Hcl Hf He.
  destruct (decide (apc s = ADone)) as [Ha|Ha]; [exists [], s; split_and!; [done|cbn; lia|done..]|].
  destruct (unmap_progress s Hs Hcl Ha Hf He) as (t&Ht&s1&E&Hs1&Hlt).
  destruct (run_shape _ t s s1 E) as (Hlf&Hle&Hc1).
  destruct (IH _ Hlt s1 eq_refl Hs1 (Hc1 Hcl)) as (ts&s'&Ets&Hlen&Hs'&Ha'&Hg).
  - intros E0. rewrite E0 in Hlf. symmetry in Hlf. by apply nil_length_inv in Hlf.
  - intros E0. rewrite E0 in Hle. symmetry in Hle. by apply nil_length_inv in Hle.
  - exists (t :: ts), s'. split_and!; [cbn; by rewrite E|cbn; lia|done|done|].
    intros b. rewrite Hg. pose proof (run_flat _ cap t s s1 E b) as Hb.
    destruct t; cbn in Hb; try done. by destruct (Ht a data).
Qed.

End unmap.

(** ** Witnesses: a buffer of four pages, two of them in use and one of these
    modified; [uunmap] starts, and then runs to its end *)

Definition unmap_cfg : Config := mkConfig (mkVersion 2 1 0) 4 0 4 4 1 1 70 90 256.
Definition unmap_start : Sys memos memfs :=
  demo_with (match new_Buffer unmap_cfg tt with Ok b _ => b | _ => demo_buffer end).

#[local] Existing Instance demo_bank.
#[local] Existing Instance demo_bank_laws.

Definition start_schedule : list thread :=
  demo_schedule ++ [TUnmap false; TUnmap false; TUnmap false].
Definition started : Sys memos memfs :=
  default unmap_start (run_all 4 start_schedule unmap_start).

Definition finish_schedule : list thread :=
    [TUnmap false; TUnmap false; TUnmap false; TUnmap false;
     TEvict false 0; TEvict false 0; TEvict false 0; TEvict false 0; TEvict false 0; TEvict false 0;
     TEvict false 0; TUnmap false].
Definition finished : Sys memos memfs := default started (run_all 4 finish_schedule started).

Lemma started_reach : reach 4 demo_cap unmap_cfg started.
Proof.
  apply (run_all_reach 4 demo_cap unmap_cfg start_schedule unmap_start).
  - apply reach_init, demo_init_with; reflexivity.
  - vm_compute. reflexivity.
Qed.

Lemma finished_reach : reach 4 demo_cap unmap_cfg finished.
Proof.
  apply (run_all_reach 4 demo_cap unmap_cfg finish_schedule started); [exact started_reach|].
  vm_compute. reflexivity.
Qed.


