(* ===== verification/UmapApi.v ===== *)
(** * The application interface (src/src/umap/umap.{h,cpp}) and the life cycle
      of the engine (RegionManager::addRegion and removeRegion)

    The state is the [RegionManager] singleton: its configuration, the engine
    it creates with the first region and destroys with the last ([u_live]), the
    heap of stores it was given or made, the kernel and [errno].  [mmap] is
    system code: an operation of the class [MmapOS], with its documented
    behaviour as the laws [MmapLaws]. *)

From stdpp Require Import base list numbers strings gmap.
From S2P Require Import Prelude PageDescriptor WorkQueue Store RegionDescriptor RegionMap.
From S2P Require Import Config Engine Buffer WaterMarks Uffd Workers.
Local Open Scope Z_scope.

(** ** The kernel *)

Class MmapOS (O : Type) := {
  mmap : Z → Z → Z → Z → O → option (Z * O)     (* addr len prot flags *)
}.

Definition PROT_READ : Z := 1.
Definition PROT_WRITE : Z := 2.
Definition UMAP_PRIVATE : Z := 2.        (* MAP_PRIVATE *)
Definition UMAP_FIXED : Z := 16.         (* MAP_FIXED *)
Definition MAP_ANONYMOUS : Z := 32.
Definition MAP_NORESERVE : Z := 16384.
Definition EINVAL : Z := 22.

(** [mappings o]: the address ranges in use.  A new mapping is a range of the
    address space; without MAP_FIXED the kernel chooses one that is free, with
    it the range starts at the given address. *)
Class MmapLaws (O : Type) `{MmapOS O} (syspage : Z) := {
  mappings : O → list (Z * Z);
  mmap_law o addr len prot flags a o' :
    mmap addr len prot flags o = Some (a, o') →
    0 < a ∧ a mod syspage = 0 ∧ a + len < 2 ^ 64 ∧ 0 < len ∧ (a, len) ∈ mappings o' ∧
    (if bool_decide (Z.land flags UMAP_FIXED = 0)
     then mappings o' = (a, len) :: mappings o ∧
          ∀ b n, (b, n) ∈ mappings o → a + len ≤ b ∨ b + n ≤ a
     else a = addr)
}.

(** ** The singleton *)

Record Umap (O : Type) := mkUmap {
  u_cfg : Config;
  u_live : bool;
  u_eng : Engine;
  u_stores : list StoreFile;    (* the stores made by [Store::make_store] *)
  u_kernel : O;
  u_errno : Z
}.
Arguments mkUmap {O}.
Arguments u_cfg {O}.
Arguments u_live {O}.
Arguments u_eng {O}.
Arguments u_stores {O}.
Arguments u_kernel {O}.
Arguments u_errno {O}.

Section api.
Context {O : Type} `{UffdOS O} `{MmapOS O} (ro has_wp_ioctl : bool).
Abbreviation Umap := (Umap O).

Definition with_live (b : bool) (u : Umap) : Umap :=
  mkUmap (u_cfg u) b (u_eng u) (u_stores u) (u_kernel u) (u_errno u).
Definition with_u_eng (e : Engine) (u : Umap) : Umap :=
  mkUmap (u_cfg u) (u_live u) e (u_stores u) (u_kernel u) (u_errno u).
Definition with_stores (l : list StoreFile) (u : Umap) : Umap :=
  mkUmap (u_cfg u) (u_live u) (u_eng u) l (u_kernel u) (u_errno u).
Definition with_u_kernel (o : O) (u : Umap) : Umap :=
  mkUmap (u_cfg u) (u_live u) (u_eng u) (u_stores u) o (u_errno u).
Definition with_errno (v : Z) (u : Umap) : Umap :=
  mkUmap (u_cfg u) (u_live u) (u_eng u) (u_stores u) (u_kernel u) v.

Definition on_u_eng {A} (m : M Engine A) : M Umap A := zoom u_eng with_u_eng m.
Definition on_u_kernel {A} (m : M O A) : M Umap A := zoom u_kernel with_u_kernel m.

(** [new Buffer; new Uffd; new FillWorkers; new EvictManager] *)
Definition start_engine : M Umap unit :=
  u ← get;
  b ← (λ s, match new_Buffer (u_cfg u) tt with
            | Ok b _ => Ok b s
            | Throw msg _ => Throw msg s
            | Block c _ => Block c s
            | UB why => UB why
            end);
  modify (λ u, with_u_eng (with_buf b (u_eng u)) u) ;;
  on_u_kernel (check_uffd_compatibility ro) ;;
  modify (λ u, with_u_eng
    (with_fill_wq (new_WorkQueue (m_num_fillers (u_cfg u)))
      (with_mgr_wq (new_WorkQueue 1)
        (with_evict_wq (new_WorkQueue (m_num_evictors (u_cfg u))) (u_eng u)))) u) ;;
  modify (with_live true).

(** [RegionManager::addRegion]; [loc] is the address of the new descriptor *)
Definition addRegion (loc store : nat) (region region_size mmap_region mmap_region_size : Z)
    : M Umap unit :=
  u ← get;
  when (bool_decide (m_active_regions (regs (u_eng u)) = [])) start_engine ;;
  on_u_eng (modify (λ e, with_regs
    (with_heap (<[loc := new_RegionDescriptor region region_size mmap_region mmap_region_size store]>
      (heap (regs e))) (regs e)) e)) ;;
  on_u_eng (modify (λ e, with_regs
    (with_regions (map_assign (m_active_regions (regs e)) region loc) (regs e)) e)) ;;
  on_u_kernel (register_region ro has_wp_ioctl
    (new_RegionDescriptor region region_size mmap_region mmap_region_size store)) ;;
  on_u_eng (modify (λ e, with_regs (with_last_iter None (regs e)) e)).

(** deleting the eviction manager evicts everything; deleting the buffer
    asserts that no page is left *)
Definition stop_engine (contended : bool) : M Umap unit :=
  on_u_eng (EvictAll contended) ;;
  u ← get;
  if bool_decide (m_present_pages (buf (u_eng u)) = ∅) then modify (with_live false)
  else undefined "Pages are still present".

(** [Uffd::unregister_region], up to the first wait *)
Definition unregister_region (pick : gset nat → option nat) (contended : bool) (r : nat)
    (rd : RegionDescriptor) : M Umap unit :=
  on_u_eng (evict_region pick contended r) ;;
  on_u_kernel (unregister_range rd).

(** [RegionManager::removeRegion], up to the first wait *)
Definition removeRegion (pick : gset nat → option nat) (contended : bool) (region : Z)
    : M Umap unit :=
  u ← get;
  match map_find (m_active_regions (regs (u_eng u))) region with
  | None => throw "umap fault monitor not found"
  | Some r =>
      match heap (regs (u_eng u)) !! r with
      | None => undefined "dangling region descriptor"
      | Some rd =>
          unregister_region pick contended r rd ;;
          on_u_eng (modify (λ e, with_regs (with_heap (delete r (heap (regs e))) (regs e)) e)) ;;
          on_u_eng (modify (λ e, with_regs
            (with_regions (map_erase (m_active_regions (regs e)) region) (regs e)) e)) ;;
          on_u_eng (modify (λ e, with_regs (with_last_iter None (regs e)) e)) ;;
          u ← get;
          when (bool_decide (m_active_regions (regs (u_eng u)) = [])) (stop_engine contended)
      end
  end.

(** *** [umap_ex] *)

(** the checks of the arguments, in the order of the code *)
Definition check_args (umap_psize region_addr region_size prot flags : Z) : M Umap unit :=
  when (if ro then bool_decide (prot ≠ PROT_READ)
        else bool_decide (Z.land prot (Z.lnot (Z.lor PROT_READ PROT_WRITE)) ≠ 0))
    (throw "only PROT_READ or PROT_WRITE is supported in UMap") ;;
  when (bool_decide (region_size mod umap_psize ≠ 0))
    (throw "Region size is not a multple of umapPageSize") ;;
  when (bool_decide (Z.land region_addr (u64 (umap_psize - 1)) ≠ 0))
    (throw "region_addr must be page aligned") ;;
  when (bool_decide (Z.land flags UMAP_PRIVATE = 0)
        || bool_decide (Z.land flags (Z.lnot (Z.lor UMAP_PRIVATE UMAP_FIXED)) ≠ 0))
    (throw "Invalid flags").

(** [mmap_region] rounded up to a umap page *)
Definition align_up (mmap_region umap_psize : Z) : Z :=
  mask_down (u64 (mmap_region + umap_psize - 1)) umap_psize.

(** [store = None] is the null pointer; [loc] is where the descriptor is
    allocated *)
Definition umap_ex (loc : nat) (region_addr region_size prot flags fd offset : Z)
    (store : option nat) : M Umap Z :=
  u ← get;
  let umap_psize := get_umap_page_size (u_cfg u) in
  if bool_decide (region_size = 0) then
    modify (with_errno (- EINVAL)) ;; mret (-1)
  else
    check_args umap_psize region_addr region_size prot flags ;;
    let mmap_size := u64 (region_size + umap_psize) in
    mmap_region ← on_u_kernel (ioctl_or_throw
      (mmap region_addr mmap_size prot (Z.lor flags (Z.lor MAP_ANONYMOUS MAP_NORESERVE)))
      "mmap failed");
    let umap_region := align_up mmap_region umap_psize in
    st ← match store with
         | Some st => mret st
         | None =>
             u ← get;
             modify (with_stores (u_stores u ++ [make_store umap_region region_size umap_psize fd])) ;;
             mret (length (u_stores u))
         end;
    addRegion loc st umap_region region_size mmap_region mmap_size ;;
    mret umap_region.

(** [umap] passes 0 for the offset *)
Definition umap (loc : nat) (region_addr region_size prot flags fd offset : Z) : M Umap Z :=
  umap_ex loc region_addr region_size prot flags fd 0 None.

Definition uunmap (pick : gset nat → option nat) (contended : bool) (addr length : Z) : M Umap Z :=
  removeRegion pick contended addr ;; mret 0.

(** the members [m_buffer] and [m_uffd] are null while there is no engine *)
Definition with_engine {A} (m : M Engine A) : M Umap A :=
  u ← get;
  if u_live u then on_u_eng m else undefined "null pointer".

(** [RegionManager::flush_buffer] *)
Definition flush_buffer (contended : bool) : M Umap Z :=
  with_engine (flush_dirty_pages contended) ;; mret 0.

Definition umap_flush (contended : bool) : M Umap Z := flush_buffer contended.

Definition umap_has_write_support : Z := if ro then 0 else 1.

(** [RegionManager::prefetch]: the array has room for at least [npages] items,
    or the loop reads past its end *)
Definition prefetch (contended : bool) (npages : Z) (page_array : list Z) : M Umap unit :=
  for_each (seqZ 0 npages) (λ i,
    match page_array !! Z.to_nat i with
    | Some page_base_addr => with_engine (process_page contended false page_base_addr)
    | None => undefined "out of range"
    end).

Definition umap_prefetch (contended : bool) (npages : Z) (page_array : list Z) : M Umap unit :=
  prefetch contended npages page_array.

Definition umapcfg_get_system_page_size (u : Umap) : Z := m_system_page_size (u_cfg u).
Definition umapcfg_get_max_pages_in_buffer (u : Umap) : Z := m_max_pages_in_buffer (u_cfg u).
Definition umapcfg_get_umap_page_size (u : Umap) : Z := get_umap_page_size (u_cfg u).
Definition umapcfg_get_num_fillers (u : Umap) : Z := m_num_fillers (u_cfg u).
Definition umapcfg_get_num_evictors (u : Umap) : Z := m_num_evictors (u_cfg u).
Definition umapcfg_get_evict_low_water_threshold (u : Umap) : Z :=
  m_evict_low_water_threshold (u_cfg u).
Definition umapcfg_get_evict_high_water_threshold (u : Umap) : Z :=
  m_evict_high_water_threshold (u_cfg u).
Definition umapcfg_get_max_fault_events (u : Umap) : Z := m_max_fault_events (u_cfg u).
End api.

(** ** Lemmas *)

Lemma zoom_Ok {W S A} (proj : W → S) upd (m : M S A) w a w' :
  zoom proj upd m w = Ok a w' → ∃ s, m (proj w) = Ok a s ∧ w' = upd s w.
Proof. unfold zoom. destruct (m (proj w)); intros; simplify_eq; eauto. Qed.

Lemma ioctl_or_throw_Ok {O A} (call : O → option (A * O)) msg o a o' :
  ioctl_or_throw call msg o = Ok a o' → call o = Some (a, o').
Proof.
  unfold ioctl_or_throw. intros H. inv_ok. destruct (call _) as [[]|]; [|done]. by inv_ok.
Qed.

Lemma when_Ok {S} b (m : M S unit) s u s' :
  when b m s = Ok u s' → (b = false ∧ s' = s) ∨ (b = true ∧ m s = Ok u s').
Proof. destruct b; simpl; intros H; [by right|]. left. by inv_ok. Qed.

Section lemmas.
Context {O : Type} `{UffdOS O} `{MmapOS O} (ro has_wp_ioctl : bool).
Abbreviation Umap := (Umap O).

(** what creating the engine leaves alone *)
Lemma start_engine_Ok (u u' : Umap) x :
  start_engine ro u = Ok x u' →
  regs (u_eng u') = regs (u_eng u) ∧ u_live u' = true ∧ u_cfg u' = u_cfg u ∧ u_stores u' = u_stores u.
Proof.
  unfold start_engine. intros Hs. inv_ok. destruct (new_Buffer _ _) eqn:E; inv_ok.
  repeat match goal with H : on_u_kernel _ _ = Ok _ _ |- _ => apply zoom_Ok in H as (?&?&->) end.
  done.
Qed.

Lemma addRegion_Ok loc st r n mr mn (u u' : Umap) x :
  (m_active_regions (regs (u_eng u)) ≠ [] → u_live u = true) →
  addRegion ro has_wp_ioctl loc st r n mr mn u = Ok x u' →
  regs (u_eng u') =
    with_last_iter None (with_regions (map_assign (m_active_regions (regs (u_eng u))) r loc)
      (with_heap (<[loc := new_RegionDescriptor r n mr mn st]> (heap (regs (u_eng u)))) (regs (u_eng u)))) ∧
  u_live u' = true.
Proof.
  intros Hlive Ha. unfold addRegion in Ha. inv_ok.
  assert (regs (u_eng x3) = regs (u_eng x0) ∧ u_live x3 = true) as [Hr Hl].
  { apply when_Ok in H2 as [[Hb ->]|[_ Hs]].
    - apply bool_decide_eq_false in Hb. auto.
    - by apply start_engine_Ok in Hs as (?&?&_). }
  repeat match goal with H : on_u_eng _ _ = Ok _ _ |- _ => apply zoom_Ok in H as (?&?&->) end.
  repeat match goal with H : on_u_kernel _ _ = Ok _ _ |- _ => apply zoom_Ok in H as (?&?&->) end.
  inv_ok. simpl in *. by rewrite Hr.
Qed.
End lemmas.

Lemma align_up_pow2 a k :
  0 ≤ a → a + 2 ^ k < 2 ^ 64 → 0 ≤ k < 64 →
  align_up a (2 ^ k) mod 2 ^ k = 0 ∧ a ≤ align_up a (2 ^ k) < a + 2 ^ k.
Proof.
  intros Ha Hb Hk. unfold align_up. assert (0 < 2 ^ k) by (apply Z.pow_pos_nonneg; lia).
  rewrite (u64_small (a + 2 ^ k - 1)) by (unfold is_u64; lia).
  assert (is_u64 (a + 2 ^ k - 1)) as Hu by (unfold is_u64; lia).
  pose proof (mask_down_mult _ k Hu Hk). pose proof (mask_down_bounds _ k Hu Hk).
  split; [done|]. lia.
Qed.

Lemma align_up_aligned a k :
  0 ≤ a → a + 2 ^ k < 2 ^ 64 → 0 ≤ k < 64 → a mod 2 ^ k = 0 → align_up a (2 ^ k) = a.
Proof.
  intros Ha Hb Hk Hal. destruct (align_up_pow2 a k Ha Hb Hk) as [Hm Hr].
  assert (0 < 2 ^ k) by (apply Z.pow_pos_nonneg; lia).
  apply Z.mod_divide in Hal as [x Hx]; [|lia]. apply Z.mod_divide in Hm as [y Hy]; [|lia].
  assert (x ≤ y) by (apply (Z.mul_le_mono_pos_r _ _ (2 ^ k)); lia).
  assert (y < x + 1) by (apply (Z.mul_lt_mono_pos_r (2 ^ k)); lia).
  assert (y = x) as -> by lia. lia.
Qed.

(** the size passed to [mmap] does not wrap around, unless to 0 *)
Lemma mmap_size_exact k n :
  0 ≤ k < 64 → 0 < n < 2 ^ 64 → n mod 2 ^ k = 0 → 0 < u64 (n + 2 ^ k) →
  u64 (n + 2 ^ k) = n + 2 ^ k.
Proof.
  intros Hk Hn Hmod Hlen. assert (0 < 2 ^ k) by (apply Z.pow_pos_nonneg; lia).
  destruct (decide (n + 2 ^ k < 2 ^ 64)); [apply u64_small; unfold is_u64; lia|].
  exfalso. apply Z.mod_divide in Hmod as [x Hx]; [|lia].
  assert (2 ^ 64 = 2 ^ (64 - k) * 2 ^ k) as E by (rewrite <- Z.pow_add_r by lia; f_equal; lia).
  assert (x < 2 ^ (64 - k)) by (apply (Z.mul_lt_mono_pos_r (2 ^ k)); lia).
  assert (n = 2 ^ 64 - 2 ^ k) as -> by nia.
  unfold u64 in Hlen. replace (2 ^ 64 - 2 ^ k + 2 ^ k) with (0 + 1 * 2 ^ 64) in Hlen by lia.
  rewrite Z.mod_add in Hlen by lia. rewrite Z.mod_0_l in Hlen by lia. lia.
Qed.

Section umap_ex_lemmas.
Context {O : Type} `{!UffdOS O} `{!MmapOS O} (ro has_wp_ioctl : bool).
Abbreviation Umap := (Umap O).

Lemma check_args_Ok psz a n prot flags (u u' : Umap) x :
  check_args ro psz a n prot flags u = Ok x u' →
  u' = u ∧ n mod psz = 0 ∧ Z.land a (u64 (psz - 1)) = 0.
Proof.
  intros Hc. unfold check_args in Hc. inv_ok.
  repeat match goal with
    H : when _ (throw _) _ = Ok _ _ |- _ =>
      apply when_Ok in H as [[? ->]|[_ H]]; [|discriminate H]
  end.
  repeat match goal with H : bool_decide (_ ≠ _) = false |- _ =>
    apply bool_decide_eq_false, dec_stable in H end. done.
Qed.

Lemma store_choice_Ok (store : option nat) (mk : Umap → StoreFile) (u u' : Umap) st :
  (match store with
   | Some st => mret st
   | None => u ← get; modify (with_stores (u_stores u ++ [mk u])) ;; mret (length (u_stores u))
   end) u = Ok st u' →
  u_eng u' = u_eng u ∧ u_live u' = u_live u ∧ u_cfg u' = u_cfg u.
Proof. destruct store; intros Hs; by inv_ok. Qed.

(** the successful path of [umap_ex] *)
Lemma umap_ex_Ok loc a n prot flags fd off store (u u' : Umap) r :
  n ≠ 0 → (m_active_regions (regs (u_eng u)) ≠ [] → u_live u = true) →
  umap_ex ro has_wp_ioctl loc a n prot flags fd off store u = Ok r u' →
  let psz := get_umap_page_size (u_cfg u) in
  ∃ mr o st,
    mmap a (u64 (n + psz)) prot (Z.lor flags (Z.lor MAP_ANONYMOUS MAP_NORESERVE)) (u_kernel u)
      = Some (mr, o) ∧
    r = align_up mr psz ∧ n mod psz = 0 ∧ Z.land a (u64 (psz - 1)) = 0 ∧
    u_live u' = true ∧
    regs (u_eng u') =
      with_last_iter None (with_regions (map_assign (m_active_regions (regs (u_eng u))) r loc)
        (with_heap (<[loc := new_RegionDescriptor r n mr (u64 (n + psz)) st]> (heap (regs (u_eng u))))
          (regs (u_eng u)))).
Proof.
  intros Hn Hlive Hu psz. unfold umap_ex in Hu. apply bind_Ok in Hu as (u0&u1&Hg&Hu).
  unfold get in Hg. simplify_eq. rewrite bool_decide_false in Hu by done.
  apply bind_Ok in Hu as ([]&u2&Hc&Hu). apply check_args_Ok in Hc as (->&Hn0&Ha0).
  apply bind_Ok in Hu as (mr&u3&Hm&Hu). apply zoom_Ok in Hm as (o&Hm&->).
  apply ioctl_or_throw_Ok in Hm. apply bind_Ok in Hu as (st&u4&Hst&Hu).
  apply store_choice_Ok in Hst as (E1&E2&E3). apply bind_Ok in Hu as ([]&u5&Hadd&Hu).
  unfold mret, M_ret in Hu. injection Hu as <- <-.
  apply addRegion_Ok in Hadd as [Hregs Hl].
  - exists mr, o, st. split_and!; try done. by rewrite Hregs, E1.
  - rewrite E1, E2. exact Hlive.
Qed.
End umap_ex_lemmas.

(** ** Properties *)

Section properties.
Context {O : Type} `{!UffdOS O} `{!MmapOS O} (ro has_wp_ioctl : bool).
Context (syspage : Z) `{!MmapLaws O syspage}.
Abbreviation Umap := (Umap O).

(** every active region lies in its own mapping *)
Definition regions_mapped (u : Umap) : Prop :=
  ∀ k r d, (k, r) ∈ m_active_regions (regs (u_eng u)) → heap (regs (u_eng u)) !! r = Some d →
    m_mmap_region d ≤ start d ∧ end_ d ≤ m_mmap_region d + m_mmap_region_size d ∧
    (m_mmap_region d, m_mmap_region_size d) ∈ mappings (u_kernel u).


(** C19 (invariant).  Mapping a region at an address the kernel chooses keeps
    the region map well-formed: the new region overlaps no active one, so
    every later fault still resolves to a unique region. *)
Theorem umap_ex_keeps_regions_disjoint (k : Z) loc a n prot flags fd off store (u u' : Umap) r :
  get_umap_page_size (u_cfg u) = 2 ^ k → 0 ≤ k < 64 → 0 < n < 2 ^ 64 →
  (m_active_regions (regs (u_eng u)) ≠ [] → u_live u = true) →
  rm_wf (regs (u_eng u)) → regions_mapped u → heap (regs (u_eng u)) !! loc = None →
  Z.land (Z.lor flags (Z.lor MAP_ANONYMOUS MAP_NORESERVE)) UMAP_FIXED = 0 →
  umap_ex ro has_wp_ioctl loc a n prot flags fd off store u = Ok r u' →
  rm_wf (regs (u_eng u')).
Proof.
  intros Hpsz Hk Hn Hlive Hwf Hmap Hloc Hfl Hu.
  assert (0 < 2 ^ k) by (apply Z.pow_pos_nonneg; lia).
  apply umap_ex_Ok in Hu as (mr&o&st&Hm&->&Hmod&Hal&Hl&Hregs); [|lia|done].
  rewrite Hpsz in *. pose proof (mmap_law _ _ _ _ _ _ _ Hm) as (Hmr&Hsys&Hend&Hlen&_&Hfix).
  rewrite bool_decide_true in Hfix by done. destruct Hfix as [_ Hdisj].
  pose proof (mmap_size_exact k n Hk Hn Hmod Hlen) as Hnw. rewrite Hnw in *.
  destruct (align_up_pow2 mr k) as [_ Hr2]; [lia..|].
  assert (∀ k', (k', loc) ∉ m_active_regions (regs (u_eng u))) as Hfresh.
  { intros k' He. destruct (wf_elem _ _ _ _ (wf_entries _ Hwf) He) as (?&?&_). congruence. }
  rewrite Hregs. split; simpl; [|done].
  eapply wf_assign; [apply wf_heap_insert; [apply Hwf|done]|apply lookup_insert_eq|done|simpl; lia|].
  intros k' r' d' He Hr'. assert (r' ≠ loc) by (intros ->; by eapply Hfresh).
  rewrite lookup_insert_ne in Hr' by done. split; [done|].
  destruct (wf_elem _ _ _ _ (wf_entries _ Hwf) He) as (d2&Hd2&Hst&_). simplify_eq.
  destruct (Hmap _ _ _ He Hr') as (H1&H2&H3). unfold end_ in H2.
  specialize (Hdisj _ _ H3). simpl. lia.
Qed.

(** the arguments [umap_ex] refuses with an exception *)
Definition rejected (psz a n prot flags : Z) : Prop :=
  (if ro then prot ≠ PROT_READ else Z.land prot (Z.lnot (Z.lor PROT_READ PROT_WRITE)) ≠ 0) ∨
  n mod psz ≠ 0 ∨ Z.land a (u64 (psz - 1)) ≠ 0 ∨
  Z.land flags UMAP_PRIVATE = 0 ∨
  Z.land flags (Z.lnot (Z.lor UMAP_PRIVATE UMAP_FIXED)) ≠ 0.

Lemma when_throw {S} b msg (s : S) :
  when b (throw msg) s = if b then Throw msg s else Ok tt s.
Proof. by destruct b. Qed.

Lemma when_throw_bind {S B} b msg (k : unit → M S B) (s : S) :
  (when b (throw msg) ≫= k) s = if b then Throw msg s else k tt s.
Proof. by destruct b. Qed.

Lemma check_args_rejects psz a n prot flags (u : Umap) :
  rejected psz a n prot flags → ∃ msg, check_args ro psz a n prot flags u = Throw msg u.
Proof.
  intros Hr. unfold check_args. rewrite when_throw_bind.
  match goal with |- context [if ?b then Throw _ u else _] => destruct b eqn:E1 end; [eauto|].
  assert (¬ (if ro then prot ≠ PROT_READ
             else Z.land prot (Z.lnot (Z.lor PROT_READ PROT_WRITE)) ≠ 0)) as E0
    by (destruct ro; by apply bool_decide_eq_false in E1).
  clear E1.
  rewrite when_throw_bind. case_bool_decide as E2; [eauto|].
  rewrite when_throw_bind. case_bool_decide as E3; [eauto|].
  rewrite when_throw. case_bool_decide as E4; [simpl; eauto|].
  case_bool_decide as E5; [simpl; eauto|]. exfalso.
  by destruct Hr as [Hr|[Hr|[Hr|[Hr|Hr]]]].
Qed.

(** (error).  An empty region is refused with the result -1 and [errno] set
    to -EINVAL (not EINVAL); a protection, size, address or flag word that is
    not supported is refused with an exception, and nothing has been mapped,
    allocated or registered then. *)
Theorem umap_ex_rejects loc a n prot flags fd off store (u : Umap) :
  (n = 0 →
     umap_ex ro has_wp_ioctl loc a n prot flags fd off store u
       = Ok (-1) (with_errno (- EINVAL) u)) ∧
  (n ≠ 0 → rejected (get_umap_page_size (u_cfg u)) a n prot flags →
     ∃ msg, umap_ex ro has_wp_ioctl loc a n prot flags fd off store u = Throw msg u).
Proof.
  unfold umap_ex. split.
  - intros ->. reflexivity.
  - intros Hn Hr. destruct (check_args_rejects _ _ _ _ _ u Hr) as [msg E]. exists msg.
    erewrite bind_run by reflexivity. cbv zeta. rewrite bool_decide_false by done.
    unfold mbind, M_bind. by rewrite E.
Qed.

(** (error).  [addRegion] enters the region into the map before it asks the
    kernel to register it.  When the registration fails the exception leaves
    the region behind: it is not monitored, but look-ups still find it. *)
Theorem failed_registration_leaks_region loc st r n mr mn (u : Umap) :
  m_active_regions (regs (u_eng u)) ≠ [] →
  ioctl_register r n (if ro then UFFDIO_REGISTER_MODE_MISSING
    else Z.lor UFFDIO_REGISTER_MODE_MISSING UFFDIO_REGISTER_MODE_WP) (u_kernel u) = None →
  ∃ msg u', addRegion ro has_wp_ioctl loc st r n mr mn u = Throw msg u' ∧
    (r, loc) ∈ m_active_regions (regs (u_eng u')) ∧
    heap (regs (u_eng u')) !! loc = Some (new_RegionDescriptor r n mr mn st).
Proof.
  intros Hne Hreg. unfold addRegion. erewrite bind_run by reflexivity.
  rewrite bool_decide_false by done. do 3 (erewrite bind_run by reflexivity).
  eexists _, _. split; [|split].
  - unfold mbind at 1, M_bind at 1, on_u_kernel, zoom, register_region, ioctl_or_throw.
    unfold mbind, M_bind, get. cbn. change (start _) with r. change (size _) with n.
    rewrite Hreg. reflexivity.
  - simpl. induction (m_active_regions (regs (u_eng u))) as [|[k' r'] l IH]; simpl; [set_solver|].
    clear. induction l as [|[k2 r2] l IH]; simpl; repeat case_bool_decide; set_solver.
  - simpl. apply lookup_insert_eq.
Qed.
End properties.

(** ** A concrete kernel for the witnesses *)

Record demo_kernel := mkDK { dk_maps : list (Z * Z); dk_register_ok : bool }.

Definition top_of (l : list (Z * Z)) : Z := foldr (λ p acc, Z.max (p.1 + p.2) acc) 4096 l.

Lemma top_of_ge l b n : (b, n) ∈ l → b + n ≤ top_of l.
Proof.
  induction l as [|[b' n'] l IH]; [by intros ?%elem_of_nil|].
  intros [?|?%IH]%elem_of_cons; simplify_eq/=; lia.
Qed.

Lemma top_of_pos l : 4096 ≤ top_of l.
Proof. induction l as [|[b n] l IH]; simpl; lia. Qed.

Definition page_up (a : Z) : Z := (a + 4095) / 4096 * 4096.

Lemma page_up_spec a : 0 ≤ a → a ≤ page_up a ∧ page_up a mod 4096 = 0.
Proof.
  intros Ha. unfold page_up. split; [|apply Z.mod_mul; lia].
  pose proof (Z.div_mod (a + 4095) 4096 ltac:(lia)).
  pose proof (Z.mod_pos_bound (a + 4095) 4096 ltac:(lia)). lia.
Qed.

#[export] Instance demo_mmap : MmapOS demo_kernel := {|
  mmap addr len prot flags o :=
    let a := if bool_decide (Z.land flags UMAP_FIXED = 0) then page_up (top_of (dk_maps o)) else addr in
    if bool_decide (0 < a ∧ a mod 4096 = 0 ∧ a + len < 2 ^ 64 ∧ 0 < len)
    then Some (a, mkDK ((a, len) :: dk_maps o) (dk_register_ok o)) else None
|}.

#[export, refine] Instance demo_mmap_laws : MmapLaws demo_kernel 4096 := {| mappings := dk_maps |}.
Proof.
  intros o addr len prot flags a o' Hm. simpl in Hm. case_bool_decide as Hc; [|done].
  injection Hm as <- <-. destruct Hc as (H1&H2&H3&H4). split_and!; try done; [set_solver|].
  case_bool_decide; [|done]. split; [done|]. intros b n Hb. right.
  pose proof (top_of_ge _ _ _ Hb). pose proof (top_of_pos (dk_maps o)).
  destruct (page_up_spec (top_of (dk_maps o))); lia.
Defined.

#[export] Instance demo_uffd : UffdOS demo_kernel := {|
  ioctl_api f o := Some (f, o);
  ioctl_register _ _ _ o := if dk_register_ok o then Some (Z.lor 8 64, o) else None;
  ioctl_unregister _ _ o := Some o;
  ioctl_copy _ _ _ _ := None;
  ioctl_writeprotect _ _ o := Some o;
  madvise_dontneed _ o := Some o;
  load_page _ _ := None;
  store_page _ _ _ := None
|}.

(** one active region; umap pages of 16384 bytes over system pages of 4096 *)
Definition demo_umap (register_ok : bool) : Umap demo_kernel :=
  mkUmap (mkConfig (mkVersion 2 1 0) 10 0 16384 4096 1 1 70 90 256) true
    (mkEngine
      (mkBuffer 10 (replicate 10 zero_pd) ∅ (seq 0 10) [] 7 9 false 0 (mkCond 0 0) 0 (mkCond 0 0)
        zero_stats false)
      (mkRM [(16384, 0%nat)] None {[ 0%nat := new_RegionDescriptor 16384 16384 4096 32768 0 ]})
      (new_WorkQueue 1) (new_WorkQueue 1) (new_WorkQueue 1) 0)
    [] (mkDK [(4096, 32768)] register_ok) 0.

Definition demo_umap_ex : outcome (Umap demo_kernel) Z :=
  umap_ex false true 1 0 32768 3 2 7 0 None (demo_umap true).

Definition demo_umap_end : Umap demo_kernel := default (demo_umap true) (state_after demo_umap_ex).

Lemma demo_umap_ex_ok : demo_umap_ex = Ok 49152 demo_umap_end.
Proof. vm_compute. reflexivity. Qed.


Lemma demo_regions_mapped : regions_mapped 4096 (demo_umap true).
Proof.
  intros k r d [E|E%elem_of_nil]%elem_of_cons Hd; [|done]. simplify_eq. cbn in Hd.
  apply lookup_singleton_Some in Hd as [_ <-]. split_and!; [by vm_compute..|]. cbn. set_solver.
Qed.

Lemma demo_umap_wf : rm_wf (regs (u_eng (demo_umap true))).
Proof.
  split; [|done]. econstructor; [reflexivity|done|done| |constructor]. by intros k r ?%elem_of_nil.
Qed.

Lemma umap_ex_keeps_regions_disjoint_witness : rm_wf (regs (u_eng demo_umap_end)).
Proof.
  apply (umap_ex_keeps_regions_disjoint false true 4096 14 1 0 32768 3 2 7 0 None (demo_umap true)
    demo_umap_end 49152);
    [reflexivity|lia|lia|reflexivity|apply demo_umap_wf|apply demo_regions_mapped|reflexivity
    |reflexivity|exact demo_umap_ex_ok].
Defined.

Lemma failed_registration_leaks_region_witness :
  ∃ msg u', addRegion false true 1 0 49152 16384 49152 32768 (demo_umap false) = Throw msg u' ∧
    (49152, 1%nat) ∈ m_active_regions (regs (u_eng u')) ∧
    heap (regs (u_eng u')) !! 1%nat = Some (new_RegionDescriptor 49152 16384 49152 32768 0).
Proof.
  apply (failed_registration_leaks_region false true 1 0 49152 16384 49152 32768 (demo_umap false));
    [discriminate|reflexivity].
Defined.
