(* ===== verification/Lifecycle.v ===== *)
(** * Creation and destruction of the engine
      (the constructors and destructors of Buffer, Uffd, FillWorkers, EvictManager,
      EvictWorkers and WorkerPool, with RegionManager::addRegion and removeRegion)

    The objects of the engine with the threads they start and join and the
    descriptors they open.  Every system call on the way may fail; an exception
    thrown in a constructor runs the destructor of the base class only, as C++
    prescribes.  A thread is recorded with the object it works on, so that a
    thread that outlives its queue shows.  What the threads do, and that they
    leave when the EXIT messages are sent, is the subject of WorkQueue.v; that no
    page is left when the buffer is destroyed is that of Unmap.v. *)

From stdpp Require Import base list numbers strings sets.
From S2P Require Import Prelude Config WaterMarks Engine Buffer.
Local Open Scope Z_scope.

(** ** The process *)

(** the calls that may fail *)
Inductive call :=
| Calloc | ThreadCreate | SetName | Userfaultfd | Pipe2 | UffdApi | UffdRegister | UffdUnregister.

Record Proc := mkProc {
  pr_count : nat;                    (* fallible calls so far *)
  pr_next : nat;                     (* the next address or thread *)
  pr_heap : list nat;                (* objects that are allocated *)
  pr_threads : list (nat * nat);     (* threads that run, with the object they use *)
  pr_fds : nat                       (* descriptors that are open *)
}.

Definition with_heap' (h : list nat) (p : Proc) : Proc :=
  mkProc (pr_count p) (pr_next p) h (pr_threads p) (pr_fds p).
Definition with_threads' (l : list (nat * nat)) (p : Proc) : Proc :=
  mkProc (pr_count p) (pr_next p) (pr_heap p) l (pr_fds p).
Definition add_fds (k : nat) (p : Proc) : Proc :=
  mkProc (pr_count p) (pr_next p) (pr_heap p) (pr_threads p) (pr_fds p + k).

Definition alloc : M Proc nat :=
  p ← get;
  modify (λ p, mkProc (pr_count p) (S (pr_next p)) (pr_heap p ++ [pr_next p]) (pr_threads p) (pr_fds p)) ;;
  mret (pr_next p).

Definition free (a : nat) : M Proc unit :=
  modify (λ p, with_heap' (filter (.≠ a) (pr_heap p)) p).

Definition spawn (o : nat) : M Proc nat :=
  p ← get;
  modify (λ p, mkProc (pr_count p) (S (pr_next p)) (pr_heap p) (pr_threads p ++ [(pr_next p, o)]) (pr_fds p)) ;;
  mret (pr_next p).

(** [pthread_join], of a thread that leaves *)
Definition join (t : nat) : M Proc unit :=
  p ← get;
  if bool_decide (t ∈ (pr_threads p).*1)
  then modify (λ p, with_threads' (filter (λ x, x.1 ≠ t) (pr_threads p)) p)
  else undefined "join of a thread that has been joined".

(** the exception of a constructor as a value *)
Definition catch {S A} (m : M S A) : M S (string + A) := λ s,
  match m s with
  | Ok a s' => Ok (inr a) s'
  | Throw e s' => Ok (inl e) s'
  | Block c s' => Block c s'
  | UB why => UB why
  end.

Section lifecycle.
(** [succeeds c k]: the k-th call of the process succeeds if it is a [c] *)
Context (succeeds : call → nat → bool) (cfg : Config).

Definition attempt (c : call) : M Proc bool :=
  p ← get;
  modify (λ p, mkProc (S (pr_count p)) (pr_next p) (pr_heap p) (pr_threads p) (pr_fds p)) ;;
  mret (succeeds c (pr_count p)).

Definition try (c : call) (msg : string) : M Proc unit :=
  ok ← attempt c;
  if ok : bool then mret tt else throw msg.

(** ** Worker pools *)

Record WorkerPool := mkWorkerPool { pl_queue : nat; pl_threads : list nat }.

(** the loop of [start_thread_pool]: the threads in [m_threads], and the
    exception if there is one *)
Fixpoint start_threads (n : nat) (q : nat) (ts : list nat) : M Proc (list nat * option string) :=
  match n with
  | O => mret (ts, None)
  | S n =>
      ok ← attempt ThreadCreate;
      if negb ok then mret (ts, Some "Failed to launch thread")
      else
        t ← spawn q;
        ok ← attempt SetName;
        if negb ok then mret (ts, Some "Failed to set thread name")
        else start_threads n q (ts ++ [t])
  end.

Definition stop_thread_pool (pl : WorkerPool) : M Proc WorkerPool :=
  for_each (pl_threads pl) join ;;
  mret (mkWorkerPool (pl_queue pl) []).

(** [~WorkerPool] *)
Definition WorkerPool_dtor (pl : WorkerPool) : M Proc unit :=
  pl ← stop_thread_pool pl;
  free (pl_queue pl).

(** A class derived from [WorkerPool]: the base constructor makes the queue,
    [init] is what the derived constructor does before it starts the threads.
    An exception runs the destructor of the base class. *)
Definition derived_ctor {A} (num_threads : nat) (init : M Proc A) : M Proc (WorkerPool * A) :=
  q ← alloc;
  r ← catch init;
  match r with
  | inl msg => WorkerPool_dtor (mkWorkerPool q []) ;; throw msg
  | inr a =>
      '(ts, e) ← start_threads num_threads q [];
      match e with
      | Some msg => WorkerPool_dtor (mkWorkerPool q ts) ;; throw msg
      | None => mret (mkWorkerPool q ts, a)
      end
  end.

(** the destructor of the derived class stops the pool, and so does that of
    the base class *)
Definition derived_dtor (pl : WorkerPool) : M Proc unit :=
  pl ← stop_thread_pool pl;
  WorkerPool_dtor pl.

(** ** The engine *)

Definition FillWorkers_ctor : M Proc (WorkerPool * unit) :=
  derived_ctor (Z.to_nat (m_num_fillers cfg)) (mret tt).

Definition EvictWorkers_ctor : M Proc (WorkerPool * unit) :=
  derived_ctor (Z.to_nat (m_num_evictors cfg)) (mret tt).

(** the pool of the manager, and its workers *)
Definition EvictManager_ctor : M Proc (WorkerPool * (WorkerPool * unit)) :=
  derived_ctor 1 EvictWorkers_ctor.

Definition EvictManager_dtor (em : WorkerPool * (WorkerPool * unit)) : M Proc unit :=
  pl ← stop_thread_pool em.1;
  derived_dtor em.2.1 ;;
  WorkerPool_dtor pl.

(** the descriptors are members of no type that closes them *)
Definition Uffd_ctor : M Proc (WorkerPool * unit) :=
  derived_ctor 1
    (try Userfaultfd "userfaultfd syscall not available in this kernel" ;;
     modify (add_fds 1) ;;
     try Pipe2 "userfaultfd pipe failed" ;;
     modify (add_fds 2) ;;
     try UffdApi "ioctl(UFFDIO_API) Failed").

(** [m_array] and the monitor thread *)
Record BufferObject := mkBufferObject { bo_array : nat; bo_monitor : list nat }.

Definition Buffer_ctor : M Proc BufferObject :=
  try Calloc "Failed to allocate bytes for buffer page descriptors" ;;
  a ← alloc;
  match new_Buffer cfg tt with
  | Ok b _ =>
      if is_monitor_on b then
        try ThreadCreate "Failed to launch the monitor thread" ;;
        t ← spawn a;
        mret (mkBufferObject a [t])
      else mret (mkBufferObject a [])
  | Throw msg _ => throw msg
  | Block c _ => block c
  | UB why => undefined why
  end.

Definition Buffer_dtor (b : BufferObject) : M Proc unit :=
  for_each (bo_monitor b) join ;;
  free (bo_array b).

(** ** The region manager *)

Record Manager := mkManager {
  proc : Proc;
  active : list Z;
  buffer_h : option BufferObject;
  uffd_h : option (WorkerPool * unit);
  fill_h : option (WorkerPool * unit);
  evict_h : option (WorkerPool * (WorkerPool * unit))
}.

Definition on_proc {A} (m : M Proc A) : M Manager A := λ s,
  let lift p := mkManager p (active s) (buffer_h s) (uffd_h s) (fill_h s) (evict_h s) in
  match m (proc s) with
  | Ok a p => Ok a (lift p)
  | Throw e p => Throw e (lift p)
  | Block c p => Block c (lift p)
  | UB why => UB why
  end.

Definition set_active (l : list Z) (s : Manager) : Manager :=
  mkManager (proc s) l (buffer_h s) (uffd_h s) (fill_h s) (evict_h s).
Definition set_buffer (b : option BufferObject) (s : Manager) : Manager :=
  mkManager (proc s) (active s) b (uffd_h s) (fill_h s) (evict_h s).
Definition set_uffd (u : option (WorkerPool * unit)) (s : Manager) : Manager :=
  mkManager (proc s) (active s) (buffer_h s) u (fill_h s) (evict_h s).
Definition set_fill (f : option (WorkerPool * unit)) (s : Manager) : Manager :=
  mkManager (proc s) (active s) (buffer_h s) (uffd_h s) f (evict_h s).
Definition set_evict (e : option (WorkerPool * (WorkerPool * unit))) (s : Manager) : Manager :=
  mkManager (proc s) (active s) (buffer_h s) (uffd_h s) (fill_h s) e.

(** [p = new X()] *)
Definition new_h {A} (ctor : M Proc A) (set : option A → Manager → Manager) : M Manager unit :=
  x ← on_proc ctor;
  modify (set (Some x)).

Definition create_engine : M Manager unit :=
  new_h Buffer_ctor set_buffer ;;
  new_h Uffd_ctor set_uffd ;;
  new_h FillWorkers_ctor set_fill ;;
  new_h EvictManager_ctor set_evict.

(** [delete p; p = nullptr] *)
Definition delete_h {A} (h : Manager → option A) (dtor : A → M Proc unit)
    (set_null : Manager → Manager) : M Manager unit :=
  s ← get;
  match h s with Some x => on_proc (dtor x) | None => mret tt end ;;
  modify set_null.

Definition destroy_engine : M Manager unit :=
  delete_h evict_h EvictManager_dtor (set_evict None) ;;
  delete_h fill_h (λ f, derived_dtor f.1) (set_fill None) ;;
  delete_h uffd_h (λ u, derived_dtor u.1) (set_uffd None) ;;
  delete_h buffer_h Buffer_dtor (set_buffer None).

(** [m_uffd->register_region(rd)] and [m_uffd->unregister_region(rd)] *)
Definition through_uffd (c : call) (msg : string) : M Manager unit :=
  s ← get;
  match uffd_h s with
  | Some _ => on_proc (try c msg)
  | None => undefined "m_uffd is null"
  end.

(** [addRegion] *)
Definition add_region (region : Z) : M Manager unit :=
  s ← get;
  when (bool_decide (active s = [])) create_engine ;;
  modify (λ s, set_active (if bool_decide (region ∈ active s) then active s else active s ++ [region]) s) ;;
  through_uffd UffdRegister "ioctl(UFFDIO_REGISTER) failed".

(** [removeRegion] *)
Definition remove_region (region : Z) : M Manager unit :=
  s ← get;
  if bool_decide (region ∈ active s) then
    through_uffd UffdUnregister "ioctl(UFFDIO_UNREGISTER) failed" ;;
    modify (λ s, set_active (filter (.≠ region) (active s)) s) ;;
    s ← get;
    when (bool_decide (active s = [])) destroy_engine
  else throw "umap fault monitor not found".

(** ** Histories: the application catches what is thrown *)

Inductive op := Add (region : Z) | Remove (region : Z).

Definition run_op (o : op) : M Manager unit :=
  catch (match o with Add r => add_region r | Remove r => remove_region r end) ;; mret tt.

Definition run_ops (ops : list op) : M Manager unit := for_each ops run_op.

(** ** The calls that must succeed *)

Definition names_succeed : Prop := ∀ k, succeeds SetName k = true.

Definition faultless : Prop :=
  (∀ c k, succeeds c k = true) ∧
  0 ≤ m_evict_low_water_threshold cfg ≤ 100 ∧ 0 ≤ m_evict_high_water_threshold cfg ≤ 100.
End lifecycle.

Definition fresh_manager : Manager := mkManager (mkProc 0 0 [] [] 0) [] None None None None.

(** ** Triples: what an operation that neither sleeps nor is undefined ensures *)

Definition triple {S A} (P : S → Prop) (m : M S A) (Q : A → S → Prop) (E : S → Prop) : Prop :=
  ∀ s, P s → match m s with Ok a s' => Q a s' | Throw _ s' => E s' | _ => False end.

Section triples.
Context {S : Type}.
Implicit Types (P E : S → Prop).

Lemma triple_ret {A} (a : A) (Q : A → S → Prop) E : triple (Q a) (mret a) Q E.
Proof. by intros s Hs. Qed.

Lemma triple_throw {A} msg (Q : A → S → Prop) E : triple E (throw msg) Q E.
Proof. by intros s Hs. Qed.

Lemma triple_bind {A B} P (m : M S A) (f : A → M S B) Q R E :
  triple P m Q E → (∀ a, triple (Q a) (f a) R E) → triple P (m ≫= f) R E.
Proof.
  intros Hm Hf s Hs. unfold mbind, M_bind. specialize (Hm s Hs).
  destruct (m s); try done. by apply Hf.
Qed.

Lemma triple_conseq {A} P P' (m : M S A) Q Q' E E' :
  (∀ s, P s → P' s) → (∀ a s, Q' a s → Q a s) → (∀ s, E' s → E s) →
  triple P' m Q' E' → triple P m Q E.
Proof.
  intros HP HQ HE Hm s Hs. specialize (Hm s (HP s Hs)). destruct (m s); eauto.
Qed.

Lemma triple_exists {A B} (φ : B → Prop) (P : B → S → Prop) (m : M S A) Q E :
  (∀ b, φ b → triple (P b) m Q E) → triple (λ s, ∃ b, φ b ∧ P b s) m Q E.
Proof. intros H s (b&?&?). by eapply H. Qed.

Lemma triple_modify (f : S → S) P (Q : S → Prop) E :
  (∀ s, P s → Q (f s)) → triple P (modify f) (λ _, Q) E.
Proof. intros H s Hs. by apply H. Qed.

(** [get], of which the continuation knows only what it can read off *)
Lemma triple_get {A B} (g : S → B) (x : B) P (f : B → M S A) Q E :
  (∀ s, P s → g s = x) → triple P (f x) Q E → triple P (s ← get; f (g s)) Q E.
Proof. intros Hg Hf s Hs. unfold mbind, M_bind, get. rewrite (Hg s Hs). by apply Hf. Qed.

Lemma triple_catch {A} P (m : M S A) Q E :
  triple P m Q E →
  triple P (catch m) (λ r s, match r with inl _ => E s | inr a => Q a s end) (λ _, False).
Proof. intros Hm s Hs. specialize (Hm s Hs). unfold catch. by destruct (m s). Qed.
End triples.

(** ** Ownership: the objects that are alive with the threads on each *)

Definition threads_of (L : list (nat * list nat)) : list (nat * nat) :=
  L ≫= λ x, (λ t, (t, x.1)) <$> x.2.

Record owns (L : list (nat * list nat)) (fds : nat) (p : Proc) : Prop := {
  owns_heap : pr_heap p ≡ₚ L.*1;
  owns_threads : pr_threads p ≡ₚ threads_of L;
  owns_heap_nodup : NoDup (pr_heap p);
  owns_threads_nodup : NoDup (pr_threads p).*1;
  owns_heap_fresh : Forall (λ a, a < pr_next p)%nat (pr_heap p);
  owns_threads_fresh : Forall (λ a, a < pr_next p)%nat (pr_threads p).*1;
  owns_fds : pr_fds p = fds
}.

Lemma threads_of_cons q ts L :
  threads_of ((q, ts) :: L) = ((λ t, (t, q)) <$> ts) ++ threads_of L.
Proof. done. Qed.

#[export] Instance threads_of_proper : Proper ((≡ₚ) ==> (≡ₚ)) threads_of.
Proof. intros L K H. unfold threads_of. by rewrite H. Qed.

#[export] Instance owns_proper : Proper ((≡ₚ) ==> (=) ==> (=) ==> iff) owns.
Proof.
  assert (∀ L K n p, L ≡ₚ K → owns L n p → owns K n p) as Hone.
  { intros L K n p H []. split; try done; by rewrite <- H. }
  intros L K H n ? <- p ? <-. split; apply Hone; by rewrite H.
Qed.

(** every running thread works on an object that is allocated *)
Lemma owns_no_dangling L n p : owns L n p → Forall (λ x, x.2 ∈ pr_heap p) (pr_threads p).
Proof.
  intros []. rewrite owns_threads0, Forall_forall. intros [t q] Hin. simpl.
  rewrite owns_heap0. apply list_elem_of_bind in Hin as ([q' ts]&Ht&HL).
  simpl in Ht. apply list_elem_of_fmap in Ht as (?&[= -> ->]&_).
  apply list_elem_of_fmap. by exists (q', ts).
Qed.

(** ** The rules of the process operations *)

Section process_rules.
Implicit Types (L K : list (nat * list nat)).

Lemma fresh_not_in (n : nat) l : Forall (λ a, a < n)%nat l → n ∉ l.
Proof. rewrite Forall_forall. intros H Hn%H. lia. Qed.

Lemma fresh_snoc (n : nat) l : Forall (λ a, a < n)%nat l → Forall (λ a, a < S n)%nat (l ++ [n]).
Proof.
  intros H. apply Forall_app. split; [eapply Forall_impl; [done|]; simpl; lia|].
  apply Forall_singleton. lia.
Qed.

Lemma fresh_weaken (n : nat) l : Forall (λ a, a < n)%nat l → Forall (λ a, a < S n)%nat l.
Proof. intros H. eapply Forall_impl; [done|]. simpl. lia. Qed.

Lemma NoDup_fresh_snoc (n : nat) l :
  Forall (λ a, a < n)%nat l → NoDup l → NoDup (l ++ [n]).
Proof.
  intros Hf Hn. rewrite NoDup_app. split_and!; [done| |apply NoDup_singleton].
  intros x Hx ->%list_elem_of_singleton. by apply (fresh_not_in n l).
Qed.

Lemma alloc_rule L n E :
  triple (owns L n) alloc (λ q, owns ((q, []) :: L) n) E.
Proof.
  intros p []. split; simpl; try done.
  - rewrite owns_heap0. by rewrite Permutation_app_comm.
  - by apply NoDup_fresh_snoc.
  - by apply fresh_snoc.
  - by apply fresh_weaken.
Qed.

Lemma spawn_rule q ts L n E :
  triple (owns ((q, ts) :: L) n) (spawn q) (λ t, owns ((q, ts ++ [t]) :: L) n) E.
Proof.
  intros p []. split; simpl; try done.
  - rewrite owns_threads0, !threads_of_cons, fmap_app. simpl.
    rewrite <- !(assoc_L (++)). f_equiv. by rewrite Permutation_app_comm.
  - rewrite fmap_app. by apply NoDup_fresh_snoc.
  - by apply fresh_weaken.
  - rewrite fmap_app. by apply fresh_snoc.
Qed.

Lemma filter_key_absent {A B} `{EqDecision B} (f : A → B) x (l : list A) :
  x ∉ f <$> l → filter (λ y, f y ≠ x) l = l.
Proof.
  induction l as [|y l IH]; [done|]. rewrite fmap_cons, not_elem_of_cons. intros [Hy Hx].
  rewrite filter_cons_True by congruence. by rewrite IH.
Qed.

(** removing by its key the element a list starts with *)
Lemma filter_key_head {A} (f : A → nat) x (l k : list A) :
  NoDup (f <$> l) → l ≡ₚ x :: k → filter (λ y, f y ≠ f x) l ≡ₚ k.
Proof.
  intros Hn Hl. rewrite Hl in Hn |- *. rewrite fmap_cons, NoDup_cons in Hn.
  destruct Hn as [Hx _]. rewrite filter_cons_False by (intros H; by apply H). clear Hl.
  by rewrite filter_key_absent.
Qed.

Lemma NoDup_fmap_filter {A} (f : A → nat) P `{!∀ x : A, Decision (P x)} l :
  NoDup (f <$> l) → NoDup (f <$> filter P l).
Proof. intros. eapply sublist_NoDup; [done|]. apply fmap_sublist, sublist_filter. Qed.

Lemma Forall_fmap_filter {A} (f : A → nat) P `{!∀ x : A, Decision (P x)} Q l :
  Forall Q (f <$> l) → Forall Q (f <$> filter P l).
Proof.
  rewrite !Forall_fmap, !Forall_forall. intros HQ x [_ Hx]%list_elem_of_filter. by apply HQ.
Qed.

Lemma join_rule q t ts L n E :
  triple (owns ((q, t :: ts) :: L) n) (join t) (λ _, owns ((q, ts) :: L) n) E.
Proof.
  intros p []. unfold join, mbind, M_bind, get.
  rewrite threads_of_cons, fmap_cons in owns_threads0.
  rewrite bool_decide_eq_true_2.
  2: { rewrite owns_threads0. left. }
  split; simpl; try done.
  - by apply (filter_key_head fst (t, q)).
  - by apply NoDup_fmap_filter.
  - by apply Forall_fmap_filter.
Qed.

Lemma free_rule q L n E :
  triple (owns ((q, []) :: L) n) (free q) (λ _, owns L n) E.
Proof.
  intros p []. split; simpl; try done.
  - apply (filter_key_head id q); [by rewrite list_fmap_id|done].
  - by apply NoDup_filter.
  - rewrite <- (list_fmap_id (filter _ _)). apply Forall_fmap_filter. by rewrite list_fmap_id.
Qed.

Lemma join_all_rule q ts L n E :
  triple (owns ((q, ts) :: L) n) (for_each ts join) (λ _, owns ((q, []) :: L) n) E.
Proof.
  induction ts as [|t ts IH]; simpl.
  - apply (triple_ret tt (λ _, owns ((q, []) :: L) n)).
  - eapply triple_bind; [apply join_rule|]. intros []. exact IH.
Qed.
End process_rules.

(** ** The constructors and destructors *)

Section object_rules.
Context (succeeds : call → nat → bool) (cfg : Config) (Hnames : names_succeed succeeds).
Implicit Types (L K : list (nat * list nat)).

(** after an exception: something failed, and what was alive before still is,
    perhaps with objects that nobody refers to *)
Definition leaky L (p : Proc) : Prop :=
  ¬ faultless succeeds cfg ∧ ∃ K n, owns (K ++ L) n p.

Lemma owns_leaky L n p : ¬ faultless succeeds cfg → owns L n p → leaky L p.
Proof. intros Hf Ho. split; [done|]. by exists [], n. Qed.

Lemma leaky_weaken K L p : leaky (K ++ L) p → leaky L p.
Proof. intros (Hf&K'&n&Ho). split; [done|]. exists (K' ++ K), n. by rewrite <- (assoc_L (++)). Qed.

Lemma attempt_rule c L n E :
  triple (owns L n) (attempt succeeds c)
    (λ ok p, owns L n p ∧ ∃ k, ok = succeeds c k) E.
Proof. intros p []. split; [|eauto]. by split. Qed.

Lemma faultless_call c k : faultless succeeds cfg → succeeds c k = true.
Proof. intros [H _]. apply H. Qed.

Lemma try_rule c msg L n :
  triple (owns L n) (try succeeds c msg) (λ _, owns L n) (leaky L).
Proof.
  eapply triple_bind; [apply attempt_rule|]. intros ok p [Ho [k ->]].
  destruct (succeeds c k) eqn:E; [done|]. apply owns_leaky with n; [|done].
  intros Hf. by rewrite faultless_call in E.
Qed.

Lemma start_threads_rule k q ts L n :
  triple (owns ((q, ts) :: L) n) (start_threads succeeds k q ts)
    (λ r p, owns ((q, r.1) :: L) n p ∧
            match r.2 with
            | None => length r.1 = (k + length ts)%nat
            | Some _ => ¬ faultless succeeds cfg
            end) (λ _, False).
Proof.
  revert ts. induction k as [|k IH]; intros ts; simpl; [by intros p Hp|].
  eapply triple_bind; [apply attempt_rule|]. intros ok p [Ho [i ->]].
  destruct (succeeds ThreadCreate i) eqn:E; simpl.
  2: { split; [done|]. intros Hf. by rewrite faultless_call in E. }
  revert p Ho. eapply triple_bind; [apply spawn_rule|]. intros t.
  eapply triple_bind; [apply attempt_rule|]. intros ok p [Ho [j ->]].
  rewrite Hnames. simpl. revert p Ho. eapply triple_conseq, IH; try done.
  intros [ts' []]; simpl; [done|]. intros p [? Hl]. rewrite length_app in Hl. simpl in Hl.
  split; [done|lia].
Qed.

Lemma stop_thread_pool_rule pl L n E :
  triple (owns ((pl_queue pl, pl_threads pl) :: L) n) (stop_thread_pool pl)
    (λ pl' p, owns ((pl_queue pl, []) :: L) n p ∧ pl' = mkWorkerPool (pl_queue pl) []) E.
Proof. eapply triple_bind; [apply join_all_rule|]. by intros [] p Hp. Qed.

Lemma WorkerPool_dtor_rule pl L n E :
  triple (owns ((pl_queue pl, pl_threads pl) :: L) n) (WorkerPool_dtor pl) (λ _, owns L n) E.
Proof.
  eapply triple_bind; [apply stop_thread_pool_rule|]. intros pl' p [Ho ->]. simpl.
  by apply free_rule.
Qed.

(** stopping a pool twice is harmless, because the list of threads is cleared *)
Lemma derived_dtor_rule pl L n E :
  triple (owns ((pl_queue pl, pl_threads pl) :: L) n) (derived_dtor pl) (λ _, owns L n) E.
Proof.
  eapply triple_bind; [apply stop_thread_pool_rule|]. intros pl' p [Ho ->].
  by apply WorkerPool_dtor_rule.
Qed.

(** A constructor that throws has stopped the threads it started; what its
    members own is left behind. *)
Lemma derived_ctor_rule {A} k (init : M Proc A) (R : A → list (nat * list nat)) φ L n n' :
  (∀ L, triple (owns L n) init (λ a p, owns (R a ++ L) n' p ∧ φ a) (leaky L)) →
  triple (owns L n) (derived_ctor succeeds k init)
    (λ r p, owns ((pl_queue r.1, pl_threads r.1) :: R r.2 ++ L) n' p ∧
            length (pl_threads r.1) = k ∧ φ r.2) (leaky L).
Proof.
  intros Hinit. eapply triple_bind; [apply alloc_rule|]. intros q.
  eapply triple_bind; [eapply triple_conseq, triple_catch, Hinit; try done|].
  intros [msg|a]; simpl.
  - intros p (Hf&K&m&Ho). rewrite <- Permutation_middle in Ho. revert p Ho.
    eapply triple_bind; [apply (WorkerPool_dtor_rule (mkWorkerPool q []))|].
    intros [] p Ho. split; eauto.
  - intros p [Ho Ha]. rewrite <- Permutation_middle in Ho. revert p Ho.
    eapply triple_bind; [eapply triple_conseq, start_threads_rule; try done|].
    intros [ts [msg|]]; simpl; intros p [Ho Hr].
    + revert p Ho. eapply triple_bind; [apply (WorkerPool_dtor_rule (mkWorkerPool q ts))|].
      intros [] p Ho. eapply leaky_weaken. by eapply owns_leaky.
    + split; [done|]. split; [simpl in *; lia|done].
Qed.

Lemma plain_pool_rule k L n :
  triple (owns L n) (derived_ctor succeeds k (mret tt))
    (λ r p, owns ((pl_queue r.1, pl_threads r.1) :: L) n p ∧ length (pl_threads r.1) = k)
    (leaky L).
Proof.
  eapply triple_conseq, (derived_ctor_rule k (mret tt) (λ _, []) (λ _, True) L n n); try done.
  by intros r p (Ho&Hl&_).
Qed.

Lemma Uffd_ctor_rule L n :
  triple (owns L n) (Uffd_ctor succeeds)
    (λ r p, owns ((pl_queue r.1, pl_threads r.1) :: L) (n + 3) p ∧ length (pl_threads r.1) = 1%nat)
    (leaky L).
Proof.
  assert (∀ L n k, triple (owns L n) (modify (add_fds k)) (λ _, owns L (n + k)) (leaky L)) as Hfds.
  { intros L' n' k p []. split; simpl; try done. by rewrite owns_fds0. }
  eapply triple_conseq, (derived_ctor_rule 1 _ (λ _, []) (λ _, True) L n (n + 3)%nat); try done.
  - intros r p (Ho&Hl&_). done.
  - intros L'. eapply triple_bind; [apply try_rule|]. intros [].
    eapply triple_bind; [apply Hfds|]. intros [].
    eapply triple_bind; [apply try_rule|]. intros [].
    eapply triple_bind; [apply Hfds|]. intros [].
    eapply triple_conseq, (try_rule _ _ _ (n + 3)); try done.
    + intros p Ho. by replace (n + 3)%nat with (n + 1 + 2)%nat by lia.
    + by intros [] p Ho.
Qed.

Lemma EvictManager_ctor_rule L n :
  triple (owns L n) (EvictManager_ctor succeeds cfg)
    (λ r p, owns ((pl_queue r.1, pl_threads r.1) ::
                  (pl_queue r.2.1, pl_threads r.2.1) :: L) n p ∧
            length (pl_threads r.1) = 1%nat ∧
            length (pl_threads r.2.1) = Z.to_nat (m_num_evictors cfg)) (leaky L).
Proof.
  apply (derived_ctor_rule 1 _ (λ a : WorkerPool * unit, [(pl_queue a.1, pl_threads a.1)])
           (λ a, length (pl_threads a.1) = Z.to_nat (m_num_evictors cfg))).
  intros L'. apply plain_pool_rule.
Qed.

Lemma EvictManager_dtor_rule em L n E :
  triple (owns ((pl_queue em.1, pl_threads em.1) ::
                (pl_queue em.2.1, pl_threads em.2.1) :: L) n)
    (EvictManager_dtor em) (λ _, owns L n) E.
Proof.
  eapply triple_bind; [apply stop_thread_pool_rule|]. intros pl' p [Ho ->].
  rewrite perm_swap in Ho. revert p Ho.
  eapply triple_bind; [apply derived_dtor_rule|]. intros [].
  apply (WorkerPool_dtor_rule (mkWorkerPool (pl_queue em.1) [])).
Qed.

(** the number of threads that watch the buffer *)
Definition monitors : nat := if bool_decide (0 < m_monitor_freq cfg) then 1 else 0.

Lemma new_Buffer_outcome :
  (∃ b, new_Buffer cfg tt = Ok b tt ∧ is_monitor_on b = bool_decide (0 < m_monitor_freq cfg)) ∨
  (∃ msg, new_Buffer cfg tt = Throw msg tt ∧ ¬ faultless succeeds cfg).
Proof.
  assert (∀ z v, apply_int_percentage z v tt = Throw "Invalid percentage given" tt ∧ ¬ 0 ≤ z ≤ 100 ∨
                 ∃ w, apply_int_percentage z v tt = Ok w tt) as Hpct.
  { intros z v. unfold apply_int_percentage. repeat case_bool_decide; simpl; eauto;
      left; split; try done; lia. }
  unfold new_Buffer, mbind, M_bind.
  destruct (Hpct (m_evict_low_water_threshold cfg) (m_max_pages_in_buffer cfg)) as [[-> H]|[v ->]].
  { right. eexists. split; [done|]. intros (_&?&_). by apply H. }
  destruct (Hpct (m_evict_high_water_threshold cfg) (m_max_pages_in_buffer cfg)) as [[-> H]|[w ->]].
  { right. eexists. split; [done|]. intros (_&_&?). by apply H. }
  left. eexists. split; [reflexivity|]. done.
Qed.

Lemma Buffer_ctor_rule L n :
  triple (owns L n) (Buffer_ctor succeeds cfg)
    (λ b p, owns ((bo_array b, bo_monitor b) :: L) n p ∧ length (bo_monitor b) = monitors)
    (leaky L).
Proof.
  eapply triple_bind; [apply try_rule|]. intros [].
  eapply triple_bind; [apply alloc_rule|]. intros a. unfold monitors.
  destruct new_Buffer_outcome as [(b&->&->)|(msg&->&Hf)].
  2: { intros p Ho. apply (leaky_weaken [(a, [])]). by eapply owns_leaky. }
  case_bool_decide; [|by intros p Ho].
  eapply triple_bind; [eapply triple_conseq, try_rule; try done|].
  { intros p. apply (leaky_weaken [(a, [])]). }
  intros []. eapply triple_bind; [apply spawn_rule|]. by intros t p Ho.
Qed.

Lemma Buffer_dtor_rule b L n E :
  triple (owns ((bo_array b, bo_monitor b) :: L) n) (Buffer_dtor b) (λ _, owns L n) E.
Proof. eapply triple_bind; [apply join_all_rule|]. intros []. apply free_rule. Qed.
End object_rules.

(** ** The region manager *)

Section manager_rules.
Context (succeeds : call → nat → bool) (cfg : Config) (Hnames : names_succeed succeeds).
Implicit Types (L K : list (nat * list nat)).

Definition pool_of (pl : WorkerPool) : nat * list nat := (pl_queue pl, pl_threads pl).

Definition evict_pools (e : option (WorkerPool * (WorkerPool * unit))) : list (nat * list nat) :=
  match e with Some e => [pool_of e.1; pool_of e.2.1] | None => [] end.
Definition simple_pool (u : option (WorkerPool * unit)) : list (nat * list nat) :=
  match u with Some u => [pool_of u.1] | None => [] end.
Definition buffer_obj (b : option BufferObject) : list (nat * list nat) :=
  match b with Some b => [(bo_array b, bo_monitor b)] | None => [] end.

(** what the pointers of the manager refer to *)
Definition held (s : Manager) : list (nat * list nat) :=
  evict_pools (evict_h s) ++ simple_pool (fill_h s) ++ simple_pool (uffd_h s) ++
  buffer_obj (buffer_h s).

(** the manager with its fields, and a predicate on the process *)
Definition at_ act b u f e (P : Proc → Prop) (s : Manager) : Prop :=
  P (proc s) ∧ s = mkManager (proc s) act b u f e.

Lemma on_proc_rule {A} act b u f e P (m : M Proc A) Q E :
  triple P m Q E →
  triple (at_ act b u f e P) (on_proc m) (λ a, at_ act b u f e (Q a)) (at_ act b u f e E).
Proof.
  intros Hm s [HP ->]. unfold on_proc. specialize (Hm (proc s) HP).
  simpl. by destruct (m (proc s)).
Qed.

(** the sizes of a complete engine *)
Definition engine_sized (b : BufferObject) (u f : WorkerPool * unit)
    (e : WorkerPool * (WorkerPool * unit)) : Prop :=
  length (bo_monitor b) = monitors cfg ∧ length (pl_threads u.1) = 1%nat ∧
  length (pl_threads f.1) = Z.to_nat (m_num_fillers cfg) ∧
  length (pl_threads e.1) = 1%nat ∧
  length (pl_threads e.2.1) = Z.to_nat (m_num_evictors cfg).

(** a manager that lost nothing it points to *)
Definition sound (s : Manager) : Prop := ∃ K n, owns (held s ++ K) n (proc s).

Definition engine_failed act (s : Manager) : Prop :=
  ¬ faultless succeeds cfg ∧ active s = act ∧ sound s.

Lemma leaky_engine_failed act b u f e L s :
  (∃ K, L ≡ₚ held (mkManager (proc s) act b u f e) ++ K) →
  at_ act b u f e (leaky succeeds cfg L) s → engine_failed act s.
Proof.
  intros [K HL] [(Hf&K'&n&Ho) ->]. split; [done|]. split; [done|].
  exists (K ++ K'), n. rewrite HL in Ho. simpl in *.
  eapply owns_proper; [|done..|exact Ho]. by solve_Permutation.
Qed.

(** one assignment of [addRegion]; [L] is what is alive before, and it includes
    what the pointers refer to *)
Lemma new_h_rule {A} act b u f e L n n' (m : M Proc A) set (R : A → list (nat * list nat)) φ :
  (∀ x p s, proc (set x (mkManager p s b u f e)) = p) →
  (∃ K, L ≡ₚ held (mkManager (mkProc 0 0 [] [] 0) act b u f e) ++ K) →
  triple (owns L n) m (λ a p, owns (R a ++ L) n' p ∧ φ a) (leaky succeeds cfg L) →
  triple (at_ act b u f e (owns L n)) (new_h m set)
    (λ _ s, ∃ a, φ a ∧ owns (R a ++ L) n' (proc s) ∧
                 s = set (Some a) (mkManager (proc s) act b u f e)) (engine_failed act).
Proof.
  intros Hset HK Hm. eapply triple_bind.
  - eapply triple_conseq, on_proc_rule, Hm; try done. intros s. by apply leaky_engine_failed.
  - intros a. apply triple_modify. intros s [[Ho Ha] ->]. exists a.
    by rewrite Hset.
Qed.

Lemma create_engine_rule act b u f e K n :
  triple (at_ act b u f e (owns (evict_pools e ++ simple_pool f ++ simple_pool u ++ buffer_obj b ++ K) n))
    (create_engine succeeds cfg)
    (λ _ s, ∃ b' u' f' e', engine_sized b' u' f' e' ∧
       at_ act (Some b') (Some u') (Some f') (Some e')
         (owns (held s ++ evict_pools e ++ simple_pool f ++ simple_pool u ++ buffer_obj b ++ K)
            (n + 3)) s)
    (engine_failed act).
Proof.
  eapply triple_bind.
  { eapply (new_h_rule _ _ _ _ _ _ _ n _ _ (λ b, [(bo_array b, bo_monitor b)])
      (λ b, length (bo_monitor b) = monitors cfg)); [done| |apply Buffer_ctor_rule].
    exists K. simpl. by solve_Permutation. }
  intros []. apply triple_exists. intros b' Hb. eapply triple_bind.
  { eapply (new_h_rule act (Some b') u f e _ _ (n + 3) _ _ (λ u, [pool_of u.1])
      (λ u, length (pl_threads u.1) = 1%nat)); [done| |by apply Uffd_ctor_rule].
    exists (buffer_obj b ++ K). simpl. by solve_Permutation. }
  intros []. apply triple_exists. intros u' Hu. eapply triple_bind.
  { eapply (new_h_rule act (Some b') (Some u') f e _ _ (n + 3) _ _ (λ f, [pool_of f.1])
      (λ f, length (pl_threads f.1) = Z.to_nat (m_num_fillers cfg)));
      [done| |by apply plain_pool_rule].
    exists (simple_pool u ++ buffer_obj b ++ K). simpl. by solve_Permutation. }
  intros []. apply triple_exists. intros f' Hf.
  eapply triple_conseq, (new_h_rule act (Some b') (Some u') (Some f') e _ _ (n + 3) _ _
    (λ e, [pool_of e.1; pool_of e.2.1])
    (λ e, length (pl_threads e.1) = 1%nat ∧
          length (pl_threads e.2.1) = Z.to_nat (m_num_evictors cfg)));
    [done| |done|done| |by apply EvictManager_ctor_rule].
  - intros [] s (e'&[? ?]&Ho&->). by exists b', u', f', e'.
  - exists (simple_pool f ++ simple_pool u ++ buffer_obj b ++ K). simpl. by solve_Permutation.
Qed.

Lemma delete_h_rule {A} act b u f e (h : Manager → option A) x dtor set_null P Q E :
  (∀ p, h (mkManager p act b u f e) = Some x) →
  (∀ p, proc (set_null (mkManager p act b u f e)) = p) →
  triple P (dtor x) (λ _, Q) (λ _, False) →
  triple (at_ act b u f e P) (delete_h h dtor set_null)
    (λ _ s, Q (proc s) ∧ s = set_null (mkManager (proc s) act b u f e)) E.
Proof.
  intros Hh Hset Hd.
  apply (triple_get h (Some x) _
    (λ o, match o with Some x => on_proc (dtor x) | None => mret tt end ;; modify set_null)).
  { intros s [_ ->]. apply Hh. }
  eapply triple_bind; [eapply triple_conseq, on_proc_rule, Hd; try done; by intros s []|].
  intros []. apply triple_modify. intros s [HQ ->]. by rewrite Hset.
Qed.

Lemma destroy_engine_rule act b u f e K n E :
  triple (at_ act (Some b) (Some u) (Some f) (Some e)
            (owns ([pool_of e.1; pool_of e.2.1; pool_of f.1; pool_of u.1; (bo_array b, bo_monitor b)] ++ K) n))
    destroy_engine (λ _, at_ act None None None None (owns K n)) E.
Proof.
  eapply triple_bind.
  { eapply delete_h_rule; [done|done|]. apply EvictManager_dtor_rule. }
  intros []. eapply triple_bind.
  { apply (delete_h_rule act (Some b) (Some u) (Some f) None _ f); [done|done|]. apply derived_dtor_rule. }
  intros []. eapply triple_bind.
  { apply (delete_h_rule act (Some b) (Some u) None None _ u); [done|done|]. apply derived_dtor_rule. }
  intros []. apply (delete_h_rule act (Some b) None None None _ b); [done|done|].
  apply Buffer_dtor_rule.
Qed.

(** ** The invariant of a history

    [act] and [n] are the active regions and open descriptors there would be
    without failures. *)

Definition complete (s : Manager) : Prop :=
  ∃ b u f e, engine_sized b u f e ∧
    s = mkManager (proc s) (active s) (Some b) (Some u) (Some f) (Some e).

Definition bare (s : Manager) : Prop := s = mkManager (proc s) (active s) None None None None.

Definition minv (act : list Z) (n : nat) (s : Manager) : Prop :=
  (active s ≠ [] → complete s) ∧
  ∃ K m, owns (held s ++ K) m (proc s) ∧
    (faultless succeeds cfg → K = [] ∧ m = n ∧ active s = act ∧ (act = [] → bare s)).

Definition add_act (r : Z) (act : list Z) : list Z :=
  if bool_decide (r ∈ act) then act else act ++ [r].
Definition starts (act : list Z) : nat := if bool_decide (act = []) then 1 else 0.

Lemma minv_fresh : minv [] 0 fresh_manager.
Proof.
  split; [done|]. exists [], 0%nat. split; [|done]. by split; try constructor.
Qed.

(** without the promise of faultlessness any abstract state will do *)
Lemma minv_failed act n act' n' s :
  ¬ faultless succeeds cfg → minv act n s → minv act' n' s.
Proof. intros Hf [Hc (K&m&Ho&_)]. split; [done|]. exists K, m. by split. Qed.

Lemma try_manager_rule c msg act n :
  triple (λ s, active s ≠ [] ∧ minv act n s) (through_uffd succeeds c msg)
    (λ _ s, active s ≠ [] ∧ minv act n s)
    (λ s, active s ≠ [] ∧ ¬ faultless succeeds cfg ∧ minv act n s).
Proof.
  intros s [Hne [Hc (K&m&Ho&Hf)]]. destruct (Hc Hne) as (b&u&f&e&Hs&Es).
  assert (uffd_h s = Some u) as Eu by (rewrite Es; done).
  unfold through_uffd. unfold mbind, M_bind, get at 1. rewrite Eu.
  pose proof (try_rule succeeds cfg c msg _ _ (proc s) Ho) as Ht.
  assert (∀ p K m, owns (held s ++ K) m p →
    (faultless succeeds cfg → K = [] ∧ m = n ∧ active s = act ∧ (act = [] → bare s)) →
    minv act n (mkManager p (active s) (buffer_h s) (uffd_h s) (fill_h s) (evict_h s))) as Hm.
  { intros p K' m' Ho' Hf'. split.
    - intros _. exists b, u, f, e. split; [done|]. by rewrite Es.
    - exists K', m'. split; [done|]. intros (->&->&->&Hb)%Hf'. do 3 (split; [done|]).
      intros HA%Hb. red in HA. rewrite HA. done. }
  unfold on_proc. destruct (try succeeds c msg (proc s)) as [[] p|msg' p| |]; try done; simpl.
  - split; [done|]. by eapply Hm.
  - destruct Ht as (Hnf&K'&m'&Ho'). split; [done|]. split; [done|].
    apply (Hm p (K ++ K') m'); [|done]. eapply owns_proper; [|done..|exact Ho'].
    by solve_Permutation.
Qed.

Lemma add_act_not_nil r act : add_act r act ≠ [].
Proof.
  unfold add_act. case_bool_decide as H; [|by destruct act].
  intros ->. by apply not_elem_of_nil in H.
Qed.

(** the insertion into [m_active_regions] of a manager with an engine *)
Lemma minv_insert r act n s :
  complete s →
  (∃ K m, owns (held s ++ K) m (proc s) ∧
     (faultless succeeds cfg → K = [] ∧ m = n ∧ active s = act)) →
  minv (add_act r act) n (set_active (add_act r (active s)) s).
Proof.
  intros (b&u&f&e&Hs&Es) (K&m&Ho&Hf). split.
  - intros _. exists b, u, f, e. split; [done|]. by rewrite Es.
  - exists K, m. split; [done|]. intros (->&->&->)%Hf. do 3 (split; [done|]).
    intros H. by apply add_act_not_nil in H.
Qed.

(** a manager with an engine, and what it owns *)
Definition running (act : list Z) (n : nat) (s : Manager) : Prop :=
  complete s ∧ ∃ K m, owns (held s ++ K) m (proc s) ∧
    (faultless succeeds cfg → K = [] ∧ m = n ∧ active s = act).

(** the creation of the engine for the first region *)
Lemma start_engine_rule act n s0 :
  triple (λ s, s0 = s ∧ minv act n s)
    (when (bool_decide (active s0 = [])) (create_engine succeeds cfg))
    (λ _, running act (n + 3 * starts act)) (λ s, ¬ faultless succeeds cfg ∧ minv act n s).
Proof.
  intros s [-> [Hc (K&m&Ho&Hf)]]. case_bool_decide as Ha; simpl.
  - assert (at_ [] (buffer_h s) (uffd_h s) (fill_h s) (evict_h s)
      (owns (evict_pools (evict_h s) ++ simple_pool (fill_h s) ++ simple_pool (uffd_h s) ++
             buffer_obj (buffer_h s) ++ K) m) s) as Hat.
    { split; [|by destruct s; simpl in *; subst]. unfold held in Ho. by rewrite <- !(assoc_L (++)) in Ho. }
    pose proof (create_engine_rule _ _ _ _ _ _ _ s Hat) as Hr.
    destruct (create_engine succeeds cfg s) as [[] s'|msg s'| |]; try done.
    + destruct Hr as (b&u&f&e&Hs&Ho'&Es). split; [exists b, u, f, e; split; [done|by rewrite Es]|].
      eexists _, _. split; [exact Ho'|]. intros (->&->&<-&Hb)%Hf. rewrite Es. simpl.
      rewrite (Hb Ha), Ha. done.
    + destruct Hr as (Hnf&Ha'&K'&m'&Ho'). split; [done|]. split; [by rewrite Ha'|]. by exists K', m'.
  - split; [by apply Hc|]. exists K, m. split; [done|]. intros (->&->&<-&_)%Hf.
    unfold starts. rewrite bool_decide_eq_false_2 by done. split_and!; [done|lia|done].
Qed.

Lemma add_region_rule r act n :
  triple (minv act n) (add_region succeeds cfg r)
    (λ _, minv (add_act r act) (n + 3 * starts act))
    (λ s, ¬ faultless succeeds cfg ∧ minv act n s).
Proof.
  eapply (triple_bind _ _ _ (λ s0 s, s0 = s ∧ minv act n s)); [by intros s Hs|].
  intros s0. eapply triple_bind; [apply start_engine_rule|]. intros [].
  eapply triple_bind with (Q := λ _ s, active s ≠ [] ∧ minv (add_act r act) (n + 3 * starts act) s).
  - apply triple_modify. intros s [Hc Hk]. split; [apply add_act_not_nil|].
    by apply minv_insert.
  - intros []. eapply triple_conseq, (try_manager_rule _ _ (add_act r act) (n + 3 * starts act));
      try done; [by intros [] s [_ Hm]|].
    intros s (_&Hf&Hm). split; [done|]. by eapply minv_failed.
Qed.

(** the erasure of a region, with the destruction of the engine after the last *)
Lemma erase_rule r act n E :
  triple (λ s, active s ≠ [] ∧ minv act n s)
    (modify (λ s, set_active (filter (.≠ r) (active s)) s) ;;
     s ← get; when (bool_decide (active s = [])) destroy_engine)
    (λ _, minv (filter (.≠ r) act) n) E.
Proof.
  intros s [Hne [Hc (K&m&Ho&Hf)]]. destruct (Hc Hne) as (b&u&f&e&Hs&Es).
  unfold mbind, M_bind, modify, get. cbv beta iota zeta.
  destruct (decide (active (set_active (filter (.≠ r) (active s)) s) = [])) as [Ha|Ha].
  - rewrite (bool_decide_eq_true_2 _ Ha). simpl in Ha. rewrite Ha.
    assert (at_ [] (Some b) (Some u) (Some f) (Some e) (owns (held s ++ K) m) (set_active [] s))
      as Hat by (split; [done|by rewrite Es]).
    rewrite Es in Hat at 1.
    pose proof (destroy_engine_rule _ _ _ _ _ _ _ (λ _, False) _ Hat) as Hr. simpl.
    destruct (destroy_engine (set_active [] s)) as [[] s'| | |]; try done.
    destruct Hr as [Ho' ->]. split; [done|]. exists K, m. split; [done|].
    intros (->&->&<-&_)%Hf. by rewrite Ha.
  - rewrite (bool_decide_eq_false_2 _ Ha). split.
    + intros _. exists b, u, f, e. split; [done|]. by rewrite Es.
    + exists K, m. split; [done|]. intros (->&->&<-&_)%Hf. by split_and!.
Qed.

Lemma remove_region_rule r act n :
  triple (minv act n) (remove_region succeeds r)
    (λ _, minv (filter (.≠ r) act) n) (minv (filter (.≠ r) act) n).
Proof.
  intros s Hs. pose proof Hs as [Hc (K&m&Ho&Hf)].
  unfold remove_region, mbind at 1, M_bind at 1, get at 1. case_bool_decide as Hin; simpl.
  - assert (active s ≠ []) as Hne by (intros E; rewrite E in Hin; by apply not_elem_of_nil in Hin).
    revert s Hne Hs Hc Ho Hf Hin.
    enough (triple (λ s, active s ≠ [] ∧ minv act n s)
      (through_uffd succeeds UffdUnregister "ioctl(UFFDIO_UNREGISTER) failed" ;;
       modify (λ s, set_active (filter (.≠ r) (active s)) s) ;;
       s ← get; when (bool_decide (active s = [])) destroy_engine)
      (λ _, minv (filter (.≠ r) act) n) (minv (filter (.≠ r) act) n)) as H
      by (intros s Hne Hs _ _ _ _; by apply H).
    eapply triple_bind with (Q := λ _ s, active s ≠ [] ∧ minv act n s);
      [|intros []; apply erase_rule].
    eapply triple_conseq, (try_manager_rule _ _ act n); try done.
    intros s (_&Hf&Hm). by eapply minv_failed.
  - split; [done|]. exists K, m. split; [done|]. intros (->&->&<-&Hb)%Hf.
    rewrite (filter_key_absent id); [done|]. by rewrite list_fmap_id.
Qed.

(** The specification of a history: the active regions, and how often there
    was a first one. *)
Definition spec_op (a : list Z * nat) (o : op) : list Z * nat :=
  match o with
  | Add r => (add_act r a.1, (a.2 + starts a.1)%nat)
  | Remove r => (filter (.≠ r) a.1, a.2)
  end.

Definition spec (ops : list op) : list Z * nat := foldl spec_op ([], 0%nat) ops.

Lemma run_op_rule o a :
  triple (minv a.1 (3 * a.2)) (run_op succeeds cfg o)
    (λ _, minv (spec_op a o).1 (3 * (spec_op a o).2)) (λ _, False).
Proof.
  eapply triple_bind with (Q := λ _, minv (spec_op a o).1 (3 * (spec_op a o).2));
    [|by intros x s Hs].
  destruct o as [r|r]; unfold spec_op, fst, snd.
  - eapply triple_conseq, triple_catch, add_region_rule; try done.
    rewrite Nat.mul_add_distr_l.
    intros [msg|[]] s H; [|exact H]. destruct H. by eapply minv_failed.
  - eapply triple_conseq, triple_catch, remove_region_rule; try done. by intros [msg|[]] s H.
Qed.

Lemma run_ops_rule ops a :
  triple (minv a.1 (3 * a.2)) (run_ops succeeds cfg ops)
    (λ _, minv (foldl spec_op a ops).1 (3 * (foldl spec_op a ops).2)) (λ _, False).
Proof.
  revert a. induction ops as [|o ops IH]; intros a; simpl; [by intros s Hs|].
  eapply triple_bind; [apply run_op_rule|]. intros []. apply (IH (spec_op a o)).
Qed.

Lemma run_ops_minv ops :
  ∃ s, run_ops succeeds cfg ops fresh_manager = Ok tt s ∧ minv (spec ops).1 (3 * (spec ops).2) s.
Proof.
  pose proof (run_ops_rule ops ([], 0%nat) fresh_manager minv_fresh) as H.
  destruct (run_ops succeeds cfg ops fresh_manager) as [[] s| | |]; try done. by exists s.
Qed.
End manager_rules.

(** ** Theorems *)

(** the threads of a complete engine: the fault handler, the fillers, the
    eviction manager, the evictors and the monitor *)
Definition engine_threads (cfg : Config) : nat :=
  1 + Z.to_nat (m_num_fillers cfg) + 1 + Z.to_nat (m_num_evictors cfg) + monitors cfg.

Lemma held_complete cfg s : complete cfg s →
  length (held s) = 5%nat ∧ length (threads_of (held s)) = engine_threads cfg.
Proof.
  intros (b&u&f&e&(Hb&Hu&Hf&He&Hw)&->). split; [done|].
  unfold held, engine_threads, threads_of. simpl. rewrite !length_app, !length_fmap.
  simpl. lia.
Qed.


(** C16 (refinement).  When no call fails, a history refines its specification
    [spec]: the active regions are those added and not removed; with the last
    of them every thread is joined and every object freed; as long as there is
    one, exactly the configured threads run on the five objects of the engine;
    and three descriptors are open for each time the engine was started, since
    no destructor closes them. *)
Theorem lifecycle_exact succeeds cfg ops :
  faultless succeeds cfg →
  ∃ s, run_ops succeeds cfg ops fresh_manager = Ok tt s ∧
       active s = (spec ops).1 ∧ pr_fds (proc s) = (3 * (spec ops).2)%nat ∧
       ((spec ops).1 = [] → pr_heap (proc s) = [] ∧ pr_threads (proc s) = [] ∧ bare s) ∧
       ((spec ops).1 ≠ [] → length (pr_heap (proc s)) = 5%nat ∧
                            length (pr_threads (proc s)) = engine_threads cfg).
Proof.
  intros Hf. assert (names_succeed succeeds) as Hn by (intros k; apply Hf).
  destruct (run_ops_minv succeeds cfg Hn ops) as (s&Hr&Hc&K&m&Ho&Hx).
  destruct (Hx Hf) as (->&->&<-&Hb). rewrite app_nil_r in Ho. exists s.
  split; [done|]. split; [done|]. split; [apply Ho|]. destruct Ho. split.
  - intros Ha. pose proof (Hb Ha) as Hbs. rewrite Hbs in owns_heap0, owns_threads0.
    split; [by apply Permutation_nil|]. split; [by apply Permutation_nil|done].
  - intros Ha. rewrite owns_heap0, owns_threads0, length_fmap.
    by apply held_complete, Hc.
Qed.

(** ** Failures the code does not survive *)

(** A thread whose naming fails is not in [m_threads]: the destructor of the
    base class does not join it and deletes the queue it reads. *)
Lemma unnamed_thread_dangles :
  let s := state_after (run_ops (λ c _, match c with SetName => false | _ => true end)
                          demo_config [Add 4096] fresh_manager) in
  ∃ s', s = Some s' ∧ ∃ t q, pr_threads (proc s') = [(t, q)] ∧ q ∉ pr_heap (proc s').
Proof.
  eexists. split; [vm_compute; reflexivity|]. exists 2%nat, 1%nat. split; [done|]. decide_now.
Qed.

(** When the thread of the eviction manager cannot be created (the eleventh
    call here), the evictors, the fault handler and the fillers keep running;
    the next region starts a second engine over the pointers, and the removal
    of all regions stops only that one. *)
Lemma second_engine :
  let run ops := state_after (run_ops (λ _ k, negb (bool_decide (k = 10%nat))) demo_config ops
                                fresh_manager) in
  ((length ∘ pr_threads ∘ proc <$> run [Add 4096]) = Some 3%nat) ∧
  ((length ∘ pr_threads ∘ proc <$> run [Add 4096; Add 4096]) = Some (3 + engine_threads demo_config)%nat) ∧
  ((length ∘ pr_threads ∘ proc <$> run [Add 4096; Add 4096; Remove 4096]) = Some 3%nat).
Proof. split_and!; vm_compute; reflexivity. Qed.

(** ** Witnesses *)


Lemma lifecycle_exact_witness :
  ∃ s, run_ops (λ _ _, true) demo_config [Add 4096; Add 8192; Remove 4096; Remove 8192; Add 4096]
         fresh_manager = Ok tt s ∧
       active s = [4096] ∧ pr_fds (proc s) = 6%nat ∧ length (pr_threads (proc s)) = 4%nat.
Proof.
  destruct (lifecycle_exact (λ _ _, true) demo_config
    [Add 4096; Add 8192; Remove 4096; Remove 8192; Add 4096]) as (s&?&?&?&_&H).
  { split; [intros; reflexivity|]. split; split; vm_compute; discriminate. }
  exists s. split; [assumption|]. split; [assumption|]. split; [assumption|].
  apply H. discriminate.
Defined.
