(* ===== verification/Shutdown.v ===== *)
(** * Shutting the fault handler down
      (Uffd::uffd_handler against Uffd::~Uffd, and Buffer::monitor against
      Buffer::~Buffer)

    The fault handler sleeps in [poll] on the userfaultfd and on a pipe; the
    destructor writes "bye" to the pipe, sends an EXIT message and joins the
    thread.  The destructor runs in [removeRegion], which holds the mutex of the
    region manager that the handler needs to look up the region of a fault.  Both
    run interleaved here, a step for each system call, lock and queue operation;
    what a round of the handler decides is [uffd_round] and [batch] of Uffd.v. *)

From stdpp Require Import base list numbers strings relations.
From S2P Require Import Prelude Uffd.
Local Open Scope Z_scope.

(** ** The two threads *)

Inductive hpc :=
| Top                                   (* at the test of the loop *)
| Polling                               (* in poll *)
| Polled (pollres : Z) (pipe_in fd_in : bool)
| Handling (events : list (bool * Z))   (* process_page of the rest of a batch *)
| Gone                                  (* returned from its entry function *)
| Died (msg : string).                  (* an exception left the entry function *)

Inductive dpc :=
| AtWrite                               (* write(m_pipe[1], bye, 3) *)
| AtSend                                (* send_work(EXIT) *)
| AtJoin                                (* pthread_join *)
| Destroyed.

Record Shut := mkShut {
  unread : list uffd_msg;               (* messages of the userfaultfd *)
  bye : bool;                           (* the pipe has data *)
  exits : nat;                          (* EXIT messages in the work queue *)
  handler : hpc;
  dtor : dpc
}.

Definition with_handler (h : hpc) (s : Shut) : Shut :=
  mkShut (unread s) (bye s) (exits s) h (dtor s).
Definition with_unread (l : list uffd_msg) (s : Shut) : Shut :=
  mkShut l (bye s) (exits s) (handler s) (dtor s).

Section shutdown.
Context (ro : bool) (page_size : Z) (max_fault_events : Z).

(** [poll] on three descriptors: the write end of the pipe is never readable *)
Definition poll (s : Shut) : option hpc :=
  let fd_in := negb (bool_decide (unread s = [])) in
  if fd_in || bye s
  then Some (Polled ((if fd_in then 1 else 0) + (if bye s then 1 else 0)) (bye s) fd_in)
  else None.

(** a read of the non-blocking descriptor takes what fits *)
Definition read_fd (s : Shut) : read_result * list uffd_msg :=
  match unread s with
  | [] => (ReadAgain, [])
  | _ => (ReadMsgs (take (Z.to_nat max_fault_events) (unread s)),
          drop (Z.to_nat max_fault_events) (unread s))
  end.

(** what follows a return of [poll]; the read happens if [uffd_round] gets there *)
Definition after_poll (pollres : Z) (pipe_in fd_in : bool) (s : Shut) : Shut :=
  match uffd_round max_fault_events pollres pipe_in false fd_in (read_fd s).1 s with
  | Ok Leave s => with_handler Gone s
  | Ok Again s => with_handler Top s
  | Ok (Batch l) s => with_handler (Handling (batch ro page_size l)) (with_unread (read_fd s).2 s)
  | Throw msg s => with_handler (Died msg) s
  | Block _ s => s
  | UB why => with_handler (Died why) s
  end.

(** One step of the handler, [None] if it waits.  [locked]: the mutex of the
    region manager is held by the thread that destroys. *)
Definition handler_step (locked : bool) (s : Shut) : option Shut :=
  match handler s with
  | Top => Some (with_handler (if bool_decide (exits s = 0%nat) then Polling else Gone) s)
  | Polling => (λ h, with_handler h s) <$> poll s
  | Polled pollres pipe_in fd_in => Some (after_poll pollres pipe_in fd_in s)
  | Handling [] => Some (with_handler Top s)
  | Handling (_ :: events) => if locked then None else Some (with_handler (Handling events) s)
  | Gone | Died _ => None
  end.

(** One step of [~Uffd]. *)
Definition dtor_step (s : Shut) : option Shut :=
  match dtor s with
  | AtWrite => Some (mkShut (unread s) true (exits s) (handler s) AtSend)
  | AtSend => Some (mkShut (unread s) (bye s) (S (exits s)) (handler s) AtJoin)
  | AtJoin => match handler s with
              | Gone => Some (mkShut (unread s) (bye s) (exits s) Gone Destroyed)
              | _ => None
              end
  | Destroyed => None
  end.

Inductive shut_step (s : Shut) : Shut → Prop :=
| step_handler s' : handler_step true s = Some s' → shut_step s s'
| step_dtor s' : dtor_step s = Some s' → shut_step s s'.

(** ** Every run ends *)

Definition b2z (b : bool) : Z := if b then 1 else 0.

(** a thread between [poll] and what follows has a result of [poll] *)
Definition polled_wf (s : Shut) : Prop :=
  match handler s with
  | Polled r p f => r = b2z f + b2z p ∧ p || f = true
  | _ => True
  end.

(** the state in which [~Uffd] is called *)
Definition shut_start (s : Shut) : Prop :=
  bye s = false ∧ exits s = 0%nat ∧ dtor s = AtWrite ∧ polled_wf s ∧
  match handler s with Gone | Died _ => False | Polled _ p _ => p = false | _ => True end.

(** what is true of a run *)
Definition shut_inv (s : Shut) : Prop :=
  polled_wf s ∧
  match dtor s with
  | AtWrite => True
  | AtSend => bye s = true
  | AtJoin => bye s = true ∧ (0 < exits s)%nat
  | Destroyed => handler s = Gone
  end.

(** no fault is waiting to be read or being handled *)
Definition quiet (s : Shut) : Prop :=
  unread s = [] ∧
  match handler s with
  | Polled r _ _ => r = 1
  | Handling l => l = []
  | Died _ => False
  | _ => True
  end.

Definition handler_rank (s : Shut) : nat :=
  match handler s with
  | Gone | Died _ => 0
  | Polled _ true _ => 1
  | Polled _ false _ => if bool_decide (unread s = []) then 4 else 1
  | Polling => 2
  | Top => 3
  | Handling _ => 4
  end.

Definition dtor_rank (s : Shut) : nat :=
  match dtor s with AtWrite => 3 | AtSend => 2 | AtJoin => 1 | Destroyed => 0 end.

Definition shut_measure (s : Shut) : nat :=
  5 * length (unread s) + handler_rank s + dtor_rank s.

Context (Hmax : 1 ≤ max_fault_events).

Lemma read_fits (l : list uffd_msg) : l ≠ [] →
  1 ≤ Z.of_nat (length (take (Z.to_nat max_fault_events) l)) ∧
  Z.of_nat (length (take (Z.to_nat max_fault_events) l)) ≤ max_fault_events.
Proof.
  intros Hl. rewrite length_take. destruct l; [done|]. simpl. lia.
Qed.

(** what the handler does after [poll], in the five cases there are *)
Lemma after_poll_cases s r p f : r = b2z f + b2z p → p || f = true →
  after_poll r p f s =
  match p, f with
  | true, true => with_handler (Died "poll: unexpected result") s
  | true, false => with_handler Gone s
  | false, _ =>
      match unread s with
      | [] => with_handler Top s
      | l => with_handler (Handling (batch ro page_size (take (Z.to_nat max_fault_events) l)))
               (with_unread (drop (Z.to_nat max_fault_events) l) s)
      end
  end.
Proof.
  intros -> Hpf. unfold after_poll, uffd_round. destruct p, f; try done; simpl.
  unfold read_fd. destruct (unread s) as [|m l] eqn:E; [done|].
  cbv beta iota delta [fst]. rewrite bool_decide_eq_true_2 by by apply read_fits.
  unfold mret, M_ret. by rewrite E.
Qed.

Lemma shut_step_measure s s' : shut_inv s → shut_step s s' → (shut_measure s' < shut_measure s)%nat.
Proof.
  intros [Hwf _] [s1 H|s1 H]; unfold shut_measure.
  - unfold handler_step in H. unfold polled_wf in Hwf.
    destruct (handler s) as [| |r p f|[|ev l]| |] eqn:Eh; try done.
    + simplify_eq. unfold handler_rank. rewrite Eh. simpl. case_bool_decide; simpl; unfold dtor_rank; simpl; lia.
    + unfold poll in H. unfold handler_rank at 2. rewrite Eh.
      destruct (unread s) as [|m l] eqn:Eu, (bye s) eqn:Eb; simplify_eq/=; unfold handler_rank, dtor_rank; simpl;
        rewrite ?Eu; simpl; lia.
    + destruct Hwf as [Hr Hpf]. simplify_eq. rewrite after_poll_cases by done.
      unfold handler_rank at 2. rewrite Eh.
      destruct p, f; try done; unfold handler_rank, dtor_rank; simpl; try lia.
      destruct (unread s) as [|m l] eqn:Eu; simpl; rewrite ?Eu; simpl; [lia|].
      rewrite length_drop. simpl. lia.
    + simplify_eq. unfold handler_rank. rewrite Eh. unfold dtor_rank. simpl. lia.
  - unfold dtor_step in H. unfold handler_rank, dtor_rank.
    destruct (dtor s) eqn:Ed; simplify_eq; simpl; try lia.
    destruct (handler s) eqn:Eh; simplify_eq; simpl; lia.
Qed.

Lemma shut_step_inv s s' : shut_inv s → shut_step s s' → shut_inv s'.
Proof.
  intros [Hwf Hd] [s1 H|s1 H].
  - unfold handler_step in H. unfold polled_wf in Hwf.
    assert (handler s ≠ Gone) as Hng by (by intros E; rewrite E in H).
    assert (dtor s ≠ Destroyed) as Hnd by (intros E; by rewrite E in Hd).
    destruct (handler s) as [| |r p f|[|ev l]| |] eqn:Eh; try done.
    + simplify_eq. split; [by unfold polled_wf; simpl; case_bool_decide|]. simpl. by destruct (dtor s).
    + unfold poll in H. destruct (unread s), (bye s) eqn:Eb; simplify_eq/=;
        (split; [done|]); simpl; rewrite ?Eb; by destruct (dtor s).
    + destruct Hwf as [Hr Hpf]. simplify_eq. rewrite after_poll_cases by done.
      destruct p, f; try done; try (split; [done|]; simpl; by destruct (dtor s)).
      destruct (unread s); split; try done; simpl; by destruct (dtor s).
    + simplify_eq. split; [done|]. simpl. by destruct (dtor s).
  - unfold dtor_step in H. destruct (dtor s) eqn:Ed; simplify_eq; try (by split; [exact Hwf|]; simpl; try split; try apply Hd; lia).
    destruct (handler s) eqn:Eh; simplify_eq. by split.
Qed.

Lemma shut_sn s : shut_inv s → sn shut_step s.
Proof.
  induction s as [s IH] using (induction_ltof1 _ shut_measure). intros Hs.
  constructor. intros s' Hstep. apply IH; [|by eapply shut_step_inv].
  by apply shut_step_measure.
Qed.

Lemma shut_start_inv s : shut_start s → shut_inv s.
Proof. intros (_&_&Hd&Hwf&_). split; [done|]. by rewrite Hd. Qed.

Lemma shut_run_inv s s' : shut_inv s → rtc shut_step s s' → shut_inv s'.
Proof. intros Hs. induction 1; eauto using shut_step_inv. Qed.

(** how a run can end *)
Inductive ending (s : Shut) : Prop :=
| ended_well : dtor s = Destroyed → handler s = Gone → ending s
| ended_dead msg : dtor s = AtJoin → handler s = Died msg → ending s
| ended_stuck ev l : dtor s = AtJoin → handler s = Handling (ev :: l) → ending s.

Lemma shut_endings s : shut_inv s → nf shut_step s → ending s.
Proof.
  intros [Hwf Hd] Hnf.
  assert (handler_step true s = None) as Hh.
  { destruct (handler_step true s) eqn:E; [|done]. destruct Hnf. eexists. by apply step_handler. }
  assert (dtor_step s = None) as Hs.
  { destruct (dtor_step s) eqn:E; [|done]. destruct Hnf. eexists. by apply step_dtor. }
  unfold handler_step in Hh. unfold dtor_step in Hs.
  destruct (dtor s) eqn:Ed; try done; [|by apply ended_well].
  destruct (handler s) as [| |r p f|[|ev l]| |] eqn:Eh; try done.
  - unfold poll in Hh. destruct Hd as [Hb _]. by rewrite Hb, orb_true_r in Hh.
  - by eapply ended_stuck.
  - by eapply ended_dead.
Qed.

Lemma quiet_step s s' : shut_inv s → quiet s → shut_step s s' → quiet s'.
Proof.
  intros [Hwf Hd] [Hu Hh] [s1 H|s1 H].
  - unfold handler_step, poll in H. unfold polled_wf in Hwf. rewrite Hu in H. simpl in H.
    destruct (handler s) as [| |r p f|[|ev l]| |] eqn:Eh; try done.
    + simplify_eq. split; [done|]. simpl. by case_bool_decide.
    + destruct (bye s); simplify_eq/=. by split.
    + destruct Hwf as [Hr Hpf]. simplify_eq. rewrite after_poll_cases by done. rewrite Hu.
      by destruct p, f; split.
    + simplify_eq. by split.
  - unfold dtor_step in H. destruct (dtor s); simplify_eq; try (by split).
    destruct (handler s); simplify_eq; by split.
Qed.

Lemma quiet_run s s' : shut_inv s → quiet s → rtc shut_step s s' → quiet s'.
Proof. intros Hs Hq Hr. induction Hr; eauto using shut_step_inv, quiet_step. Qed.

(** a handler that waits for the mutex keeps waiting *)
Lemma stuck_run s s' ev l :
  handler s = Handling (ev :: l) → rtc shut_step s s' → handler s' = Handling (ev :: l).
Proof.
  intros Hs Hr. induction Hr as [|s s1 s2 H Hr IH]; [done|]. apply IH. clear IH Hr.
  destruct H as [s1 H|s1 H].
  - unfold handler_step in H. by rewrite Hs in H.
  - unfold dtor_step in H. destruct (dtor s); simplify_eq; try done. by rewrite Hs in H.
Qed.
End shutdown.

(** ** Theorems *)


(** C36 (error).  A message that is unread when [~Uffd] writes to the pipe can
    kill the process: [poll] then reports two descriptors, which the handler
    takes for an error.  A batch whose next page is still to be looked up
    always hangs the destruction, whatever the interleaving. *)
Theorem shutdown_pending_fault ro page_size max_fault_events s :
  1 ≤ max_fault_events → shut_start s →
  (handler s = Polling → unread s ≠ [] →
     ∃ s', rtc (shut_step ro page_size max_fault_events) s s' ∧
           handler s' = Died "poll: unexpected result") ∧
  (∀ ev l s', handler s = Handling (ev :: l) →
     rtc (shut_step ro page_size max_fault_events) s s' → dtor s' ≠ Destroyed).
Proof.
  intros Hmax Hs. split.
  - intros Hh Hu. destruct s as [[|m l] b x h d]; [done|]. simpl in *. subst h.
    destruct Hs as (Hb&Hx&Hd&_). simpl in *. subst b x d.
    exists (mkShut (m :: l) true 0 (Died "poll: unexpected result") AtSend). split; [|done].
    eapply rtc_l; [by apply step_dtor|]. eapply rtc_l; [by apply step_handler|].
    eapply rtc_l; [by apply step_handler|]. apply rtc_refl.
  - intros ev l s' Hh Hr Hd. pose proof (stuck_run _ _ _ _ _ _ _ Hh Hr) as E.
    destruct (shut_run_inv _ _ _ Hmax _ _ (shut_start_inv _ Hs) Hr) as [_ H].
    rewrite Hd, E in H. done.
Qed.

(** ** The monitor of the buffer

    [monitor] logs and sleeps while [is_monitor_on]; [~Buffer] clears the flag
    and joins the thread. *)

Inductive mpc := MTest | MSleep | MGone.
Inductive bpc := BClear | BJoin | BDone.

Record Mon := mkMon { monitor_on : bool; lines : nat; mthread : mpc; bthread : bpc }.

Definition monitor_step (s : Mon) : option Mon :=
  match mthread s with
  | MTest => if monitor_on s
             then Some (mkMon true (S (lines s)) MSleep (bthread s))
             else Some (mkMon false (lines s) MGone (bthread s))
  | MSleep => Some (mkMon (monitor_on s) (lines s) MTest (bthread s))
  | MGone => None
  end.

Definition buffer_dtor_step (s : Mon) : option Mon :=
  match bthread s with
  | BClear => Some (mkMon false (lines s) (mthread s) BJoin)
  | BJoin => match mthread s with
             | MGone => Some (mkMon (monitor_on s) (lines s) MGone BDone)
             | _ => None
             end
  | BDone => None
  end.

Inductive mon_step (s : Mon) : Mon → Prop :=
| step_monitor s' : monitor_step s = Some s' → mon_step s s'
| step_buffer s' : buffer_dtor_step s = Some s' → mon_step s s'.

(** Once [~Buffer] has cleared the flag, the monitor logs nothing more, every
    run is at most three steps long, and it ends with the thread joined. *)
Lemma monitor_joined s : monitor_on s = false → bthread s = BJoin →
  sn mon_step s ∧
  ∀ s', rtc mon_step s s' → lines s' = lines s ∧ (nf mon_step s' → bthread s' = BDone).
Proof.
  set (inv s := monitor_on s = false ∧ bthread s ≠ BClear ∧ (bthread s = BDone → mthread s = MGone)).
  set (rank s := (match mthread s with MSleep => 2 | MTest => 1 | MGone => 0 end +
                  match bthread s with BDone => 0 | _ => 1 end)%nat).
  assert (∀ s s', inv s → mon_step s s' → inv s' ∧ (rank s' < rank s)%nat ∧ lines s' = lines s) as Hstep.
  { intros [on n m b] s' (Hon&Hb&Hd) H. simpl in *. subst on.
    destruct H as [s' H|s' H]; unfold monitor_step, buffer_dtor_step in H; simpl in H;
      destruct m, b; simplify_eq/=; try done; try (by specialize (Hd eq_refl));
      unfold inv, rank; simpl; (split; [|split; [lia|done]]); (split; [done|]); split; try done; by intros [=]. }
  intros Hon Hb. assert (inv s) as Hi by (unfold inv; rewrite Hon, Hb; done). clear Hon Hb. split.
  - induction s as [s IH] using (induction_ltof1 _ rank).
    constructor. intros s' H. destruct (Hstep s s' Hi H) as (?&?&?). by apply IH.
  - intros s' Hr. induction Hr as [s|s s1 s2 H Hr IH].
    + split; [done|]. intros Hnf. destruct s as [on n m b]. unfold inv in Hi. simpl in *.
      destruct Hi as (->&Hb&Hd). destruct b; try done. destruct Hnf.
      destruct m; eexists; try (by apply step_monitor). by apply step_buffer.
    + destruct (Hstep s s1 Hi H) as (Hi1&_&E). destruct (IH Hi1) as [E' ?]. split; [congruence|done].
Qed.

(** ** Witnesses *)

Definition idle_handler : Shut := mkShut [] false 0 Polling AtWrite.
Definition busy_handler : Shut := mkShut [mkMsg 4096 0] false 0 Polling AtWrite.


Lemma shutdown_pending_fault_witness :
  ∃ s', rtc (shut_step false 4096 256) busy_handler s' ∧
        handler s' = Died "poll: unexpected result".
Proof.
  apply (shutdown_pending_fault false 4096 256 busy_handler); [lia|repeat split|reflexivity|discriminate].
Defined.
