(* ===== verification/RegionEvict.v ===== *)
(** * Unmapping one of several regions
      (RegionManager::removeRegion and Buffer::evict_region while another region
      is active)

    The thread that calls [uunmap] on a region that is not the last one, against
    the threads of System.v.  It holds the mutex of the region manager, so that
    the fault handler cannot look up a region meanwhile, and goes through the
    region's pages one by one: it waits for the page to be PRESENT, marks it
    deferred and LEAVING, sends it to the evict workers and waits until it is
    FREE. *)

From stdpp Require Import base list numbers strings gmap.
From Stdlib Require Import Strings.Byte.
From S2P Require Import Prelude PageDescriptor WorkQueue Store RegionDescriptor RegionMap.
From S2P Require Import Config Engine Buffer WaterMarks Eviction Uffd Workers BufferSpec BufferInv.
From S2P Require Import System SystemInv SystemProps.
Local Open Scope Z_scope.

(** ** The unmapping thread *)

(** [k] is the address given to [uunmap], [r] the region's descriptor *)
Inductive RegionPc :=
| RIdle
| REnter (k : Z) (r : nat)                  (* about to lock the buffer *)
| RLoop (k : Z) (r : nat)                   (* at the head of the loop, with the lock *)
| RPresent (k : Z) (r : nat) (pd : nat)     (* about to wait for PRESENT, with the lock *)
| RWaitPresent (k : Z) (r : nat) (pd : nat) (* asleep in this wait *)
| RFree (k : Z) (r : nat) (pd : nat)        (* about to wait for FREE, with the lock *)
| RWaitFree (k : Z) (r : nat) (pd : nat)    (* asleep in this wait *)
| RRemove (k : Z) (r : nat).                (* all pages are evicted *)

Record RSys (O St : Type) := mkRSys { sys : Sys O St; rpc : RegionPc }.
Arguments mkRSys {O St}.
Arguments sys {O St}.
Arguments rpc {O St}.

Inductive rthread :=
| RThread (t : thread)
| RUnmap (contended : bool) (region : Z).

Section run.
Context {O St : Type} `{UffdOS O} `{StoreBank St} (psize : nat) (pick : gset nat → option nat).
Abbreviation RSys := (RSys O St).

Definition with_sys (s : Sys O St) (x : RSys) : RSys := mkRSys s (rpc x).
Definition set_rpc (pc : RegionPc) : M RSys unit := modify (λ x, mkRSys (sys x) pc).
Definition on_sys {A} (m : M (Sys O St) A) : M RSys A := zoom sys with_sys m.
Definition on_engine {A} (m : M Engine A) : M RSys A := on_sys (on_world (on_eng m)).
Abbreviation engine x := (eng (world (sys x))).

(** a piece that ends in a wait, and where it goes on or sleeps *)
Definition wait_piece (m : M Engine unit) (next slept : RegionPc) : M RSys unit := λ x,
  match on_engine m x with
  | Ok _ x' => set_rpc next x'
  | Block OnStateChange x' => set_rpc slept x'
  | Block c x' => Block c x'
  | Throw msg x' => Throw msg x'
  | UB why => UB why
  end.

(** [wait_for_page_state(pd, PRESENT); pd->set_state_leaving();
    schedule_eviction(pd)] *)
Definition leave_page (pd : nat) : M Engine unit :=
  wait_for_page_state pd PRESENT ;;
  on_pd pd set_state_leaving ;;
  schedule_eviction pd.

(** [if (pd->state != LEAVING) { pd->deferred = true; ...] *)
Definition next_page (k : Z) (r pd : nat) : M RSys unit :=
  p ← on_engine (get_pd pd);
  if bool_decide (state p = LEAVING) then set_rpc (RFree k r pd)
  else on_engine (modify_pd pd (with_deferred true)) ;; set_rpc (RPresent k r pd).

(** [while ( rd->count() ) { auto pd = rd->get_next_page_descriptor(); ... }] *)
Definition region_loop (k : Z) (r : nat) : M RSys unit :=
  x ← get;
  match heap (regs (engine x)) !! r with
  | None => undefined "invalid region descriptor pointer"
  | Some d =>
      if bool_decide (count d = 0%nat) then on_engine unlock ;; set_rpc (RRemove k r)
      else
        o ← on_engine (get_next_page_descriptor pick r);
        match o with
        | None => undefined "null page descriptor pointer"
        | Some pd => next_page k r pd
        end
  end.

(** the ioctl, and the rest of [removeRegion] with a region left *)
Definition region_remove (k : Z) (r : nat) : M RSys unit :=
  x ← get;
  match heap (regs (engine x)) !! r with
  | None => undefined "dangling region descriptor"
  | Some rd =>
      on_sys (on_world (on_kernel (unregister_range rd))) ;;
      on_engine (modify (λ e, with_regs (with_heap (delete r (heap (regs e))) (regs e)) e)) ;;
      on_engine (modify (λ e, with_regs
        (with_regions (map_erase (m_active_regions (regs e)) k) (regs e)) e)) ;;
      on_engine (modify (λ e, with_regs (with_last_iter None (regs e)) e))
  end ;;
  set_rpc RIdle.

Definition unmap_region (contended : bool) (region : Z) : M RSys unit :=
  x ← get;
  match rpc x with
  | RIdle =>
      match map_find (m_active_regions (regs (engine x))) region with
      | None => throw "umap fault monitor not found"
      | Some r =>
          if bool_decide (1 < get_num_active_regions (regs (engine x)))
          then set_rpc (REnter region r)
          else block OnIdle  (* the last region: System.v *)
      end
  | REnter k r => on_engine (lock contended) ;; set_rpc (RLoop k r)
  | RLoop k r => region_loop k r
  | RPresent k r pd => wait_piece (leave_page pd) (RFree k r pd) (RWaitPresent k r pd)
  | RWaitPresent k r pd =>
      wait_piece (wake_state_change ;; leave_page pd) (RFree k r pd) (RWaitPresent k r pd)
  | RFree k r pd => wait_piece (wait_for_page_state pd FREE) (RLoop k r) (RWaitFree k r pd)
  | RWaitFree k r pd =>
      wait_piece (wake_state_change ;; wait_for_page_state pd FREE) (RLoop k r) (RWaitFree k r pd)
  | RRemove k r => region_remove k r
  end.

(** The unmapping thread holds [RegionManager::m_mutex], which
    [containing_region] locks. *)
Definition manager_locked (x : RSys) : bool := match rpc x with RIdle => false | _ => true end.

Definition needs_manager (t : thread) (s : Sys O St) : bool :=
  match t, upc s with TUffd _, URun (_ :: _) => true | _, _ => false end.

Definition rrun (t : rthread) : M RSys unit :=
  match t with
  | RThread (TUnmap _) => block OnMutex
  | RThread t =>
      x ← get;
      if manager_locked x && needs_manager t (sys x) then block OnMutex else on_sys (run psize t)
  | RUnmap contended region => unmap_region contended region
  end.

(** the deque is shorter than its index type *)
Definition fits (x : RSys) : Prop := Z.of_nat (length (m_busy_pages (buf (engine x)))) < 2 ^ 64.

Definition rstep (x x' : RSys) : Prop := fits x ∧ ∃ t, rrun t x = Ok tt x'.

Fixpoint rrun_all (ts : list rthread) (x : RSys) : option RSys :=
  match ts with
  | [] => Some x
  | t :: ts =>
      match rrun t x with
      | Ok _ x' => if bool_decide (fits x) then rrun_all ts x' else None
      | _ => None
      end
  end.

Lemma rrun_one t x y : rrun_all [t] x = Some y → rrun t x = Ok tt y.
Proof.
  simpl. destruct (rrun t x) as [[] x'| | |]; try done. case_bool_decide; [|done]. by intros [= ->].
Qed.

Lemma rrun_all_steps ts x y : rrun_all ts x = Some y → rtc rstep x y.
Proof.
  revert x. induction ts as [|t ts IH]; intros x E; simpl in E; [simplify_eq; apply rtc_refl|].
  destruct (rrun t x) as [[] x'| | |] eqn:Et; try done. case_bool_decide as Hf; [|done].
  eapply rtc_l; [|by apply IH]. split; [exact Hf|by exists t].
Qed.
End run.

(** ** A hang

    A page of the region that the eviction daemon has already taken is LEAVING
    and not deferred: when it is evicted its descriptor goes to the free list,
    and the fault handler may reuse it before the unmapping thread has seen that
    it was FREE. *)

Definition fill_resting (pc : FillPc) : bool := match pc with FIdle _ | FAsleep _ => true | _ => false end.
Definition evict_resting (pc : EvictPc) : bool := match pc with EIdle | EAsleep => true | _ => false end.
Definition mgr_resting (pc : MgrPc) : bool := match pc with MIdle | MAsleep => true | _ => false end.
Definition uffd_looking (pc : UffdPc) : bool := match pc with URun _ => true | _ => false end.

Section stuck.
Context {O St : Type} `{!UffdOS O} `{!StoreBank St} (psize : nat) (pick : gset nat → option nat).
Abbreviation RSys := (RSys O St).
Abbreviation engine x := (eng (world (sys x))).

(** nobody has work, and the page the unmapping thread waits for is in use *)
Record stuck (k : Z) (r pd : nat) (pages : gmap Z nat) (x : RSys) : Prop := {
  sk_pages : m_present_pages (buf (engine x)) = pages;
  sk_fillq : m_queue (fill_wq (engine x)) = [];
  sk_mgrq : m_queue (mgr_wq (engine x)) = [];
  sk_evictq : m_queue (evict_wq (engine x)) = [];
  sk_fill : forallb fill_resting (fpcs (sys x)) = true;
  sk_mgr : mgr_resting (mpc (sys x)) = true;
  sk_evict : forallb evict_resting (epcs (sys x)) = true;
  sk_uffd : uffd_looking (upc (sys x)) = true;
  sk_mutex : m_mutex (buf (engine x)) = false;
  sk_wait : rpc x = RWaitFree k r pd;
  sk_page : match m_array (buf (engine x)) !! pd with
            | Some p => state p ≠ FREE
            | None => False
            end
}.

Lemma get_work_empty (q : WorkQueue WorkItem) :
  m_queue q = [] → ∃ q', get_work q = Block OnQueue q' ∧ m_queue q' = [].
Proof.
  intros Hq. unfold get_work, dequeue, dequeue_loop, mbind, M_bind, modify, get. simpl. rewrite Hq.
  destruct (_ && _); simpl; eexists; (split; [reflexivity|done]).
Qed.
Lemma dequeue_resume_empty (q : WorkQueue WorkItem) :
  m_queue q = [] → ∃ q', dequeue_resume q = Block OnQueue q' ∧ m_queue q' = [].
Proof.
  intros Hq. unfold dequeue_resume, dequeue_loop, mbind, M_bind, modify, get. simpl. rewrite Hq.
  destruct (_ && _); simpl; eexists; (split; [reflexivity|done]).
Qed.

Lemma forallb_insert {A} (f : A → bool) l k x :
  forallb f l = true → f x = true → forallb f (<[k := x]> l) = true.
Proof.
  revert k. induction l as [|y l IH]; intros [|k]; simpl; [done|done| |];
    rewrite !andb_true_iff; naive_solver.
Qed.
Lemma forallb_lookup {A} (f : A → bool) l k x :
  forallb f l = true → l !! k = Some x → f x = true.
Proof. intros Hf Hk. rewrite forallb_forall in Hf. apply Hf. by eapply list_elem_of_In, list_elem_of_lookup_2. Qed.

(** a worker that asks an empty queue for work goes to sleep *)
Lemma stuck_fill k r pd pages (x : RSys) b j s' :
  stuck k r pd pages x → fill_run psize b j (sys x) = Ok tt s' → stuck k r pd pages (mkRSys s' (rpc x)).
Proof.
  intros Hs E. unfold fill_run in E. erewrite bind_run in E by reflexivity.
  destruct (fpcs (sys x) !! j) as [pc|] eqn:Hj; [|done].
  pose proof (forallb_lookup _ _ _ _ (sk_fill _ _ _ _ _ Hs) Hj) as Hpc.
  assert (∀ m buf, (∃ q', m (fill_wq (engine x)) = Block OnQueue q' ∧ m_queue q' = []) →
    fill_take m j buf (sys x) = Ok tt s' → stuck k r pd pages (mkRSys s' (rpc x))) as Htake.
  { intros m buf (q'&Eq&Hq') Ef. unfold fill_take, or_sleep, on_world, on_eng, zoom, on_fill, lift in Ef.
    rewrite Eq in Ef. cbv [on_queue_sleep set_fpc modify] in Ef. rewrite bool_decide_true in Ef by done.
    injection Ef as <-. destruct Hs. split; try done. simpl. by apply forallb_insert. }
  destruct pc; try done; (eapply Htake; [|exact E]).
  - apply get_work_empty, Hs.
  - apply dequeue_resume_empty, Hs.
Qed.

Lemma stuck_evict k r pd pages (x : RSys) b j s' :
  stuck k r pd pages x → evict_run b j (sys x) = Ok tt s' → stuck k r pd pages (mkRSys s' (rpc x)).
Proof.
  intros Hs E. unfold evict_run in E. erewrite bind_run in E by reflexivity.
  destruct (epcs (sys x) !! j) as [pc|] eqn:Hj; [|done].
  pose proof (forallb_lookup _ _ _ _ (sk_evict _ _ _ _ _ Hs) Hj) as Hpc.
  assert (∀ m, (∃ q', m (evict_wq (engine x)) = Block OnQueue q' ∧ m_queue q' = []) →
    evict_take m j (sys x) = Ok tt s' → stuck k r pd pages (mkRSys s' (rpc x))) as Htake.
  { intros m (q'&Eq&Hq') Ef. unfold evict_take, or_sleep, on_world, on_eng, zoom, on_evict, lift in Ef.
    rewrite Eq in Ef. cbv [on_queue_sleep set_epc modify] in Ef. rewrite bool_decide_true in Ef by done.
    injection Ef as <-. destruct Hs. split; try done. simpl. by apply forallb_insert. }
  destruct pc; try done; (eapply Htake; [|exact E]).
  - apply get_work_empty, Hs.
  - apply dequeue_resume_empty, Hs.
Qed.

Lemma stuck_mgr k r pd pages (x : RSys) b s' :
  stuck k r pd pages x → mgr_run b (sys x) = Ok tt s' → stuck k r pd pages (mkRSys s' (rpc x)).
Proof.
  intros Hs E. unfold mgr_run in E. erewrite bind_run in E by reflexivity.
  pose proof (sk_mgr _ _ _ _ _ Hs) as Hpc.
  assert (∀ m, (∃ q', m (mgr_wq (engine x)) = Block OnQueue q' ∧ m_queue q' = []) →
    mgr_take m (sys x) = Ok tt s' → stuck k r pd pages (mkRSys s' (rpc x))) as Htake.
  { intros m (q'&Eq&Hq') Ef. unfold mgr_take, or_sleep, on_world, on_eng, zoom, on_mgr, lift in Ef.
    rewrite Eq in Ef. cbv [on_queue_sleep set_mpc modify] in Ef. rewrite bool_decide_true in Ef by done.
    injection Ef as <-. by destruct Hs. }
  destruct (mpc (sys x)); try done; (eapply Htake; [|exact E]).
  - apply get_work_empty, Hs.
  - apply dequeue_resume_empty, Hs.
Qed.

(** a thread that wakes up and finds the page in use sleeps again *)
Lemma wait_again pd p e :
  m_mutex (buf e) = false → m_array (buf e) !! pd = Some p → state p ≠ FREE →
  ∃ e', (wake_state_change ;; wait_for_page_state pd FREE) e = Block OnStateChange e' ∧ core e' = core e.
Proof.
  intros Hm Hp Sp.
  assert (blocks (wake_state_change ;; wait_for_page_state pd FREE) (core e) OnStateChange (core e)) as Hb.
  { eapply blocks_bind; [by apply runs_wake_state|].
    eapply blocks_bind; [by apply (runs_get_pd _ p)|]. rewrite bool_decide_false by done.
    rewrite <- (core_eta_mutex (core e)) at 2 by done. apply blocks_sleep_state. }
  by apply Hb.
Qed.

Lemma stuck_unmap k r pd pages (x x' : RSys) b a :
  stuck k r pd pages x → unmap_region pick b a x = Ok tt x' → stuck k r pd pages x'.
Proof.
  intros Hs E. unfold unmap_region in E. erewrite bind_run in E by reflexivity.
  rewrite (sk_wait _ _ _ _ _ Hs) in E. pose proof (sk_page _ _ _ _ _ Hs) as Hp.
  destruct (m_array (buf (engine x)) !! pd) as [p|] eqn:Ep; [|done].
  destruct (wait_again pd p (engine x) (sk_mutex _ _ _ _ _ Hs) Ep Hp) as (e'&Eb&Ec).
  unfold wait_piece, on_engine, on_sys, on_world, on_eng, zoom in E. rewrite Eb in E.
  cbv [set_rpc modify] in E. injection E as <-.
  pose proof (f_equal c_present Ec) as E1. pose proof (f_equal c_array Ec) as E2.
  pose proof (f_equal c_fillq Ec) as E3. pose proof (f_equal c_mgrq Ec) as E4.
  pose proof (f_equal c_evictq Ec) as E5. pose proof (f_equal c_mutex Ec) as E6.
  cbn in E1, E2, E3, E4, E5, E6. destruct Hs. split; cbn; try congruence. by rewrite E2, Ep.
Qed.

Lemma stuck_step k r pd pages (x x' : RSys) :
  stuck k r pd pages x → rstep psize pick x x' → stuck k r pd pages x'.
Proof.
  intros Hs (_&t&E). destruct t as [t|b a]; [|by eapply stuck_unmap].
  assert (∀ m, on_sys m x = Ok tt x' → ∃ s', m (sys x) = Ok tt s' ∧ x' = mkRSys s' (rpc x)) as Hsys.
  { intros m. unfold on_sys, zoom. destruct (m (sys x)) as [[] s'| | |]; intros; simplify_eq; eauto. }
  assert (manager_locked x = true) as Hm by (unfold manager_locked; by rewrite (sk_wait _ _ _ _ _ Hs)).
  destruct t as [msgs|b|b j|b|b j|a data|b]; cbn [rrun] in E; try done;
    erewrite bind_run in E by reflexivity; rewrite Hm in E; cbn [andb] in E.
  - apply Hsys in E as (s'&E&->). cbn [run] in E. case_bool_decide; [|done].
    unfold while_in_use in E. erewrite bind_run in E by reflexivity. destruct (in_use _); [|done].
    unfold uffd_batch in E. erewrite bind_run in E by reflexivity.
    destruct (upc (sys x)) as [[|]| | |]; try done. injection E as <-. by destruct Hs.
  - pose proof (sk_uffd _ _ _ _ _ Hs) as Hu. unfold needs_manager in E.
    destruct (upc (sys x)) as [[|e l]| | |] eqn:Eu; try done.
    apply Hsys in E as (s'&E&->). cbn [run] in E. unfold uffd_run in E.
    erewrite bind_run in E by reflexivity. by rewrite Eu in E.
  - apply Hsys in E as (s'&E&->). by eapply stuck_fill.
  - apply Hsys in E as (s'&E&->). by eapply stuck_mgr.
  - apply Hsys in E as (s'&E&->). by eapply stuck_evict.
  - apply Hsys in E as (s'&E&->). cbn [run] in E. case_bool_decide; [|done].
    unfold while_in_use in E. erewrite bind_run in E by reflexivity. destruct (in_use _); [|done].
    unfold app_store in E. erewrite bind_run in E by reflexivity.
    destruct (store_page _ _ _) as [o|]; [|done]. injection E as <-. by destruct Hs.
Qed.

Lemma stuck_forever k r pd pages (x x' : RSys) :
  stuck k r pd pages x → rtc (rstep psize pick) x x' → stuck k r pd pages x'.
Proof. induction 2; eauto using stuck_step. Qed.
End stuck.

(** ** A schedule that hangs

    Pages of four bytes, a region of one page and one of sixty, a buffer of 64
    pages, one filler and one evictor. *)

Definition pair_cap (id : nat) : Z := match id with 0%nat => 4 | 1%nat => 240 | _ => 0 end.
Definition pair_files (id : nat) : StoreFile := make_store 4096 240 4 (Z.of_nat id).
#[local] Instance pair_bank : StoreBank memfs := file_bank pair_files.
Lemma pair_files_inj i j : sf_fd (pair_files i) = sf_fd (pair_files j) → i = j.
Proof. cbn. lia. Qed.
#[local] Instance pair_bank_laws : BankLaws memfs 4 pair_cap :=
  file_bank_laws pair_files 4 pair_cap ltac:(lia) ltac:(lia) pair_files_inj.

Definition pair_cfg : Config := mkConfig (mkVersion 2 1 0) 64 0 4 4 1 1 70 90 256.
Definition pair_disk : memfs := {[ 0 := replicate 4 x01; 1 := replicate 240 x02 ]}.
Definition small_region : RegionDescriptor := new_RegionDescriptor 4096 4 4096 8 0.
Definition large_region : RegionDescriptor := new_RegionDescriptor 8192 240 8192 244 1.
Definition pair_regs : RegionMap :=
  mkRM [(4096, 0%nat); (8192, 1%nat)] None {[ 0%nat := small_region; 1%nat := large_region ]}.
Definition pair_ghost (a : Z) : bytes :=
  if bool_decide (a < 8192) then take 4 (drop (Z.to_nat (a - 4096)) (replicate 4 x01))
  else take 4 (drop (Z.to_nat (a - 8192)) (replicate 240 x02)).

Definition pair_buffer : Buffer :=
  mkBuffer 64 (replicate 64 zero_pd) ∅ (seq 0 64) [] 44 57 false 0 (mkCond 0 0) 0 (mkCond 0 0)
    zero_stats false.
Definition pair_sys : Sys memos memfs :=
  mkSys (mkWorld (mkEngine pair_buffer pair_regs (new_WorkQueue 1) (new_WorkQueue 1) (new_WorkQueue 1) 0)
           ∅ pair_disk)
    (URun []) [FIdle (replicate 4 x00)] MIdle [EIdle] ARun pair_ghost.
Definition pair_start : RSys memos memfs := mkRSys pair_sys RIdle.

Lemma pair_region r d :
  heap pair_regs !! r = Some d → (r = 0%nat ∧ d = small_region) ∨ (r = 1%nat ∧ d = large_region).
Proof. cbn. intros [[<- <-]|[_ [<- <-]%lookup_singleton_Some]]%lookup_insert_Some; auto. Qed.

Lemma pair_init : init 4 pair_cap pair_cfg pair_sys.
Proof.
  split; try done.
  - split.
    + split; [|done]. econstructor; [reflexivity|done|done| |].
      * intros k r [= -> ->]%list_elem_of_singleton. by vm_compute.
      * econstructor; [reflexivity|done|done| |constructor]. by intros k r ?%elem_of_nil.
    + intros r d [[-> ->]|[-> ->]]%pair_region; [exists 4096|exists 8192]; set_solver.
    + intros r d [[-> ->]|[-> ->]]%pair_region; split_and!; by vm_compute.
    + by intros r d r' d' [[-> ->]|[-> ->]]%pair_region [[-> ->]|[-> ->]]%pair_region.
  - by intros r d [[-> ->]|[-> ->]]%pair_region.
  - constructor; [by eexists|constructor].
  - constructor; [done|constructor].
  - intros [|[|id]] Hc; [| |done]; cbn; eexists; (split; [reflexivity|]); cbn; lia.
  - intros r d a [[-> ->]|[-> ->]]%pair_region [[H1 H2] _]; cbn [ghost pair_sys]; unfold pair_ghost.
    + change (end_ small_region) with 4100 in H2. rewrite bool_decide_true by lia. reflexivity.
    + change (8192 ≤ a) in H1. rewrite bool_decide_false by lia. reflexivity.
Qed.

(** the order in which the pages of a region are visited *)
Definition first_of (X : gset nat) : option nat := head (elements X).

Definition fill_one : list rthread := replicate 4 (RThread (TFill false 0)).
Definition evict_one : list rthread := replicate 4 (RThread (TEvict false 0)).

(** Faults on the page of the small region and on 56 pages of the large one
    reach the high-water mark, and the daemon takes the 32 oldest pages.  The
    handler has looked up the region of one more fault when the small region is
    unmapped and the thread waits for its page, which is LEAVING.  The evictor
    frees the page, the handler reuses its descriptor, and everybody finishes. *)
Definition hang_schedule : list rthread :=
  [RThread (TBatch (mkMsg 4096 0 :: ((λ i, mkMsg (8192 + 4 * Z.of_nat i) 0) <$> seq 0 56)))] ++
  replicate 114 (RThread (TUffd false)) ++ concat (replicate 57 fill_one) ++
  replicate 36 (RThread (TMgr false)) ++
  [RThread (TBatch [mkMsg 8416 0]); RThread (TUffd false)] ++
  replicate 4 (RUnmap false 4096) ++
  evict_one ++ [RThread (TUffd false)] ++ fill_one ++ concat (replicate 31 evict_one).

Definition is_some {A} (o : option A) : bool := match o with Some _ => true | None => false end.

Definition hung : RSys memos memfs :=
  default pair_start (rrun_all 4 first_of hang_schedule pair_start).

Lemma hung_reached : rtc (rstep 4 first_of) pair_start hung.
Proof.
  apply (rrun_all_steps 4 first_of hang_schedule). unfold hung.
  assert (is_some (rrun_all 4 first_of hang_schedule pair_start) = true) as H by (vm_compute; reflexivity).
  by destruct (rrun_all 4 first_of hang_schedule pair_start).
Qed.

Lemma hung_stuck : stuck 4096 0 63 (m_present_pages (buf (eng (world (sys hung))))) hung.
Proof. split; vm_compute; first [reflexivity|discriminate]. Qed.

(** C33 (liveness).  [uunmap] of one of several regions can hang, with no other
    thread misbehaving: there is a schedule from a new engine after which, in
    every continuation, the unmapping thread waits for a page that is not its
    own any more, and since it holds the region manager's mutex no fault of the
    application on another region is ever served: the set of present pages does
    not change. *)
Theorem region_unmap_hangs :
  ∃ x y : RSys memos memfs, init 4 pair_cap pair_cfg (sys x) ∧ rpc x = RIdle ∧
    rtc (rstep 4 first_of) x y ∧
    ∀ z, rtc (rstep 4 first_of) y z →
      rpc z = RWaitFree 4096 0 63 ∧
      m_present_pages (buf (eng (world (sys z)))) = m_present_pages (buf (eng (world (sys y)))).
Proof.
  exists pair_start, hung. split; [exact pair_init|]. split; [done|]. split; [exact hung_reached|].
  intros z Hz. pose proof (stuck_forever 4 first_of _ _ _ _ _ _ hung_stuck Hz) as Hs.
  split; apply Hs.
Qed.
