(* ===== verification/Prefetch.v ===== *)
(** * Prefetching (umap_prefetch, RegionManager::prefetch)

    The pages an application asks for are handed to the fillers as if it had read
    them: each gets a descriptor and a place in the queue, and the invariant of
    the page bookkeeping is kept. *)

From stdpp Require Import base list numbers strings gmap.
From S2P Require Import Prelude PageDescriptor WorkQueue Store RegionDescriptor RegionMap.
From S2P Require Import Config Engine Buffer WaterMarks Uffd Workers BufferSpec BufferInv UmapApi.
From S2P Require Import System SystemInv SystemProps RegionEvict.
Local Open Scope Z_scope.

(** ** One page *)

Section prefetch.
Context (psize : nat) (cap : nat → Z) (Hpsize : (0 < psize)%nat).
Abbreviation psz := (Z.of_nat psize).
Abbreviation binv := (binv psize cap).

(** an aligned address of an active region that is not resident *)
Definition fetchable_page (c : Core) (a : Z) : Prop :=
  a mod psz = 0 ∧ c_present c !! a = None ∧
  ∃ r d, heap (c_regs c) !! r = Some d ∧ contains d a.

Lemma runs_containing_region a c r d :
  regs_ok psize cap (c_regs c) → heap (c_regs c) !! r = Some d → contains d a →
  ∃ it, runs (on_regs (containing_region a)) c (Some r) (set_regs (with_last_iter it (c_regs c)) c) ∧
    rm_wf (with_last_iter it (c_regs c)).
Proof.
  intros Hro Hd Hc. destruct (containing_region_run (c_regs c) a (ro_wf _ _ _ Hro)) as (it&E&Hwf).
  destruct (ro_live _ _ _ Hro _ _ Hd) as [k Hk].
  rewrite (region_at_spec _ _ _ _ _ (ro_wf _ _ _ Hro) Hk Hd Hc) in E.
  exists it. split; [|done]. intros e He. unfold on_regs, lift.
  replace (regs e) with (c_regs c) by (by rewrite <- He). rewrite E. eexists. split; [reflexivity|].
  by rewrite <- He.
Qed.

(** the effect of one call of [process_page] *)
Lemma process_page_fills contended a c hf he i :
  binv c hf he → fetchable_page c a → back (c_free c) = Some i →
  ∃ it r d, let c1 := set_regs (with_last_iter it (c_regs c)) c in
    heap (c_regs c) !! r = Some d ∧ contains d a ∧
    runs (process_page contended false a) c tt (inserted c1 a false r d i) ∧
    binv (inserted c1 a false r d i) (i :: hf) he.
Proof.
  intros Hb (Hal&Habs&r&d&Hd&Hc) Hi. pose proof (b_regs _ _ _ _ _ Hb) as Hro.
  destruct (runs_containing_region a c r d Hro Hd Hc) as (it&Hrun&Hwf).
  exists it, r, d. cbv zeta. set (c1 := set_regs _ c).
  assert (binv c1 hf he) as Hb1 by (by apply binv_last_iter).
  assert (i ∈ c_free c1) as Hif by (apply back_Some_inv in Hi; cbn; rewrite Hi; set_solver).
  destruct (binv_free_pd _ _ _ _ _ Hb1 i Hif) as (p&Hp&Sp).
  split_and!; [done|done| |].
  - eapply runs_bind; [exact Hrun|]. cbv beta iota. pose proof (b_mutex _ _ _ _ _ Hb1) as Hm.
    eapply runs_bind; [by apply runs_lock|]. by apply (fault_miss c1 a false r d i p).
  - apply binv_inserted; [done|done| |done|done].
    by apply (aligned_region_page psize cap (c_regs c) r).
Qed.

(** ** A list of pages *)

(** [pds] are the descriptors the pages get: the last ones of the free list *)
Record prefetched (pages : list Z) (pds : list nat) (c c' : Core) : Prop := {
  pf_free : c_free c = c_free c' ++ reverse pds;
  pf_busy : c_busy c' = reverse pds ++ c_busy c;
  pf_queue : c_fillq c' = c_fillq c ++ ((λ i, mkWork (Some i) NONE) <$> pds);
  pf_pages : Forall2 (λ a i, c_present c' !! a = Some i ∧ ∃ r d,
    heap (c_regs c') !! r = Some d ∧ contains d a ∧ c_array c' !! i = Some (new_pd a false r)) pages pds;
  pf_others : ∀ a, a ∉ pages → c_present c' !! a = c_present c !! a;
  pf_kept : ∀ i, i ∉ pds → c_array c' !! i = c_array c !! i;
  pf_regions : ∀ r d, heap (c_regs c) !! r = Some d →
    ∃ s, heap (c_regs c') !! r = Some (with_active s d)
}.

Lemma prefetched_nil c : prefetched [] [] c c.
Proof.
  split; try done; [by rewrite app_nil_r|by rewrite fmap_nil, app_nil_r|].
  intros r d Hd. exists (m_active_pages d). by destruct d.
Qed.

Lemma prefetched_cons a pages pds c it r d i c' hf he :
  let c1 := set_regs (with_last_iter it (c_regs c)) c in
  let c2 := inserted c1 a false r d i in
  binv c hf he → a ∉ pages → back (c_free c) = Some i → heap (c_regs c) !! r = Some d → contains d a →
  prefetched pages pds c2 c' → prefetched (a :: pages) (i :: pds) c c'.
Proof.
  intros c1 c2 Hb Ha Hi Hd Hc [H1 H2 H3 H4 H5 H6 H7]. apply back_Some_inv in Hi.
  assert (c_free c2 = pop_back (c_free c)) as Ef by done.
  assert (i ∉ pds) as Hni.
  { intros Hin. pose proof (binv_nodup _ _ _ _ _ Hb) as Hnd. apply NoDup_app in Hnd as [Hnd _].
    rewrite Hi in Hnd. apply NoDup_app in Hnd as (_&Hnd&_). apply (Hnd i); [|by left].
    rewrite <- Ef, H1. apply elem_of_app. right. by apply elem_of_reverse. }
  assert (is_Some (c_array c !! i)) as [p Hp].
  { apply (binv_valid _ _ _ _ _ Hb). rewrite Hi. set_solver. }
  split.
  - rewrite Hi, <- Ef, H1, reverse_cons. by rewrite app_assoc.
  - rewrite H2, reverse_cons, <- app_assoc. done.
  - rewrite H3, fmap_cons. change (c_fillq c2) with (c_fillq c ++ [mkWork (Some i) NONE]).
    by rewrite <- app_assoc.
  - constructor; [|done]. split; [rewrite H5 by done; apply lookup_insert_eq|].
    destruct (H7 r (insert_page_descriptor i d)) as [s Hs]; [apply lookup_insert_eq|].
    exists r, (with_active s (insert_page_descriptor i d)). split_and!; [done|done|].
    rewrite H6 by done. apply list_lookup_insert_eq. by eapply lookup_lt_Some.
  - intros b Hba. apply not_elem_of_cons in Hba as [Hne Hb']. rewrite H5 by done. by apply lookup_insert_ne.
  - intros j Hj. apply not_elem_of_cons in Hj as [Hne Hj]. rewrite H6 by done. by apply list_lookup_insert_ne.
  - intros r' d' Hd'. destruct (decide (r = r')) as [<-|Hne].
    + assert (d' = d) as -> by congruence.
      destruct (H7 r (insert_page_descriptor i d)) as [s Hs]; [apply lookup_insert_eq|]. by exists s.
    + apply H7. cbn. by rewrite lookup_insert_ne.
Qed.
Lemma fetchable_inserted a b c it r d i :
  fetchable_page c b → b ≠ a → heap (c_regs c) !! r = Some d →
  fetchable_page (inserted (set_regs (with_last_iter it (c_regs c)) c) a false r d i) b.
Proof.
  intros (Hal&Habs&r'&d'&Hd'&Hc) Hne Hd. split_and!; [done|cbn; by rewrite lookup_insert_ne|].
  cbn. destruct (decide (r = r')) as [<-|Hr].
  - exists r, (insert_page_descriptor i d). rewrite lookup_insert_eq. by simplify_eq.
  - exists r', d'. by rewrite lookup_insert_ne.
Qed.

Lemma process_pages_fill contended pages c hf he :
  binv c hf he → NoDup pages → Forall (fetchable_page c) pages →
  (length pages ≤ length (c_free c))%nat →
  ∃ pds c', runs (for_each pages (process_page contended false)) c tt c' ∧
    prefetched pages pds c c' ∧ binv c' (reverse pds ++ hf) he.
Proof.
  revert c hf. induction pages as [|a pages IH]; intros c hf Hb Hnd Hf Hlen.
  { exists [], c. split; [apply runs_ret|]. split; [apply prefetched_nil|done]. }
  apply NoDup_cons in Hnd as [Ha Hnd]. apply Forall_cons in Hf as [Hfa Hf]. simpl in Hlen.
  assert (∃ i, back (c_free c) = Some i) as [i Hi].
  { destruct (c_free c) as [|x l] using rev_ind; [simpl in Hlen; lia|]. exists x. apply back_snoc. }
  destruct (process_page_fills contended a c hf he i Hb Hfa Hi) as (it&r&d&Hd&Hc&Hrun&Hb2).
  destruct (IH _ _ Hb2 Hnd) as (pds&c'&Hrun'&Hpf&Hb').
  - apply Forall_forall. intros b Hin. rewrite Forall_forall in Hf.
    apply fetchable_inserted; [by apply Hf|by intros ->|done].
  - cbn. rewrite pop_back_length. lia.
  - exists (i :: pds), c'. split; [by eapply runs_bind|]. split; [by eapply prefetched_cons|].
    by rewrite reverse_cons, <- app_assoc.
Qed.

(** ** The call *)

Lemma for_each_indices {W} (l : list Z) (g : Z → M W unit) (s : W) :
  for_each (seqZ 0 (Z.of_nat (length l))) (λ i,
    match l !! Z.to_nat i with Some a => g a | None => undefined "out of range" end) s =
  for_each l g s.
Proof.
  cut (∀ k l' s, drop k l = l' → for_each (seqZ (Z.of_nat k) (Z.of_nat (length l'))) (λ i,
    match l !! Z.to_nat i with Some a => g a | None => undefined "out of range" end) s = for_each l' g s).
  { intros H. by apply (H 0%nat). }
  intros k l'. revert k. induction l' as [|a l' IH]; intros k s0 Hk; [done|].
  assert (l !! k = Some a) as Ha by (rewrite <- (Nat.add_0_r k), <- lookup_drop, Hk; done).
  assert (drop (S k) l = l') as Hk' by (rewrite <- Nat.add_1_r, <- drop_drop, Hk; done).
  simpl length. rewrite seqZ_cons by lia. cbn [for_each]. rewrite Nat2Z.id, Ha.
  unfold mbind, M_bind. destruct (g a s0) as [[] s1| | |]; try done. rewrite <- (IH (S k) s1 Hk').
  by replace (Z.succ (Z.of_nat k)) with (Z.of_nat (S k)) by lia;
    replace (Z.pred (Z.of_nat (S (length l')))) with (Z.of_nat (length l')) by lia.
Qed.

Lemma for_each_with_engine {O} (l : list Z) (g : Z → M Engine unit) (u : Umap O) e' :
  u_live u = true → for_each l g (u_eng u) = Ok tt e' →
  for_each l (λ a, with_engine (g a)) u = Ok tt (with_u_eng e' u).
Proof.
  revert u. induction l as [|a l IH]; intros u Hl E; simpl in E.
  { injection E as <-. by destruct u. }
  apply bind_Ok in E as ([]&e1&E1&E2). simpl. rewrite (bind_run _ _ _ tt (with_u_eng e1 u)).
  - by rewrite (IH (with_u_eng e1 u) Hl E2).
  - unfold with_engine. erewrite bind_run by reflexivity. rewrite Hl. unfold on_u_eng, zoom. by rewrite E1.
Qed.

(** C20 (functional).  [umap_prefetch] of distinct aligned pages of active regions that
    are not resident, with as many free descriptors: the call returns without
    waiting, every page has a descriptor of its own from the end of the free
    list, in state FILLING and clean, the fillers get the descriptors in the
    order of the array, no other page is touched, and the page bookkeeping stays
    consistent with the new descriptors in the hands of the fillers. *)
Theorem prefetch_fills {O} contended pages (u : Umap O) hf he :
  let c := core (u_eng u) in
  u_live u = true → binv c hf he → NoDup pages → Forall (fetchable_page c) pages →
  (length pages ≤ length (c_free c))%nat →
  ∃ pds u', umap_prefetch contended (Z.of_nat (length pages)) pages u = Ok tt u' ∧
    prefetched pages pds c (core (u_eng u')) ∧ binv (core (u_eng u')) (reverse pds ++ hf) he ∧
    u' = with_u_eng (u_eng u') u.
Proof.
  intros c Hl Hb Hnd Hf Hlen.
  destruct (process_pages_fill contended pages c hf he Hb Hnd Hf Hlen) as (pds&c'&Hrun&Hpf&Hb').
  destruct (Hrun (u_eng u) eq_refl) as (e'&E&<-). exists pds, (with_u_eng e' u). split_and!; try done.
  unfold umap_prefetch, prefetch.
  rewrite (for_each_indices pages (λ a, with_engine (process_page contended false a)) u).
  by apply for_each_with_engine.
Qed.
End prefetch.

(** An array shorter than the number of pages is read past its end. *)
Lemma prefetch_past_end {O} contended (u : Umap O) n :
  0 < n → is_ub (umap_prefetch contended n [] u) = true.
Proof. intros Hn. unfold umap_prefetch, prefetch. by rewrite seqZ_cons by lia. Qed.

(** ** Witness: the first page of the small region and the second of the large
    one, on the new engine of RegionEvict.v *)

#[local] Existing Instance pair_bank.
#[local] Existing Instance pair_bank_laws.

Definition prefetch_umap : Umap unit := mkUmap pair_cfg true (eng (world pair_sys)) [] tt 0.

Lemma prefetch_fills_witness :
  ∃ pds u', umap_prefetch false 2 [8196; 4096] prefetch_umap = Ok tt u' ∧
    prefetched [8196; 4096] pds (core (u_eng prefetch_umap)) (core (u_eng u')).
Proof.
  destruct (prefetch_fills 4 pair_cap ltac:(lia) false [8196; 4096] prefetch_umap [] [])
    as (pds&u'&E&Hp&_); [reflexivity| | | | |by exists pds, u'].
  - apply (i_binv _ _ _ (init_sinv 4 pair_cap pair_cfg pair_sys pair_init)).
  - decide_now.
  - repeat constructor; [exists 1%nat, large_region|exists 0%nat, small_region]; split; by vm_compute.
  - cbn. lia.
Defined.
