(* ===== verification/Stranded.v ===== *)
(** * Page descriptors lost by unmapping a region

    [Buffer::evict_region] defers the pages it evicts: their descriptors are not
    put on the free list when the pages are gone, but left in the deque of busy
    pages for the eviction daemon.  The daemon skips them.  So a descriptor that
    was deferred stays out of use until the last region is unmapped, under every
    schedule of the threads of System.v and of RegionEvict.v. *)

From stdpp Require Import base list numbers strings gmap.
From Stdlib Require Import Strings.Byte.
From S2P Require Import Prelude PageDescriptor WorkQueue Store RegionDescriptor RegionMap.
From S2P Require Import Config Engine Buffer WaterMarks Eviction Uffd Workers BufferSpec BufferInv.
From S2P Require Import System SystemInv SystemProps RegionEvict.
Local Open Scope Z_scope.

(** ** Invariants of operations *)

(** [m] keeps [I], and its result satisfies [Q] *)
Definition preserves {S A} (I : S → Prop) (m : M S A) (Q : A → Prop) : Prop :=
  ∀ s, I s → match m s with
             | Ok a s' => I s' ∧ Q a
             | Block _ s' => I s'
             | _ => True
             end.

Section rules.
Context {S : Type} (I : S → Prop).

Lemma pres_ret {A} (a : A) (Q : A → Prop) : Q a → preserves I (mret a) Q.
Proof. by intros Ha s Hs. Qed.
Lemma pres_bind {A B} (m : M S A) (f : A → M S B) R Q :
  preserves I m R → (∀ a, R a → preserves I (f a) Q) → preserves I (m ≫= f) Q.
Proof.
  intros Hm Hf s Hs. specialize (Hm s Hs). unfold mbind, M_bind. destruct (m s); try done.
  destruct Hm as [Hi Hr]. by apply Hf.
Qed.
Lemma pres_get {B} (f : S → M S B) Q :
  (∀ s, I s → preserves I (f s) Q) → preserves I (get ≫= f) Q.
Proof. intros Hf s Hs. by apply (Hf s Hs s). Qed.
Lemma pres_modify f : (∀ s, I s → I (f s)) → preserves I (modify f) (λ _, True).
Proof. intros Hf s Hs. split; [by apply Hf|done]. Qed.
Lemma pres_throw {A} msg (Q : A → Prop) : preserves I (throw msg) Q.
Proof. done. Qed.
Lemma pres_block {A} c (Q : A → Prop) : preserves I (block c) Q.
Proof. by intros s Hs. Qed.
Lemma pres_undefined {A} why (Q : A → Prop) : preserves I (undefined why) Q.
Proof. done. Qed.
Lemma pres_when b m : preserves I m (λ _, True) → preserves I (when b m) (λ _, True).
Proof. destruct b; [done|]. intros _. by apply pres_ret. Qed.
Lemma pres_weaken {A} (m : M S A) (Q Q' : A → Prop) :
  preserves I m Q → (∀ a, Q a → Q' a) → preserves I m Q'.
Proof. intros Hm HQ s Hs. specialize (Hm s Hs). destruct (m s); naive_solver. Qed.
(** in sequence, when the first result does not matter *)
Lemma pres_seq {A B} (m : M S A) (m' : M S B) Q :
  preserves I m (λ _, True) → preserves I m' Q → preserves I (m ;; m') Q.
Proof. intros Hm Hm'. eapply pres_bind; [exact Hm|]. by intros. Qed.
End rules.

Lemma pres_zoom {W S A} (proj : W → S) (upd : S → W → W) (J : W → Prop) (I : S → Prop) (m : M S A) Q :
  (∀ w, J w → I (proj w)) → (∀ w s, J w → I s → J (upd s w)) →
  preserves I m Q → preserves J (zoom proj upd m) Q.
Proof.
  intros H1 H2 Hm w Hw. specialize (Hm _ (H1 w Hw)). unfold zoom.
  destruct (m (proj w)); naive_solver.
Qed.

Create HintDb pres.
#[export] Hint Resolve pres_ret pres_throw pres_block pres_undefined pres_when : pres.

(** ** A descriptor out of use *)

Section frame.
Context (i : nat).

(** deferred and FREE, still in the deque of busy pages, and nobody knows it *)
Record out_of_use (e : Engine) : Prop := {
  ou_pd : ∃ p, m_array (buf e) !! i = Some p ∧ state p = FREE ∧ deferred p = true;
  ou_busy : i ∈ m_busy_pages (buf e);
  ou_free : i ∉ m_free_pages (buf e);
  ou_active : ∀ r d, heap (regs e) !! r = Some d → i ∉ m_active_pages d;
  ou_fillq : Forall (λ w, page_desc w ≠ Some i) (m_queue (fill_wq e));
  ou_evictq : Forall (λ w, page_desc w ≠ Some i) (m_queue (evict_wq e))
}.

Abbreviation keeps_out m Q := (preserves out_of_use m Q).
Abbreviation any := (λ _, True).

(** changes to the rest of the buffer *)
Lemma out_modify_buf f :
  (∀ b, m_array (f b) = m_array b ∧ m_busy_pages (f b) = m_busy_pages b ∧
        m_free_pages (f b) = m_free_pages b) →
  keeps_out (modify_buf f) any.
Proof.
  intros Hf. apply pres_modify. intros e [Hp Hb Hfr Ha Hq1 Hq2].
  destruct (Hf (buf e)) as (E1&E2&E3). split; simpl; rewrite ?E1, ?E2, ?E3; done.
Qed.
Lemma out_lock c : keeps_out (lock c) any.
Proof.
  apply pres_get. intros e _. destruct (m_mutex _); [auto with pres|].
  apply pres_seq; [by apply out_modify_buf|]. apply pres_seq; [apply pres_when|]; by apply out_modify_buf.
Qed.
Lemma out_unlock : keeps_out unlock any.
Proof. by apply out_modify_buf. Qed.
Lemma out_broadcast : keeps_out broadcast_state_change any.
Proof. apply pres_get. intros e _. apply pres_when. by apply out_modify_buf. Qed.
Lemma out_sleep {A} (Q : A → Prop) : keeps_out sleep_state_change Q.
Proof. do 4 (apply pres_seq; [by apply out_modify_buf|]). auto with pres. Qed.
Lemma out_wake : keeps_out wake_state_change any.
Proof.
  apply pres_get. intros e _. destruct (m_mutex _); [auto with pres|].
  do 2 (apply pres_seq; [by apply out_modify_buf|]). by apply out_modify_buf.
Qed.
Lemma out_sleep_avail {A} (Q : A → Prop) : keeps_out sleep_avail_pd Q.
Proof. do 6 (apply pres_seq; [by apply out_modify_buf|]). auto with pres. Qed.
Lemma out_wake_avail : keeps_out wake_avail_pd any.
Proof.
  apply pres_get. intros e _. destruct (m_mutex _); [auto with pres|].
  do 2 (apply pres_seq; [by apply out_modify_buf|]). by apply out_modify_buf.
Qed.
Local Hint Resolve out_lock out_unlock out_broadcast out_sleep out_wake out_sleep_avail out_wake_avail : pres.

(** other descriptors *)
Lemma out_get_pd j : keeps_out (get_pd j) (λ p, j = i → state p = FREE ∧ deferred p = true).
Proof.
  apply pres_get. intros e He. destruct (m_array (buf e) !! j) as [p|] eqn:Ep; [|auto with pres].
  apply pres_ret. intros ->. destruct (ou_pd _ He) as (q&Eq&?). by simplify_eq.
Qed.
Lemma out_on_pd j m : j ≠ i → keeps_out (on_pd j m) any.
Proof.
  intros Hne. eapply pres_bind; [apply out_get_pd|]. intros p _.
  assert (∀ p' e, out_of_use e → out_of_use (put_pd j p' e)) as Hput.
  { intros p' e [(q&Eq&?) ? ? ? ? ?]. split; try done. exists q. simpl.
    by rewrite list_lookup_insert_ne. }
  destruct (m p) as [[] p'| | |]; [by apply pres_modify, Hput|done|by intros e He; apply Hput|done].
Qed.
Lemma out_modify_pd j f : j ≠ i → keeps_out (modify_pd j f) any.
Proof. apply out_on_pd. Qed.
Local Hint Resolve out_on_pd out_modify_pd : pres.

Lemma out_modify_rd r f :
  (∀ d, i ∉ m_active_pages d → i ∉ m_active_pages (f d)) → keeps_out (modify_rd r f) any.
Proof.
  intros Hf. apply pres_get. intros e He. destruct (heap (regs e) !! r) as [d|] eqn:Er; [|auto with pres].
  apply pres_modify. intros e' He'. pose proof (ou_active _ He _ _ Er) as Hd. destruct He'. split; try done.
  simpl. intros r' d' [[<- <-]|[_ ?]]%lookup_insert_Some; [auto|eauto].
Qed.

(** queues *)
Lemma out_send_fill w : page_desc w ≠ Some i → keeps_out (on_fill (send_work w)) any.
Proof.
  intros Hw e [? ? ? ? ? ?]. split; [|done]. split; try done. simpl. apply Forall_app. by split; [|constructor].
Qed.
Lemma out_send_evict w : page_desc w ≠ Some i → keeps_out (on_evict (send_work w)) any.
Proof.
  intros Hw e [? ? ? ? ? ?]. split; [|done]. split; try done. simpl. apply Forall_app. by split; [|constructor].
Qed.
Lemma out_mgr {A} (m : M (WorkQueue WorkItem) A) : keeps_out (on_mgr m) any.
Proof. intros e He. unfold on_mgr, lift. destruct (m (mgr_wq e)); [split|..]; try done; by destruct He. Qed.

(** what a worker takes is not the descriptor *)
Definition other (w : WorkItem) : Prop := page_desc w ≠ Some i.

Lemma dequeue_other (m : M (WorkQueue WorkItem) WorkItem) :
  m = get_work ∨ m = dequeue_resume →
  preserves (λ q, Forall other (m_queue q)) m other.
Proof.
  assert (preserves (λ q, Forall other (m_queue q)) dequeue_loop other) as Hl.
  { apply pres_get. intros q Hq. destruct (m_queue q) as [|w l] eqn:Eq.
    - apply pres_seq; [apply pres_when; by apply pres_modify|].
      apply pres_seq; [by apply pres_modify|auto with pres].
    - apply Forall_cons in Hq as [Hw Hl]. apply pres_seq; [by apply pres_modify|].
      apply pres_seq; [by apply pres_modify|]. by apply pres_ret. }
  intros [->| ->]; (apply pres_seq; [by apply pres_modify|exact Hl]).
Qed.
Lemma out_take_fill m : m = get_work ∨ m = dequeue_resume → keeps_out (on_fill m) other.
Proof.
  intros Hm e He. pose proof (dequeue_other m Hm _ (ou_fillq _ He)) as H. unfold on_fill, lift.
  destruct (m (fill_wq e)); try done; [destruct H as [H ?]; split; [|done]|]; destruct He; by split.
Qed.
Lemma out_take_evict m : m = get_work ∨ m = dequeue_resume → keeps_out (on_evict m) other.
Proof.
  intros Hm e He. pose proof (dequeue_other m Hm _ (ou_evictq _ He)) as H. unfold on_evict, lift.
  destruct (m (evict_wq e)); try done; [destruct H as [H ?]; split; [|done]|]; destruct He; by split.
Qed.

(** *** The operations of the buffer *)

Lemma out_mark_present c j : j ≠ i → keeps_out (mark_page_as_present c j) any.
Proof. intros Hj. repeat (apply pres_seq; [auto with pres|]). auto with pres. Qed.

Lemma out_release j : j ≠ i → keeps_out (release_page_descriptor j) any.
Proof.
  intros Hj. apply pres_seq.
  - apply pres_modify. intros e [? ? Hf ? ? ?]. split; try done. simpl. set_solver.
  - apply pres_get. intros e _. apply pres_when. by apply out_modify_buf.
Qed.

Lemma out_mark_free c j : j ≠ i → keeps_out (mark_page_as_free c j) any.
Proof.
  intros Hj. apply pres_seq; [auto with pres|]. eapply pres_bind; [apply out_get_pd|]. intros p _.
  apply pres_seq.
  { destruct (region p); [|auto with pres]. apply out_modify_rd. intros d. simpl. set_solver. }
  apply pres_seq; [by apply out_modify_buf|]. apply pres_seq; [auto with pres|].
  apply pres_seq; [auto with pres|]. apply pres_seq; [by apply pres_when, out_release|].
  apply pres_seq; [auto with pres|]. apply pres_seq; auto with pres.
Qed.

Lemma out_wait j st : keeps_out (wait_for_page_state j st) any.
Proof.
  eapply pres_bind; [apply out_get_pd|]. intros p _. case_bool_decide; auto with pres.
Qed.

Lemma out_schedule j : j ≠ i → keeps_out (schedule_eviction j) any.
Proof. intros Hj. apply out_send_evict. simpl. congruence. Qed.

Lemma out_dispatch j : j ≠ i → keeps_out (dispatch j) any.
Proof.
  intros Hj. apply pres_seq; [apply out_send_fill; simpl; congruence|].
  apply pres_get. intros e _. apply pres_seq; [apply pres_when, out_mgr|].
  apply pres_seq; [by apply out_modify_buf|auto with pres].
Qed.

Lemma out_get_page_descriptor a r : keeps_out (get_page_descriptor a r) (λ j, j ≠ i).
Proof.
  apply pres_get. intros e He. destruct (back (m_free_pages (buf e))) as [j|] eqn:Eb; [|auto with pres].
  assert (j ≠ i) as Hj.
  { intros ->. apply (ou_free _ He). apply back_Some_inv in Eb. rewrite Eb. set_solver. }
  apply pres_seq.
  { apply pres_modify. intros e' [? ? Hf ? ? ?]. split; try done. simpl. intros Hin. apply Hf.
    rewrite <- (take_drop (pred (length (m_free_pages (buf e')))) (m_free_pages (buf e'))).
    apply elem_of_app. by left. }
  do 6 (apply pres_seq; [auto with pres|]). apply pres_seq; [by apply out_modify_buf|].
  apply pres_seq; [|by apply pres_ret].
  apply pres_modify. intros e' [? ? ? ? ? ?]. split; try done. simpl. set_solver.
Qed.

Lemma out_fault_new a w r : keeps_out (fault_new a w r) any.
Proof.
  eapply pres_bind; [apply out_get_page_descriptor|]. intros j Hj. apply pres_seq; [auto with pres|].
  apply pres_seq; [apply out_modify_rd; intros d; simpl; set_solver|].
  eapply pres_bind; [apply out_get_pd|]. intros p _. apply pres_seq; [by apply out_modify_buf|].
  apply pres_seq; [apply pres_when; auto with pres|by apply out_dispatch].
Qed.

Lemma out_fault_body a w r : keeps_out (fault_body a w r) any.
Proof.
  eapply (pres_bind _ _ _ (λ o, o ≠ Some i)).
  - apply pres_get. intros e He. destruct (_ !! a) as [j|]; [|by apply pres_ret].
    eapply pres_bind; [apply out_get_pd|]. intros p Hp. case_bool_decide as Sp; [|auto with pres].
    apply pres_ret. intros [= ->]. destruct (Hp eq_refl). congruence.
  - intros [j|] Hj; [|apply out_fault_new]. assert (j ≠ i) as Hne by congruence.
    eapply pres_bind; [apply out_get_pd|]. intros p _. destruct (w && _).
    + apply pres_seq; [auto with pres|]. apply pres_seq; [auto with pres|by apply out_dispatch].
    + apply pres_seq; [auto with pres|]. apply pres_seq; [|auto with pres].
      apply pres_modify. intros e He. case_bool_decide; by destruct He.
Qed.

Lemma out_containing a : keeps_out (on_regs (containing_region a)) any.
Proof.
  set (J := λ rm, ∀ r d, heap rm !! r = Some d → i ∉ m_active_pages d).
  apply (pres_zoom regs with_regs _ J); [by intros e []|intros e rm [] Hrm; by split|].
  assert (preserves J (search_region a) any) as Hs.
  { apply pres_get. intros rm _. destruct (before_upper_bound _ _) as [[k r]|]; [|auto with pres].
    destruct (heap rm !! r); [|auto with pres]. destruct (_ && _); [|auto with pres].
    apply pres_seq; [by apply pres_modify|auto with pres]. }
  apply pres_get. intros rm _. destruct (m_last_iter rm); [|done].
  destruct (deref rm _) as [[r rd]|]; [|auto with pres]. destruct (_ && _); [auto with pres|done].
Qed.

(** *** The scan of the eviction daemon

    It takes the pages off the end of the deque; the descriptor, which is not
    evictable, goes to the pages that are put back. *)

Definition scan_inv (pend : list nat) (e : Engine) : Prop :=
  (∃ p, m_array (buf e) !! i = Some p ∧ state p = FREE ∧ deferred p = true) ∧
  (i ∈ m_busy_pages (buf e) ∨ i ∈ pend).

(** the members the scan leaves alone *)
Definition same_rest (e e' : Engine) : Prop :=
  m_free_pages (buf e') = m_free_pages (buf e) ∧ regs e' = regs e ∧
  fill_wq e' = fill_wq e ∧ evict_wq e' = evict_wq e.

Lemma scan_out fuel idx n ev pend e r e' :
  idx = u64 (Z.of_nat (length (m_busy_pages (buf e))) - 1) →
  Z.of_nat (length (m_busy_pages (buf e))) < 2 ^ 64 →
  scan_inv pend e → i ∉ ev → evict_scan fuel idx n ev pend e = Ok r e' →
  scan_inv r.2 e' ∧ i ∉ r.1 ∧ same_rest e e'.
Proof.
  revert idx n ev pend e. induction fuel as [|fuel IH]; intros idx n ev pend e Hidx Hlen Hi Hev E; [done|].
  cbn [evict_scan] in E. destruct (_ && _); [|by injection E as <- <-].
  erewrite bind_run in E by reflexivity.
  destruct (m_busy_pages (buf e) !! Z.to_nat idx) as [pd|] eqn:Epd; [|done].
  assert (m_busy_pages (buf e) = pop_back (m_busy_pages (buf e)) ++ [pd]) as Hpop.
  { apply back_Some_inv. unfold back. rewrite last_lookup, <- Epd. f_equal. subst idx.
    apply lookup_lt_Some in Epd. destruct (m_busy_pages (buf e)); [simpl in Epd; lia|].
    rewrite u64_small by (unfold is_u64; simpl length in *; lia). simpl length. lia. }
  set (b := pop_back (m_busy_pages (buf e))) in *.
  assert (length (m_busy_pages (buf e)) = S (length b)) as Hl by (rewrite Hpop, length_app; simpl; lia).
  assert (u64 (idx - 1) = u64 (Z.of_nat (length b) - 1)) as Hidx'.
  { subst idx. rewrite Hl. rewrite (u64_small (Z.of_nat (S (length b)) - 1)) by (unfold is_u64; lia).
    f_equal. lia. }
  destruct (m_array (buf e) !! pd) as [p|] eqn:Eq.
  2:{ apply bind_Ok in E as (p&e1&Ep&_). unfold get_pd, mbind, M_bind, get in Ep. by rewrite Eq in Ep. }
  rewrite (bind_run _ _ _ _ _ (get_pd_run pd e p Eq)) in E.
  destruct Hi as [(pi&Epi&Si&Di) Hin]. destruct (evictable p) eqn:Eev.
  - assert (pd ≠ i) as Hne.
    { intros ->. assert (p = pi) as -> by congruence. unfold evictable in Eev. by rewrite Di in Eev. }
    erewrite bind_run in E by reflexivity. erewrite bind_run in E by by apply modify_pd_run.
    erewrite bind_run in E by reflexivity.
    apply IH in E as (H1&H2&H3&H4&H5&H6); [|done|simpl; fold b; lia| |set_solver].
    + split; [done|]. split; [done|]. by split_and!.
    + split; [exists pi; simpl; by rewrite list_lookup_insert_ne|]. simpl. fold b. rewrite Hpop in Hin.
      destruct Hin; set_solver.
  - erewrite bind_run in E by reflexivity.
    apply IH in E as (H1&H2&H3&H4&H5&H6); [|done|simpl; fold b; lia| |done].
    + split; [done|]. split; [done|]. by split_and!.
    + split; [by exists pi|]. simpl. fold b. rewrite Hpop in Hin. destruct Hin; set_solver.
Qed.

Lemma out_evict_oldest c e l e' :
  out_of_use e → Z.of_nat (length (m_busy_pages (buf e))) < 2 ^ 64 →
  evict_oldest_pages c e = Ok l e' → out_of_use e' ∧ i ∉ l.
Proof.
  intros He Hlen E. unfold evict_oldest_pages in E. apply bind_Ok in E as ([]&e1&El&E).
  assert (out_of_use e1 ∧ m_busy_pages (buf e1) = m_busy_pages (buf e)) as [He1 Eb].
  { destruct (m_mutex (buf e)) eqn:Em; [by rewrite (lock_held c e Em) in El|].
    destruct (lock_run e c Em) as [st Hl]. rewrite Hl in El. injection El as <-. by destruct He. }
  rewrite <- Eb in Hlen. clear He El Eb. erewrite bind_run in E by reflexivity. cbv zeta in E.
  pose proof (ou_busy _ He1) as Hb. set (n := length (m_busy_pages (buf e1))) in *.
  assert (0 < n)%nat as Hn by (subst n; destruct (m_busy_pages (buf e1)); [set_solver|simpl; lia]).
  rewrite bool_decide_true in E by done. apply bind_Ok in E as ([ev pend]&e2&Es&E).
  apply scan_out in Es as (((p&Ep&?&?)&Hin)&Hev&H1&H2&H3&H4).
  - inv_ok. unfold unlock, modify_buf in *. inv_ok. split; [|done]. simpl in *.
    destruct He1. split; simpl; rewrite ?H1, ?H2, ?H3, ?H4; try done; [by exists p|set_solver].
  - rewrite u64_small; [done|]. unfold is_u64. fold n. lia.
  - done.
  - split; [apply He1|by left].
  - set_solver.
Qed.
End frame.

(** ** The threads *)

Lemma pres_true {S A} (m : M S A) : preserves (λ _, True) m (λ _, True).
Proof. intros s _. by destruct (m s). Qed.

Section threads.
Context {O St : Type} `{!UffdOS O} `{!StoreBank St} (psize : nat) (i : nat).
Abbreviation World := (World O St).
Abbreviation Sys := (Sys O St).
Abbreviation any := (λ _, True).

Definition world_out (w : World) : Prop := out_of_use i (eng w).

Lemma out_eng {A} (m : M Engine A) Q : preserves (out_of_use i) m Q → preserves world_out (on_eng m) Q.
Proof. by apply pres_zoom. Qed.
Lemma out_kernel {A} (m : M O A) : preserves world_out (on_kernel m) any.
Proof. apply (pres_zoom _ _ _ any); [done|done|apply pres_true]. Qed.
Lemma out_disk {A} (m : M St A) : preserves world_out (on_disk m) any.
Proof. apply (pres_zoom _ _ _ any); [done|done|apply pres_true]. Qed.
Local Hint Resolve out_kernel out_disk : pres.

Lemma out_store_location pd : preserves world_out (store_location pd) any.
Proof.
  eapply pres_bind; [apply out_eng, out_get_pd|]. intros p _. apply pres_get. intros w _.
  repeat case_match; auto with pres.
Qed.
Lemma out_fill_read pd b : preserves world_out (fill_read false psize pd b) any.
Proof.
  eapply pres_bind; [apply out_eng, out_get_pd|]. intros p _. destruct (_ && _).
  - apply pres_seq; auto with pres.
  - eapply pres_bind; [apply out_store_location|]. intros [st off] _.
    eapply pres_bind; [apply out_disk|]. intros [n data] _. case_bool_decide; auto with pres.
Qed.
Lemma out_fill_install pd b : pd ≠ i → preserves world_out (fill_install false pd b) any.
Proof.
  intros Hne. eapply pres_bind; [apply out_eng, out_get_pd|]. intros p _.
  apply pres_seq; [destruct (negb _); auto with pres|by apply out_eng, out_modify_pd].
Qed.
Lemma out_evict_protect pd : preserves world_out (evict_protect false pd) any.
Proof.
  eapply pres_bind; [apply out_eng, out_get_pd|]. intros p _. destruct (dirty p); [|auto with pres].
  apply pres_seq; [apply out_store_location|]. apply pres_seq; auto with pres.
Qed.
Lemma out_evict_write pd : preserves world_out (evict_write pd) any.
Proof.
  eapply pres_bind; [apply out_eng, out_get_pd|]. intros p _.
  eapply pres_bind; [apply out_store_location|]. intros [st off] _. apply pres_get. intros w _.
  destruct (load_page _ _); [|auto with pres]. eapply pres_bind; [apply out_disk|]. intros n _.
  case_bool_decide; auto with pres.
Qed.
Lemma out_evict_drop t pd : preserves world_out (evict_drop t pd) any.
Proof.
  unfold evict_drop. case_bool_decide; [auto with pres|].
  eapply pres_bind; [apply out_eng, out_get_pd|]. auto with pres.
Qed.
Lemma out_deref w : preserves world_out (deref_item w) (λ pd, page_desc w = Some pd).
Proof. unfold deref_item. destruct (page_desc w); auto with pres. Qed.

(** nobody works on the descriptor *)
Record sys_out (s : Sys) : Prop := {
  so_eng : out_of_use i (eng (world s));
  so_fill : Forall (λ pc, i ∉ (fill_claim pc).*1) (fpcs s);
  so_mgr : i ∉ (mgr_claim (mpc s)).*1;
  so_evict : Forall (λ pc, i ∉ (evict_claim pc).*1) (epcs s)
}.

Lemma out_world {A} (m : M World A) Q : preserves world_out m Q → preserves sys_out (on_world m) Q.
Proof. apply pres_zoom; [by intros s []|]. intros s w [] Hw. by split. Qed.
Lemma out_set_fpc k pc : i ∉ (fill_claim pc).*1 → preserves sys_out (set_fpc k pc) any.
Proof. intros Hpc. apply pres_modify. intros s []. split; try done. simpl. by apply Forall_insert. Qed.
Lemma out_set_epc k pc : i ∉ (evict_claim pc).*1 → preserves sys_out (set_epc k pc) any.
Proof. intros Hpc. apply pres_modify. intros s []. split; try done. simpl. by apply Forall_insert. Qed.
Lemma out_set_mpc pc : i ∉ (mgr_claim pc).*1 → preserves sys_out (set_mpc pc) any.
Proof. intros Hpc. apply pres_modify. intros s []. by split. Qed.
Lemma out_set_upc pc : preserves sys_out (set_upc pc) any.
Proof. apply pres_modify. intros s []. by split. Qed.

Lemma out_or_sleep {A} (m : M Sys A) k h R :
  preserves sys_out m R → (∀ a, R a → preserves sys_out (k a) any) →
  (∀ c m', h c = Some m' → preserves sys_out m' any) → preserves sys_out (or_sleep m k h) any.
Proof.
  intros Hm Hk Hh s Hs. specialize (Hm s Hs). unfold or_sleep.
  destruct (m s) as [a s'| |c s'|]; [destruct Hm; by apply Hk|done| |done].
  destruct (h c) eqn:Eh; [|done]. by apply (Hh _ _ Eh).
Qed.

Lemma out_queue_sleep h c m' :
  preserves sys_out h any → on_queue_sleep h c = Some m' → preserves sys_out m' any.
Proof. unfold on_queue_sleep. intros Hh. case_bool_decide; [by intros [= <-]|done]. Qed.

Lemma out_event m a w r l :
  preserves (out_of_use i) m any → preserves sys_out (event m a w r l) any.
Proof.
  intros Hm. eapply out_or_sleep; [by apply out_world, out_eng|intros; apply out_set_upc|].
  intros c m' E. destruct c; simplify_eq; apply out_set_upc.
Qed.

Lemma out_uffd c : preserves sys_out (uffd_run c) any.
Proof.
  apply pres_get. intros s _. destruct (upc s) as [[|[w a] l]|a w r l|a w r l|a w r l].
  - auto with pres.
  - eapply pres_bind; [apply out_world, out_eng, out_containing|]. intros o _. apply out_set_upc.
  - apply out_event. apply pres_seq; [apply out_lock|apply out_fault_body].
  - apply out_event. apply pres_seq; [apply out_wake|apply out_fault_body].
  - apply out_event. apply pres_seq; [apply out_wake_avail|apply out_fault_new].
Qed.

Lemma other_claim w : other i w → i ∉ (match page_desc w with Some j => [(j, TWait)] | None => [] end).*1.
Proof. unfold other. destruct (page_desc w); simpl; set_solver. Qed.
Lemma other_claim_evict w : other i w → i ∉ (match page_desc w with Some j => [(j, TLeave)] | None => [] end).*1.
Proof. unfold other. destruct (page_desc w); simpl; set_solver. Qed.

Lemma out_fill c k : preserves sys_out (fill_run psize c k) any.
Proof.
  apply pres_get. intros s Hs. destruct (fpcs s !! k) as [pc|] eqn:Ek; [|auto with pres].
  pose proof (Forall_lookup_1 _ _ _ _ (so_fill _ Hs) Ek) as Hpc. simpl in Hpc.
  assert (∀ m b, m = get_work ∨ m = dequeue_resume → preserves sys_out (fill_take m k b) any) as Htake.
  { intros m b Hm. eapply out_or_sleep; [by apply out_world, out_eng, out_take_fill| |].
    - intros w Hw. apply out_set_fpc. by apply other_claim.
    - intros c' m' E. eapply out_queue_sleep; [|exact E]. apply out_set_fpc. simpl. set_solver. }
  destruct pc as [b|b|w b|pd b|pd b|]; simpl in Hpc.
  - apply Htake. by left.
  - apply Htake. by right.
  - destruct (is_exit w); [apply out_set_fpc; simpl; set_solver|].
    eapply pres_bind; [apply out_world, out_deref|]. intros pd Epd. rewrite Epd in Hpc. simpl in Hpc.
    eapply pres_bind; [apply out_world, out_fill_read|]. intros o _. apply out_set_fpc.
    destruct o; simpl; set_solver.
  - apply pres_seq; [apply out_world, out_fill_install; set_solver|apply out_set_fpc; simpl; set_solver].
  - apply pres_seq; [apply out_world, out_eng, out_mark_present; set_solver|apply out_set_fpc; simpl; set_solver].
  - auto with pres.
Qed.

Lemma out_evict c k : preserves sys_out (evict_run c k) any.
Proof.
  apply pres_get. intros s Hs. destruct (epcs s !! k) as [pc|] eqn:Ek; [|auto with pres].
  pose proof (Forall_lookup_1 _ _ _ _ (so_evict _ Hs) Ek) as Hpc. simpl in Hpc.
  assert (∀ m, m = get_work ∨ m = dequeue_resume → preserves sys_out (evict_take m k) any) as Htake.
  { intros m Hm. eapply out_or_sleep; [by apply out_world, out_eng, out_take_evict| |].
    - intros w Hw. apply out_set_epc. by apply other_claim_evict.
    - intros c' m' E. eapply out_queue_sleep; [|exact E]. apply out_set_epc. simpl. set_solver. }
  destruct pc as [| |w|t pd|t pd|t pd|t pd|]; simpl in Hpc.
  - apply Htake. by left.
  - apply Htake. by right.
  - destruct (is_exit w); [apply out_set_epc; simpl; set_solver|].
    eapply pres_bind; [apply out_world, out_deref|]. intros pd Epd. rewrite Epd in Hpc. simpl in Hpc.
    eapply pres_bind; [apply out_world, out_evict_protect|]. intros d _. apply out_set_epc.
    destruct d; simpl; set_solver.
  - apply pres_seq; [apply out_world, out_evict_write|apply out_set_epc; simpl; set_solver].
  - apply pres_seq; [apply out_world, out_eng, out_modify_pd; set_solver|apply out_set_epc; simpl; set_solver].
  - case_bool_decide; [apply out_set_epc; simpl; set_solver|].
    apply pres_seq; [apply out_world, out_evict_drop|apply out_set_epc; simpl; set_solver].
  - apply pres_seq; [apply out_world, out_eng, out_mark_free; set_solver|apply out_set_epc; simpl; set_solver].
  - auto with pres.
Qed.

Lemma out_mgr_run c s s' :
  sys_out s → Z.of_nat (length (m_busy_pages (buf (eng (world s))))) < 2 ^ 64 →
  mgr_run c s = Ok tt s' → sys_out s'.
Proof.
  intros Hs Hlen E. unfold mgr_run in E. erewrite bind_run in E by reflexivity.
  assert (∀ m : M Sys unit, preserves sys_out m any → m s = Ok tt s' → sys_out s') as Hpres.
  { intros m Hm Em. specialize (Hm s Hs). rewrite Em in Hm. by destruct Hm. }
  assert (∀ m, mgr_take m s = Ok tt s' → sys_out s') as Htake.
  { intros m. apply Hpres. eapply out_or_sleep; [apply out_world, out_eng, out_mgr| |].
    - intros w _. apply out_set_mpc. destruct (is_exit w); simpl; set_solver.
    - intros c' m' Eh. eapply out_queue_sleep; [|exact Eh]. apply out_set_mpc. simpl. set_solver. }
  pose proof (so_mgr _ Hs) as Hm. destruct (mpc s) as [| | |[|pd l]|]; simpl in Hm; [by eapply Htake|by eapply Htake| | | |done].
  - apply bind_Ok in E as (o&s1&E1&E). unfold on_world, on_eng, zoom in E1.
    destruct (evict_mgr_round c (eng (world s))) as [l e'| | |] eqn:Er; try done. injection E1 as <- <-.
    unfold evict_mgr_round in Er. erewrite bind_run in Er by reflexivity.
    assert (out_of_use i e' ∧ match l with Some l => i ∉ l | None => True end) as [He' Hl].
    { destruct (low_threshold_reached _); [injection Er as <- <-; split; [apply Hs|done]|].
      apply bind_Ok in Er as (l0&e1&Eo&Er). injection Er as <- <-.
      by eapply out_evict_oldest; [apply Hs|exact Hlen|exact Eo]. }
    unfold set_mpc, modify in E. injection E as <-. destruct Hs. split; try done. simpl.
    destruct l as [l|]; simpl; [|set_solver]. by rewrite <- list_fmap_compose, list_fmap_id.
  - injection E as <-. destruct Hs. split; try done.
  - eapply Hpres; [|exact E]. rewrite <- list_fmap_compose in Hm.
    apply pres_seq; [apply out_world, out_eng, out_schedule; set_solver|].
    apply out_set_mpc. simpl. rewrite <- list_fmap_compose. set_solver.
Qed.

Lemma out_run t s s' :
  match t with TUnmap _ => False | _ => True end →
  Z.of_nat (length (m_busy_pages (buf (eng (world s))))) < 2 ^ 64 →
  sys_out s → run psize t s = Ok tt s' → sys_out s'.
Proof.
  intros Ht Hlen Hs E.
  assert (∀ m : M Sys unit, preserves sys_out m any → m s = Ok tt s' → sys_out s') as Hpres.
  { intros m Hm Em. specialize (Hm s Hs). rewrite Em in Hm. by destruct Hm. }
  destruct t as [msgs|c|c k|c|c k|a data|]; cbn [run] in E; [| | | | | |done].
  - eapply Hpres; [|exact E]. case_bool_decide; [|auto with pres]. apply pres_get. intros s0 _.
    destruct (in_use s0); [|auto with pres]. apply pres_get. intros s1 _.
    destruct (upc s1) as [[|]| | |]; auto using out_set_upc with pres.
  - eapply Hpres; [apply out_uffd|exact E].
  - eapply Hpres; [apply out_fill|exact E].
  - by eapply out_mgr_run.
  - eapply Hpres; [apply out_evict|exact E].
  - eapply Hpres; [|exact E]. case_bool_decide; [|auto with pres]. apply pres_get. intros s0 _.
    destruct (in_use s0); [|auto with pres]. apply pres_get. intros s1 _.
    destruct (store_page _ _ _) as [o|]; [|auto with pres].
    apply pres_seq; apply pres_modify; intros s2 []; by split.
Qed.

(** ** The unmapping thread *)

(** an [unordered_set] that is not empty has a first element *)
Definition picks (pick : gset nat → option nat) : Prop := ∀ X j, pick X = Some j → j ∈ X.

Context (pick : gset nat → option nat) (Hpick : picks pick).
Abbreviation RSys := (RSys O St).

(** the page the unmapping thread is about to mark *)
Definition claimed (pc : RegionPc) : option nat :=
  match pc with RPresent _ _ pd | RWaitPresent _ _ pd => Some pd | _ => None end.

Record stranded (x : RSys) : Prop := {
  sd_sys : sys_out (sys x);
  sd_rpc : claimed (rpc x) ≠ Some i
}.

Lemma out_sys {A} (m : M Sys A) Q : preserves sys_out m Q → preserves stranded (on_sys m) Q.
Proof. apply pres_zoom; [by intros x []|]. intros x s [] Hs. by split. Qed.
Lemma out_engine {A} (m : M Engine A) Q : preserves (out_of_use i) m Q → preserves stranded (on_engine m) Q.
Proof. intros Hm. by apply out_sys, out_world, out_eng. Qed.
Lemma out_set_rpc pc : claimed pc ≠ Some i → preserves stranded (set_rpc pc) any.
Proof. intros Hpc. apply pres_modify. intros x []. by split. Qed.

Lemma out_wait_piece m next slept :
  preserves (out_of_use i) m any → claimed next ≠ Some i → claimed slept ≠ Some i →
  preserves stranded (wait_piece m next slept) any.
Proof.
  intros Hm Hn Hsl x Hx. pose proof (out_engine m any Hm x Hx) as H. unfold wait_piece.
  destruct (on_engine m x) as [[] x'| |c x'|]; [|done| |done].
  - destruct H as [H _]. by apply out_set_rpc.
  - destruct c; try done. by apply out_set_rpc.
Qed.

Lemma out_leave_page pd : pd ≠ i → preserves (out_of_use i) (leave_page pd) any.
Proof.
  intros Hne. apply pres_seq; [apply out_wait|]. apply pres_seq; [by apply out_on_pd|by apply out_schedule].
Qed.

Lemma out_next r : preserves (out_of_use i) (get_next_page_descriptor pick r) (λ o, o ≠ Some i).
Proof.
  apply pres_get. intros e He. destruct (heap (regs e) !! r) as [d|] eqn:Er; [|auto with pres].
  destruct (pick (m_active_pages d)) as [pd|] eqn:Ep; [|by apply pres_ret].
  assert (pd ≠ i) as Hne by (intros ->; by apply (ou_active _ _ He _ _ Er), Hpick).
  apply pres_seq; [by apply out_modify_pd|]. apply pres_seq; [|apply pres_ret; congruence].
  apply out_modify_rd. intros d'. simpl. set_solver.
Qed.

Lemma out_region_loop k r : preserves stranded (region_loop pick k r) any.
Proof.
  apply pres_get. intros x _. destruct (heap _ !! r) as [d|]; [|auto with pres]. case_bool_decide.
  - apply pres_seq; [apply out_engine, out_unlock|by apply out_set_rpc].
  - eapply pres_bind; [apply out_engine, out_next|]. intros [pd|] Hpd; [|auto with pres].
    eapply pres_bind; [apply out_engine, out_get_pd|]. intros p _. case_bool_decide; [by apply out_set_rpc|].
    assert (pd ≠ i) by congruence. apply pres_seq; [by apply out_engine, out_modify_pd|].
    apply out_set_rpc. simpl. congruence.
Qed.

Lemma out_region_remove k r : preserves stranded (region_remove k r) any.
Proof.
  apply pres_get. intros x _. apply pres_seq; [|by apply out_set_rpc].
  destruct (heap _ !! r) as [d|]; [|auto with pres].
  apply pres_seq; [apply out_sys, out_world, out_kernel|].
  assert (∀ f, (∀ rm r' d', heap (f rm) !! r' = Some d' → heap rm !! r' = Some d') →
    preserves stranded (on_engine (modify (λ e, with_regs (f (regs e)) e))) any) as Hregs.
  { intros f Hf. apply out_engine, pres_modify. intros e []. split; try done. simpl. naive_solver. }
  apply pres_seq; [|apply pres_seq].
  - apply (Hregs (λ rm, with_heap (delete r (heap rm)) rm)). simpl. by intros rm r' d' [_ ?]%lookup_delete_Some.
  - by apply (Hregs (λ rm, with_regions (map_erase (m_active_regions rm) k) rm)).
  - by apply (Hregs (λ rm, with_last_iter None rm)).
Qed.

Lemma out_unmap c a : preserves stranded (unmap_region pick c a) any.
Proof.
  apply pres_get. intros x Hx. pose proof (sd_rpc _ Hx) as Hc.
  destruct (rpc x) as [|k r|k r|k r pd|k r pd|k r pd|k r pd|k r]; simpl in Hc.
  - destruct (map_find _ a); [|auto with pres]. case_bool_decide; [by apply out_set_rpc|auto with pres].
  - apply pres_seq; [apply out_engine, out_lock|by apply out_set_rpc].
  - apply out_region_loop.
  - apply out_wait_piece; [apply out_leave_page; congruence|done|done].
  - apply out_wait_piece; [|done|done].
    apply pres_seq; [apply out_wake|apply out_leave_page; congruence].
  - apply out_wait_piece; [apply out_wait|done|done].
  - apply out_wait_piece; [|done|done]. apply pres_seq; [apply out_wake|apply out_wait].
  - apply out_region_remove.
Qed.

Lemma stranded_step x x' : rstep psize pick x x' → stranded x → stranded x'.
Proof.
  intros (Hf&t&E) Hx. destruct t as [t|c a].
  - assert (match t with TUnmap _ => False | _ => True end ∧ on_sys (run psize t) x = Ok tt x') as [Ht Es].
    { destruct t; try done; cbn [rrun] in E; erewrite bind_run in E by reflexivity;
        (split; [done|]); by destruct (_ && _). }
    unfold on_sys, zoom in Es. destruct (run psize t (sys x)) as [[] s'| | |] eqn:Er; try done.
    injection Es as <-. destruct Hx as [Hs Hr]. split; [|done]. by eapply out_run.
  - pose proof (out_unmap c a x Hx) as H. cbn [rrun] in E. rewrite E in H. by destruct H.
Qed.

Lemma stranded_forever x x' : rtc (rstep psize pick) x x' → stranded x → stranded x'.
Proof. induction 1; eauto using stranded_step. Qed.

(** ** What [evict_region] costs *)

(** Evict worker [k] is about to finish the eviction of a page that
    [evict_region] has deferred: the page is still in the deque, it is not in its
    region's set any more, and no other thread works on it. *)
Record deferred_eviction (k : nat) (x : RSys) : Prop := {
  de_worker : ∃ t, epcs (sys x) !! k = Some (EGone t i);
  de_pd : ∃ p r d, m_array (buf (eng (world (sys x)))) !! i = Some p ∧ state p = LEAVING ∧
    deferred p = true ∧ region p = Some r ∧ heap (regs (eng (world (sys x)))) !! r = Some d;
  de_mutex : m_mutex (buf (eng (world (sys x)))) = false;
  de_busy : i ∈ m_busy_pages (buf (eng (world (sys x))));
  de_free : i ∉ m_free_pages (buf (eng (world (sys x))));
  de_active : ∀ r d, heap (regs (eng (world (sys x)))) !! r = Some d → i ∉ m_active_pages d;
  de_fillq : Forall (other i) (m_queue (fill_wq (eng (world (sys x)))));
  de_evictq : Forall (other i) (m_queue (evict_wq (eng (world (sys x)))));
  de_fill : Forall (λ pc, i ∉ (fill_claim pc).*1) (fpcs (sys x));
  de_mgr : i ∉ (mgr_claim (mpc (sys x))).*1;
  de_evict : ∀ j pc, epcs (sys x) !! j = Some pc → j ≠ k → i ∉ (evict_claim pc).*1;
  de_rpc : claimed (rpc x) ≠ Some i
}.

Lemma deferred_stranded k c x x' :
  deferred_eviction k x → rrun psize pick (RThread (TEvict c k)) x = Ok tt x' → stranded x'.
Proof.
  intros [[t Hk] (p&r&d&Hp&Sp&Hdef&Hr&Hd) Hm Hb Hf Ha Hq1 Hq2 Hfill Hmgr Hev Hrpc] E.
  cbn [rrun] in E. erewrite bind_run in E by reflexivity. unfold needs_manager in E.
  rewrite andb_false_r in E. unfold on_sys, zoom in E. cbn [run] in E.
  destruct (evict_run c k (sys x)) as [[] s'| | |] eqn:Er; try done. injection E as <-.
  unfold evict_run in Er. erewrite bind_run in Er by reflexivity. rewrite Hk in Er.
  destruct (mark_free_spec (core (eng (world (sys x)))) c Hm i p r d Hp Sp Hr Hd
    (eng (world (sys x))) eq_refl) as (e'&Ee&Ec).
  assert (on_world (evict_finish c i) (sys x) =
    Ok tt (with_world (with_eng e' (world (sys x))) (sys x))) as Ef
    by (apply zoom_run, zoom_run; exact Ee).
  rewrite (bind_run _ _ _ _ _ Ef) in Er. cbv [set_epc modify] in Er. injection Er as <-.
  pose proof (f_equal c_array Ec) as E1. pose proof (f_equal c_busy Ec) as E2.
  pose proof (f_equal c_free Ec) as E3. pose proof (f_equal c_regs Ec) as E4.
  pose proof (f_equal c_fillq Ec) as E5. pose proof (f_equal c_evictq Ec) as E6.
  cbn in E1, E2, E3, E4, E5, E6. rewrite Hdef in E3.
  split; [|done]. split; cbn; try done.
  - split; rewrite ?E1, ?E2, ?E3, ?E4, ?E5, ?E6; try done.
    + exists (freed_pd p). split; [|done]. apply list_lookup_insert_eq. by eapply lookup_lt_Some.
    + cbn. intros r' d' [[<- <-]|[_ ?]]%lookup_insert_Some; [cbn; set_solver|eauto].
  - apply Forall_lookup. intros j pc [(<-&<-&_)|[Hne Hj]]%list_lookup_insert_Some; [cbn; set_solver|eauto].
Qed.

(** C34 (safety).  Unmapping a region while another one is active costs the page
    descriptors of its pages: when an evict worker has evicted a page that
    [evict_region] deferred, the descriptor is never on the free list again and
    never given to another page, under every schedule of all threads and of
    further calls of [uunmap], until the last region is unmapped. *)
Theorem deferred_descriptor_lost k c x x1 x2 :
  deferred_eviction k x → rrun psize pick (RThread (TEvict c k)) x = Ok tt x1 →
  rtc (rstep psize pick) x1 x2 →
  let b := buf (eng (world (sys x2))) in
  i ∉ m_free_pages b ∧ i ∈ m_busy_pages b ∧
  ∃ p, m_array b !! i = Some p ∧ state p = FREE ∧ deferred p = true.
Proof.
  intros Hd E Hr. pose proof (stranded_forever _ _ Hr (deferred_stranded _ _ _ _ Hd E)) as [[[] _ _ _] _].
  done.
Qed.
End threads.

(** ** Witness: the small region of RegionEvict.v is unmapped while its page is
    resident; then the buffer takes 56 pages of the large region *)

#[local] Existing Instance pair_bank.

Definition before_lost : RSys memos memfs :=
  default pair_start (rrun_all 4 first_of
    ([RThread (TBatch [mkMsg 4096 1])] ++ replicate 2 (RThread (TUffd false)) ++ fill_one ++
     replicate 5 (RUnmap false 4096) ++ replicate 5 (RThread (TEvict false 0))) pair_start).

Definition just_lost : RSys memos memfs :=
  default pair_start (rrun_all 4 first_of [RThread (TEvict false 0)] before_lost).

Definition later : list rthread :=
  replicate 3 (RUnmap false 4096) ++
  [RThread (TBatch ((λ i, mkMsg (8192 + 4 * Z.of_nat i) 0) <$> seq 0 56))] ++
  replicate 112 (RThread (TUffd false)) ++ concat (replicate 56 fill_one).
Definition long_after : RSys memos memfs := default pair_start (rrun_all 4 first_of later just_lost).

Lemma first_of_picks : picks first_of.
Proof.
  intros X j H. apply elem_of_elements. unfold first_of in H. destruct (elements X); [done|].
  simpl in H. simplify_eq. by left.
Qed.

Lemma before_lost_ready : deferred_eviction 63 0 before_lost.
Proof.
  split; try (vm_compute; (reflexivity || discriminate)); try decide_now.
  - exists EVICT. vm_compute. reflexivity.
  - eexists _, _, _. split_and!; vm_compute; reflexivity.
  - assert (epcs (sys before_lost) = [EGone EVICT 63]) as -> by (vm_compute; reflexivity).
    by intros [|j] pc Hj Hne.
Qed.

Lemma run_some ts x : is_some (rrun_all 4 first_of ts x) = true →
  rrun_all 4 first_of ts x = Some (default pair_start (rrun_all 4 first_of ts x)).
Proof. by destruct (rrun_all 4 first_of ts x). Qed.

Lemma just_lost_run : rrun 4 first_of (RThread (TEvict false 0)) before_lost = Ok tt just_lost.
Proof. apply rrun_one, run_some. vm_compute. reflexivity. Qed.

Lemma deferred_descriptor_lost_witness :
  63%nat ∉ m_free_pages (buf (eng (world (sys long_after)))) ∧ rpc long_after = RIdle ∧
  dom (heap (regs (eng (world (sys long_after))))) = {[1%nat]} ∧
  length (m_busy_pages (buf (eng (world (sys long_after))))) = 57%nat.
Proof.
  split; [|vm_compute; auto].
  apply (deferred_descriptor_lost 4 63 first_of first_of_picks 0 false before_lost just_lost long_after
    before_lost_ready just_lost_run).
  apply (rrun_all_steps 4 first_of later). apply run_some. vm_compute. reflexivity.
Defined.
