(* ===== verification/Races.v ===== *)
(** * Interleavings the locking does not protect against

    Operations of different threads, composed at their waits: [umap_flush]
    against an eviction in progress, and two threads that wait for a free page
    descriptor at the same time (the fault handler and [umap_prefetch]). *)

From stdpp Require Import base list numbers strings gmap.
From S2P Require Import Prelude PageDescriptor WorkQueue Store RegionDescriptor RegionMap.
From S2P Require Import Config Engine Buffer WaterMarks Eviction Uffd Workers BufferSpec.
Local Open Scope Z_scope.

(** ** Flushing while a page is being evicted *)

Lemma bind_Block {S A B} (m : M S A) (f : A → M S B) s c s' :
  (m ≫= f) s = Block c s' →
  m s = Block c s' ∨ ∃ a s1, m s = Ok a s1 ∧ f a s1 = Block c s'.
Proof. unfold mbind, M_bind. destruct (m s) eqn:E; intros; simplify_eq; eauto. Qed.

Lemma lock_mutex c e u e' : lock c e = Ok u e' → m_mutex (buf e') = true.
Proof.
  unfold lock. intros H. inv_ok. destruct (m_mutex _) eqn:E; [by inv_ok|].
  unfold modify_buf, modify_stats in H. inv_ok. destruct c; simpl in *; unfold modify_stats, modify_buf in *; inv_ok; done.
Qed.

Lemma get_pd_state i e p e' : get_pd i e = Ok p e' → e' = e.
Proof. unfold get_pd. intros H. inv_ok. destruct (_ !! i); by inv_ok. Qed.

Lemma wait_state_Ok i st e u e' : wait_for_page_state i st e = Ok u e' → e' = e.
Proof.
  unfold wait_for_page_state. intros H. inv_ok. apply get_pd_state in H0 as ->.
  case_bool_decide; [by inv_ok|]. unfold sleep_state_change in H. by inv_ok.
Qed.

Lemma flush_loop_mutex l e u e' :
  flush_loop l e = Ok u e' → m_mutex (buf e') = m_mutex (buf e).
Proof.
  revert e. induction l as [|i l IH]; intros e H; simpl in H; [by inv_ok|].
  apply bind_Ok in H as (p&e1&H1&H). apply get_pd_state in H1 as ->.
  apply bind_Ok in H as ([]&e2&H2&H). rewrite (IH _ H). destruct (dirty p); [|by inv_ok].
  apply bind_Ok in H2 as ([]&e3&H3&H2). apply wait_state_Ok in H3 as ->.
  unfold schedule_flush, on_evict, lift in H2. destruct (send_work _ _) eqn:E; by simplify_eq.
Qed.

Lemma flush_loop_block l e c e' : flush_loop l e = Block c e' → c = OnStateChange.
Proof.
  revert e. induction l as [|i l IH]; intros e H; simpl in H; [done|].
  apply bind_Block in H as [H|(p&e1&_&H)].
  - unfold get_pd in H. apply bind_Block in H as [H|(?&?&_&H)]; [done|]. by destruct (_ !! i).
  - apply bind_Block in H as [H|(?&e2&_&H)]; [|by eapply IH]. destruct (dirty p); [|done].
    apply bind_Block in H as [H|(?&e3&_&H)].
    + unfold wait_for_page_state in H. apply bind_Block in H as [H|(?&?&_&H)].
      * unfold get_pd in H. apply bind_Block in H as [H|(?&?&_&H)]; [done|]. by destruct (_ !! i).
      * case_bool_decide; [done|]. unfold sleep_state_change in H.
        by apply bind_Block in H as [H|(?&?&?&H)]; [|inv_ok; inversion H].
    + unfold schedule_flush, on_evict, lift in H. by destruct (send_work _ _) eqn:E; simplify_eq.
Qed.

Lemma wait_for_idle_Block q c q' :
  wait_for_idle_loop q = Block c q' →
  idle q = false ∧ c = OnIdle ∧ idle q' = false ∧ (q' : WorkQueue WorkItem) = with_idle_cond (cond_sleep (m_idle_cond q)) q.
Proof.
  unfold wait_for_idle_loop. intros H. apply bind_Block in H as [H|(q0&q1&H0&H)]; [done|].
  unfold get in H0. injection H0 as <- <-. destruct (idle q) eqn:E; [done|].
  cbv [mbind M_bind modify block negb] in H. by simplify_eq.
Qed.

(** A flush asleep in [WaitAll] in a state from which no thread can move on: an
    evict worker has not finished, whoever marks a page free or present blocks
    on the buffer mutex, and a woken flush goes back to sleep. *)
Definition flush_stuck (e : Engine) : Prop :=
  idle (evict_wq e) = false ∧
  (∀ b pd, mark_page_as_free b pd e = Block OnMutex e) ∧
  (∀ b pd, mark_page_as_present b pd e = Block OnMutex e) ∧
  ∃ e', flush_dirty_pages_idle e = Block OnIdle e' ∧ buf e' = buf e ∧
    idle (evict_wq e') = false.


(** ** Two threads waiting for a page descriptor *)

(** two threads that slept in [get_page_descriptor] for the same page [a] are
    woken, one after the other *)
Definition two_waiters (a : Z) (w1 w2 : bool) (r : nat) : M Engine unit :=
  process_page_event_wake_avail a w1 r ;;
  process_page_event_wake_avail a w2 r.

(** (safety).  [process_page_event] looks its page up before it waits for a
    free descriptor and not again afterwards.  When two threads wait for
    descriptors for the same page (a fault and a prefetch), both insert it: the
    busy deque then holds two descriptors for one page, both are queued to be
    filled, and the map of present pages only knows the second. *)
Theorem concurrent_waiters_duplicate_page a w1 w2 r d e l i j p q :
  m_mutex (buf e) = false → m_free_pages (buf e) = l ++ [j; i] → i ≠ j →
  m_array (buf e) !! i = Some p → state p = FREE →
  m_array (buf e) !! j = Some q → state q = FREE →
  heap (regs e) !! r = Some d →
  ∃ e2, two_waiters a w1 w2 r e = Ok tt e2 ∧
    m_busy_pages (buf e2) = j :: i :: m_busy_pages (buf e) ∧
    (∃ p1 p2, m_array (buf e2) !! i = Some p1 ∧ m_array (buf e2) !! j = Some p2 ∧
       page p1 = a ∧ page p2 = a ∧ state p1 = FILLING ∧ state p2 = FILLING) ∧
    m_queue (fill_wq e2) = m_queue (fill_wq e) ++ [mkWork (Some i) NONE; mkWork (Some j) NONE] ∧
    m_present_pages (buf e2) !! a = Some j.
Proof.
  intros Hm Hf Hij Hp Sp Hq Sq Hd.
  pose proof (lookup_lt_Some _ _ _ Hp) as Hli. pose proof (lookup_lt_Some _ _ _ Hq) as Hlj.
  assert (∀ l0 (x : nat), back (l0 ++ [x]) = Some x) as Hback by (intros; apply back_snoc).
  assert (runs (process_page_event_wake_avail a w1 r) (core e) tt (inserted (core e) a w1 r d i)) as H1.
  { eapply runs_bind; [by apply runs_wake_avail|]. eapply fault_new_spec; try done.
    simpl. rewrite Hf. change (l ++ [j; i]) with (l ++ [j] ++ [i]). rewrite app_assoc. apply Hback. }
  destruct (H1 e eq_refl) as (e1&E1&C1).
  set (d1 := insert_page_descriptor i d).
  assert (runs (process_page_event_wake_avail a w2 r) (core e1) tt (inserted (core e1) a w2 r d1 j)) as H2.
  { rewrite C1. eapply runs_bind; [by apply runs_wake_avail|].
    eapply (fault_new_spec _ _ _ _ _ _ q); try done.
    - simpl. apply lookup_insert_eq.
    - simpl. rewrite Hf. change (l ++ [j; i]) with (l ++ [j] ++ [i]).
      rewrite app_assoc, pop_back_snoc. apply Hback.
    - simpl. by rewrite list_lookup_insert_ne. }
  destruct (H2 e1 eq_refl) as (e2&E2&C2). exists e2. split_and!.
  - unfold two_waiters. erewrite bind_run by exact E1. exact E2.
  - apply (f_equal c_busy) in C2. rewrite C1 in C2. exact C2.
  - exists (new_pd a w1 r), (new_pd a w2 r). apply (f_equal c_array) in C2. rewrite C1 in C2.
    simpl in C2. rewrite C2. rewrite list_lookup_insert_ne by done.
    rewrite !list_lookup_insert_eq by (rewrite ?length_insert; done). done.
  - apply (f_equal c_fillq) in C2. rewrite C1 in C2. simpl in C2. by rewrite C2, <- app_assoc.
  - apply (f_equal c_present) in C2. rewrite C1 in C2. simpl in C2. rewrite C2.
    apply lookup_insert_eq.
Qed.

(** a wait in [get_page_descriptor] from the sleep to the wake-up, with no other
    thread in between *)
Definition avail_wait : M Engine unit := λ e,
  match sleep_avail_pd (A := unit) e with Block _ e1 => wake_avail_pd e1 | o => o end.

(** (error).  A wait for a free page descriptor counts itself in both wait
    counters, but gives back only one: every such wait leaves
    [m_waits_for_state_change] one too high, for good. *)
Theorem avail_wait_leaks_counter e e2 :
  avail_wait e = Ok tt e2 →
  m_waits_for_avail_pd (buf e2) = m_waits_for_avail_pd (buf e) ∧
  m_waits_for_state_change (buf e2) = m_waits_for_state_change (buf e) + 1.
Proof.
  intros Hw. unfold avail_wait in Hw.
  cbv [sleep_avail_pd modify_buf modify_stats mbind M_bind modify unlock block] in Hw.
  unfold wake_avail_pd in Hw. erewrite bind_run in Hw by reflexivity.
  simpl in Hw. cbv [modify_buf mbind M_bind modify] in Hw. injection Hw as <-. simpl. lia.
Qed.

(** ** Witnesses *)

(** one dirty page, and an evictor that is busy with another one *)
Definition flushing : Engine :=
  mkEngine
    (mkBuffer 2 [mkPD 4096 (Some 0%nat) PRESENT true false true 0;
                 mkPD 8192 (Some 0%nat) LEAVING false false true 0] {[ 4096 := 0%nat; 8192 := 1%nat ]}
       [] [0%nat] 1 1 false 0 (mkCond 0 0) 0 (mkCond 0 0) zero_stats false)
    (mkRM [] None ∅) (new_WorkQueue 1) (new_WorkQueue 1)
    (mkWQ [] (mkCond 0 0) (mkCond 0 0) 1 0 0) 0.

Definition flush_asleep : Engine := default flushing (state_after (flush_dirty_pages false flushing)).


Definition two_free : Engine :=
  mkEngine
    (mkBuffer 2 [zero_pd; zero_pd] ∅ [0%nat; 1%nat] [] 1 1 false 0 (mkCond 0 0) 0 (mkCond 0 0)
       zero_stats false)
    (mkRM [(4096, 0%nat)] None {[ 0%nat := new_RegionDescriptor 4096 8192 4096 12288 0 ]})
    (new_WorkQueue 1) (new_WorkQueue 1) (new_WorkQueue 1) 0.

Lemma concurrent_waiters_duplicate_page_witness :
  ∃ e2, two_waiters 4096 true false 0 two_free = Ok tt e2 ∧
    m_busy_pages (buf e2) = [0%nat; 1%nat].
Proof.
  destruct (concurrent_waiters_duplicate_page 4096 true false 0
    (new_RegionDescriptor 4096 8192 4096 12288 0) two_free [] 1 0 zero_pd zero_pd)
    as (e2&H1&H3&_); try reflexivity; [discriminate|]. exists e2. exact (conj H1 H3).
Defined.

Lemma avail_wait_leaks_counter_witness :
  m_waits_for_state_change (buf (default two_free (state_after (avail_wait two_free)))) = 1.
Proof.
  refine (proj2 (avail_wait_leaks_counter two_free _ _)); vm_compute; reflexivity.
Defined.
