(* ===== verification/FetchAndPin.v ===== *)
(** * Prefetching a pinned range ([Buffer::fetch_and_pin], [FetchFunc])

    The range is capped to its region, the free list is shrunk when memory is
    short, and the pages are read and mapped by one or eight threads that split
    the range between them.  The value of MemAvailable in /proc/meminfo is an
    argument ([None] when it cannot be parsed, 0 when the line is missing).  The threads' page ranges are
    disjoint, so that they are run one after the other here. *)

From stdpp Require Import base list numbers strings gmap.
From Stdlib Require Import Strings.Byte.
From S2P Require Import Prelude PageDescriptor WorkQueue Store RegionDescriptor RegionMap.
From S2P Require Import Config Engine Buffer WaterMarks Uffd Workers BufferSpec BufferInv System SystemInv SystemProps.
Local Open Scope Z_scope.

(** ** Splitting the range *)

Definition num_fetch_threads (num_pages : Z) : Z := if bool_decide (1024 < num_pages) then 8 else 1.

(** [params[i].offset_st] and [params[i].offset_end] for every thread *)
Definition fetch_ranges (offset_st offset_end psize : Z) : list (Z * Z) :=
  let num_pages := u64 (offset_end - offset_st) / psize in
  let n := num_fetch_threads num_pages in
  let stride := u64 (num_pages / n * psize) in
  (λ i : nat,
     let st := u64 (offset_st + u64 (stride * Z.of_nat i)) in
     (st, if bool_decide (Z.of_nat i = n - 1) then offset_end else u64 (st + stride)))
  <$> seq 0 (Z.to_nat n).

(** [for(offset = offset_st; offset < offset_end; offset+=psize)]: the offsets
    one thread visits; the number of pages bounds the number of rounds *)
Fixpoint fetch_loop (fuel : nat) (offset offset_end psize : Z) : list Z :=
  match fuel with
  | O => []
  | S fuel =>
      if bool_decide (offset < offset_end)
      then offset :: fetch_loop fuel (u64 (offset + psize)) offset_end psize else []
  end.

Definition fetch_offsets (offset_st offset_end psize : Z) : list Z :=
  fetch_loop (Z.to_nat ((offset_end - offset_st) / psize + 1)) offset_st offset_end psize.

(** ** Shrinking the free list *)

Definition mem_margin_kb : Z := 16777216.

(** bytes of memory that may be used, in whole pages *)
Definition usable_memory (mem_avail_kb psize : Z) : Z :=
  let kb := if bool_decide (mem_margin_kb < mem_avail_kb) then mem_avail_kb - mem_margin_kb else 0 in
  u64 (u64 (kb * 1024) / psize * psize).

Definition resize_buffer (cfg : Config) (new_num_free_pages : nat) : M Engine unit :=
  modify_buf (λ b, with_m_free_pages (take new_num_free_pages (m_free_pages b)) b) ;;
  modify_buf (λ b, with_m_size (Z.of_nat (length (m_busy_pages b) + length (m_free_pages b))) b) ;;
  e ← get;
  low ← apply_int_percentage (m_evict_low_water_threshold cfg) (m_size (buf e));
  modify_buf (with_m_evict_low_water low) ;;
  high ← apply_int_percentage (m_evict_high_water_threshold cfg) (m_size (buf e));
  modify_buf (with_m_evict_high_water high).

(** how many free pages are left when [size] bytes are pinned: [None] when the
    free pages do not suffice, [Some None] when nothing has to be given up *)
Definition shrink_to (psize size mem_avail num_free : Z) : option (option Z) :=
  let free_page_mem := u64 (psize * num_free) in
  if bool_decide (mem_avail ≤ u64 (free_page_mem + size)) then
    let reduced_mem := u64 (u64 (free_page_mem + size) - mem_avail) in
    if bool_decide (reduced_mem < free_page_mem)
    then Some (Some ((free_page_mem - reduced_mem) / psize))
    else None
  else Some None.

Definition shrink_free_pages (cfg : Config) (psize size mem_avail : Z) : M Engine unit :=
  e ← get;
  match shrink_to psize size mem_avail (Z.of_nat (length (m_free_pages (buf e)))) with
  | None => throw "Currently, no support for pinning a region larger than free pages"
  | Some None => mret tt
  | Some (Some n) => resize_buffer cfg (Z.to_nat n)
  end.

(** ** The operation *)

Section fetch.
Context {O St : Type} `{UffdOS O} `{StoreBank St}.
Abbreviation World := (World O St).

(** [FetchFunc]: [copyin_buf] is the buffer the thread allocates, which keeps
    its contents from one page to the next *)
Fixpoint FetchFunc (psize : nat) (rd : RegionDescriptor) (copyin_buf : bytes)
    (offsets : list Z) : M World unit :=
  match offsets with
  | [] => mret tt
  | offset :: offsets =>
      '(n, data) ← on_disk (bank_read (m_store rd) psize offset);
      if bool_decide (n = -1) then throw "failed to read_from_store"
      else
        let copyin_buf := overwrite data copyin_buf in
        on_kernel (copy_in_page copyin_buf (u64 (start rd + offset))) ;;
        FetchFunc psize rd copyin_buf offsets
  end.

(** from the capping of the range to the final [unlock]; [fresh] is what
    [malloc] returns to the threads *)
Definition fetch_range (cfg : Config) (fresh : bytes) (mem_avail_kb : option Z)
    (paddr size : Z) (rd : RegionDescriptor) : M World unit :=
  let psize := get_umap_page_size cfg in
  let pend := if bool_decide (end_ rd < u64 (paddr + size)) then end_ rd
              else u64 (paddr + size) in
  match store_offset rd paddr, store_offset rd pend with
  | Some offset_st, Some offset_end =>
      match mem_avail_kb with
      | None => throw "UMAP unable to determine system memory size"
      | Some kb =>
          on_eng (shrink_free_pages cfg psize (u64 (pend - paddr)) (usable_memory kb psize)) ;;
          for_each (fetch_ranges offset_st offset_end psize)
            (λ '(st, en), FetchFunc (Z.to_nat psize) rd fresh (fetch_offsets st en psize)) ;;
          on_eng unlock
      end
  | _, _ => undefined "Invalid address for calculating offset"
  end.

Definition fetch_and_pin (cfg : Config) (contended : bool) (fresh : bytes)
    (mem_avail_kb : option Z) (paddr size : Z) : M World unit :=
  on_eng (lock contended) ;;
  r ← on_eng (on_regs (containing_region paddr));
  match r with
  | None => throw "the prefetched region is not found"
  | Some r =>
      w ← get;
      match heap (regs (eng w)) !! r with
      | None => undefined "invalid region descriptor pointer"
      | Some rd => fetch_range cfg fresh mem_avail_kb paddr size rd
      end
  end.

(** [umap_fetch_and_pin] through [RegionManager::fetch_and_pin]; [live] tells
    whether the pointer to the buffer is not null *)
Definition umap_fetch_and_pin (cfg : Config) (live contended : bool) (fresh : bytes)
    (mem_avail_kb : option Z) (paddr size : Z) : M World unit :=
  if live then fetch_and_pin cfg contended fresh mem_avail_kb paddr size
  else undefined "null pointer".
End fetch.

(** ** Lemmas *)

Lemma fetch_loop_spec fuel st m psize :
  0 < psize → 0 ≤ st → st + Z.of_nat m * psize < 2 ^ 64 - psize → (m < fuel)%nat →
  fetch_loop fuel st (st + Z.of_nat m * psize) psize =
    (λ i : nat, st + Z.of_nat i * psize) <$> seq 0 m.
Proof.
  intros Hp. revert st m. induction fuel as [|fuel IH]; intros st m Hst Hb Hf; [lia|].
  cbn [fetch_loop]. destruct m as [|m].
  - rewrite bool_decide_false by lia. done.
  - rewrite bool_decide_true by nia. cbn [seq fmap list_fmap]. f_equal; [lia|].
    rewrite u64_small by (unfold is_u64; nia).
    replace (st + Z.of_nat (S m) * psize) with ((st + psize) + Z.of_nat m * psize) by lia.
    rewrite IH by lia. rewrite <- fmap_S_seq, <- list_fmap_compose.
    apply list_fmap_ext. intros i x _. simpl. lia.
Qed.

Lemma fetch_offsets_spec st m psize :
  0 < psize → 0 ≤ st → st + Z.of_nat m * psize < 2 ^ 64 - psize →
  fetch_offsets st (st + Z.of_nat m * psize) psize =
    (λ i : nat, st + Z.of_nat i * psize) <$> seq 0 m.
Proof.
  intros Hp Hst Hb. unfold fetch_offsets. apply fetch_loop_spec; try done.
  replace (st + Z.of_nat m * psize - st) with (Z.of_nat m * psize) by lia.
  rewrite Z.div_mul by lia. lia.
Qed.

(** the offsets of consecutive blocks of [q] pages, the last one with [rest] *)
Lemma blocks_concat st psize (q n rest : nat) :
  concat ((λ i, (λ j : nat, st + Z.of_nat (i * q) * psize + Z.of_nat j * psize)
             <$> seq 0 (if bool_decide (i = n) then rest else q)) <$> seq 0 (S n)) =
  (λ i : nat, st + Z.of_nat i * psize) <$> seq 0 (n * q + rest).
Proof.
  rewrite seq_S, fmap_app, concat_app. simpl. rewrite app_nil_r, bool_decide_true by done.
  rewrite seq_app, fmap_app. f_equal.
  - induction n as [|n IH]; [done|]. rewrite seq_S, fmap_app, concat_app. simpl.
    rewrite app_nil_r, bool_decide_false by lia.
    replace (q + n * q)%nat with (n * q + q)%nat by lia. rewrite seq_app, fmap_app. f_equal.
    + rewrite <- IH. f_equal. apply list_fmap_ext. intros i x [-> Hi]%lookup_seq.
      rewrite !bool_decide_false by lia. done.
    + replace (0 + n * q)%nat with (n * q + 0)%nat by lia. rewrite <- fmap_add_seq, <- list_fmap_compose.
      apply list_fmap_ext. intros i x _. simpl. lia.
  - replace (0 + n * q)%nat with (n * q + 0)%nat by lia. rewrite <- fmap_add_seq, <- list_fmap_compose.
    apply list_fmap_ext. intros i x _. simpl. lia.
Qed.

Lemma fetch_ranges_spec st psize (m : nat) (N : nat) :
  0 < psize → 0 ≤ st → st + Z.of_nat m * psize < 2 ^ 64 - psize →
  num_fetch_threads (Z.of_nat m) = Z.of_nat (S N) →
  let q := Z.to_nat (Z.of_nat m / Z.of_nat (S N)) in
  (λ '(a, b), fetch_offsets a b psize) <$> fetch_ranges st (st + Z.of_nat m * psize) psize =
  (λ i, (λ j : nat, st + Z.of_nat (i * q) * psize + Z.of_nat j * psize)
     <$> seq 0 (if bool_decide (i = N) then m - N * q else q)) <$> seq 0 (S N).
Proof.
  intros Hp Hst Hb HN q. unfold fetch_ranges.
  replace (st + Z.of_nat m * psize - st) with (Z.of_nat m * psize) by lia.
  rewrite (u64_small (Z.of_nat m * psize)) by (unfold is_u64; nia). rewrite Z.div_mul by lia.
  cbv zeta. rewrite HN, Nat2Z.id, <- list_fmap_compose.
  assert (Z.of_nat m / Z.of_nat (S N) = Z.of_nat q) as Hq.
  { unfold q. rewrite Z2Nat.id; [done|]. apply Z.div_pos; lia. }
  assert (S N * q ≤ m)%nat as Hqm.
  { apply Nat2Z.inj_le. rewrite Nat2Z.inj_mul, <- Hq. apply Z.mul_div_le. lia. }
  apply list_fmap_ext. intros i x [-> Hi]%lookup_seq. rewrite Nat.add_0_l. unfold compose. rewrite Hq.
  assert (Z.of_nat (i * q) * psize + Z.of_nat q * psize ≤ Z.of_nat m * psize) as Hle.
  { rewrite <- Z.mul_add_distr_r. apply Z.mul_le_mono_nonneg_r; [lia|]. nia. }
  rewrite (u64_small (Z.of_nat q * psize)) by (unfold is_u64; nia).
  replace (Z.of_nat q * psize * Z.of_nat i) with (Z.of_nat (i * q) * psize) by nia.
  rewrite (u64_small (Z.of_nat (i * q) * psize)) by (unfold is_u64; nia).
  rewrite (u64_small (st + _)) by (unfold is_u64; nia).
  destruct (decide (i = N)) as [->|Hne].
  - rewrite !bool_decide_true by lia. rewrite <- fetch_offsets_spec by nia. f_equal. nia.
  - rewrite !bool_decide_false by lia. rewrite <- fetch_offsets_spec by nia. f_equal.
    apply u64_small. unfold is_u64. nia.
Qed.

(** the offsets all threads visit *)
Lemma fetch_threads_concat st psize (m : nat) :
  0 < psize → 0 ≤ st → st + Z.of_nat m * psize < 2 ^ 64 - psize →
  concat ((λ '(a, b), fetch_offsets a b psize)
            <$> fetch_ranges st (st + Z.of_nat m * psize) psize) =
  (λ i : nat, st + Z.of_nat i * psize) <$> seq 0 m.
Proof.
  intros Hp Hst Hb.
  assert (∃ N, num_fetch_threads (Z.of_nat m) = Z.of_nat (S N)) as [N HN].
  { unfold num_fetch_threads. case_bool_decide; [by exists 7%nat|by exists 0%nat]. }
  rewrite (fetch_ranges_spec st psize m N) by done. rewrite blocks_concat. do 2 f_equal.
  set (q := Z.to_nat (Z.of_nat m / Z.of_nat (S N))).
  assert (S N * q ≤ m)%nat; [|lia]. unfold q. apply Nat2Z.inj_le.
  rewrite Nat2Z.inj_mul, Z2Nat.id by (apply Z.div_pos; lia). apply Z.mul_div_le. lia.
Qed.

Lemma for_each_ext {S A} (l : list A) (f g : A → M S unit) s :
  (∀ x s, f x s = g x s) → for_each l f s = for_each l g s.
Proof.
  intros E. revert s. induction l as [|x l IH]; intros s; [done|].
  cbn. unfold mbind, M_bind. rewrite E. destruct (g x s); [apply IH|done..].
Qed.

(** ** Properties *)

(** (bounds).  When memory is short, [fetch_and_pin] gives up just enough
    free descriptors: afterwards the pages that stay free and the pinned bytes
    together fit in the usable memory, the free list is never made longer, and
    when it refuses, even giving up all of them would not have been enough. *)
Theorem shrink_fits_memory psize size mem_avail num_free :
  0 < psize → 0 ≤ size → 0 ≤ num_free → 0 ≤ mem_avail →
  psize * num_free + size < 2 ^ 64 → mem_avail < 2 ^ 64 →
  match shrink_to psize size mem_avail num_free with
  | Some None => psize * num_free + size < mem_avail
  | Some (Some n) => 0 ≤ n ≤ num_free ∧ psize * n + size ≤ mem_avail
  | None => mem_avail ≤ size
  end.
Proof.
  intros Hp Hs Hn Hm Hb Hmb. unfold shrink_to.
  rewrite (u64_small (psize * num_free)) by (unfold is_u64; nia).
  rewrite (u64_small (psize * num_free + size)) by (unfold is_u64; nia).
  case_bool_decide as H1; [|lia].
  rewrite (u64_small (psize * num_free + size - mem_avail)) by (unfold is_u64; nia).
  case_bool_decide as H2; [|lia].
  replace (psize * num_free - (psize * num_free + size - mem_avail)) with (mem_avail - size) by lia.
  pose proof (Z.div_mod (mem_avail - size) psize ltac:(lia)) as E.
  pose proof (Z.mod_pos_bound (mem_avail - size) psize ltac:(lia)).
  split; [|nia]. split; [apply Z.div_pos; lia|]. nia.
Qed.

Section entering.
Context {O St : Type} `{UffdOS O} `{StoreBank St}.

(** the lock is taken and the region looked up *)
Lemma fetch_and_pin_enter cfg c fresh kb paddr size (w : World O St) :
  m_mutex (buf (eng w)) = false → rm_wf (regs (eng w)) →
  ∃ w1, heap (regs (eng w1)) = heap (regs (eng w)) ∧ m_mutex (buf (eng w1)) = true ∧
    m_free_pages (buf (eng w1)) = m_free_pages (buf (eng w)) ∧
    kernel w1 = kernel w ∧ disk w1 = disk w ∧
    fetch_and_pin cfg c fresh kb paddr size w =
      match region_at (regs (eng w)) paddr with
      | None => Throw "the prefetched region is not found" w1
      | Some r => match heap (regs (eng w)) !! r with
                  | None => UB "invalid region descriptor pointer"
                  | Some rd => fetch_range cfg fresh kb paddr size rd w1
                  end
      end.
Proof.
  intros Hm Hwf.
  assert (∃ e1, lock c (eng w) = Ok tt e1 ∧ regs e1 = regs (eng w) ∧ m_mutex (buf e1) = true ∧
    m_free_pages (buf e1) = m_free_pages (buf (eng w))) as (e1&El&Hregs&Hmx&Hfree).
  { unfold lock. erewrite bind_run by reflexivity. rewrite Hm. destruct c; eexists; by split_and!. }
  destruct (containing_region_run (regs e1) paddr) as (it&Ec&_); [by rewrite Hregs|].
  rewrite Hregs in Ec. exists (mkWorld (with_regs (with_last_iter it (regs (eng w))) e1) (kernel w) (disk w)).
  split_and!; try done. unfold fetch_and_pin. erewrite bind_run by (apply zoom_run; exact El).
  erewrite bind_run.
  2:{ apply zoom_run. unfold on_regs, lift. simpl. rewrite Hregs, Ec. reflexivity. }
  cbv beta. destruct (region_at _ _) as [r|]; [|done]. erewrite bind_run by reflexivity.
  cbv beta. cbn. by destruct (heap _ !! r).
Qed.
End entering.

Section errors.
Context {O St : Type} `{UffdOS O} `{StoreBank St}.

(** (error).  Pinning a range that reaches the end of its region, the whole
    region for instance, fails the assertion of [store_offset]: the end of the
    range is converted to an offset as if it were an address of the region. *)
Theorem fetch_to_region_end_asserts cfg c fresh kb paddr size (w : World O St) r rd :
  m_mutex (buf (eng w)) = false → rm_wf (regs (eng w)) →
  region_at (regs (eng w)) paddr = Some r → heap (regs (eng w)) !! r = Some rd →
  end_ rd ≤ u64 (paddr + size) →
  is_ub (fetch_and_pin cfg c fresh kb paddr size w) = true.
Proof.
  intros Hm Hwf Hr Hd Hend.
  destruct (fetch_and_pin_enter cfg c fresh kb paddr size w Hm Hwf) as (w1&_&_&_&_&_&->).
  rewrite Hr, Hd. unfold fetch_range.
  assert ((if bool_decide (end_ rd < u64 (paddr + size)) then end_ rd else u64 (paddr + size)) = end_ rd)
    as -> by (case_bool_decide; lia).
  rewrite store_offset_end. by destruct (store_offset rd paddr).
Qed.

(** (error).  Pinning an address that belongs to no region throws with the
    buffer mutex still locked: every later operation on the buffer blocks. *)
Theorem fetch_outside_regions_keeps_lock cfg c fresh kb paddr size (w : World O St) :
  m_mutex (buf (eng w)) = false → rm_wf (regs (eng w)) →
  region_at (regs (eng w)) paddr = None →
  ∃ msg w', fetch_and_pin cfg c fresh kb paddr size w = Throw msg w' ∧
    ∀ b pd, mark_page_as_present b pd (eng w') = Block OnMutex (eng w') ∧
            mark_page_as_free b pd (eng w') = Block OnMutex (eng w').
Proof.
  intros Hm Hwf Hr.
  destruct (fetch_and_pin_enter cfg c fresh kb paddr size w Hm Hwf) as (w1&_&Hmx&_&_&_&->).
  rewrite Hr. eexists _, _. split; [reflexivity|]. intros b pd.
  split; unfold mark_page_as_present, mark_page_as_free, lock, mbind, M_bind, get; simpl; by rewrite Hmx.
Qed.
End errors.

(** ** What a successful call leaves *)

Section installs.
Context {O St : Type} `{!UffdOS O} `{!UffdLaws O} `{!StoreBank St}.
Context (psize : nat) (cap : nat → Z) `{!BankLaws St psize cap}.
Abbreviation psz := (Z.of_nat psize).

(** the pages at the offsets [l] of [rd] are mapped, writable, with the
    contents of the store, and nothing else is changed *)
Record fetched (rd : RegionDescriptor) (l : list Z) (w w' : World O St) : Prop := {
  f_eng : eng w' = eng w;
  f_ok : bank_ok (disk w');
  f_pages id off : page_offset psz (cap id) off →
    bank_page (disk w') id off = bank_page (disk w) id off;
  f_mapped off : off ∈ l →
    pte (kernel w') (start rd + off) = Some (bank_page (disk w) (m_store rd) off, false);
  f_frame a : (∀ off, off ∈ l → a ≠ start rd + off) → pte (kernel w') a = pte (kernel w) a
}.

(** the offsets can be fetched: pages of the store that are not mapped *)
Record fetchable (rd : RegionDescriptor) (l : list Z) (w : World O St) : Prop := {
  a_ok : bank_ok (disk w);
  a_nodup : NoDup l;
  a_page off : off ∈ l → page_offset psz (cap (m_store rd)) off;
  a_addr off : off ∈ l → is_u64 (start rd + off);
  a_unmapped off : off ∈ l → pte (kernel w) (start rd + off) = None
}.

Lemma fetched_app rd l1 l2 w w1 w2 :
  fetchable rd (l1 ++ l2) w → fetched rd l1 w w1 → fetched rd l2 w1 w2 → fetched rd (l1 ++ l2) w w2.
Proof.
  intros [_ Hnd Hpg _ _] [E1 O1 P1 M1 F1] [E2 O2 P2 M2 F2].
  apply NoDup_app in Hnd as (_&Hdis&_). split; [congruence|done| | |].
  - intros id off Ho. by rewrite P2, P1.
  - intros off Ho. destruct (decide (off ∈ l2)) as [H2|H2].
    + rewrite M2, P1; [done|by apply Hpg|done].
    + apply elem_of_app in Ho as [H1|]; [|done]. rewrite F2; [by apply M1|].
      intros o Ho2 E. assert (o = off) as -> by lia. done.
  - intros a Ha. rewrite F2, F1; [done|..]; intros off Ho; apply Ha; set_solver.
Qed.

Lemma fetchable_tail rd l1 l2 w w1 :
  fetchable rd (l1 ++ l2) w → fetched rd l1 w w1 → fetchable rd l2 w1.
Proof.
  intros [_ Hnd Hpg Had Hun] [_ O1 _ _ F1]. apply NoDup_app in Hnd as (_&Hdis&?).
  split; [done|done| | |]; intros off Ho.
  - apply Hpg. set_solver.
  - apply Had. set_solver.
  - rewrite F1; [apply Hun; set_solver|]. intros o Ho1 E. assert (o = off) as -> by lia.
    by eapply Hdis.
Qed.

Lemma fetchable_head rd l1 l2 w : fetchable rd (l1 ++ l2) w → fetchable rd l1 w.
Proof.
  intros [? Hnd Hpg Had Hun]. apply NoDup_app in Hnd as (?&_&_).
  split; [done|done| | |]; intros off Ho; [apply Hpg|apply Had|apply Hun]; set_solver.
Qed.

Lemma FetchFunc_one rd buf off offsets w :
  length buf = psize → fetchable rd [off] w →
  ∃ w1 buf1, length buf1 = psize ∧ fetched rd [off] w w1 ∧
    FetchFunc psize rd buf (off :: offsets) w = FetchFunc psize rd buf1 offsets w1.
Proof.
  intros Hl [Hok _ Hpg Had Hun].
  assert (off ∈ [off]) as Hin by set_solver.
  specialize (Hpg off Hin). specialize (Had off Hin). specialize (Hun off Hin).
  destruct (bank_read_law (disk w) (m_store rd) off Hok Hpg) as (d1&Er&Hok1&Hpages).
  pose proof (bank_page_length (disk w) (m_store rd) off Hok Hpg) as Hlen.
  destruct (copy_in_run (kernel w) (start rd + off) (bank_page (disk w) (m_store rd) off) Hun) as (o'&Ec&Hpte).
  exists (mkWorld (eng w) o' d1), (bank_page (disk w) (m_store rd) off). split; [done|]. split.
  - split; cbn; try done.
    + intros o ->%list_elem_of_singleton. by rewrite Hpte, decide_True.
    + intros a Ha. rewrite Hpte, decide_False; [done|]. by apply Ha.
  - cbn [FetchFunc]. erewrite bind_run by (apply zoom_run; exact Er). cbv beta iota.
    rewrite bool_decide_false by lia. cbv zeta.
    rewrite overwrite_all by lia. rewrite u64_small by done.
    erewrite bind_run by (apply zoom_run; exact Ec). done.
Qed.

Lemma FetchFunc_run rd buf offsets w :
  length buf = psize → fetchable rd offsets w →
  ∃ w', FetchFunc psize rd buf offsets w = Ok tt w' ∧ fetched rd offsets w w'.
Proof.
  revert buf w. induction offsets as [|off offsets IH]; intros buf w Hl Hf.
  { exists w. split; [done|]. split; try done; [apply Hf|]. by intros off ?%elem_of_nil. }
  pose proof (fetchable_head rd [off] offsets w Hf) as Hf1.
  destruct (FetchFunc_one rd buf off offsets w Hl Hf1) as (w1&buf1&Hl1&H1&->).
  destruct (IH buf1 w1 Hl1) as (w'&->&H2); [by eapply (fetchable_tail rd [off])|].
  exists w'. split; [done|]. by eapply (fetched_app rd [off]).
Qed.

(** the threads one after the other *)
Lemma FetchFunc_all rd buf {A} (f : A → list Z) (l : list A) w :
  length buf = psize → fetchable rd (concat (f <$> l)) w →
  ∃ w', for_each l (λ x, FetchFunc psize rd buf (f x)) w = Ok tt w' ∧
    fetched rd (concat (f <$> l)) w w'.
Proof.
  intros Hl. revert w. induction l as [|x l IH]; intros w Hf; cbn in *.
  { exists w. split; [done|]. split; try done; [apply Hf|]. by intros off ?%elem_of_nil. }
  destruct (FetchFunc_run rd buf (f x) w Hl) as (w1&E1&H1); [by eapply fetchable_head|].
  erewrite bind_run by exact E1.
  destruct (IH w1) as (w'&E2&H2); [by eapply fetchable_tail|].
  exists w'. split; [exact E2|]. by eapply fetched_app.
Qed.

Definition range_offsets (st : Z) (m : nat) : list Z := (λ i : nat, st + Z.of_nat i * psz) <$> seq 0 m.

Lemma range_fetchable rd st m (w : World O St) :
  bank_ok (disk w) → (0 < psize)%nat → 0 ≤ start rd → end_ rd ≤ 2 ^ 64 →
  size rd ≤ cap (m_store rd) → cap (m_store rd) < 2 ^ 63 → 0 ≤ st → st mod psz = 0 →
  st + Z.of_nat m * psz < size rd →
  (∀ off, off ∈ range_offsets st m → pte (kernel w) (start rd + off) = None) →
  fetchable rd (range_offsets st m) w.
Proof.
  intros Hok Hp Hs He Hc Hc63 Hst Hal Hm Hun.
  assert (∀ off, off ∈ range_offsets st m → 0 ≤ off ∧ off + psz ≤ st + Z.of_nat m * psz ∧ off mod psz = 0)
    as Hoff.
  { intros off (i&->&Hi%elem_of_seq)%list_elem_of_fmap. split_and!; [nia|nia|].
    by rewrite Z.mod_add by lia. }
  unfold end_ in He. split; [done| | | |done].
  - apply NoDup_fmap; [|apply NoDup_seq]. intros i j E. nia.
  - intros off (?&?&?)%Hoff. unfold page_offset. lia.
  - intros off (?&?&?)%Hoff. unfold is_u64. lia.
Qed.

End installs.

(** ** Witnesses, on the engine of [SystemProps] *)

#[local] Existing Instance demo_bank.
#[local] Existing Instance demo_bank_laws.

Abbreviation demo_world := (world demo_sys).
Abbreviation demo_rd := (new_RegionDescriptor 4096 12 4096 16 0).

Lemma demo_regs_wf : rm_wf (regs (eng demo_world)).
Proof.
  split; [|done]. econstructor; [reflexivity|done|done| |constructor]. by intros k r ?%elem_of_nil.
Qed.

Lemma shrink_fits_memory_witness :
  shrink_to 4096 40960 65536 10 = Some (Some 6) ∧ (0 ≤ 6 ≤ 10 ∧ 4096 * 6 + 40960 ≤ 65536).
Proof.
  split; [reflexivity|]. exact (shrink_fits_memory 4096 40960 65536 10
    ltac:(lia) ltac:(lia) ltac:(lia) ltac:(lia) ltac:(lia) ltac:(lia)).
Defined.

Lemma fetch_to_region_end_asserts_witness :
  is_ub (fetch_and_pin demo_cfg false [x00; x00; x00; x00] (Some 16777217) 4096 12 demo_world) = true.
Proof.
  apply (fetch_to_region_end_asserts demo_cfg false _ _ 4096 12 demo_world 0 demo_rd);
    [reflexivity|apply demo_regs_wf|reflexivity|reflexivity|by vm_compute].
Defined.

Lemma fetch_outside_regions_keeps_lock_witness :
  ∃ msg w', fetch_and_pin demo_cfg false [] (Some 0) 8192 4 demo_world = Throw msg w' ∧
    ∀ b pd, mark_page_as_present b pd (eng w') = Block OnMutex (eng w') ∧
            mark_page_as_free b pd (eng w') = Block OnMutex (eng w').
Proof.
  apply (fetch_outside_regions_keeps_lock demo_cfg false [] (Some 0) 8192 4 demo_world);
    [reflexivity|apply demo_regs_wf|reflexivity].
Defined.

