(* ===== verification/SparseStore.v ===== *)
(** * The sparse store (src/src/umap/store/SparseStore.{h,cpp})

    A store that keeps its data in a directory of files of equal size, each
    created when a page of it is first touched, with a text file that records
    the file size and the capacity.  The file system is a class [SparseOS] of
    operations over paths with its documented behaviour as laws [SparseLaws];
    the store is shown to keep the promise [PageStore] of [Store], so that it
    can serve the library wherever a single file can. *)

From stdpp Require Import base list numbers strings gmap.
From Stdlib Require Import Strings.Byte QArith Qround.
From S2P Require Import Prelude MachineFloat Store Config.
Local Open Scope Z_scope.

(** ** Decimal text: [operator<<(size_t)], [std::to_string], [operator>>(size_t)] *)

Definition digit_char (d : Z) : Ascii.ascii := Ascii.ascii_of_nat (Z.to_nat (48 + d)).

(** the digits of [n] in front of [acc] *)
Fixpoint dec_digits (fuel : nat) (n : Z) (acc : list Ascii.ascii) : list Ascii.ascii :=
  match fuel with
  | O => acc
  | S fuel =>
      let acc := digit_char (n mod 10) :: acc in
      if bool_decide (n / 10 = 0) then acc else dec_digits fuel (n / 10) acc
  end.

(** twenty digits hold every 64-bit value *)
Definition decimal (n : Z) : list Ascii.ascii := dec_digits 20 n [].
Definition to_string (n : Z) : string := String.string_of_list_ascii (decimal n).

(** the rest of the input after its leading digits *)
Fixpoint after_digits (s : list Ascii.ascii) : list Ascii.ascii :=
  match s with
  | c :: s' => match digit_val c with Some _ => after_digits s' | None => s end
  | [] => []
  end.

(** [stream >> v] for an unsigned 64-bit [v]: the new value of [v] ([None] while
    it is uninitialised) and the stream, [None] once its fail bit is set.  A
    stream at its end, or one that has failed, leaves [v] alone; no digits set
    it to 0; too many set it to the largest value. *)
Definition extract (v : option Z) (stream : option (list Ascii.ascii))
    : option Z * option (list Ascii.ascii) :=
  match skip_space <$> stream with
  | None | Some [] => (v, None)
  | Some (c :: l) =>
      let '(neg, digits) :=
        if bool_decide (Ascii.nat_of_ascii c = 45%nat) then (true, l)
        else if bool_decide (Ascii.nat_of_ascii c = 43%nat) then (false, l) else (false, c :: l) in
      let '(n, any) := read_digits digits 0 false in
      if any then
        (Some (clamp_u64 neg n),
         if bool_decide (2 ^ 64 ≤ n) then None else Some (after_digits digits))
      else (Some 0, None)
  end.

(** [stream.ignore(max, '\n')] *)
Fixpoint ignore_line (s : list Ascii.ascii) : list Ascii.ascii :=
  match s with
  | [] => []
  | c :: s => if bool_decide (Ascii.nat_of_ascii c = 10%nat) then s else ignore_line s
  end.

(** ** The file system *)

(** [None] is a call that fails.  [open_file path rdonly direct] is [open] with
    O_CREAT and O_LARGEFILE. *)
Class SparseOS (F : Type) := {
  #[global] sparse_file_ops :: FileOps F;
  opendir : string → F → bool;
  mkdir : string → F → option F;
  write_text : string → string → F → option F;           (* an ofstream, to its closing *)
  read_text : string → F → option string;                (* an ifstream *)
  open_file : string → bool → bool → F → option (Z * F);
  posix_fallocate : Z → Z → Z → F → Z * F;               (* fd offset len: 0 or an error *)
  close_fd : Z → F → Z * F
}.

(** a file grown to [n] bytes, as [posix_fallocate] does *)
Definition pad (n : Z) (l : bytes) : bytes := l ++ replicate (Z.to_nat n - length l) x00.

(** [file f p] is the contents of the regular file [p], [fds f fd] the path and
    the writability of an open descriptor, [creatable f p] says that a file can
    be opened or created at [p] and filled. *)
Class SparseLaws (F : Type) `{SparseOS F} := {
  file : F → string → option bytes;
  fds : F → Z → option (string * bool);
  creatable : F → string → Prop;
  s_pread_law f fd nb off p rw l :
    fds f fd = Some (p, rw) → file f p = Some l → 0 ≤ off →
    pread f fd nb off = Some (take nb (drop (Z.to_nat off) l));
  s_pwrite_law f fd buf off p l :
    fds f fd = Some (p, true) → file f p = Some l → 0 ≤ off →
    ∃ f', pwrite f fd buf off = (Some (length buf), f') ∧
      (∀ q, file f' q = if decide (q = p) then Some (splice (Z.to_nat off) buf l) else file f q) ∧
      fds f' = fds f ∧ (∀ q, creatable f q → creatable f' q);
  open_law f p rdonly :
    creatable f p →
    ∃ fd f', open_file p rdonly false f = Some (fd, f') ∧ 0 ≤ fd ∧ fds f fd = None ∧
      (∀ q, file f' q = if decide (q = p) then Some (default [] (file f p)) else file f q) ∧
      (∀ d, fds f' d = if decide (d = fd) then Some (p, negb rdonly) else fds f d) ∧
      (∀ q, creatable f q → creatable f' q);
  open_direct_law f p rdonly :
    open_file p rdonly true f = None ∨ open_file p rdonly true f = open_file p rdonly false f;
  fallocate_law f fd p len l :
    fds f fd = Some (p, true) → file f p = Some l → creatable f p → 0 < len →
    ∃ f', posix_fallocate fd 0 len f = (0, f') ∧
      (∀ q, file f' q = if decide (q = p) then Some (pad len l) else file f q) ∧
      fds f' = fds f ∧ (∀ q, creatable f q → creatable f' q);
  mkdir_law f p f' :
    mkdir p f = Some f' →
    opendir p f' = true ∧ fds f' = fds f ∧
    ∀ name, creatable f' (p +:+ "/" +:+ name) ∧ file f' (p +:+ "/" +:+ name) = None;
  write_text_law f p s f' :
    write_text p s f = Some f' →
    read_text p f' = Some s ∧ fds f' = fds f ∧
    (∀ q, q ≠ p → file f' q = file f q) ∧ (∀ q, creatable f q → creatable f' q) ∧
    (∀ d, opendir d f' = opendir d f)
}.

(** ** The store *)

(** [rsize], [aligned_size] and [current_capacity] are each initialised by only
    one of the constructors; [None] is an uninitialised member *)
Record SparseStore := mkSparse {
  file_size : Z;
  current_capacity : option Z;
  num_files : Z;
  rsize : option Z;
  aligned_size : option Z;
  read_only : bool;
  root_path : string;
  numreads : Z;
  numwrites : Z;
  file_descriptors : list Z;          (* file_descriptor[i].id *)
  creation_mutex : bool
}.

Definition with_fds (l : list Z) (st : SparseStore) : SparseStore :=
  mkSparse (file_size st) (current_capacity st) (num_files st) (rsize st) (aligned_size st)
    (read_only st) (root_path st) (numreads st) (numwrites st) l (creation_mutex st).
Definition with_mutex (m : bool) (st : SparseStore) : SparseStore :=
  mkSparse (file_size st) (current_capacity st) (num_files st) (rsize st) (aligned_size st)
    (read_only st) (root_path st) (numreads st) (numwrites st) (file_descriptors st) m.
Definition with_counts (r w : Z) (st : SparseStore) : SparseStore :=
  mkSparse (file_size st) (current_capacity st) (num_files st) (rsize st) (aligned_size st)
    (read_only st) (root_path st) r w (file_descriptors st) (creation_mutex st).

Definition metadata_path (root : string) : string := root +:+ "/_metadata".
Definition file_name (root : string) (fd_index : Z) : string := root +:+ "/" +:+ to_string fd_index.

(** [std::atomic<int64_t>]::operator++ *)
Definition incr_i64 (n : Z) : Z := (n + 1 + 2 ^ 63) mod 2 ^ 64 - 2 ^ 63.

(** [aligned_size*ceil( file_size*1.0/aligned_size )] converted to [size_t] *)
Definition round_file_size (file_size aligned_size : Z) : Z :=
  f_trunc (f_mul 53 (f_of_int 53 aligned_size) (inject_Z (ceil_div_double file_size aligned_size))).

(** the store with a store's operations over the file system *)
Record SState (F : Type) := mkSS { ss : SparseStore; os : F }.
Arguments mkSS {F}.
Arguments ss {F}.
Arguments os {F}.

Section SparseStore.
Context {F : Type} `{SparseOS F}.

(** Division by a zero size gives an infinity or a NaN, whose conversion is
    undefined, and more than 2^31 files overflow the loop's [int]. *)
Definition alloc_fds {S} (num_files : Z) : M S (list Z) :=
  if bool_decide (num_files ≤ 2 ^ 31) then mret (replicate (Z.to_nat num_files) (-1))
  else undefined "signed overflow of the loop counter".

(** Create mode *)
Definition SparseStore_create (_rsize_ _aligned_size_ : Z) (_root_path_ : string)
    (_file_Size_ : Z) : M F SparseStore :=
  if bool_decide (_aligned_size_ = 0) then undefined "conversion of a double out of range" else
  let file_size := round_file_size _file_Size_ _aligned_size_ in
  if bool_decide (file_size = 0) || bool_decide (2 ^ 64 ≤ file_size)
  then undefined "conversion of a double out of range" else
  let num_files := ceil_div_double _rsize_ file_size in
  fds ← alloc_fds num_files;
  f ← get;
  if opendir _root_path_ f
  then throw "Directory already exist. Needs to be opened in open mode"
  else
    match mkdir _root_path_ f with
    | None => throw "ERROR: Failed to create directory"
    | Some f1 =>
        modify (λ _, f1) ;;
        match write_text (metadata_path _root_path_)
                (String.string_of_list_ascii
                   (decimal file_size ++ Ascii.ascii_of_nat 10 :: decimal (Z.max file_size _rsize_))) f1 with
        | None => throw "Failed to open metadata file"
        | Some f2 =>
            modify (λ _, f2) ;;
            mret (mkSparse file_size None num_files (Some _rsize_) (Some _aligned_size_) false
                    _root_path_ 0 0 fds false)
        end
    end.

(** Open mode *)
Definition SparseStore_open (_root_path_ : string) (_read_only_ : bool) : M F SparseStore :=
  f ← get;
  if negb (opendir _root_path_ f) then throw "Base directory does not exist"
  else
    match read_text (metadata_path _root_path_) f with
    | None => throw "Failed to open metadata file"
    | Some s =>
        let '(fs, s) := extract None (Some (String.list_ascii_of_string s)) in
        let '(cc, s) := extract None s in
        match fs, cc with
        | Some file_size, Some current_capacity =>
            if bool_decide (file_size = 0) then undefined "conversion of a double out of range" else
            let num_files := ceil_div_double current_capacity file_size in
            fds ← alloc_fds num_files;
            mret (mkSparse file_size (Some current_capacity) num_files None None _read_only_
                    _root_path_ 0 0 fds false)
        | _, _ => undefined "read of an uninitialised variable"
        end
    end.

Definition on_store {A} (f : SparseStore → SparseStore) (a : A) : M (SState F) A :=
  λ s, Ok a (mkSS (f (ss s)) (os s)).

(** opening and filling file [fd_index], with the mutex held *)
Definition create_file (fd_index : Z) : M (SState F) unit :=
  s ← get;
  let st := ss s in
  let filename := file_name (root_path st) fd_index in
  match (match open_file filename (read_only st) true (os s) with
         | Some r => Some r
         | None => open_file filename (read_only st) false (os s)
         end) with
  | None => throw "ERROR: Failed to open file"
  | Some (fd, f1) =>
      modify (λ s, mkSS (ss s) f1) ;;
      (if read_only st then mret tt
       else
         let '(status, f2) := posix_fallocate fd 0 (file_size st) f1 in
         modify (λ s, mkSS (ss s) f2) ;;
         if bool_decide (status ≠ 0) then throw "SparseStore: fallocate() failed" else mret tt) ;;
      on_store (λ st, with_fds (<[Z.to_nat fd_index := fd]> (file_descriptors st)) st) tt
  end.

(** the descriptor and [file_offset] *)
Definition get_fd (offset : Z) : M (SState F) (Z * Z) :=
  s ← get;
  if bool_decide (file_size (ss s) = 0) then undefined "division by zero" else
  let fd_index := i32 (u64 offset / file_size (ss s)) in
  let file_offset := u64 offset mod file_size (ss s) in
  if bool_decide (fd_index < 0) then undefined "index out of bounds" else
  match file_descriptors (ss s) !! Z.to_nat fd_index with
  | None => undefined "index out of bounds"
  | Some id =>
      if bool_decide (id = -1) then
        if creation_mutex (ss s) then block OnMutex
        else
          on_store (with_mutex true) tt ;;
          create_file fd_index ;;
          on_store (with_mutex false) tt ;;
          s ← get;
          match file_descriptors (ss s) !! Z.to_nat fd_index with
          | None => undefined "index out of bounds"
          | Some id => mret (id, file_offset)
          end
      else mret (id, file_offset)
  end.

Definition sp_read_from_store (nb : nat) (off : Z) : M (SState F) (Z * bytes) :=
  '(fd, file_offset) ← get_fd off;
  s ← get;
  match pread (os s) fd nb file_offset with
  | None => throw "pread Failed"
  | Some data =>
      on_store (λ st, with_counts (incr_i64 (numreads st)) (numwrites st) st)
        (Z.of_nat (length data), data)
  end.

Definition sp_write_to_store (buf : bytes) (off : Z) : M (SState F) Z :=
  '(fd, file_offset) ← get_fd off;
  s ← get;
  let '(r, f1) := pwrite (os s) fd buf file_offset in
  modify (λ s, mkSS (ss s) f1) ;;
  match r with
  | None => throw "pwrite Failed"
  | Some written =>
      on_store (λ st, with_counts (numreads st) (incr_i64 (numwrites st)) st) (Z.of_nat written)
  end.

(** closes every open file; the bitwise or of the results *)
Fixpoint close_loop (ids : list Z) (return_status : Z) : M (SState F) Z :=
  match ids with
  | [] => mret return_status
  | id :: ids =>
      if bool_decide (id = -1) then close_loop ids return_status
      else
        s ← get;
        let '(close_status, f1) := close_fd id (os s) in
        modify (λ s, mkSS (ss s) f1) ;;
        close_loop ids (Z.lor return_status close_status)
  end.

Definition close_files : M (SState F) Z :=
  s ← get; close_loop (file_descriptors (ss s)) 0.

Definition get_current_capacity : M (SState F) Z :=
  s ← get;
  match current_capacity (ss s) with
  | Some c => mret c
  | None => undefined "read of an uninitialised variable"
  end.

(** the static member *)
Definition get_capacity (base_path : string) : M F Z :=
  f ← get;
  match read_text (metadata_path base_path) f with
  | None => throw "Failed to open metadata file"
  | Some s =>
      let '(c, _) := extract (Some 0) (Some (ignore_line (String.list_ascii_of_string s))) in
      mret (default 0 c)
  end.

Definition Sparse_Store : Store (SState F) :=
  {| read_from_store := sp_read_from_store; write_to_store := sp_write_to_store |}.
End SparseStore.

(** ** Decimal text can be read back *)

Lemma digit_val_char d : 0 ≤ d < 10 → digit_val (digit_char d) = Some d.
Proof.
  intros Hd. unfold digit_val, digit_char.
  rewrite Ascii.nat_ascii_embedding by lia. rewrite Z2Nat.id by lia.
  rewrite bool_decide_true by lia. f_equal. lia.
Qed.

(** the first character of a number *)
Lemma dec_digits_head fuel n acc :
  (0 < fuel)%nat → 0 ≤ n →
  ∃ d l, dec_digits fuel n acc = digit_char d :: l ∧ 0 ≤ d < 10.
Proof.
  revert n acc. induction fuel as [|fuel IH]; intros n acc Hf Hn; [lia|]. cbn [dec_digits].
  assert (0 ≤ n mod 10 < 10) as Hd by (apply Z.mod_pos_bound; lia).
  case_bool_decide; [by eexists _, _|].
  destruct fuel as [|fuel]; [by eexists _, _|].
  destruct (IH (n / 10) (digit_char (n mod 10) :: acc)) as (d&l&E&Hd'); [lia|apply Z.div_pos; lia|].
  rewrite E. by eexists _, _.
Qed.

Lemma read_dec_digits fuel n acc any :
  (0 < fuel)%nat → 0 ≤ n < 10 ^ Z.of_nat fuel →
  read_digits (dec_digits fuel n acc) 0 any = read_digits acc n true ∧
  after_digits (dec_digits fuel n acc) = after_digits acc.
Proof.
  revert n acc. induction fuel as [|fuel IH]; intros n acc Hf Hn; [lia|]. cbn [dec_digits].
  assert (0 ≤ n mod 10 < 10) as Hd by (apply Z.mod_pos_bound; lia).
  pose proof (Z.div_mod n 10 ltac:(lia)) as E. case_bool_decide as H0.
  - cbn. rewrite digit_val_char by done. split; [f_equal; lia|done].
  - destruct fuel as [|fuel].
    { exfalso. apply H0. apply Z.div_small. simpl in Hn. lia. }
    destruct (IH (n / 10) (digit_char (n mod 10) :: acc)) as [-> ->]; [lia| |].
    { split; [apply Z.div_pos; lia|]. apply Z.div_lt_upper_bound; [lia|].
      rewrite <- Z.pow_succ_r, <- Nat2Z.inj_succ by lia. lia. }
    cbn. rewrite digit_val_char by done. split; [f_equal; lia|done].
Qed.

Lemma dec_digits_app fuel n acc rest : dec_digits fuel n acc ++ rest = dec_digits fuel n (acc ++ rest).
Proof.
  revert n acc. induction fuel as [|fuel IH]; intros n acc; [done|]. cbn [dec_digits].
  case_bool_decide; [done|]. by rewrite IH.
Qed.

Lemma extract_decimal v n rest :
  is_u64 n → hd_error rest ≫= digit_val = None →
  extract v (Some (decimal n ++ rest)) = (Some n, Some rest).
Proof.
  intros Hn Hrest. unfold extract, decimal. rewrite dec_digits_app, app_nil_l.
  destruct (dec_digits_head 20 n rest) as (d&l&E&Hd); [lia|unfold is_u64 in Hn; lia|].
  destruct (read_dec_digits 20 n rest false) as [Er Ea]; [lia|unfold is_u64 in *; lia|].
  rewrite E in Er, Ea |- *. cbn [fmap option_fmap option_map skip_space].
  assert (Ascii.nat_of_ascii (digit_char d) = Z.to_nat (48 + d)) as Ec
    by (unfold digit_char; apply Ascii.nat_ascii_embedding; lia).
  assert (is_space_char (digit_char d) = false) as ->.
  { unfold is_space_char. rewrite Ec. by rewrite (bool_decide_false (_ = _)), (bool_decide_false (_ ≤ 13)%nat),
      andb_false_r by lia. }
  rewrite Ec, !bool_decide_false by lia. rewrite Er, Ea.
  destruct rest as [|c rest]; cbn in *.
  - unfold clamp_u64. rewrite !bool_decide_false by (unfold is_u64 in Hn; lia). done.
  - rewrite Hrest. unfold clamp_u64. rewrite !bool_decide_false by (unfold is_u64 in Hn; lia). done.
Qed.

Lemma extract_newline v n : is_u64 n → extract v (Some (Ascii.ascii_of_nat 10 :: decimal n)) = (Some n, Some []).
Proof.
  intros Hn. rewrite <- (extract_decimal v n []) by done. rewrite app_nil_r. reflexivity.
Qed.

Lemma ignore_decimal n rest : ignore_line (decimal n ++ Ascii.ascii_of_nat 10 :: rest) = rest.
Proof.
  unfold decimal. rewrite dec_digits_app, app_nil_l.
  enough (∀ fuel n acc, ignore_line (dec_digits fuel n acc) = ignore_line acc) as -> by done.
  clear. induction fuel as [|fuel IH]; intros n acc; [done|]. cbn [dec_digits].
  assert (ignore_line (digit_char (n mod 10) :: acc) = ignore_line acc) as E.
  { cbn. pose proof (Z.mod_pos_bound n 10 ltac:(lia)). unfold digit_char.
    rewrite Ascii.nat_ascii_embedding by lia. by rewrite bool_decide_false by lia. }
  case_bool_decide; [done|]. by rewrite IH.
Qed.

Lemma to_string_inj i j : is_u64 i → is_u64 j → to_string i = to_string j → i = j.
Proof.
  intros Hi Hj E. apply (f_equal String.list_ascii_of_string) in E. unfold to_string in E.
  rewrite !String.list_ascii_of_string_of_list_ascii in E.
  assert (extract None (Some (decimal i ++ [])) = extract None (Some (decimal j ++ []))) as Ee
    by (by rewrite E).
  rewrite !extract_decimal in Ee by done. congruence.
Qed.

Lemma file_name_inj root i j : is_u64 i → is_u64 j → file_name root i = file_name root j → i = j.
Proof. intros ?? E. unfold file_name in E. simplify_eq. by apply to_string_inj. Qed.

Lemma file_name_metadata root i : 0 ≤ i → file_name root i ≠ metadata_path root.
Proof.
  intros Hi E. unfold file_name, metadata_path in E. apply (inj (String.append root)) in E. 
  change "/_metadata" with ("/" +:+ "_metadata") in E. apply (inj (String.append "/")) in E.
  destruct (dec_digits_head 20 i []) as (d&l&Ed&Hd); [lia|done|].
  apply (f_equal String.list_ascii_of_string) in E. unfold to_string, decimal in E.
  rewrite String.list_ascii_of_string_of_list_ascii, Ed in E. cbn in E.
  apply (f_equal (λ l, hd_error l ≫= digit_val)) in E. cbn in E.
  rewrite digit_val_char in E by done. discriminate.
Qed.

(** ** The sparse store is a page store *)

Lemma pad_long n l : n ≤ Z.of_nat (length l) → pad n l = l.
Proof.
  intros. unfold pad. replace (Z.to_nat n - length l)%nat with 0%nat by lia. by rewrite app_nil_r.
Qed.

Lemma length_pad n l : Z.of_nat (length (pad n l)) = Z.max n (Z.of_nat (length l)).
Proof. unfold pad. rewrite length_app, length_replicate. lia. Qed.

Lemma pad_pad n l : pad n (pad n l) = pad n l.
Proof. apply pad_long. rewrite length_pad. lia. Qed.

(** A page lies in one file when the file size is a multiple of the page size. *)
Lemma page_in_file psize fs off :
  0 < psize → 0 < fs → fs mod psize = 0 → 0 ≤ off → off mod psize = 0 →
  off mod fs + psize ≤ fs ∧ (off mod fs) mod psize = 0.
Proof.
  intros Hp Hf Hm Ho Hom.
  apply Z.mod_divide in Hm as [k Hk]; [|lia]. apply Z.mod_divide in Hom as [j Hj]; [|lia].
  pose proof (Z.mod_pos_bound off fs Hf). pose proof (Z.div_mod off fs ltac:(lia)) as E.
  assert (off mod fs = (j - k * (off / fs)) * psize) as Er by nia.
  rewrite Er in *. split; [|apply Z.mod_mul; lia]. assert (j - k * (off / fs) < k) by nia. nia.
Qed.

Section SparseInvariant.
Context {F : Type} `{SparseLaws F} (psize : nat) (cap : Z).
Abbreviation psz := (Z.of_nat psize).
Abbreviation fname st i := (file_name (root_path st) i).

(** what the file [i] holds, or will hold once it is created *)
Definition file_data (s : SState F) (i : Z) : bytes :=
  pad (file_size (ss s)) (default [] (file (os s) (fname (ss s) i))).

Definition slot_ok (s : SState F) (i : nat) (id : Z) : Prop :=
  (id = -1 ∧ creatable (os s) (fname (ss s) (Z.of_nat i))) ∨
  (0 ≤ id ∧ fds (os s) id = Some (fname (ss s) (Z.of_nat i), true) ∧
   file (os s) (fname (ss s) (Z.of_nat i)) = Some (file_data s (Z.of_nat i))).

Record sp_ok (s : SState F) : Prop := {
  sp_rw : read_only (ss s) = false;
  sp_mutex : creation_mutex (ss s) = false;
  sp_fs : 0 < file_size (ss s) ∧ file_size (ss s) mod psz = 0;
  sp_num : Z.of_nat (length (file_descriptors (ss s))) < 2 ^ 31;
  sp_cap : cap ≤ Z.of_nat (length (file_descriptors (ss s))) * file_size (ss s) < 2 ^ 63;
  sp_slots i id : file_descriptors (ss s) !! i = Some id → slot_ok s i id
}.

Definition sp_page (s : SState F) (off : Z) : bytes :=
  take psize (drop (Z.to_nat (off mod file_size (ss s))) (file_data s (off / file_size (ss s)))).

(** the members that do not change once the store exists *)
Definition same_store (st st' : SparseStore) : Prop :=
  file_size st' = file_size st ∧ root_path st' = root_path st ∧
  length (file_descriptors st') = length (file_descriptors st) ∧ read_only st' = read_only st.

Lemma open_either f p :
  creatable f p →
  ∃ fd f', match open_file p false true f with
           | Some r => Some r
           | None => open_file p false false f
           end = Some (fd, f') ∧ 0 ≤ fd ∧ fds f fd = None ∧
    (∀ q, file f' q = if decide (q = p) then Some (default [] (file f p)) else file f q) ∧
    (∀ d, fds f' d = if decide (d = fd) then Some (p, true) else fds f d) ∧
    (∀ q, creatable f q → creatable f' q).
Proof.
  intros Hc. destruct (open_law f p false Hc) as (fd&f'&E&Hrest). exists fd, f'. split; [|done].
  destruct (open_direct_law f p false) as [->| ->]; by rewrite E.
Qed.

(** creating the file of an empty slot *)
Lemma create_file_run s (i : nat) :
  read_only (ss s) = false → 0 < file_size (ss s) →
  (i < length (file_descriptors (ss s)))%nat → creatable (os s) (fname (ss s) (Z.of_nat i)) →
  ∃ fd f', create_file (Z.of_nat i) s = Ok tt (mkSS (with_fds (<[i := fd]> (file_descriptors (ss s))) (ss s)) f') ∧
    0 ≤ fd ∧ fds (os s) fd = None ∧
    (∀ d, fds f' d = if decide (d = fd) then Some (fname (ss s) (Z.of_nat i), true) else fds (os s) d) ∧
    (∀ q, file f' q = if decide (q = fname (ss s) (Z.of_nat i)) then Some (file_data s (Z.of_nat i))
                      else file (os s) q) ∧
    (∀ q, creatable (os s) q → creatable f' q).
Proof.
  intros Hrw Hfs Hi Hc. set (p := fname (ss s) (Z.of_nat i)) in *.
  destruct (open_either (os s) p Hc) as (fd&f1&Eo&Hfd&Hfresh&Hf1&Hd1&Hc1).
  destruct (fallocate_law f1 fd p (file_size (ss s)) (default [] (file (os s) p)))
    as (f2&Ef&Hf2&Hd2&Hc2); [by rewrite Hd1, decide_True|by rewrite Hf1, decide_True|by apply Hc1|done|].
  exists fd, f2. split_and!; [|lia|done| | |].
  - unfold create_file. erewrite bind_run by reflexivity. cbv beta zeta. fold p.
    rewrite Hrw, Eo. erewrite bind_run by reflexivity. cbv beta. rewrite Ef.
    erewrite bind_run; [|erewrite bind_run by reflexivity; cbv beta; by rewrite bool_decide_false by lia].
    cbv beta. unfold on_store. by rewrite Nat2Z.id.
  - intros d. by rewrite Hd2, Hd1.
  - intros q. rewrite Hf2. case_decide; [done|]. by rewrite Hf1, decide_False.
  - auto.
Qed.

(** the store once file [i] exists, under descriptor [fd] *)
Lemma sp_ok_created s (i : nat) fd f' c :
  sp_ok s → file_descriptors (ss s) !! i = Some (-1) → 0 ≤ fd → fds (os s) fd = None →
  (∀ d, fds f' d = if decide (d = fd) then Some (fname (ss s) (Z.of_nat i), true) else fds (os s) d) →
  (∀ q, file f' q = if decide (q = fname (ss s) (Z.of_nat i)) then Some (file_data s (Z.of_nat i))
                    else file (os s) q) →
  (∀ q, creatable (os s) q → creatable f' q) →
  c = false →
  let s' := mkSS (with_mutex c (with_fds (<[i := fd]> (file_descriptors (ss s))) (ss s))) f' in
  sp_ok s' ∧ ∀ j, file_data s' j = file_data s j.
Proof.
  intros [Hrw Hmx Hfs Hnum Hcap Hslots] Hi Hfd Hfresh Hd Hf Hc -> s'.
  assert (∀ j, file_data s' j = file_data s j) as Hdata.
  { intros j. unfold file_data. cbn. rewrite Hf. case_decide as E; [|done].
    cbn. unfold file_data. rewrite <- E. apply pad_pad. }
  split; [|done]. split; cbn; rewrite ?length_insert; try done.
  intros j id Hj. unfold slot_ok. cbn. rewrite Hdata.
  apply list_lookup_insert_Some in Hj as [(<-&<-&Hlt)|(Hne&Hj)].
  - right. split; [done|]. by rewrite Hd, Hf, !decide_True.
  - destruct (Hslots j id Hj) as [(->&Hcr)|(Hid&Hdj&Hfj)]; [left; auto|right].
    split; [done|]. rewrite Hd, Hf, !decide_False; [done| |congruence].
    intros E%file_name_inj; [lia|unfold is_u64..].
    + apply lookup_lt_Some in Hj. lia.
    + apply lookup_lt_Some in Hi. lia.
Qed.

Lemma get_fd_run s off :
  sp_ok s → 0 ≤ off < cap →
  ∃ id s', get_fd off s = Ok (id, off mod file_size (ss s)) s' ∧ sp_ok s' ∧ same_store (ss s) (ss s') ∧
    file_descriptors (ss s') !! Z.to_nat (off / file_size (ss s)) = Some id ∧ 0 ≤ id ∧
    ∀ j, file_data s' j = file_data s j.
Proof.
  intros Hok Hoff. pose proof Hok as [Hrw Hmx [Hfs Hfm] Hnum Hcap Hslots].
  assert (0 ≤ off / file_size (ss s) < Z.of_nat (length (file_descriptors (ss s)))) as Hidx.
  { split; [apply Z.div_pos; lia|]. apply Z.div_lt_upper_bound; lia. }
  unfold get_fd. erewrite bind_run by reflexivity. cbv beta zeta.
  rewrite bool_decide_false by lia. rewrite (u64_small off) by (unfold is_u64; lia).
  rewrite i32_small by lia. rewrite bool_decide_false by lia.
  set (i := Z.to_nat (off / file_size (ss s))) in *.
  assert (off / file_size (ss s) = Z.of_nat i) as Ei by lia.
  destruct (lookup_lt_is_Some_2 (file_descriptors (ss s)) i) as [id Hid]; [lia|]. rewrite Hid.
  destruct (Hslots i id Hid) as [(->&Hcr)|(Hpos&_&_)].
  2:{ rewrite bool_decide_false by lia. by exists id, s. }
  rewrite bool_decide_true, Hmx by done. erewrite bind_run by reflexivity. cbv beta.
  destruct (create_file_run (mkSS (with_mutex true (ss s)) (os s)) i) as (fd&f'&Ec&Hfd&Hfresh&Hd&Hf&Hc);
    [done|done|cbn; lia|done|]. rewrite Ei. erewrite bind_run by exact Ec. cbv beta.
  erewrite bind_run by reflexivity. cbv beta. erewrite bind_run by reflexivity. cbv beta. cbn.
  rewrite list_lookup_insert_eq by lia.
  destruct (sp_ok_created s i fd f' false Hok Hid Hfd Hfresh Hd Hf Hc eq_refl) as [Hok' Hdata].
  eexists fd, _. split; [reflexivity|]. cbn. split_and!; [exact Hok'| |by rewrite list_lookup_insert_eq by lia|done|exact Hdata].
  unfold same_store. cbn. by rewrite length_insert.
Qed.

(** the descriptor [get_fd] returns is the one of the page's file *)
Lemma get_fd_file s off :
  sp_ok s → 0 ≤ off < cap →
  ∃ id s', get_fd off s = Ok (id, off mod file_size (ss s)) s' ∧ sp_ok s' ∧ same_store (ss s) (ss s') ∧
    fds (os s') id = Some (fname (ss s) (off / file_size (ss s)), true) ∧
    file (os s') (fname (ss s) (off / file_size (ss s))) = Some (file_data s (off / file_size (ss s))) ∧
    ∀ j, file_data s' j = file_data s j.
Proof.
  intros Hok Hoff. destruct (get_fd_run s off Hok Hoff) as (id&s'&E&Hok'&Hsame&Hl&Hid&Hdata).
  exists id, s'. split_and!; try done; pose proof Hsame as (Hfs&Hroot&_);
    (destruct (sp_slots _ Hok' _ _ Hl) as [(->&_)|(_&Hd&Hf)]; [lia|]);
    rewrite Hroot, Z2Nat.id in * by (apply Z.div_pos; [lia|apply Hok]); [done|by rewrite <- Hdata].
Qed.

Lemma sp_page_same s s' off :
  file_size (ss s') = file_size (ss s) → (∀ j, file_data s' j = file_data s j) → sp_page s' off = sp_page s off.
Proof. intros Hfs Hd. unfold sp_page. by rewrite Hfs, Hd. Qed.

(** changing only the counters keeps the invariant *)
Lemma sp_ok_counts s r w : sp_ok s → sp_ok (mkSS (with_counts r w (ss s)) (os s)).
Proof. intros [? ? ? ? ? Hs]. by split. Qed.

Context (Hp : (0 < psize)%nat).

Lemma sp_geometry s off :
  sp_ok s → page_offset psz cap off →
  0 ≤ off < cap ∧ 0 ≤ off mod file_size (ss s) ∧ off mod file_size (ss s) + psz ≤ file_size (ss s) ∧
  (off mod file_size (ss s)) mod psz = 0.
Proof.
  intros Hok (H1&H2&H3). destruct (sp_fs _ Hok) as [Hfs Hfm].
  destruct (page_in_file psz (file_size (ss s)) off) as [? ?]; try done; [lia|].
  pose proof (Z.mod_pos_bound off (file_size (ss s)) Hfs). lia.
Qed.

Lemma file_data_length s j : file_size (ss s) ≤ Z.of_nat (length (file_data s j)).
Proof. unfold file_data. rewrite length_pad. lia. Qed.

Lemma sp_page_length s off : sp_ok s → page_offset psz cap off → length (sp_page s off) = psize.
Proof.
  intros Hok Hoff. destruct (sp_geometry s off Hok Hoff) as (?&?&?&_).
  pose proof (file_data_length s (off / file_size (ss s))).
  unfold sp_page. rewrite length_take, length_drop. lia.
Qed.

Lemma sp_read_page s off :
  sp_ok s → page_offset psz cap off →
  ∃ s', sp_read_from_store psize off s = Ok (psz, sp_page s off) s' ∧ sp_ok s' ∧
    same_store (ss s) (ss s') ∧ ∀ o, sp_page s' o = sp_page s o.
Proof.
  intros Hok Hoff. destruct (sp_geometry s off Hok Hoff) as (Hr&Hm0&_&_).
  destruct (get_fd_file s off Hok Hr) as (id&s1&E&Hok1&Hsame&Hd&Hf&Hdata).
  unfold sp_read_from_store. erewrite bind_run by exact E. cbv beta iota. erewrite bind_run by reflexivity.
  cbv beta. rewrite (s_pread_law _ _ psize _ _ _ _ Hd Hf) by done. fold (sp_page s off).
  rewrite sp_page_length by done. unfold on_store. eexists. split; [reflexivity|].
  split; [by apply sp_ok_counts|]. split; [exact Hsame|].
  intros o. rewrite <- (sp_page_same s s1) by (done || apply Hsame). done.
Qed.

Lemma file_index_u64 s off : sp_ok s → 0 ≤ off < cap → is_u64 (off / file_size (ss s)).
Proof.
  intros Hok Hoff. destruct (sp_fs _ Hok) as [Hfs _]. pose proof (sp_cap _ Hok).
  pose proof (Z.div_pos off (file_size (ss s)) ltac:(lia) Hfs).
  pose proof (Z.div_le_upper_bound off (file_size (ss s)) off Hfs ltac:(nia)). unfold is_u64. lia.
Qed.

(** the store after a write of [buf] at [fo] into file [j] *)
Lemma sp_ok_written s j fo buf f' r w :
  sp_ok s → is_u64 j → 0 ≤ fo → fo + Z.of_nat (length buf) ≤ file_size (ss s) →
  (∀ q, file f' q = if decide (q = fname (ss s) j) then Some (splice (Z.to_nat fo) buf (file_data s j))
                    else file (os s) q) →
  fds f' = fds (os s) → (∀ q, creatable (os s) q → creatable f' q) →
  let s' := mkSS (with_counts r w (ss s)) f' in
  sp_ok s' ∧ ∀ i, is_u64 i →
    file_data s' i = if decide (i = j) then splice (Z.to_nat fo) buf (file_data s j) else file_data s i.
Proof.
  intros [? ? ? Hnum ? Hslots] Hj Hfo Hle Hf Hd Hc s'.
  assert (∀ i, is_u64 i →
    file_data s' i = if decide (i = j) then splice (Z.to_nat fo) buf (file_data s j) else file_data s i) as Hdata.
  { intros i Hi. unfold file_data at 1. cbn. rewrite Hf. destruct (decide (i = j)) as [->|Hne].
    - rewrite decide_True by done. cbn. apply pad_long. pose proof (file_data_length s j).
      rewrite length_splice. lia.
    - by rewrite decide_False by (intros ?%file_name_inj; done). }
  split; [|done]. split; try done. intros i id Hi. cbn in Hi.
  assert (is_u64 (Z.of_nat i)) as Hiu by (apply lookup_lt_Some in Hi; unfold is_u64; lia).
  unfold slot_ok. rewrite Hdata by done. cbn. rewrite Hd, Hf.
  destruct (Hslots i id Hi) as [(->&Hcr)|(Hid&Hdi&Hfi)]; [left; auto|right]. split_and!; try done.
  destruct (decide (Z.of_nat i = j)) as [->|Hne]; [by rewrite decide_True|].
  by rewrite decide_False by (intros ?%file_name_inj; done).
Qed.

(** what that write does to the pages *)
Lemma sp_page_written s s' off buf :
  sp_ok s → page_offset psz cap off → length buf = psize → file_size (ss s') = file_size (ss s) →
  (∀ i, is_u64 i →
    file_data s' i = if decide (i = off / file_size (ss s))
                     then splice (Z.to_nat (off mod file_size (ss s))) buf (file_data s (off / file_size (ss s)))
                     else file_data s i) →
  ∀ o, page_offset psz cap o → sp_page s' o = if decide (o = off) then buf else sp_page s o.
Proof.
  intros Hok Hoff Hlen Hfs Hdata o Ho.
  destruct (sp_geometry s off Hok Hoff) as (Hr&Hm0&Hm1&Hm2).
  destruct (sp_geometry s o Hok Ho) as (Hro&Ho0&Ho1&Ho2). destruct (sp_fs _ Hok).
  pose proof (file_data_length s (off / file_size (ss s))) as Hlj.
  unfold sp_page. rewrite Hfs, Hdata by (by apply file_index_u64).
  pose proof (Z.div_mod off (file_size (ss s)) ltac:(lia)). pose proof (Z.div_mod o (file_size (ss s)) ltac:(lia)).
  destruct (decide (o = off)) as [->|Hne].
  { rewrite decide_True by done. rewrite <- Hlen. apply splice_read_same. lia. }
  destruct (decide (o / file_size (ss s) = off / file_size (ss s))) as [Ej|]; [|done]. rewrite Ej.
  apply splice_read_other; [done|lia|].
  destruct (page_offset_apart psz (file_size (ss s)) (o mod file_size (ss s)) (off mod file_size (ss s)));
    unfold page_offset; lia.
Qed.

Lemma sp_write_page s off buf :
  sp_ok s → page_offset psz cap off → length buf = psize →
  ∃ s', sp_write_to_store buf off s = Ok psz s' ∧ sp_ok s' ∧ same_store (ss s) (ss s') ∧
    ∀ o, page_offset psz cap o → sp_page s' o = if decide (o = off) then buf else sp_page s o.
Proof.
  intros Hok Hoff Hlen. destruct (sp_geometry s off Hok Hoff) as (Hr&Hm0&Hm1&_).
  destruct (get_fd_file s off Hok Hr) as (id&s1&E&Hok1&Hsame&Hd&Hf&Hdata).
  pose proof Hsame as (Hfs&Hroot&_&_).
  destruct (s_pwrite_law _ _ buf (off mod file_size (ss s)) _ _ Hd Hf Hm0) as (f2&Ew&Hf2&Hd2&Hc2).
  rewrite <- Hdata, <- Hroot in Hf2.
  destruct (sp_ok_written s1 (off / file_size (ss s)) (off mod file_size (ss s)) buf f2
    (numreads (ss s1)) (incr_i64 (numwrites (ss s1)))) as [Hok2 Hdata2]; try done.
  { by apply file_index_u64. }
  { rewrite Hlen, Hfs. lia. }
  eexists. split_and!; [|exact Hok2|exact Hsame|].
  - unfold sp_write_to_store. erewrite bind_run by exact E. cbv beta iota. erewrite bind_run by reflexivity.
    cbv beta. rewrite Ew. erewrite bind_run by reflexivity. cbv beta. unfold on_store. by rewrite Hlen.
  - apply sp_page_written; try done. intros i Hi. rewrite Hdata2 by done. by rewrite !Hdata.
Qed.
End SparseInvariant.

#[refine] Definition Sparse_PageStore {F} `{SparseLaws F} (psize : nat) (cap : Z) (Hp : (0 < psize)%nat) :
    @PageStore (SState F) Sparse_Store psize cap :=
  {| store_ok := sp_ok psize cap; page_of := sp_page psize |}.
Proof.
  - intros s off. apply sp_page_length. done.
  - intros s off Hok Hoff. destruct (sp_read_page psize cap Hp s off Hok Hoff) as (s'&?&?&_&?). eauto.
  - intros s off buf Hok Hoff Hl. destruct (sp_write_page psize cap Hp s off buf Hok Hoff Hl) as (s'&?&?&_&?). eauto.
Defined.

(** ** The constructors *)

Lemma round_file_size_exact fsz al :
  0 < fsz → 0 < al → al * ((fsz + al - 1) / al) < 2 ^ 53 →
  round_file_size fsz al = al * ((fsz + al - 1) / al).
Proof.
  intros Hf Ha Hb. set (c := (fsz + al - 1) / al) in *.
  assert (fsz ≤ al * c ∧ 0 < c) as [Hle Hc].
  { pose proof (Z.div_mod (fsz + al - 1) al ltac:(lia)). pose proof (Z.mod_pos_bound (fsz + al - 1) al Ha).
    fold c in H. split; nia. }
  unfold round_file_size. rewrite ceil_div_double_exact by nia. fold c.
  unfold f_trunc, f_mul, f_of_int. rewrite (Qfloor_comp _ (inject_Z (al * c))); [apply Qfloor_Z|].
  rewrite <- (rnd_int 53 ltac:(lia) (al * c)) by nia. apply rnd_eq; [lia|].
  rewrite (rnd_int 53 ltac:(lia) al) by nia. by rewrite inject_Z_mult.
Qed.

Lemma ceil_div_bounds a b : 0 < b → a ≤ (a + b - 1) / b * b < a + b.
Proof.
  intros Hb. pose proof (Z.div_mod (a + b - 1) b ltac:(lia)).
  pose proof (Z.mod_pos_bound (a + b - 1) b Hb). lia.
Qed.

Section Constructors.
Context {F : Type} `{SparseLaws F}.

(** the sizes a constructor is called with: a page size, a region and a file
    size that a [double] represents exactly *)
Record sizes_ok (rs al fsz : Z) : Prop := {
  sz_al : 0 < al;
  sz_rs : 0 < rs < 2 ^ 53;
  sz_fs : 0 < fsz;
  sz_fs53 : fsz + al ≤ 2 ^ 53;
  sz_num : rs < 2 ^ 30 * fsz
}.

Lemma create_inv rs al root fsz f st f' :
  sizes_ok rs al fsz → SparseStore_create rs al root fsz f = Ok st f' →
  let fs := al * ((fsz + al - 1) / al) in let n := (rs + fs - 1) / fs in
  fsz ≤ fs < fsz + al ∧ rs ≤ n * fs < rs + fs ∧ 0 < n < 2 ^ 31 ∧
  st = mkSparse fs None n (Some rs) (Some al) false root 0 0 (replicate (Z.to_nat n) (-1)) false ∧
  opendir root f' = true ∧
  read_text (metadata_path root) f' =
    Some (String.string_of_list_ascii (decimal fs ++ Ascii.ascii_of_nat 10 :: decimal (Z.max fs rs))) ∧
  (∀ i, 0 ≤ i → creatable f' (file_name root i) ∧ file f' (file_name root i) = None).
Proof.
  intros [Ha Hr Hf H53 Hn] E fs n.
  assert (fsz ≤ fs < fsz + al) as Hfs by (pose proof (ceil_div_bounds fsz al Ha); unfold fs; lia).
  assert (rs ≤ n * fs < rs + fs) as Hns by (apply ceil_div_bounds; lia).
  assert (0 < n < 2 ^ 31) as Hn31 by nia.
  unfold SparseStore_create in E. rewrite bool_decide_false in E by lia.
  rewrite round_file_size_exact in E by (fold fs; lia). fold fs in E. cbv zeta in E.
  rewrite !bool_decide_false in E by lia. cbn [orb] in E.
  rewrite ceil_div_double_exact in E by lia. fold n in E.
  unfold alloc_fds in E. rewrite bool_decide_true in E by lia. inv_ok.
  destruct (opendir root _) eqn:Ed; [inv_ok|]. destruct (mkdir root _) as [f1|] eqn:Em; [|inv_ok].
  inv_ok. destruct (write_text _ _ _) as [f2|] eqn:Ew; inv_ok.
  destruct (mkdir_law _ _ _ Em) as (Ho1&_&Hdir). destruct (write_text_law _ _ _ _ Ew) as (Hrt&_&Hoth&Hcr&Hop).
  split_and!; try done; try lia; [by rewrite Hop|].
  intros i Hi. destruct (Hdir (to_string i)) as [Hc1 Hf1]. split; [by apply Hcr|].
  rewrite Hoth by (by apply file_name_metadata). done.
Qed.

(** a new store satisfies the invariant, and all its pages are zero *)
Lemma create_ok rs al root fsz f st f' :
  sizes_ok rs al fsz → SparseStore_create rs al root fsz f = Ok st f' →
  sp_ok (Z.to_nat al) (num_files st * file_size st) (mkSS st f') ∧
  ∀ off, page_offset al (num_files st * file_size st) off →
    sp_page (Z.to_nat al) (mkSS st f') off = replicate (Z.to_nat al) x00.
Proof.
  intros Hsz E. pose proof Hsz as [Ha Hr Hf H53 Hn].
  destruct (create_inv _ _ _ _ _ _ _ Hsz E) as (Hfs&Hns&Hn31&->&_&_&Hfiles).
  set (fs := al * ((fsz + al - 1) / al)) in *. set (n := (rs + fs - 1) / fs) in *. cbn.
  assert (fs mod al = 0) as Hmod by (unfold fs; rewrite Z.mul_comm; apply Z.mod_mul; lia).
  split.
  - split; cbn; try done; rewrite ?length_replicate, ?Z2Nat.id by lia; try lia.
    intros i id [-> Hi]%lookup_replicate. left. split; [done|]. apply Hfiles. lia.
  - intros off (H1&H2&H3). unfold sp_page, file_data. cbn.
    destruct (page_in_file al fs off) as [Hle _]; try done; [lia|].
    pose proof (Z.mod_pos_bound off fs ltac:(lia)).
    rewrite (proj2 (Hfiles (off / fs) ltac:(apply Z.div_pos; lia))). cbn. unfold pad. cbn.
    rewrite drop_replicate, take_replicate. f_equal. lia.
Qed.

(** (bounds).  The create-mode constructor rounds the file size up to a
    multiple of the page size and allocates exactly the files the region needs:
    the rounding, computed in [double], is off by less than a page, the files
    together hold the region with less than a file to spare, and no page of the
    store crosses the border of two files. *)
Theorem sparse_create_geometry rs al root fsz f st f' :
  sizes_ok rs al fsz → SparseStore_create rs al root fsz f = Ok st f' →
  file_size st mod al = 0 ∧ fsz ≤ file_size st < fsz + al ∧
  rs ≤ num_files st * file_size st < rs + file_size st ∧
  Z.of_nat (length (file_descriptors st)) = num_files st ∧
  ∀ off, 0 ≤ off → off mod al = 0 → off / file_size st = (off + al - 1) / file_size st.
Proof.
  intros Hsz E. pose proof Hsz as [Ha Hr Hf H53 Hn].
  destruct (create_inv _ _ _ _ _ _ _ Hsz E) as (Hfs&Hns&Hn31&->&_).
  set (fs := al * ((fsz + al - 1) / al)) in *. cbn.
  assert (fs mod al = 0) as Hmod by (unfold fs; rewrite Z.mul_comm; apply Z.mod_mul; lia).
  split_and!; try done; try lia; [rewrite length_replicate; lia|].
  intros off H1 H2. destruct (page_in_file al fs off) as [Hle _]; try done; [lia|].
  apply Z.div_unique with (off mod fs + al - 1); pose proof (Z.mod_pos_bound off fs ltac:(lia));
    pose proof (Z.div_mod off fs ltac:(lia)); lia.
Qed.

(** C22 (refinement).  A store created in create mode behaves as an array of
    pages as large as all its files: a page that was never written reads as
    zeros, and a page that was written reads back whatever other pages were
    written since, although the files behind them are created on first touch. *)
Theorem sparse_store_is_page_array rs al root fsz f st f' off :
  sizes_ok rs al fsz → SparseStore_create rs al root fsz f = Ok st f' →
  page_offset al (num_files st * file_size st) off →
  (∃ s, sp_read_from_store (Z.to_nat al) off (mkSS st f') = Ok (al, replicate (Z.to_nat al) x00) s) ∧
  ∀ buf others, length buf = Z.to_nat al →
    Forall (λ '(o, b), page_offset al (num_files st * file_size st) o ∧ o ≠ off ∧ length b = Z.to_nat al) others →
    ∃ s, (sp_write_to_store buf off ;;
          for_each others (λ '(o, b), sp_write_to_store b o ;; mret tt) ;;
          sp_read_from_store (Z.to_nat al) off) (mkSS st f') = Ok (al, buf) s.
Proof.
  intros Hsz E Hoff. pose proof (sz_al _ _ _ Hsz) as Ha.
  destruct (create_ok _ _ _ _ _ _ _ Hsz E) as [Hok Hz].
  assert (Z.of_nat (Z.to_nat al) = al) as Eal by lia. split.
  - destruct (sp_read_page (Z.to_nat al) (num_files st * file_size st) ltac:(lia) (mkSS st f') off) as (s&Er&_);
      [done|by rewrite Eal|]. exists s. by rewrite Er, Eal, Hz.
  - intros buf others Hlen Hoth. assert (0 < Z.to_nat al)%nat as Hp by lia.
    destruct (page_store_write_read (ST := Sparse_Store) (Z.to_nat al) (num_files st * file_size st)
      (PS := Sparse_PageStore _ _ Hp) (mkSS st f') off buf others)
      as (s&Es&_); [exact Hok|by rewrite Eal|done|by rewrite Eal|]. rewrite Eal in Es. by exists s.
Qed.

(** C23 (roundtrip).  The metadata file written by the create-mode constructor
    is read back by the open-mode one and by [get_capacity]: the same file size
    and number of files, and the capacity that was recorded. *)
Theorem sparse_metadata_roundtrip rs al root fsz ro f st f' :
  sizes_ok rs al fsz → SparseStore_create rs al root fsz f = Ok st f' →
  ∃ st', SparseStore_open root ro f' = Ok st' f' ∧
    file_size st' = file_size st ∧ num_files st' = num_files st ∧
    file_descriptors st' = file_descriptors st ∧
    current_capacity st' = Some (Z.max (file_size st) rs) ∧
    get_capacity root f' = Ok (Z.max (file_size st) rs) f'.
Proof.
  intros Hsz E. pose proof Hsz as [Ha Hr Hf H53 Hn].
  destruct (create_inv _ _ _ _ _ _ _ Hsz E) as (Hfs&Hns&Hn31&->&Ho&Ht&_).
  set (fs := al * ((fsz + al - 1) / al)) in *. set (n := (rs + fs - 1) / fs) in *. cbn.
  assert ((Z.max fs rs + fs - 1) / fs = n) as En.
  { destruct (Z.max_spec fs rs) as [[? ->]|[? ->]]; [done|].
    assert (n = 1) as -> by nia. symmetry. apply Z.div_unique with (fs - 1); lia. }
  assert (is_u64 fs ∧ is_u64 (Z.max fs rs)) as [Hu1 Hu2] by (unfold is_u64; lia).
  unfold SparseStore_open, get_capacity. erewrite !bind_run by reflexivity. cbv beta.
  rewrite Ho, Ht, String.list_ascii_of_string_of_list_ascii. cbn [negb].
  rewrite extract_decimal by done. rewrite extract_newline by done.
  rewrite ignore_decimal, <- (app_nil_r (decimal (Z.max fs rs))), extract_decimal by done.
  rewrite bool_decide_false by lia. cbv zeta. rewrite ceil_div_double_exact, En by lia.
  unfold alloc_fds. rewrite bool_decide_true by lia. eexists. split; [reflexivity|]. done.
Qed.
End Constructors.

(** ** Failures *)

Section Failures.
Context {F : Type} `{SparseLaws F}.

(** the slot of [off] exists and is still empty *)
Definition first_touch (s : SState F) (off : Z) : Prop :=
  0 < file_size (ss s) ∧ 0 ≤ off < 2 ^ 63 ∧ off / file_size (ss s) < 2 ^ 31 ∧
  file_descriptors (ss s) !! Z.to_nat (off / file_size (ss s)) = Some (-1).

Lemma get_fd_first_touch s off :
  first_touch s off →
  get_fd off s =
    if creation_mutex (ss s) then Block OnMutex s
    else (create_file (off / file_size (ss s)) ;;
          on_store (with_mutex false) tt ;;
          s1 ← get;
          match file_descriptors (ss s1) !! Z.to_nat (off / file_size (ss s)) with
          | None => undefined "index out of bounds"
          | Some id => mret (id, off mod file_size (ss s))
          end) (mkSS (with_mutex true (ss s)) (os s)).
Proof.
  intros (Hf&Ho&Hi&Hs). unfold get_fd. erewrite bind_run by reflexivity. cbv beta zeta.
  rewrite bool_decide_false by lia. rewrite (u64_small off) by (unfold is_u64; lia).
  assert (0 ≤ off / file_size (ss s)) by (apply Z.div_pos; lia).
  rewrite i32_small, bool_decide_false by lia. rewrite Hs, bool_decide_true by done.
  destruct (creation_mutex (ss s)); reflexivity.
Qed.

(** (error).  When a file cannot be opened, [get_fd] throws with the
    creation mutex still locked: every later access that is the first to touch
    a file, of any page, blocks for ever. *)
Theorem sparse_open_failure_keeps_mutex s off :
  first_touch s off → creation_mutex (ss s) = false →
  (∀ direct, open_file (file_name (root_path (ss s)) (off / file_size (ss s))) (read_only (ss s)) direct (os s) = None) →
  ∃ msg s', (∀ nb, sp_read_from_store nb off s = Throw msg s') ∧
    ∀ off' nb, first_touch s' off' → sp_read_from_store nb off' s' = Block OnMutex s'.
Proof.
  intros Ht Hm Ho. exists "ERROR: Failed to open file", (mkSS (with_mutex true (ss s)) (os s)).
  pose proof (get_fd_first_touch s off Ht) as E. rewrite Hm in E.
  assert (get_fd off s = Throw "ERROR: Failed to open file" (mkSS (with_mutex true (ss s)) (os s))) as Eg.
  { rewrite E. unfold create_file, mbind, M_bind, get. cbn. by rewrite !Ho. }
  split.
  - intros nb. unfold sp_read_from_store, mbind at 1, M_bind at 1. by rewrite Eg.
  - intros off' nb Ht'. unfold sp_read_from_store, mbind at 1, M_bind at 1.
    by rewrite get_fd_first_touch.
Qed.

(** (error).  A store opened read-only creates a missing file, empty, when
    a page of it is read, and the read returns no bytes and no error: a page
    that was never written does not read as zeros, as it does from a writable
    store. *)
Theorem sparse_read_only_hole s off nb :
  first_touch s off → creation_mutex (ss s) = false → read_only (ss s) = true →
  creatable (os s) (file_name (root_path (ss s)) (off / file_size (ss s))) →
  file (os s) (file_name (root_path (ss s)) (off / file_size (ss s))) = None →
  ∃ s', sp_read_from_store nb off s = Ok (0, []) s' ∧
    file (os s') (file_name (root_path (ss s)) (off / file_size (ss s))) = Some [].
Proof.
  intros Ht Hm Hro Hc Hn. set (p := file_name _ _) in *.
  destruct (open_law (os s) p true Hc) as (fd&f1&Eo&Hfd&_&Hf1&Hd1&_).
  assert (match open_file p true true (os s) with
          | Some r => Some r | None => open_file p true false (os s) end = Some (fd, f1)) as Eo'.
  { destruct (open_direct_law (os s) p true) as [->| ->]; by rewrite Eo. }
  pose proof (get_fd_first_touch s off Ht) as E. rewrite Hm in E.
  destruct Ht as (Hfs&Hoff&_&Hs). pose proof (lookup_lt_Some _ _ _ Hs) as Hlt.
  assert (∃ s1, get_fd off s = Ok (fd, off mod file_size (ss s)) s1 ∧ os s1 = f1) as (s1&Eg&Hos).
  { rewrite E. unfold create_file. erewrite bind_run.
    2:{ erewrite bind_run by reflexivity. cbv beta zeta. cbn [ss os root_path with_mutex read_only]. fold p.
        rewrite Hro, Eo'. erewrite bind_run by reflexivity. cbv beta.
        erewrite bind_run by reflexivity. reflexivity. }
    cbv beta. erewrite bind_run by reflexivity. cbv beta. erewrite bind_run by reflexivity. cbv beta. cbn.
    rewrite list_lookup_insert_eq by done. by eexists. }
  unfold sp_read_from_store. erewrite bind_run by exact Eg. cbv beta iota.
  erewrite bind_run by reflexivity. cbv beta. rewrite Hos.
  rewrite (s_pread_law f1 fd nb _ p false []).
  - rewrite drop_nil, take_nil. eexists. split; [reflexivity|]. cbn. by rewrite Hos, Hf1, decide_True, Hn.
  - by rewrite Hd1, decide_True.
  - by rewrite Hf1, decide_True, Hn.
  - apply Z.mod_pos_bound. lia.
Qed.

(** (error).  The create-mode constructor never sets [current_capacity]:
    [get_current_capacity] of a store it made reads an uninitialised member. *)
Theorem sparse_capacity_uninitialised rs al root fsz f st f' :
  SparseStore_create rs al root fsz f = Ok st f' →
  is_ub (get_current_capacity (mkSS st f')) = true.
Proof.
  intros E. unfold SparseStore_create, alloc_fds in E. repeat case_match; inv_ok; repeat (case_match; inv_ok).
  all: done.
Qed.
End Failures.

(** ** A concrete file system, for the witnesses *)

Record dirfs := mkDirfs {
  df_files : gmap string bytes;
  df_dirs : list string;
  df_fds : gmap nat (string * bool)
}.

Definition below (d p : string) : bool :=
  bool_decide (String.list_ascii_of_string (d +:+ "/") `prefix_of` String.list_ascii_of_string p).
Definition in_dirs (f : dirfs) (p : string) : bool := existsb (λ d, below d p) (df_dirs f).
Definition fd_of (f : dirfs) (fd : Z) : option (string * bool) :=
  if bool_decide (0 ≤ fd) then df_fds f !! Z.to_nat fd else None.
Definition new_fd (f : dirfs) : nat := fresh (dom (df_fds f)).

#[export] Instance dirfs_file_ops : FileOps dirfs := {|
  pread f fd nb off := '(p, _) ← fd_of f fd; l ← df_files f !! p; Some (take nb (drop (Z.to_nat off) l));
  pwrite f fd buf off :=
    match fd_of f fd with
    | Some (p, true) =>
        match df_files f !! p with
        | Some l => (Some (length buf),
            mkDirfs (<[p := splice (Z.to_nat off) buf l]> (df_files f)) (df_dirs f) (df_fds f))
        | None => (None, f)
        end
    | _ => (None, f)
    end
|}.

Definition dirfs_open (p : string) (rdonly direct : bool) (f : dirfs) : option (Z * dirfs) :=
  if direct || negb (in_dirs f p) then None
  else Some (Z.of_nat (new_fd f),
    mkDirfs (<[p := default [] (df_files f !! p)]> (df_files f)) (df_dirs f)
            (<[new_fd f := (p, negb rdonly)]> (df_fds f))).

Definition dirfs_fallocate (fd off len : Z) (f : dirfs) : Z * dirfs :=
  match fd_of f fd with
  | Some (p, true) =>
      match df_files f !! p with
      | Some l => (0, mkDirfs (<[p := pad (off + len) l]> (df_files f)) (df_dirs f) (df_fds f))
      | None => (9, f)
      end
  | _ => (9, f)
  end.

#[export] Instance dirfs_ops : SparseOS dirfs := {|
  opendir p f := bool_decide (p ∈ df_dirs f);
  mkdir p f :=
    if bool_decide (map_Forall (λ q _, below p q = false) (df_files f))
    then Some (mkDirfs (df_files f) (p :: df_dirs f) (df_fds f)) else None;
  write_text p s f :=
    if in_dirs f p
    then Some (mkDirfs (<[p := String.list_byte_of_string s]> (df_files f)) (df_dirs f) (df_fds f))
    else None;
  read_text p f := String.string_of_list_byte <$> df_files f !! p;
  open_file := dirfs_open;
  posix_fallocate := dirfs_fallocate;
  close_fd fd f :=
    match fd_of f fd with
    | Some _ => (0, mkDirfs (df_files f) (df_dirs f) (delete (Z.to_nat fd) (df_fds f)))
    | None => (-1, f)
    end
|}.

Lemma below_name d name : below d (d +:+ "/" +:+ name) = true.
Proof.
  apply bool_decide_true. exists (String.list_ascii_of_string name).
  induction d as [|c d IH]; [reflexivity|]. exact (f_equal (cons c) IH).
Qed.

#[export, refine] Instance dirfs_laws : SparseLaws dirfs := {|
  file f p := df_files f !! p;
  fds := fd_of;
  creatable f p := in_dirs f p = true
|}.
Proof.
  - intros f fd nb off p rw l Hd Hf _. cbn. rewrite Hd. cbn. by rewrite Hf.
  - intros f fd buf off p l Hd Hf _. cbn. rewrite Hd, Hf. eexists. split_and!; [done| |done|done].
    intros q. cbn. case_decide; subst; [by rewrite lookup_insert_eq|by rewrite lookup_insert_ne].
  - intros f p rdonly Hc. cbn. unfold dirfs_open. rewrite Hc. cbn. eexists _, _. split_and!; [done|lia| | | |done].
    + unfold fd_of. rewrite bool_decide_true, Nat2Z.id by lia. apply not_elem_of_dom. exact (is_fresh (dom (df_fds f))).
    + intros q. cbn. case_decide; subst; [by rewrite lookup_insert_eq|by rewrite lookup_insert_ne].
    + intros d. unfold fd_of. cbn. destruct (decide (d = Z.of_nat (new_fd f))) as [->|Hne].
      * rewrite bool_decide_true, Nat2Z.id by lia. by rewrite lookup_insert_eq.
      * case_bool_decide; [|done]. rewrite lookup_insert_ne by lia. done.
  - intros f p rdonly. by left.
  - intros f fd p len l Hd Hf _ _. cbn. unfold dirfs_fallocate. rewrite Hd, Hf.
    eexists. split_and!; [done| |done|done].
    intros q. cbn. case_decide; subst; [by rewrite lookup_insert_eq|by rewrite lookup_insert_ne].
  - intros f p f' E. cbn in E. case_bool_decide as Hall; [|done]. simplify_eq. split_and!.
    + apply bool_decide_true. cbn. set_solver.
    + done.
    + intros name. split; [cbn; by rewrite below_name|]. cbn.
      destruct (df_files f !! _) eqn:El; [|done]. specialize (Hall _ _ El). pose proof (below_name p name). cbv beta in Hall. congruence.
  - intros f p s f' E. cbn in E. destruct (in_dirs f p); [|done]. simplify_eq. split_and!; try done.
    + cbn. rewrite lookup_insert_eq. cbn. by rewrite String.string_of_list_byte_of_string.
    + intros q Hq. cbn. by rewrite lookup_insert_ne.
Defined.

Definition empty_fs : dirfs := mkDirfs ∅ [] ∅.
Abbreviation demo_create := (SparseStore_create 20 4 "/s" 6).
Definition demo_st : SparseStore :=
  mkSparse 8 None 3 (Some 20) (Some 4) false "/s" 0 0 [-1; -1; -1] false.
Definition demo_dirfs : dirfs := default empty_fs (state_after (demo_create empty_fs)).

Lemma demo_created : demo_create empty_fs = Ok demo_st demo_dirfs.
Proof. vm_compute. reflexivity. Qed.
Lemma demo_sizes : sizes_ok 20 4 6.
Proof. split; lia. Qed.

Lemma sparse_create_geometry_witness : file_size demo_st mod 4 = 0 ∧ 6 ≤ file_size demo_st < 6 + 4.
Proof.
  destruct (sparse_create_geometry 20 4 "/s" 6 empty_fs demo_st demo_dirfs demo_sizes demo_created)
    as (?&?&_). by split.
Defined.

Lemma sparse_store_is_page_array_witness :
  ∃ s, (sp_write_to_store [x01; x02; x03; x04] 12 ;;
        for_each [(8, [x05; x06; x07; x08]); (0, [x09; x0a; x0b; x0c])] (λ '(o, b), sp_write_to_store b o ;; mret tt) ;;
        sp_read_from_store 4 12) (mkSS demo_st demo_dirfs) = Ok (4, [x01; x02; x03; x04]) s.
Proof.
  apply (sparse_store_is_page_array 20 4 "/s" 6 empty_fs demo_st demo_dirfs 12 demo_sizes demo_created);
    [decide_now|reflexivity|].
  constructor; [decide_now|]. constructor; [decide_now|constructor].
Defined.

Lemma sparse_metadata_roundtrip_witness :
  ∃ st', SparseStore_open "/s" true demo_dirfs = Ok st' demo_dirfs ∧ current_capacity st' = Some 20.
Proof.
  destruct (sparse_metadata_roundtrip 20 4 "/s" 6 true empty_fs demo_st demo_dirfs demo_sizes demo_created)
    as (st'&E&_&_&_&Hc&_). exists st'. split; [exact E|]. rewrite Hc. reflexivity.
Defined.

Lemma sparse_open_failure_keeps_mutex_witness :
  ∃ msg s', (∀ nb, sp_read_from_store nb 12 (mkSS demo_st empty_fs) = Throw msg s') ∧
    ∀ off' nb, first_touch s' off' → sp_read_from_store nb off' s' = Block OnMutex s'.
Proof.
  apply (sparse_open_failure_keeps_mutex (mkSS demo_st empty_fs) 12);
    [split_and!; decide_now|reflexivity|]. intros []; reflexivity.
Defined.

Definition demo_ro : SState dirfs :=
  mkSS (mkSparse 8 (Some 20) 3 None None true "/s" 0 0 [-1; -1; -1] false) demo_dirfs.

Lemma sparse_read_only_hole_witness : ∃ s', sp_read_from_store 4 12 demo_ro = Ok (0, []) s'.
Proof.
  destruct (sparse_read_only_hole demo_ro 12 4) as (s'&E&_);
    [split_and!; decide_now|vm_compute; reflexivity..|]. by exists s'.
Defined.

Lemma sparse_capacity_uninitialised_witness :
  is_ub (get_current_capacity (mkSS demo_st demo_dirfs)) = true.
Proof. apply (sparse_capacity_uninitialised 20 4 "/s" 6 empty_fs demo_st demo_dirfs demo_created). Defined.
