(* ===== verification/Bitmap.v ===== *)
(** * Arrays and bitmaps of the examples (src/examples/bfs/utility/bitmap.hpp)

    Raw arrays as lists whose out-of-bounds accesses are undefined, and the
    bitmap over 64-bit words that filters visited vertices. *)

From stdpp Require Import base list numbers strings.
From S2P Require Import Prelude.
Local Open Scope Z_scope.

(** ** Raw arrays *)

Definition at_index {A} (l : list A) (i : Z) : option A :=
  if bool_decide (0 ≤ i) then l !! Z.to_nat i else None.

Definition read_at {S A} (l : list A) (i : Z) : M S A :=
  match at_index l i with Some a => mret a | None => undefined "out-of-bounds read" end.

Definition write_at {S A} (i : Z) (a : A) (l : list A) : M S (list A) :=
  if bool_decide (0 ≤ i < Z.of_nat (length l)) then mret (<[Z.to_nat i := a]> l)
  else undefined "out-of-bounds write".

Lemma read_at_run {S A} (l : list A) i a (s : S) :
  0 ≤ i → l !! Z.to_nat i = Some a → read_at l i s = Ok a s.
Proof. intros Hi Hl. unfold read_at, at_index. by rewrite bool_decide_true, Hl. Qed.

Lemma write_at_run {S A} (l : list A) i a (s : S) :
  0 ≤ i < Z.of_nat (length l) → write_at i a l s = Ok (<[Z.to_nat i := a]> l) s.
Proof. intros Hi. unfold write_at. by rewrite bool_decide_true. Qed.

(** ** The bitmap *)

Definition bitmap_size (size : Z) : Z := if bool_decide (size = 0) then 0 else (size - 1) / 64 + 1.
Definition bitmap_global_pos (pos : Z) : Z := Z.shiftr pos 6.
Definition bitmap_local_pos (pos : Z) : Z := Z.land pos 63.

Definition get_bit {S} (bitmap : list Z) (pos : Z) : M S bool :=
  w ← read_at bitmap (bitmap_global_pos pos);
  mret (bool_decide (Z.land w (u64 (Z.shiftl 1 (bitmap_local_pos pos))) ≠ 0)).

Definition set_bit {S} (bitmap : list Z) (pos : Z) : M S (list Z) :=
  w ← read_at bitmap (bitmap_global_pos pos);
  write_at (bitmap_global_pos pos) (Z.lor w (u64 (Z.shiftl 1 (bitmap_local_pos pos)))) bitmap.

(** the bit at [pos], [false] outside of the bitmap *)
Definition bit_of (bitmap : list Z) (pos : Z) : bool :=
  match at_index bitmap (pos / 64) with Some w => Z.testbit w (pos mod 64) | None => false end.

Lemma global_pos_div pos : bitmap_global_pos pos = pos / 64.
Proof. unfold bitmap_global_pos. by rewrite Z.shiftr_div_pow2 by lia. Qed.

Lemma local_pos_mod pos : bitmap_local_pos pos = pos mod 64.
Proof.
  unfold bitmap_local_pos. change 63 with (Z.ones 6). by rewrite Z.land_ones by lia.
Qed.

Lemma bit_mask pos : u64 (Z.shiftl 1 (bitmap_local_pos pos)) = 2 ^ (pos mod 64).
Proof.
  rewrite local_pos_mod. pose proof (Z.mod_pos_bound pos 64 ltac:(lia)).
  rewrite Z.shiftl_mul_pow2, Z.mul_1_l by lia. apply u64_small. split; [lia|].
  apply Z.pow_lt_mono_r; lia.
Qed.

Lemma bitmap_size_index n pos : 0 ≤ pos < n → 0 ≤ pos / 64 < bitmap_size n.
Proof.
  intros Hp. unfold bitmap_size. rewrite bool_decide_false by lia.
  split; [apply Z.div_pos; lia|]. pose proof (Z.div_le_mono pos (n - 1) 64 ltac:(lia) ltac:(lia)). lia.
Qed.

Lemma land_pow2_testbit w k : 0 ≤ k → bool_decide (Z.land w (2 ^ k) ≠ 0) = Z.testbit w k.
Proof.
  intros Hk. assert (Z.land w (2 ^ k) = if Z.testbit w k then 2 ^ k else 0) as ->.
  { apply Z.bits_inj'. intros n Hn. rewrite Z.land_spec.
    destruct (decide (n = k)) as [->|Hne].
    - rewrite Z.pow2_bits_true, andb_true_r by done.
      destruct (Z.testbit w k); [by rewrite Z.pow2_bits_true|by rewrite Z.bits_0].
    - rewrite Z.pow2_bits_false, andb_false_r by done.
      destruct (Z.testbit w k); [by rewrite Z.pow2_bits_false|by rewrite Z.bits_0]. }
  destruct (Z.testbit w k).
  - apply bool_decide_true. apply Z.pow_nonzero; lia.
  - apply bool_decide_false. intros H. by apply H.
Qed.

Section bits.
Context {S : Type} (bm : list Z) (n : Z) (Hlen : Z.of_nat (length bm) = bitmap_size n).

Lemma word_at pos : 0 ≤ pos < n → ∃ w, bm !! Z.to_nat (pos / 64) = Some w.
Proof.
  intros Hp. pose proof (bitmap_size_index n pos Hp). apply lookup_lt_is_Some_2. lia.
Qed.

Lemma get_bit_run pos (s : S) : 0 ≤ pos < n → get_bit bm pos s = Ok (bit_of bm pos) s.
Proof.
  intros Hp. destruct (word_at pos Hp) as [w Hw]. pose proof (bitmap_size_index n pos Hp).
  unfold get_bit. rewrite global_pos_div.
  erewrite bind_run by (apply read_at_run; [lia|exact Hw]). cbv beta. rewrite bit_mask.
  rewrite land_pow2_testbit by (apply Z.mod_pos_bound; lia).
  unfold bit_of, at_index. by rewrite bool_decide_true, Hw by lia.
Qed.

Lemma set_bit_run pos (s : S) :
  0 ≤ pos < n →
  ∃ bm', set_bit bm pos s = Ok bm' s ∧ length bm' = length bm ∧
    ∀ p, 0 ≤ p → bit_of bm' p = bit_of bm p || bool_decide (p = pos).
Proof.
  intros Hp. destruct (word_at pos Hp) as [w Hw]. pose proof (bitmap_size_index n pos Hp) as Hi.
  exists (<[Z.to_nat (pos / 64) := Z.lor w (2 ^ (pos mod 64))]> bm). split_and!.
  - unfold set_bit. rewrite global_pos_div, bit_mask.
    erewrite bind_run by (apply read_at_run; [lia|exact Hw]). apply write_at_run. lia.
  - by rewrite length_insert.
  - intros p Hp0. unfold bit_of, at_index. rewrite !bool_decide_true by (apply Z.div_pos; lia).
    pose proof (Z.div_mod p 64 ltac:(lia)). pose proof (Z.div_mod pos 64 ltac:(lia)).
    pose proof (Z.mod_pos_bound p 64 ltac:(lia)). pose proof (Z.mod_pos_bound pos 64 ltac:(lia)).
    pose proof (Z.div_pos p 64 ltac:(lia) ltac:(lia)).
    destruct (decide (p / 64 = pos / 64)) as [E|E].
    + rewrite E, Hw, list_lookup_insert_eq by (by apply lookup_lt_Some in Hw).
      rewrite Z.lor_spec. f_equal. rewrite Z.pow2_bits_eqb by lia.
      apply eq_true_iff_eq. rewrite Z.eqb_eq, bool_decide_eq_true. lia.
    + rewrite list_lookup_insert_ne by lia. rewrite (bool_decide_false (p = pos)) by congruence.
      by rewrite orb_false_r.
Qed.
End bits.
