(* ===== verification/Bfs.v ===== *)
(** * Breadth-first search over a mapped graph
      (src/examples/bfs/bfs_kernel.hpp and the level checks of main.cpp)

    The graph is two arrays in compressed sparse row form, [index] and [edges];
    the kernel writes the level of every vertex.  This is the
    sequential build; BfsParallel.v has the threads of the OpenMP build. *)

From stdpp Require Import base list numbers strings sets.
From S2P Require Import Prelude Bitmap.
Local Open Scope Z_scope.

Definition k_infinite_level : Z := 65535.

Record BfsState := mkBfs {
  level : list Z;                (* uint16_t[num_vertices] *)
  visited_filter : list Z;       (* uint64_t[bitmap_size(num_vertices)] *)
  visited_new_vertex : bool
}.

Definition init_bfs (num_vertices : Z) (st : BfsState) : BfsState :=
  mkBfs (replicate (Z.to_nat num_vertices) k_infinite_level)
    (replicate (Z.to_nat (bitmap_size num_vertices)) 0) (visited_new_vertex st).

(** the body of the innermost loop *)
Definition visit (current_level trg : Z) : M BfsState unit :=
  st ← get;
  b ← get_bit (visited_filter st) trg;
  l ← (if b then mret 0 else read_at (level st) trg);
  if negb b && bool_decide (l = k_infinite_level) then
    level' ← write_at trg (u16 (current_level + 1)) (level st);
    visited' ← set_bit (visited_filter st) trg;
    modify (λ _, mkBfs level' visited' true)
  else mret tt.

Section graph.
Context (num_vertices : Z) (index edges : list Z).

(** [for (size_t i = index[src]; i < index[src + 1]; ++i)] *)
Definition visit_neighbours (current_level src : Z) : M BfsState unit :=
  first ← read_at index src;
  last ← read_at index (src + 1);
  for_each (seqZ first (last - first)) (λ i,
    trg ← read_at edges i;
    visit current_level trg).

Definition scan_vertex (current_level src : Z) : M BfsState unit :=
  st ← get;
  l ← read_at (level st) src;
  if bool_decide (l ≠ current_level) then mret tt else visit_neighbours current_level src.

Definition bfs_level (current_level : Z) : M BfsState unit :=
  for_each (seqZ 0 num_vertices) (scan_vertex current_level).

(** the main loop; every round but the last labels a vertex, so that there
    are at most [num_vertices] rounds *)
Fixpoint bfs_loop (fuel : nat) (current_level : Z) : M BfsState Z :=
  match fuel with
  | O => undefined "loop bound exceeded"
  | S fuel =>
      bfs_level current_level ;;
      st ← get;
      if negb (visited_new_vertex st) then mret current_level
      else
        modify (λ st, mkBfs (level st) (visited_filter st) false) ;;
        bfs_loop fuel (u16 (current_level + 1))
  end.

Definition run_bfs : M BfsState Z :=
  modify (λ st, mkBfs (level st) (visited_filter st) false) ;;
  bfs_loop (Z.to_nat num_vertices) 0.

(** [find_bfs_root] of main.cpp: the first vertex with an edge gets level 0 *)
Fixpoint find_root_loop (n : nat) (src : Z) : M BfsState unit :=
  match n with
  | O => throw "Can not find a proper root vertex"
  | S n =>
      hi ← read_at index (src + 1);
      lo ← read_at index src;
      let degree := u64 (hi - lo) in
      if bool_decide (0 < degree) then
        st ← get;
        l ← write_at src 0 (level st);
        modify (λ st, mkBfs l (visited_filter st) (visited_new_vertex st))
      else find_root_loop n (src + 1)
  end.

Definition find_bfs_root : M BfsState unit := find_root_loop (Z.to_nat num_vertices) 0.

(** the part of [main] between the mapping and the unmapping of the graph *)
Definition bfs_main : M BfsState Z :=
  modify (init_bfs num_vertices) ;; find_bfs_root ;; run_bfs.
End graph.

(** [count_level]: [None] is the message about an invalid level *)
Fixpoint count_loop (max_level : Z) (l cnt : list Z) : option (list Z) :=
  match l with
  | [] => Some cnt
  | lv :: l =>
      if bool_decide (lv = k_infinite_level) then count_loop max_level l cnt
      else if bool_decide (max_level < lv) then None
      else count_loop max_level l (alter (λ c, u64 (c + 1)) (Z.to_nat lv) cnt)
  end.

Definition count_level (max_level : Z) (level : list Z) : option (list Z) :=
  count_loop max_level level (replicate (Z.to_nat (max_level + 1)) 0).

(** [validate_level]; [refs] are the pairs read from the reference file *)
Fixpoint ref_levels (refs : list (Z * Z)) (ref_level : list Z) {S} : M S (list Z) :=
  match refs with
  | [] => mret ref_level
  | (id, lv) :: refs => r ← write_at id lv ref_level; ref_levels refs r
  end.

Definition validate_level (level : list Z) (refs : list (Z * Z)) {S} : M S unit :=
  ref_level ← ref_levels refs (replicate (length level) k_infinite_level);
  if bool_decide (level ≠ ref_level) then throw "BFS level is wrong" else mret tt.

(** the size of the mapped graph file, rounded up to a page *)
Definition aligned_graph_size (umap_page_size num_vertices num_edges : Z) : Z :=
  let original_size := u64 (u64 (num_vertices + 1 + num_edges) * 8) in
  if bool_decide (original_size mod umap_page_size = 0) then original_size
  else u64 (original_size + (umap_page_size - original_size mod umap_page_size)).

(** ** Specification: distances *)

Section spec.
Context (n : nat) (index edges : list Z).

(** the targets of the edges of [u] *)
Definition targets (u : nat) : list Z :=
  match index !! u, index !! S u with
  | Some lo, Some hi => take (Z.to_nat (hi - lo)) (drop (Z.to_nat lo) edges)
  | _, _ => []
  end.

Definition edge (u v : nat) : Prop := Z.of_nat v ∈ targets u.

(** a path of [k] edges from [root] *)
Fixpoint path (root k v : nat) : Prop :=
  match k with
  | O => v = root
  | S k => ∃ u, path root k u ∧ edge u v
  end.

(** [k] is the length of a shortest path from [root] to [v] *)
Definition distance (root k v : nat) : Prop :=
  path root k v ∧ ∀ j, (j < k)%nat → ¬ path root j v.

(** the arrays are a graph of [n] vertices *)
Record csr_ok : Prop := {
  csr_index : length index = S n;
  csr_rows u lo hi : index !! u = Some lo → index !! S u = Some hi →
    0 ≤ lo ≤ hi ∧ hi ≤ Z.of_nat (length edges);
  csr_edges i v : edges !! i = Some v → 0 ≤ v < Z.of_nat n
}.
End spec.

Definition state_ok (n : nat) (st : BfsState) : Prop :=
  length (level st) = n ∧ Z.of_nat (length (visited_filter st)) = bitmap_size (Z.of_nat n) ∧
  ∀ v l, bit_of (visited_filter st) (Z.of_nat v) = true → level st !! v = Some l → l ≠ k_infinite_level.

(** what visiting the targets [T] does to the level of [v] *)
Definition relabel (cur : Z) (T : list Z) (v : nat) (l : Z) : Z :=
  if bool_decide (l = k_infinite_level ∧ Z.of_nat v ∈ T) then cur + 1 else l.

(** ** One level *)

Section levels.
Context (n : nat) (index edges : list Z) (Hcsr : csr_ok n index edges).
Context (cur : Z) (Hcur : 0 ≤ cur < k_infinite_level - 1).

(** [st'] is [st] after the targets [T] have been visited *)
Record visits (T : list Z) (st st' : BfsState) : Prop := {
  vi_ok : state_ok n st';
  vi_level v l : level st !! v = Some l → level st' !! v = Some (relabel cur T v l);
  vi_new : visited_new_vertex st' = true ↔
    visited_new_vertex st = true ∨ ∃ v, Z.of_nat v ∈ T ∧ level st !! v = Some k_infinite_level
}.

Lemma relabel_nil v l : relabel cur [] v l = l.
Proof. unfold relabel. rewrite bool_decide_false; [done|]. by intros [_ ?%elem_of_nil]. Qed.

Lemma relabel_app T1 T2 v l : relabel cur T2 v (relabel cur T1 v l) = relabel cur (T1 ++ T2) v l.
Proof.
  unfold relabel. unfold k_infinite_level in *. pose proof (elem_of_app T1 T2 (Z.of_nat v)) as Ha.
  repeat case_bool_decide; naive_solver lia.
Qed.

Lemma relabel_cur T v l : relabel cur T v l = cur ↔ l = cur.
Proof. unfold relabel. case_bool_decide as E; [|done]. destruct E as [-> _]. unfold k_infinite_level in *. lia. Qed.

Lemma relabel_inf T v l : relabel cur T v l = k_infinite_level ↔ l = k_infinite_level ∧ Z.of_nat v ∉ T.
Proof. unfold relabel. unfold k_infinite_level in *. case_bool_decide; naive_solver lia. Qed.

Lemma visits_refl st : state_ok n st → visits [] st st.
Proof.
  intros Hok. split; [done| |].
  - intros v l Hl. by rewrite relabel_nil.
  - split; [auto|]. by intros [?|(?&?%elem_of_nil&_)].
Qed.

Lemma visits_trans T1 T2 st1 st2 st3 :
  state_ok n st1 → visits T1 st1 st2 → visits T2 st2 st3 → visits (T1 ++ T2) st1 st3.
Proof.
  intros (Hlen&_) [O2 L2 N2] [O3 L3 N3]. split; [done| |].
  - intros v l Hl. rewrite <- relabel_app. eauto.
  - rewrite N3, N2. split.
    + intros [[?|(v&Hv&Hl)]|(v&Hv&Hl)]; [by left|right; exists v; set_solver|].
      right. exists v. split; [set_solver|].
      destruct (lookup_lt_is_Some_2 (level st1) v) as [l Hl1].
      { destruct O2 as (E&_). apply lookup_lt_Some in Hl. lia. }
      rewrite (L2 v l Hl1) in Hl. simplify_eq. apply relabel_inf in Hl as [-> _]. done.
    + intros [?|(v&Hv&Hl)]; [auto|]. destruct (decide (Z.of_nat v ∈ T1)) as [H1|H1]; [eauto|].
      right. exists v. split; [set_solver|]. rewrite (L2 _ _ Hl). f_equal. by apply relabel_inf.
Qed.

Lemma visit_run st trg :
  state_ok n st → 0 ≤ trg < Z.of_nat n → ∃ st', visit cur trg st = Ok tt st' ∧ visits [trg] st st'.
Proof.
  intros (Hlen&Hbm&Hvis) Ht. destruct (lookup_lt_is_Some_2 (level st) (Z.to_nat trg)) as [l Hl]; [lia|].
  unfold visit. erewrite bind_run by reflexivity. cbv beta.
  erewrite bind_run by (by apply (get_bit_run _ (Z.of_nat n))). cbv beta.
  assert (relabel cur [trg] (Z.to_nat trg) l = if bool_decide (l = k_infinite_level) then cur + 1 else l) as Er.
  { unfold relabel. rewrite Z2Nat.id by lia. repeat case_bool_decide; set_solver. }
  assert (∀ v l0, v ≠ Z.to_nat trg → relabel cur [trg] v l0 = l0) as Er'.
  { intros v l0 Hne. unfold relabel. rewrite bool_decide_false; [done|].
    intros [_ ?%list_elem_of_singleton]. lia. }
  destruct (decide (l = k_infinite_level)) as [->|Hinf].
  - destruct (bit_of _ _) eqn:Eb.
    { exfalso. apply (Hvis (Z.to_nat trg) k_infinite_level); [by rewrite Z2Nat.id by lia|done|done]. }
    erewrite bind_run by (apply read_at_run; [lia|exact Hl]). cbv beta. cbn [negb andb].
    rewrite bool_decide_true by done.
    erewrite bind_run by (apply write_at_run; lia). cbv beta.
    destruct (set_bit_run (S := BfsState) _ _ Hbm trg st Ht) as (bm'&Es&Hbl&Hbits).
    erewrite bind_run by exact Es. eexists. split; [reflexivity|].
    assert (u16 (cur + 1) = cur + 1) as -> by (unfold u16, k_infinite_level in *; apply Z.mod_small; lia).
    split; cbn.
    + split_and!; cbn; [by rewrite length_insert|lia|]. intros v l0 Hb Hl0.
      apply list_lookup_insert_Some in Hl0 as [(<-&<-&_)|(Hne&Hl0)]; [unfold k_infinite_level in *; lia|].
      rewrite Hbits, (bool_decide_false (_ = trg)), orb_false_r in Hb by lia. eauto.
    + intros v l0 Hl0. destruct (decide (v = Z.to_nat trg)) as [->|Hne].
      * rewrite list_lookup_insert_eq by lia. f_equal.
        assert (l0 = k_infinite_level) as -> by congruence. by rewrite Er, bool_decide_true.
      * by rewrite list_lookup_insert_ne, Er'.
    + split; [|done]. intros _. right. exists (Z.to_nat trg). split; [|done]. rewrite Z2Nat.id by lia. set_solver.
  - exists st. split.
    + destruct (bit_of _ _).
      * by erewrite bind_run by reflexivity.
      * erewrite bind_run by (apply read_at_run; [lia|exact Hl]). cbv beta. cbn [negb andb].
        by rewrite bool_decide_false.
    + split; [done| |].
      * intros v l0 Hl0. destruct (decide (v = Z.to_nat trg)) as [->|Hne]; [|by rewrite Er'].
        assert (l0 = l) as -> by congruence. by rewrite Er, bool_decide_false.
      * split; [auto|]. intros [?|(v&E%list_elem_of_singleton&Hv)]; [done|].
        rewrite <- E, Nat2Z.id in Hl. congruence.
Qed.

(** the loop over the edges [lo], [lo + 1], ... whose targets are [T] *)
Lemma visit_all T lo st :
  0 ≤ lo → take (length T) (drop (Z.to_nat lo) edges) = T → state_ok n st →
  ∃ st', for_each (seqZ lo (Z.of_nat (length T))) (λ i, trg ← read_at edges i; visit cur trg) st = Ok tt st' ∧
    visits T st st'.
Proof.
  revert lo st. induction T as [|t T IH]; intros lo st Hlo HT Hok.
  { exists st. split; [done|by apply visits_refl]. }
  destruct (drop (Z.to_nat lo) edges) as [|e es] eqn:Ed; [done|]. cbn in HT. injection HT as -> HT.
  assert (edges !! Z.to_nat lo = Some t) as Ht.
  { rewrite <- (Nat.add_0_r (Z.to_nat lo)), <- lookup_drop, Ed. done. }
  assert (drop (Z.to_nat (lo + 1)) edges = es) as Ed'.
  { replace (Z.to_nat (lo + 1)) with (Z.to_nat lo + 1)%nat by lia. by rewrite <- drop_drop, Ed. }
  cbn [length]. rewrite Nat2Z.inj_succ, seqZ_cons, Z.pred_succ by lia. cbn [for_each].
  destruct (visit_run st t Hok) as (st1&E1&V1); [by eapply csr_edges|].
  destruct (IH (Z.succ lo) st1) as (st2&E2&V2); [lia|by rewrite <- Z.add_1_r, Ed'|apply V1|].
  exists st2. split.
  - erewrite bind_run; [exact E2|]. by erewrite bind_run by (apply read_at_run; [lia|exact Ht]).
  - by eapply (visits_trans [t]).
Qed.

Lemma visit_neighbours_run st (u : nat) :
  state_ok n st → (u < n)%nat →
  ∃ st', visit_neighbours index edges cur (Z.of_nat u) st = Ok tt st' ∧ visits (targets index edges u) st st'.
Proof.
  intros Hok Hu. pose proof (csr_index _ _ _ Hcsr) as Hli.
  destruct (lookup_lt_is_Some_2 index u) as [lo Hlo]; [lia|].
  destruct (lookup_lt_is_Some_2 index (S u)) as [hi Hhi]; [lia|].
  destruct (csr_rows _ _ _ Hcsr _ _ _ Hlo Hhi) as [H1 H2].
  unfold visit_neighbours, targets. rewrite Hlo, Hhi.
  erewrite bind_run by (apply read_at_run; [lia|by rewrite Nat2Z.id]). cbv beta.
  erewrite bind_run by (apply read_at_run; [lia|]; replace (Z.to_nat (Z.of_nat u + 1)) with (S u) by lia; exact Hhi).
  cbv beta. set (T := take _ _).
  assert (length T = Z.to_nat (hi - lo)) as HlT by (unfold T; rewrite length_take, length_drop; lia).
  replace (hi - lo) with (Z.of_nat (length T)) by lia.
  apply visit_all; [lia| |done]. rewrite HlT. done.
Qed.

(** the targets of the vertices of [us] on the current level *)
Definition frontier (L : list Z) (us : list nat) : list Z :=
  us ≫= λ u, if bool_decide (L !! u = Some cur) then targets index edges u else [].

Lemma scan_vertex_run st (u : nat) :
  state_ok n st → (u < n)%nat →
  ∃ st', scan_vertex index edges cur (Z.of_nat u) st = Ok tt st' ∧ visits (frontier (level st) [u]) st st'.
Proof.
  intros Hok Hu. destruct (lookup_lt_is_Some_2 (level st) u) as [l Hl]; [destruct Hok; lia|].
  unfold scan_vertex. erewrite bind_run by reflexivity. cbv beta.
  erewrite bind_run by (apply read_at_run; [lia|by rewrite Nat2Z.id]). cbv beta.
  unfold frontier. cbn. rewrite Hl, app_nil_r. destruct (decide (l = cur)) as [->|Hne].
  - rewrite bool_decide_false by (intros H; by apply H). rewrite bool_decide_true by done.
    by apply visit_neighbours_run.
  - rewrite bool_decide_true by done. rewrite bool_decide_false by congruence.
    exists st. split; [done|by apply visits_refl].
Qed.

(** visiting does not change which vertices are on the current level *)
Lemma frontier_stable T st st' us :
  state_ok n st → visits T st st' → Forall (λ u, u < n)%nat us →
  frontier (level st') us = frontier (level st) us.
Proof.
  intros (Hlen&_) [_ Hl _] Hus. unfold frontier. induction Hus as [|u us Hu _ IH]; [done|].
  rewrite !bind_cons, IH. f_equal. destruct (lookup_lt_is_Some_2 (level st) u) as [l E]; [lia|].
  rewrite (Hl u l E), E. destruct (decide (l = cur)) as [->|Hne].
  - assert (relabel cur T u cur = cur) as -> by (by apply relabel_cur). done.
  - rewrite !bool_decide_false; [done|congruence|]. intros [= Hr%relabel_cur]. done.
Qed.

Lemma scan_all us st :
  state_ok n st → Forall (λ u, u < n)%nat us →
  ∃ st', for_each (Z.of_nat <$> us) (scan_vertex index edges cur) st = Ok tt st' ∧
    visits (frontier (level st) us) st st'.
Proof.
  revert st. induction us as [|u us IH]; intros st Hok Hus.
  { exists st. split; [done|by apply visits_refl]. }
  apply Forall_cons in Hus as [Hu Hus].
  destruct (scan_vertex_run st u Hok Hu) as (st1&E1&V1).
  destruct (IH st1) as (st2&E2&V2); [apply V1|done|].
  exists st2. split; [cbn; by erewrite bind_run by exact E1|].
  rewrite (frontier_stable _ _ _ us Hok V1 Hus) in V2.
  change (frontier (level st) (u :: us)) with (frontier (level st) ([u] ++ us)).
  unfold frontier at 1. rewrite bind_app. by eapply visits_trans.
Qed.

Lemma bfs_level_run st :
  state_ok n st →
  ∃ st', bfs_level (Z.of_nat n) index edges cur st = Ok tt st' ∧ visits (frontier (level st) (seq 0 n)) st st'.
Proof.
  intros Hok. unfold bfs_level. replace (seqZ 0 (Z.of_nat n)) with (Z.of_nat <$> seq 0 n).
  - apply scan_all; [done|]. apply Forall_forall. intros u Hu%elem_of_seq. lia.
  - unfold seqZ. rewrite Nat2Z.id. apply list_fmap_ext. intros. lia.
Qed.

Lemma elem_frontier L v :
  v ∈ frontier L (seq 0 n) ↔ ∃ u, (u < n)%nat ∧ L !! u = Some cur ∧ v ∈ targets index edges u.
Proof.
  clear Hcsr Hcur. unfold frontier. rewrite list_elem_of_bind. setoid_rewrite elem_of_seq. split.
  - intros (u&Hv&Hu). case_bool_decide; [|set_solver]. exists u. split_and!; [lia|done|done].
  - intros (u&Hu&HL&Hv). exists u. rewrite bool_decide_true by done. split; [done|lia].
Qed.
End levels.

(** ** The main loop *)

Definition count_inf (L : list Z) : nat := length (filter (.= k_infinite_level) L).

Lemma count_inf_mono L L' :
  Forall2 (λ l l', l' = k_infinite_level → l = k_infinite_level) L L' →
  (count_inf L' ≤ count_inf L)%nat ∧
  ∀ v l', L !! v = Some k_infinite_level → L' !! v = Some l' → l' ≠ k_infinite_level →
    (count_inf L' < count_inf L)%nat.
Proof.
  unfold count_inf. induction 1 as [|l l' L L' Hl _ [IH1 IH2]]; [split; [done|]; intros v ? Hv; by rewrite lookup_nil in Hv|].
  rewrite !filter_cons. split.
  - repeat case_decide; cbn; lia.
  - intros [|v] x Hv Hv' Hx; cbn in Hv, Hv'; simplify_eq.
    + repeat case_decide; try done. cbn. lia.
    + specialize (IH2 v x Hv Hv' Hx). repeat case_decide; cbn; lia.
Qed.

Section main_loop.
Context (n : nat) (index edges : list Z) (Hcsr : csr_ok n index edges).
Context (Hn : Z.of_nat n < k_infinite_level) (root : nat).
Abbreviation path := (path index edges root).
Abbreviation distance := (distance index edges root).

(** all vertices at distance at most [c] carry their distance, the others
    are not labelled *)
Record layered (c : nat) (st : BfsState) : Prop := {
  la_ok : state_ok n st;
  la_level v l : level st !! v = Some l →
    (l = k_infinite_level ∧ ∀ k, (k ≤ c)%nat → ¬ path k v) ∨
    (∃ k, l = Z.of_nat k ∧ (k ≤ c)%nat ∧ distance k v);
  la_room : (c + count_inf (level st) < n)%nat;
  la_last : ∃ v, distance c v
}.

Lemma edge_target u v : edge index edges u v → (u < n)%nat ∧ (v < n)%nat.
Proof.
  clear Hn. intros He. pose proof (csr_index _ _ _ Hcsr) as Hli. unfold edge, targets in He. split.
  - destruct (index !! u) as [lo|] eqn:E1; [|set_solver]. destruct (index !! S u) eqn:E2; [|set_solver].
    apply lookup_lt_Some in E2. lia.
  - destruct (index !! u) as [lo|]; [|set_solver]. destruct (index !! S u); [|set_solver].
    apply list_elem_of_lookup in He as [i [Hi _]%lookup_take_Some]. rewrite lookup_drop in Hi.
    apply (csr_edges _ _ _ Hcsr) in Hi. lia.
Qed.

Lemma layered_lookup c st v : layered c st → (v < n)%nat → ∃ l, level st !! v = Some l.
Proof. intros [(Hlen&_)] Hv. apply lookup_lt_is_Some_2. lia. Qed.

(** a labelled vertex whose label is the current level *)
Lemma level_current c st v : layered c st → level st !! v = Some (Z.of_nat c) → distance c v.
Proof.
  intros Hla Hl. destruct (la_level _ _ Hla v _ Hl) as [[E _]|(k&E&_&Hd)].
  - pose proof (la_room _ _ Hla). lia.
  - by assert (k = c) as -> by lia.
Qed.

(** an unlabelled vertex next to level [c] is a target of that level *)
Lemma next_in_frontier c st v :
  layered c st → level st !! v = Some k_infinite_level →
  path (S c) v ↔ Z.of_nat v ∈ frontier index edges (Z.of_nat c) (level st) (seq 0 n).
Proof.
  intros Hla Hv. rewrite elem_frontier. split.
  - intros (u&Hu&He). destruct (edge_target u v He) as [Hun _].
    destruct (layered_lookup c st u Hla Hun) as [l Hl]. exists u. split_and!; [done| |done].
    destruct (la_level _ _ Hla v _ Hv) as [[_ Hno]|(k&E&Hk&_)].
    2:{ pose proof (la_room _ _ Hla). lia. }
    destruct (la_level _ _ Hla u _ Hl) as [[_ Hnou]|(k&->&Hk&Hd)]; [by destruct (Hnou c)|].
    destruct (decide (k = c)) as [->|Hne]; [done|]. exfalso. apply (Hno (S k)); [lia|].
    exists u. split; [apply Hd|done].
  - intros (u&Hun&Hl&He). exists u. split; [|done]. by apply (level_current c st).
Qed.

Lemma visits_relation c T st st' :
  state_ok n st → visits n (Z.of_nat c) T st st' → Z.of_nat c < k_infinite_level - 1 →
  Forall2 (λ l l', l' = k_infinite_level → l = k_infinite_level) (level st) (level st').
Proof.
  intros (Hlen&_) [(Hlen'&_) Hl _] Hc. apply Forall2_same_length_lookup_2; [lia|].
  intros v l l' H1 H2 ->. rewrite (Hl v l H1) in H2. simplify_eq.
  apply relabel_inf in H2; [by destruct H2|lia].
Qed.

(** a round that labels a vertex reaches the next layer *)
Lemma layered_next c st st' :
  layered c st → visited_new_vertex st = false →
  visits n (Z.of_nat c) (frontier index edges (Z.of_nat c) (level st) (seq 0 n)) st st' →
  visited_new_vertex st' = true →
  layered (S c) (mkBfs (level st') (visited_filter st') false).
Proof.
  intros Hla Hnew Hv Hnew'. pose proof Hla as [Hok Hlev Hroom _].
  assert (0 ≤ Z.of_nat c < k_infinite_level - 1) as Hc by lia.
  pose proof (visits_relation c _ _ _ Hok Hv ltac:(lia)) as Hrel.
  destruct Hv as [Hok' Hl' Hn']. apply Hn' in Hnew' as [?|(v0&Hv0&Hl0)]; [congruence|].
  assert (path (S c) v0) as Hp0 by (by apply (next_in_frontier c st)).
  destruct (Hlev v0 _ Hl0) as [[_ Hno0]|(k&E&?&_)]; [|lia]. split; cbn.
  - done.
  - intros v l' Hlv'.
    destruct (lookup_lt_is_Some_2 (level st) v) as [l Hl].
    { destruct Hok as (?&_), Hok' as (?&_). apply lookup_lt_Some in Hlv'. lia. }
    rewrite (Hl' v l Hl) in Hlv'. simplify_eq. unfold relabel.
    destruct (Hlev v l Hl) as [[-> Hno]|(k&->&Hk&Hd)].
    + case_bool_decide as Hin.
      * right. exists (S c). split_and!; [lia|lia|]. split; [apply (next_in_frontier c st); [done|done|apply Hin]|].
        intros j Hj. apply Hno. lia.
      * left. split; [done|]. intros k Hk Hpk. destruct (decide (k = S c)) as [->|]; [|apply (Hno k); [lia|done]].
        apply Hin. split; [done|]. by apply (next_in_frontier c st).
    + rewrite bool_decide_false by lia. right. exists k. split_and!; [done|lia|done].
  - destruct (count_inf_mono _ _ Hrel) as [_ Hlt].
    specialize (Hlt v0 _ Hl0 (Hl' v0 _ Hl0)). unfold relabel in Hlt.
    rewrite bool_decide_true in Hlt by done. specialize (Hlt ltac:(lia)). unfold count_inf in *. lia.
  - exists v0. split; [done|]. intros j Hj. apply Hno0. lia.
Qed.

(** a round that labels nothing was the last one *)
Lemma layered_last c st st' :
  layered c st → visited_new_vertex st = false →
  visits n (Z.of_nat c) (frontier index edges (Z.of_nat c) (level st) (seq 0 n)) st st' →
  visited_new_vertex st' = false →
  level st' = level st ∧ ∀ v, level st !! v = Some k_infinite_level → ∀ k, ¬ path k v.
Proof.
  intros Hla Hnew [Hok' Hl' Hn'] Hnew'. pose proof Hla as [Hok Hlev Hroom _].
  assert (∀ v, level st !! v = Some k_infinite_level →
    Z.of_nat v ∉ frontier index edges (Z.of_nat c) (level st) (seq 0 n)) as Hnone.
  { intros v Hv Hin. destruct (visited_new_vertex st') eqn:E; [done|].
    assert (false = true) as [=]. apply Hn'. eauto. }
  split.
  - apply list_eq_same_length with n; [by destruct Hok as (?&_)|by destruct Hok' as (?&_)|].
    intros v l' l _ H1 H2. rewrite (Hl' v l H2) in H1. simplify_eq. unfold relabel.
    case_bool_decide as E; [|done]. destruct E as [-> Hin]. by destruct (Hnone v H2).
  - enough (∀ k v, path k v → (v < n)%nat → level st !! v ≠ Some k_infinite_level) as H.
    { intros v Hv k Hp. apply (H k v Hp); [|done]. apply lookup_lt_Some in Hv. destruct Hok as (?&_). lia. }
    induction k as [|k IH]; intros v Hp Hvn Hv.
    { destruct (Hlev v _ Hv) as [[_ Hno]|(j&E&?&_)]; [|lia]. apply (Hno 0%nat); [lia|done]. }
    destruct Hp as (u&Hu&He). destruct (edge_target u v He) as [Hun _].
    destruct (layered_lookup c st u Hla Hun) as [l Hl].
    destruct (Hlev u l Hl) as [[-> _]|(j&->&Hj&Hd)]; [by apply (IH u)|].
    destruct (decide (j = c)) as [->|Hne].
    + apply (Hnone v Hv). apply elem_frontier. by exists u.
    + destruct (Hlev v _ Hv) as [[_ Hno]|(i&E&?&_)]; [|lia]. apply (Hno (S j)); [lia|].
      exists u. split; [apply Hd|done].
Qed.

(** every vertex carries its distance from [root], [c] is the largest one *)
Definition labelled (c : nat) (L : list Z) : Prop :=
  length L = n ∧ (∃ v, distance c v) ∧
  ∀ v l, L !! v = Some l →
    (l = k_infinite_level ∧ ∀ k, ¬ path k v) ∨ (∃ k, l = Z.of_nat k ∧ (k ≤ c)%nat ∧ distance k v).

Lemma bfs_loop_run fuel c st :
  layered c st → visited_new_vertex st = false → (n ≤ fuel + c)%nat →
  ∃ st' c', bfs_loop (Z.of_nat n) index edges fuel (Z.of_nat c) st = Ok (Z.of_nat c') st' ∧
    labelled c' (level st').
Proof.
  revert c st. induction fuel as [|fuel IH]; intros c st Hla Hnew Hf.
  { pose proof (la_room _ _ Hla). lia. }
  pose proof (la_room _ _ Hla) as Hroom. cbn [bfs_loop].
  destruct (bfs_level_run n index edges Hcsr (Z.of_nat c) ltac:(lia) st (la_ok _ _ Hla)) as (st1&E1&V1).
  erewrite bind_run by exact E1. cbv beta. erewrite bind_run by reflexivity. cbv beta.
  destruct (visited_new_vertex st1) eqn:Enew; cbn [negb].
  - erewrite bind_run by reflexivity. cbv beta.
    pose proof (layered_next c st st1 Hla Hnew V1 Enew) as Hla'.
    assert (u16 (Z.of_nat c + 1) = Z.of_nat (S c)) as ->.
    { unfold u16, k_infinite_level in *. rewrite Z.mod_small; lia. }
    apply IH; [done|done|lia].
  - destruct (layered_last c st st1 Hla Hnew V1 Enew) as [El Hno].
    exists st1, c. split; [done|]. unfold labelled. rewrite El. split_and!; [apply Hla|apply Hla|].
    intros v l Hl. destruct (la_level _ _ Hla v l Hl) as [[-> _]|?]; [|by right]. left. split; [done|].
    by apply Hno.
Qed.
End main_loop.

(** ** The whole program *)

Section whole.
Context (n : nat) (index edges : list Z) (Hcsr : csr_ok n index edges).
Context (Hlen64 : Z.of_nat (length edges) < 2 ^ 64).

Definition first_with_edge (root : nat) : Prop :=
  (∃ v, edge index edges root v) ∧ ∀ u v, (u < root)%nat → ¬ edge index edges u v.

Lemma row_empty u lo hi :
  index !! u = Some lo → index !! S u = Some hi → hi - lo = 0 ↔ targets index edges u = [].
Proof.
  intros Hlo Hhi. destruct (csr_rows _ _ _ Hcsr _ _ _ Hlo Hhi). unfold targets. rewrite Hlo, Hhi. split.
  - by intros ->.
  - intros E%(f_equal length). rewrite length_take, length_drop in E. cbn in E. lia.
Qed.

Lemma targets_edge u : targets index edges u ≠ [] → ∃ v, edge index edges u v.
Proof.
  destruct (targets index edges u) as [|t T] eqn:E; [done|]. intros _. exists (Z.to_nat t).
  unfold edge. rewrite E. assert (0 ≤ t).
  { unfold targets in E. destruct (index !! u), (index !! S u); try done.
    assert (t ∈ take (Z.to_nat (z0 - z)) (drop (Z.to_nat z) edges)) as Ht by (rewrite E; set_solver).
    apply list_elem_of_lookup in Ht as [i [Hi _]%lookup_take_Some]. rewrite lookup_drop in Hi.
    apply (csr_edges _ _ _ Hcsr) in Hi. lia. }
  rewrite Z2Nat.id by done. set_solver.
Qed.

Lemma find_root_run m src st :
  (Z.of_nat m + src = Z.of_nat n) → 0 ≤ src → length (level st) = n →
  (∀ u v, (u < Z.to_nat src)%nat → ¬ edge index edges u v) →
  (∃ u v, edge index edges u v) →
  ∃ root, first_with_edge root ∧ (root < n)%nat ∧
    find_root_loop index m src st =
      Ok tt (mkBfs (<[root := 0]> (level st)) (visited_filter st) (visited_new_vertex st)).
Proof.
  revert src. induction m as [|m IH]; intros src Hm Hs Hl Hno Hex.
  { destruct Hex as (u&v&He). exfalso. destruct (edge_target n index edges Hcsr u v He). apply (Hno u v); [lia|done]. }
  pose proof (csr_index _ _ _ Hcsr) as Hli. set (u := Z.to_nat src) in *.
  destruct (lookup_lt_is_Some_2 index u) as [lo Hlo]; [lia|].
  destruct (lookup_lt_is_Some_2 index (S u)) as [hi Hhi]; [lia|].
  destruct (csr_rows _ _ _ Hcsr _ _ _ Hlo Hhi) as [H1 H2].
  cbn [find_root_loop].
  erewrite bind_run by (apply read_at_run; [lia|]; replace (Z.to_nat (src + 1)) with (S u) by lia; exact Hhi).
  cbv beta. erewrite bind_run by (apply read_at_run; [lia|exact Hlo]). cbv beta zeta.
  rewrite u64_small by (unfold is_u64; lia). case_bool_decide as Hdeg.
  - exists u. split_and!; [split; [|done]|lia|].
    + apply targets_edge. rewrite <- (row_empty u lo hi) by done. lia.
    + erewrite bind_run by reflexivity. cbv beta. by erewrite bind_run by (apply write_at_run; lia).
  - apply IH; [lia|lia|done| |done]. intros x y Hx He.
    destruct (decide (x = u)) as [->|]; [|apply (Hno x y); [lia|done]].
    unfold edge in He. assert (targets index edges u = []) as E by (apply (row_empty u lo hi); [done|done|lia]).
    rewrite E in He. set_solver.
Qed.

Lemma bit_of_zeros m p : bit_of (replicate m 0) p = false.
Proof.
  unfold bit_of, at_index. case_bool_decide; [|done].
  destruct (replicate m 0 !! _) eqn:E; [|done]. apply lookup_replicate in E as [-> _]. apply Z.bits_0.
Qed.

(** the state the kernel starts from *)
Lemma init_layered root b :
  (root < n)%nat →
  layered n index edges root 0
    (mkBfs (<[root := 0]> (replicate n k_infinite_level)) (replicate (Z.to_nat (bitmap_size (Z.of_nat n))) 0) b).
Proof.
  intros Hr. assert (distance index edges root 0 root) as Hd by (by split; [|intros j ?; lia]).
  split; cbn -[count_inf].
  - split_and!; cbn.
    + by rewrite length_insert, length_replicate.
    + rewrite length_replicate, Z2Nat.id; [done|]. unfold bitmap_size. case_bool_decide; [done|].
      pose proof (Z.div_pos (Z.of_nat n - 1) 64 ltac:(lia) ltac:(lia)). lia.
    + intros v l. by rewrite bit_of_zeros.
  - intros v l [(<-&<-&_)|(Hne&[-> _]%lookup_replicate)]%list_lookup_insert_Some.
    + right. by exists 0%nat.
    + left. split; [done|]. intros k Hk. assert (k = 0%nat) as -> by lia. cbn. congruence.
  - destruct (count_inf_mono (replicate n k_infinite_level) (<[root := 0]> (replicate n k_infinite_level)))
      as [_ Hlt].
    { apply Forall2_same_length_lookup_2; [by rewrite length_insert|].
      intros v l l' [-> _]%lookup_replicate _ _. done. }
    specialize (Hlt root 0). rewrite lookup_replicate_2, list_lookup_insert_eq in Hlt
      by (rewrite ?length_replicate; done).
    specialize (Hlt eq_refl eq_refl ltac:(done)).
    assert (count_inf (replicate n k_infinite_level) ≤ n)%nat.
    { unfold count_inf. etrans; [apply length_filter|]. by rewrite length_replicate. }
    lia.
  - by exists root.
Qed.

Lemma count_level_labelled root c L :
  Z.of_nat n < k_infinite_level → labelled n index edges root c L →
  is_Some (count_level (Z.of_nat c) L).
Proof.
  intros Hn (Hl&_&Hlab). unfold count_level. generalize (replicate (Z.to_nat (Z.of_nat c + 1)) 0).
  assert (Forall (λ l, l = k_infinite_level ∨ l ≤ Z.of_nat c) L) as HL.
  { apply Forall_lookup_2. intros v l Hv. destruct (Hlab v l Hv) as [[? _]|(k&->&?&_)]; [by left|right; lia]. }
  clear Hlab Hl. induction HL as [|l L [->|Hle] _ IH]; intros cnt; cbn; [eauto| |].
  - rewrite bool_decide_true by done. apply IH.
  - case_bool_decide; [apply IH|]. rewrite bool_decide_false by lia. apply IH.
Qed.

(** [bfs_main] as a whole *)
Lemma bfs_main_run st :
  Z.of_nat n < k_infinite_level → (∃ u v, edge index edges u v) →
  ∃ root c st', first_with_edge root ∧
    bfs_main (Z.of_nat n) index edges st = Ok (Z.of_nat c) st' ∧
    labelled n index edges root c (level st') ∧
    is_Some (count_level (Z.of_nat c) (level st')).
Proof.
  intros Hn Hex. unfold bfs_main. erewrite bind_run by reflexivity. cbv beta.
  destruct (find_root_run n 0 (init_bfs (Z.of_nat n) st)) as (root&Hfirst&Hr&E);
    [lia|lia|cbn; by rewrite length_replicate, Nat2Z.id|intros; lia|done|].
  unfold find_bfs_root. rewrite Nat2Z.id. erewrite bind_run by exact E. cbv beta. cbn [level visited_filter init_bfs].
  unfold run_bfs. erewrite bind_run by reflexivity. cbv beta. cbn [level visited_filter]. rewrite !Nat2Z.id.
  destruct (bfs_loop_run n index edges Hcsr Hn root n 0 _ (init_layered root false Hr) eq_refl ltac:(lia))
    as (st'&c&Eb&Hlab).
  exists root, c, st'. split_and!; [done|exact Eb|done|by eapply count_level_labelled].
Qed.

(** C27 (functional).  On every graph in compressed sparse row form with fewer
    than 65535 vertices and some edge, the breadth-first search terminates: it
    starts from the first vertex with an edge, labels every vertex with the
    length of a shortest path from that root and the unreachable ones with the
    infinite level, returns the largest distance, and the level counts that are
    printed afterwards see no invalid level. *)
Theorem bfs_main_distances st :
  Z.of_nat n < k_infinite_level → (∃ u v, edge index edges u v) →
  ∃ root c st', first_with_edge root ∧
    bfs_main (Z.of_nat n) index edges st = Ok (Z.of_nat c) st' ∧
    labelled n index edges root c (level st') ∧
    is_Some (count_level (Z.of_nat c) (level st')).
Proof. exact (bfs_main_run st). Qed.
End whole.

(** ** Witness: the edges 1-2, 1-3, 2-3 *)

Definition demo_index : list Z := [0; 0; 2; 3; 3].
Definition demo_edges : list Z := [2; 3; 3].

Lemma demo_csr : csr_ok 4 demo_index demo_edges.
Proof.
  split; [done| |].
  - intros u lo hi H1 H2. do 4 (destruct u as [|u]; [cbn in *; simplify_eq; lia|]). done.
  - intros i v H1. do 3 (destruct i as [|i]; [cbn in *; simplify_eq; lia|]). done.
Qed.

Lemma bfs_main_distances_witness :
  ∃ c st', bfs_main 4 demo_index demo_edges (mkBfs [] [] false) = Ok (Z.of_nat c) st' ∧
    is_Some (count_level (Z.of_nat c) (level st')).
Proof.
  destruct (bfs_main_distances 4 demo_index demo_edges demo_csr ltac:(by vm_compute) (mkBfs [] [] false)
    ltac:(by vm_compute)) as (root&c&st'&_&E&_&Hc).
  - exists 1%nat, 2%nat. vm_compute. left.
  - exists c, st'. by split.
Defined.
