(* ===== verification/BfsParallel.v ===== *)
(** * The breadth-first search with its threads
      (the OpenMP build of src/examples/bfs/bfs_kernel.hpp)

    The comment of [run_bfs] says that some of its operations race but stay
    consistent.  Here the vertices of a level are distributed over threads in any
    way, every load and store of the shared arrays is a step of its own, and the
    threads' steps interleave in any order: two threads may label the same vertex,
    and the read-modify-write of a bitmap word may undo another thread's bit.  At
    the end of a level all threads wait for each other. *)

From stdpp Require Import base list numbers strings sets relations.
From S2P Require Import Prelude Bitmap Bfs.
Local Open Scope Z_scope.

(** ** Threads *)

(** where a thread is: [srcs] are the vertices it still has to look at, [i] and
    [last] its loop over the edges of a vertex, [trg] the target of edge [i], and
    [w] the bitmap word it has loaded *)
Inductive Thread :=
| TNext (srcs : list Z)
| TEdge (i last : Z) (srcs : list Z)
| TLevel (trg i last : Z) (srcs : list Z)
| TStore (trg i last : Z) (srcs : list Z)
| TRead (trg i last : Z) (srcs : list Z)
| TWrite (w trg i last : Z) (srcs : list Z)
| TFlag (i last : Z) (srcs : list Z).

Definition with_level (l : list Z) (st : BfsState) : BfsState :=
  mkBfs l (visited_filter st) (visited_new_vertex st).
Definition with_filter (f : list Z) (st : BfsState) : BfsState :=
  mkBfs (level st) f (visited_new_vertex st).
Definition with_new (b : bool) (st : BfsState) : BfsState :=
  mkBfs (level st) (visited_filter st) b.

Section kernel.
Context (index edges : list Z).

(** one access to the shared arrays; a thread without vertices waits *)
Definition tstep (current_level : Z) (t : Thread) : M BfsState Thread :=
  st ← get;
  match t with
  | TNext [] => block OnIdle
  | TNext (src :: srcs) =>
      l ← read_at (level st) src;
      if bool_decide (l ≠ current_level) then mret (TNext srcs)
      else
        first ← read_at index src;
        last ← read_at index (src + 1);
        mret (TEdge first last srcs)
  | TEdge i last srcs =>
      if bool_decide (i < last) then
        trg ← read_at edges i;
        b ← get_bit (visited_filter st) trg;
        mret (if b : bool then TEdge (i + 1) last srcs else TLevel trg i last srcs)
      else mret (TNext srcs)
  | TLevel trg i last srcs =>
      l ← read_at (level st) trg;
      mret (if bool_decide (l = k_infinite_level) then TStore trg i last srcs
            else TEdge (i + 1) last srcs)
  | TStore trg i last srcs =>
      l ← write_at trg (u16 (current_level + 1)) (level st);
      modify (with_level l) ;;
      mret (TRead trg i last srcs)
  | TRead trg i last srcs =>
      w ← read_at (visited_filter st) (bitmap_global_pos trg);
      mret (TWrite w trg i last srcs)
  | TWrite w trg i last srcs =>
      f ← write_at (bitmap_global_pos trg) (Z.lor w (u64 (Z.shiftl 1 (bitmap_local_pos trg))))
            (visited_filter st);
      modify (with_filter f) ;;
      mret (TFlag i last srcs)
  | TFlag i last srcs =>
      modify (with_new true) ;;
      mret (TEdge (i + 1) last srcs)
  end.

(** ** The program *)

Inductive pconf :=
| Level (current_level : Z) (ts : list Thread) (st : BfsState)
| Finished (current_level : Z) (st : BfsState).

Definition is_idle (t : Thread) : bool := match t with TNext [] => true | _ => false end.
Definition idle_thread (t : Thread) : Prop := t = TNext [].

(** [chunks]: the vertices of every thread *)
Context (chunks : list (list Z)).

Inductive pstep : pconf → pconf → Prop :=
| p_thread cur ts st k t t' st' :
    ts !! k = Some t → tstep cur t st = Ok t' st' →
    pstep (Level cur ts st) (Level cur (<[k := t']> ts) st')
| p_next cur ts st :
    Forall idle_thread ts → visited_new_vertex st = true →
    pstep (Level cur ts st) (Level (u16 (cur + 1)) (TNext <$> chunks) (with_new false st))
| p_last cur ts st :
    Forall idle_thread ts → visited_new_vertex st = false →
    pstep (Level cur ts st) (Finished cur st).

Definition par_start (st : BfsState) : pconf := Level 0 (TNext <$> chunks) (with_new false st).
End kernel.

Lemma is_idle_spec t : is_idle t = true → idle_thread t.
Proof. by destruct t as [[|]| | | | | |]. Qed.

(** ** One level *)

Section level.
Context (n : nat) (index edges : list Z) (Hcsr : csr_ok n index edges).
Context (cur : Z) (Hcur : 0 ≤ cur < k_infinite_level - 1).
Context (st0 : BfsState) (Hok0 : state_ok n st0).

(** the targets of the level *)
Abbreviation F := (frontier index edges cur (level st0) (seq 0 n)).
Abbreviation unlabelled st v := (level st !! v = Some k_infinite_level).

Definition front (srcs : list Z) : list Z :=
  frontier index edges cur (level st0) (Z.to_nat <$> srcs).
Definition segment (i last : Z) : list Z :=
  take (Z.to_nat (last - i)) (drop (Z.to_nat i) edges).

(** the targets a thread still has to see *)
Definition todo (t : Thread) : list Z :=
  match t with
  | TNext srcs => front srcs
  | TEdge i last srcs => segment i last ++ front srcs
  | TLevel trg i last srcs | TStore trg i last srcs => trg :: segment (i + 1) last ++ front srcs
  | TRead _ i last srcs | TWrite _ _ i last srcs | TFlag i last srcs =>
      segment (i + 1) last ++ front srcs
  end.

(** about to set [visited_new_vertex] *)
Definition raising (t : Thread) : Prop :=
  match t with TRead _ _ _ _ | TWrite _ _ _ _ _ | TFlag _ _ _ => True | _ => False end.

#[local] Instance raising_dec t : Decision (raising t).
Proof. destruct t; simpl; apply _. Defined.

Definition srcs_of (t : Thread) : list Z :=
  match t with
  | TNext s | TEdge _ _ s | TLevel _ _ _ s | TStore _ _ _ s | TRead _ _ _ s | TWrite _ _ _ _ s
  | TFlag _ _ s => s
  end.

Definition range_ok (t : Thread) : Prop :=
  match t with
  | TNext _ => True
  | TEdge i last _ => 0 ≤ i ∧ last ≤ Z.of_nat (length edges)
  | TLevel _ i last _ | TStore _ i last _ | TRead _ i last _ | TWrite _ _ i last _
  | TFlag i last _ => 0 ≤ i < last ∧ last ≤ Z.of_nat (length edges)
  end.

(** a new target of the level *)
Definition fresh (trg : Z) : Prop :=
  0 ≤ trg < Z.of_nat n ∧ trg ∈ F ∧ unlabelled st0 (Z.to_nat trg).

Definition pc_ok (st : BfsState) (t : Thread) : Prop :=
  match t with
  | TLevel trg _ _ _ => 0 ≤ trg < Z.of_nat n
  | TStore trg _ _ _ => fresh trg
  | TRead trg _ _ _ => fresh trg ∧ ¬ unlabelled st (Z.to_nat trg)
  | TWrite w trg _ _ _ =>
      fresh trg ∧ ¬ unlabelled st (Z.to_nat trg) ∧
      ∀ v : nat, Z.of_nat v / 64 = trg / 64 → Z.testbit w (Z.of_nat v mod 64) = true → ¬ unlabelled st v
  | TFlag _ _ _ => ∃ trg, fresh trg
  | _ => True
  end.

Definition thread_ok (st : BfsState) (t : Thread) : Prop :=
  (∀ x, x ∈ todo t → x ∈ F) ∧ Forall (λ u, 0 ≤ u < Z.of_nat n) (srcs_of t) ∧ range_ok t ∧ pc_ok st t.

(** the levels have only grown, from the old ones towards those of the level *)
Definition grown (st st' : BfsState) : Prop :=
  ∀ v l, level st !! v = Some l →
    level st' !! v = Some l ∨ (fresh (Z.of_nat v) ∧ level st' !! v = Some (cur + 1)).

Record pinv (ts : list Thread) (st : BfsState) : Prop := {
  pi_ok : state_ok n st;
  pi_grown : grown st0 st;
  pi_new : visited_new_vertex st = true → visited_new_vertex st0 = true ∨ ∃ trg, fresh trg;
  pi_raise : visited_new_vertex st0 = true ∨ level st ≠ level st0 →
    visited_new_vertex st = true ∨ Exists raising ts;
  pi_threads : Forall (thread_ok st) ts;
  pi_cover x : x ∈ F → ¬ unlabelled st (Z.to_nat x) ∨ Exists (λ t, x ∈ todo t) ts
}.

(** what is left to do, in steps *)
Fixpoint srcs_weight (srcs : list Z) : nat :=
  match srcs with
  | [] => 0
  | u :: srcs => 2 + 7 * length (targets index edges (Z.to_nat u)) + srcs_weight srcs
  end.
Definition edges_weight (i last : Z) (srcs : list Z) : nat :=
  7 * Z.to_nat (last - i) + 1 + srcs_weight srcs.
Definition weight (t : Thread) : nat :=
  match t with
  | TNext srcs => srcs_weight srcs
  | TEdge i last srcs => edges_weight i last srcs
  | TLevel _ i last srcs => 6 + edges_weight (i + 1) last srcs
  | TStore _ i last srcs => 5 + edges_weight (i + 1) last srcs
  | TRead _ i last srcs => 4 + edges_weight (i + 1) last srcs
  | TWrite _ _ i last srcs => 3 + edges_weight (i + 1) last srcs
  | TFlag i last srcs => 2 + edges_weight (i + 1) last srcs
  end.

(** ** What one step does *)

Record effect (t : Thread) (st : BfsState) (t' : Thread) (st' : BfsState) : Prop := {
  ef_ok : state_ok n st';
  ef_grown : grown st st';
  ef_new : visited_new_vertex st' = true → visited_new_vertex st = true ∨ ∃ trg, fresh trg;
  ef_keep : visited_new_vertex st = true → visited_new_vertex st' = true;
  ef_raise : level st' ≠ level st ∨ raising t → raising t' ∨ visited_new_vertex st' = true;
  ef_thread : thread_ok st' t';
  ef_todo x : x ∈ todo t → x ∈ todo t' ∨ ¬ unlabelled st' (Z.to_nat x);
  ef_weight : (weight t' < weight t)%nat
}.

Lemma grown_refl st : grown st st.
Proof. intros v l Hl. by left. Qed.

Lemma grown_trans st1 st2 st3 : grown st1 st2 → grown st2 st3 → grown st1 st3.
Proof.
  intros H1 H2 v l Hl. destruct (H1 v l Hl) as [E|[Hf E]]; [by apply H2|].
  right. split; [done|]. by destruct (H2 v _ E) as [?|[_ ?]].
Qed.

(** labels stay *)
Lemma grown_labelled st st' v : grown st st' → unlabelled st' v → length (level st) = n →
  length (level st') = n → unlabelled st v.
Proof.
  intros Hg Hu Hl Hl'. destruct (lookup_lt_is_Some_2 (level st) v) as [l E].
  { apply lookup_lt_Some in Hu. lia. }
  destruct (Hg v l E) as [E'|[_ E']]; [congruence|]. rewrite Hu in E'. unfold k_infinite_level in *.
  simplify_eq. lia.
Qed.

Lemma pc_ok_grown st st' t :
  state_ok n st → state_ok n st' → grown st st' → pc_ok st t → pc_ok st' t.
Proof.
  intros (Hl&_) (Hl'&_) Hg. pose proof (λ v Hu, grown_labelled st st' v Hg Hu Hl Hl') as Hun.
  destruct t; simpl; naive_solver.
Qed.

Lemma thread_ok_grown st st' t :
  state_ok n st → state_ok n st' → grown st st' → thread_ok st t → thread_ok st' t.
Proof.
  intros H1 H2 Hg (?&?&?&?). split_and!; [done..|by eapply (pc_ok_grown st)].
Qed.

(** the invariant is kept by the step of one thread *)
Lemma pinv_effect ts st k t t' st' :
  pinv ts st → ts !! k = Some t → effect t st t' st' → pinv (<[k := t']> ts) st'.
Proof.
  intros [Hok Hg Hnew Hraise Hth Hcov] Hk [E1 E2 E3 E4 E5 E6 E7 _].
  pose proof (lookup_lt_Some _ _ _ Hk) as Hlt.
  assert (∀ P : Thread → Prop, Exists P ts → (P t → P t') → Exists P (<[k := t']> ts)) as Hex.
  { intros P HP Himp. apply Exists_exists in HP as (x&Hx&HPx). apply list_elem_of_lookup in Hx as [j Hj].
    apply Exists_exists. destruct (decide (j = k)) as [->|Hne].
    - exists t'. split; [|by apply Himp; simplify_eq].
      apply list_elem_of_lookup. exists k. by apply list_lookup_insert_eq.
    - exists x. split; [|done]. apply list_elem_of_lookup. exists j. by rewrite list_lookup_insert_ne. }
  assert (t' ∈ <[k := t']> ts) as Hin
    by (apply list_elem_of_lookup; exists k; by apply list_lookup_insert_eq).
  split; [done|by eapply grown_trans| | | |].
  - intros Hb. destruct (E3 Hb); auto.
  - intros Hb. assert (level st' ≠ level st ∨ raising t → visited_new_vertex st' = true ∨
      Exists raising (<[k := t']> ts)) as Hme.
    { intros [?|?]%E5; [right|by left]. apply Exists_exists. eauto. }
    destruct (decide (level st' = level st)) as [El|El]; [|auto]. rewrite El in Hb.
    destruct (Hraise Hb) as [?|Hx]; [auto|]. apply Exists_exists in Hx as (x&Hx&Hr).
    destruct (decide (raising t)) as [Hr'|Hr']; [by apply Hme; right|].
    right. apply Hex; [apply Exists_exists; eauto|done].
  - apply Forall_insert; [|done]. eapply Forall_impl; [exact Hth|]. intros x. by apply thread_ok_grown.
  - intros x Hx. destruct (Hcov x Hx) as [Hl|Ht].
    + left. intros Hu. apply Hl. destruct Hok as (?&_), E1 as (?&_). by eapply grown_labelled.
    + destruct (decide (x ∈ todo t)) as [Hxt|Hxt].
      * destruct (E7 x Hxt) as [?|?]; [right|by left]. apply Exists_exists. eauto.
      * right. by apply Hex.
Qed.

(** ** The steps *)

(** a step that only moves the thread *)
Lemma effect_same t t' st :
  state_ok n st → thread_ok st t' → (raising t → raising t') →
  (∀ x, x ∈ todo t → x ∈ todo t' ∨ ¬ unlabelled st (Z.to_nat x)) →
  (weight t' < weight t)%nat → effect t st t' st.
Proof. intros Hok Ht Hr Htodo Hw. split; auto using grown_refl. intros [?|?]; [done|auto]. Qed.

Lemma segment_cons i last trg :
  0 ≤ i < last → edges !! Z.to_nat i = Some trg → segment i last = trg :: segment (i + 1) last.
Proof.
  intros Hi He. unfold segment. rewrite (drop_S _ _ _ He).
  replace (Z.to_nat (last - i)) with (S (Z.to_nat (last - (i + 1)))) by lia.
  by replace (Z.to_nat (i + 1)) with (S (Z.to_nat i)) by lia.
Qed.

Lemma segment_nil i last : last ≤ i → segment i last = [].
Proof. intros. unfold segment. by replace (Z.to_nat (last - i)) with 0%nat by lia. Qed.

Lemma front_cons u srcs :
  front (u :: srcs) =
    (if bool_decide (level st0 !! Z.to_nat u = Some cur) then targets index edges (Z.to_nat u) else [])
    ++ front srcs.
Proof. done. Qed.

Lemma edges_weight_next i last srcs :
  i < last → edges_weight i last srcs = (7 + edges_weight (i + 1) last srcs)%nat.
Proof. intros. unfold edges_weight. lia. Qed.

Lemma level_at st v : state_ok n st → 0 ≤ v < Z.of_nat n → ∃ l, level st !! Z.to_nat v = Some l.
Proof. intros (Hl&_) Hv. apply lookup_lt_is_Some_2. lia. Qed.

(** which vertices are on the current level does not change *)
Lemma current_stable ts st u :
  pinv ts st → level st !! u = Some cur ↔ level st0 !! u = Some cur.
Proof.
  intros Hp. unfold k_infinite_level in *. split; intros Hu.
  - destruct (lookup_lt_is_Some_2 (level st0) u) as [l Hl].
    { apply lookup_lt_Some in Hu. destruct (pi_ok _ _ Hp) as (?&_), Hok0 as (?&_). lia. }
    destruct (pi_grown _ _ Hp u l Hl) as [E|[_ E]]; [congruence|]. rewrite Hu in E. simplify_eq. lia.
  - destruct (pi_grown _ _ Hp u cur Hu) as [E|[(_&_&E) _]]; [done|].
    rewrite Nat2Z.id in E. rewrite Hu in E. unfold k_infinite_level in E. simplify_eq. lia.
Qed.

Section step.
Context (ts : list Thread) (st : BfsState) (Hp : pinv ts st).

Abbreviation steps t := (∃ t' st', tstep index edges cur t st = Ok t' st' ∧ effect t st t' st').

Lemma step_next src srcs : thread_ok st (TNext (src :: srcs)) → steps (TNext (src :: srcs)).
Proof.
  intros (Htodo&Hs&_&_). simpl in Hs. apply Forall_cons in Hs as [Hu Hs].
  pose proof (pi_ok _ _ Hp) as Hok. destruct (level_at st src Hok Hu) as [l Hl].
  unfold tstep. erewrite bind_run by reflexivity.
  erewrite bind_run by (apply read_at_run; [lia|exact Hl]). cbv beta.
  pose proof (current_stable ts st (Z.to_nat src) Hp) as Hc. rewrite Hl in Hc.
  case_bool_decide as Hne.
  - eexists _, _. split; [reflexivity|]. simpl todo in Htodo. rewrite front_cons in Htodo.
    rewrite bool_decide_false in Htodo by (intros E; apply Hc in E; congruence).
    apply effect_same; [done| |done| |simpl; lia].
    + split_and!; [done..|done|done].
    + simpl. rewrite front_cons. rewrite bool_decide_false by (intros E; apply Hc in E; congruence). auto.
  - assert (l = cur) as -> by (by destruct (decide (l = cur))).
    pose proof (csr_index _ _ _ Hcsr) as Hli.
    destruct (lookup_lt_is_Some_2 index (Z.to_nat src)) as [lo Hlo]; [lia|].
    destruct (lookup_lt_is_Some_2 index (S (Z.to_nat src))) as [hi Hhi]; [lia|].
    destruct (csr_rows _ _ _ Hcsr _ _ _ Hlo Hhi) as [H1 H2].
    erewrite bind_run by (apply read_at_run; [lia|exact Hlo]).
    erewrite bind_run by (apply read_at_run; [lia|];
      replace (Z.to_nat (src + 1)) with (S (Z.to_nat src)) by lia; exact Hhi).
    assert (segment lo hi = targets index edges (Z.to_nat src)) as Hseg
      by (unfold segment, targets; by rewrite Hlo, Hhi).
    assert (front (src :: srcs) = segment lo hi ++ front srcs) as Hf.
    { rewrite front_cons, bool_decide_true by (by apply Hc). by rewrite Hseg. }
    eexists _, _. split; [reflexivity|]. simpl todo in Htodo. rewrite Hf in Htodo.
    apply effect_same; [done| |done| |].
    + split_and!; [done..|simpl; lia|done].
    + simpl. rewrite Hf. auto.
    + cbn [weight srcs_weight]. unfold edges_weight. rewrite <- Hseg. unfold segment. rewrite length_take, length_drop. lia.
Qed.

Lemma step_edge i last srcs : thread_ok st (TEdge i last srcs) → steps (TEdge i last srcs).
Proof.
  intros (Htodo&Hs&[Hi Hlast]&_). pose proof (pi_ok _ _ Hp) as Hok.
  unfold tstep. erewrite bind_run by reflexivity. case_bool_decide as Hlt.
  - destruct (lookup_lt_is_Some_2 edges (Z.to_nat i)) as [trg He]; [lia|].
    pose proof (csr_edges _ _ _ Hcsr _ _ He) as Hr.
    erewrite bind_run by (apply read_at_run; [lia|exact He]).
    erewrite bind_run by (apply (get_bit_run _ (Z.of_nat n)); [apply Hok|done]).
    simpl todo in Htodo. rewrite (segment_cons i last trg) in Htodo by (done || lia).
    eexists _, _. split; [reflexivity|]. destruct (bit_of _ _) eqn:Eb.
    + apply effect_same; [done| |done| |simpl; rewrite (edges_weight_next i) by done; lia].
      * split_and!; [|done|simpl; lia|done]. simpl. set_solver.
      * simpl. rewrite (segment_cons i last trg) by (done || lia). intros x.
        rewrite <- app_comm_cons, elem_of_cons. intros [->|?]; [right|by left].
        intros Hu. destruct Hok as (_&_&Hb). eapply (Hb (Z.to_nat trg)); [by rewrite Z2Nat.id by lia|exact Hu|done].
    + apply effect_same; [done| |done| |simpl; rewrite (edges_weight_next i) by done; lia].
      * split_and!; [done|done|simpl; lia|done].
      * simpl. rewrite (segment_cons i last trg) by (done || lia). auto.
  - eexists _, _. split; [reflexivity|]. simpl todo in Htodo. rewrite segment_nil in Htodo by lia.
    apply effect_same; [done| |done| |cbn [weight]; unfold edges_weight; lia].
    + split_and!; done.
    + simpl. rewrite segment_nil by lia. auto.
Qed.

Lemma step_level trg i last srcs : thread_ok st (TLevel trg i last srcs) → steps (TLevel trg i last srcs).
Proof.
  intros (Htodo&Hs&Hr&Ht). simpl in Ht, Hr. pose proof (pi_ok _ _ Hp) as Hok.
  destruct (level_at st trg Hok Ht) as [l Hl]. unfold tstep. erewrite bind_run by reflexivity.
  erewrite bind_run by (apply read_at_run; [lia|exact Hl]). eexists _, _. split; [reflexivity|].
  case_bool_decide as Hinf.
  - subst l. apply effect_same; [done| |done|simpl; auto|simpl; lia].
    split_and!; [done|done|done|]. simpl. split_and!; [lia|lia|apply Htodo; simpl; set_solver|].
    destruct Hok as (?&_), Hok0 as (?&_). eapply grown_labelled; [apply Hp|done|done|done].
  - apply effect_same; [done| |done| |simpl; lia].
    + split_and!; [|done|simpl; lia|done]. simpl in *. set_solver.
    + simpl. intros x. rewrite elem_of_cons. intros [->|?]; [right|by left]. congruence.
Qed.

Lemma step_store trg i last srcs : thread_ok st (TStore trg i last srcs) → steps (TStore trg i last srcs).
Proof.
  intros (Htodo&Hs&Hr&Hf). simpl in Hf, Hr. pose proof Hf as (Ht&HF&Hu).
  pose proof (pi_ok _ _ Hp) as (Hlen&Hbm&Hb).
  unfold tstep. erewrite bind_run by reflexivity.
  erewrite bind_run by (apply write_at_run; lia). erewrite bind_run by reflexivity.
  eexists _, _. split; [reflexivity|].
  assert (u16 (cur + 1) = cur + 1) as -> by (unfold u16, k_infinite_level in *; apply Z.mod_small; lia).
  assert (¬ (level (with_level (<[Z.to_nat trg := cur + 1]> (level st)) st) !! Z.to_nat trg =
    Some k_infinite_level)) as Hnew.
  { simpl. rewrite list_lookup_insert_eq by lia. unfold k_infinite_level in *. intros [= ?]. lia. }
  split; simpl; auto.
  - split_and!; simpl; [by rewrite length_insert|done|]. intros v l Hv.
    intros [(<-&<-&_)|(_&Hl)]%list_lookup_insert_Some; [unfold k_infinite_level in *; lia|eauto].
  - intros v l Hl. simpl. destruct (decide (v = Z.to_nat trg)) as [->|Hne].
    + right. rewrite Z2Nat.id by lia. split; [done|]. apply list_lookup_insert_eq. lia.
    + left. by rewrite list_lookup_insert_ne.
  - split_and!; [simpl in *; set_solver|done|done|]. by split.
  - intros x. rewrite elem_of_cons. intros [->|?]; [by right|by left].
Qed.

(** bits of a word are bits of the filter *)
Lemma word_bit trg w (v : nat) :
  0 ≤ trg < Z.of_nat n → visited_filter st !! Z.to_nat (trg / 64) = Some w →
  Z.of_nat v / 64 = trg / 64 → bit_of (visited_filter st) (Z.of_nat v) = Z.testbit w (Z.of_nat v mod 64).
Proof.
  intros Ht Hw Hv. unfold bit_of, at_index. rewrite Hv.
  rewrite bool_decide_true by (apply Z.div_pos; lia). by rewrite Hw.
Qed.

Lemma step_read trg i last srcs : thread_ok st (TRead trg i last srcs) → steps (TRead trg i last srcs).
Proof.
  intros (Htodo&Hs&Hr&Hf&Hl). pose proof Hf as (Ht&_&_). pose proof (pi_ok _ _ Hp) as Hok.
  pose proof Hok as (Hlen&Hbm&Hb). destruct (word_at _ _ Hbm trg Ht) as [w Hw].
  pose proof (bitmap_size_index _ _ Ht). unfold tstep. erewrite bind_run by reflexivity.
  rewrite global_pos_div. erewrite bind_run by (apply read_at_run; [lia|exact Hw]).
  eexists _, _. split; [reflexivity|]. apply effect_same; [done| |done|simpl; auto|simpl; lia].
  split_and!; [done|done|done|]. simpl. split_and!; [done|done|]. intros v Hv Hbit Hun.
  eapply Hb; [by rewrite (word_bit trg w)|exact Hun|done].
Qed.

Lemma step_write w trg i last srcs :
  thread_ok st (TWrite w trg i last srcs) → steps (TWrite w trg i last srcs).
Proof.
  intros (Htodo&Hs&Hr&Hf&Hl&Hw). pose proof Hf as (Ht&_&_).
  pose proof (pi_ok _ _ Hp) as (Hlen&Hbm&Hb). pose proof (bitmap_size_index _ _ Ht).
  unfold tstep. erewrite bind_run by reflexivity. rewrite global_pos_div, bit_mask.
  erewrite bind_run by (apply write_at_run; lia). erewrite bind_run by reflexivity.
  eexists _, _. split; [reflexivity|]. split; simpl; auto using grown_refl.
  - split_and!; simpl; [done|by rewrite length_insert|]. intros v l Hbit Hv ->.
    destruct (decide (Z.of_nat v / 64 = trg / 64)) as [E|E].
    + unfold bit_of, at_index in Hbit. rewrite E, bool_decide_true in Hbit by lia.
      rewrite list_lookup_insert_eq in Hbit by lia. rewrite Z.lor_spec, Z.pow2_bits_eqb in Hbit
        by (apply Z.mod_pos_bound; lia).
      apply orb_true_iff in Hbit as [Hbit|Hbit]; [by apply (Hw v)|]. apply Z.eqb_eq in Hbit.
      apply Hl. replace (Z.to_nat trg) with v; [done|].
      pose proof (Z.div_mod trg 64). pose proof (Z.div_mod (Z.of_nat v) 64). lia.
    + eapply (Hb v); [|exact Hv|done]. unfold bit_of, at_index in *.
      rewrite list_lookup_insert_ne in Hbit; [done|].
      pose proof (Z.div_pos (Z.of_nat v) 64). pose proof (Z.div_pos trg 64). lia.
  - intros v l Hv. by left.
  - split_and!; [done|done|done|]. simpl. eauto.
Qed.

Lemma step_flag i last srcs : thread_ok st (TFlag i last srcs) → steps (TFlag i last srcs).
Proof.
  intros (Htodo&Hs&Hr&Hf). simpl in Hf, Hr. eexists _, _. split; [reflexivity|].
  split; simpl; auto; [apply Hp|intros v l Hv; by left|].
  split_and!; [done|done|simpl; lia|done].
Qed.

(** a thread that is not done can make its step, and it is a sound one *)
Lemma thread_steps k t : ts !! k = Some t → t ≠ TNext [] → steps t.
Proof.
  intros Hk Hne. pose proof (Forall_lookup_1 _ _ _ _ (pi_threads _ _ Hp) Hk) as Hok.
  destruct t as [[|]| | | | | |]; auto using step_next, step_edge, step_level, step_store, step_read,
    step_write, step_flag. done.
Qed.
End step.
End level.

(** ** Levels from start to end *)

Section rounds.
Context (n : nat) (index edges : list Z) (Hcsr : csr_ok n index edges).
Context (chunks : list (list Z)).
Hypothesis Hchunks : ∀ u, u ∈ concat chunks ↔ 0 ≤ u < Z.of_nat n.

Lemma pinv_start cur st :
  state_ok n st → pinv n index edges cur st (TNext <$> chunks) st.
Proof.
  intros Hok. assert (∀ chunk, chunk ∈ chunks → Forall (λ u, 0 ≤ u < Z.of_nat n) chunk) as Hc.
  { intros chunk Hin. apply Forall_forall. intros u Hu. apply Hchunks.
    apply list_elem_of_In, in_concat. exists chunk. rewrite <- !list_elem_of_In. done. }
  split; [done|apply grown_refl|by left| | |].
  - intros [?|?]; [by left|done].
  - apply Forall_fmap, Forall_forall. intros chunk Hin. split_and!; [|by apply Hc|done|done].
    intros x Hx. simpl in Hx. unfold front, frontier in Hx. apply list_elem_of_bind in Hx as (u&Hx&Hu).
    case_bool_decide as Hlu; [|by apply elem_of_nil in Hx]. apply elem_frontier.
    apply list_elem_of_fmap in Hu as (z&->&Hz). specialize (Hc chunk Hin). rewrite Forall_forall in Hc.
    specialize (Hc z Hz). exists (Z.to_nat z). split_and!; [lia|done|done].
  - intros x Hx. right. apply elem_frontier in Hx as (u&Hun&Hl&Hx).
    assert (Z.of_nat u ∈ concat chunks) as Hu by (apply Hchunks; lia).
    apply list_elem_of_In, in_concat in Hu as (chunk&Hc1&Hc2). rewrite <- !list_elem_of_In in *.
    apply Exists_exists. exists (TNext chunk). split; [by apply list_elem_of_fmap_2|].
    simpl. unfold front, frontier. apply list_elem_of_bind. exists u. split.
    + by rewrite bool_decide_true.
    + apply list_elem_of_fmap. exists (Z.of_nat u). by rewrite Nat2Z.id.
Qed.

(** when all threads are done the level has been visited as a whole *)
Lemma pinv_done cur st0 ts st :
  0 ≤ cur < k_infinite_level - 1 → state_ok n st0 →
  pinv n index edges cur st0 ts st → Forall idle_thread ts →
  visits n cur (frontier index edges cur (level st0) (seq 0 n)) st0 st.
Proof.
  intros Hcur Hok0 Hp Hidle.
  assert (∀ P : Thread → Prop, Exists P ts → P (TNext [])) as Hno.
  { intros P HP. apply Exists_exists in HP as (t&Ht&HP). rewrite Forall_forall in Hidle.
    by rewrite (Hidle t Ht) in HP. }
  assert (∀ v : nat, Z.of_nat v ∈ frontier index edges cur (level st0) (seq 0 n) →
    level st !! v ≠ Some k_infinite_level) as Hall.
  { intros v Hv. destruct (pi_cover _ _ _ _ _ _ _ Hp _ Hv) as [H|H]; [by rewrite Nat2Z.id in H|].
    apply Hno in H. by apply elem_of_nil in H. }
  split; [apply Hp| |].
  - intros v l Hl. unfold relabel. case_bool_decide as Hb.
    + destruct Hb as [-> Hv]. destruct (pi_grown _ _ _ _ _ _ _ Hp v _ Hl) as [E|[_ E]]; [|done].
      by destruct (Hall v Hv).
    + destruct (pi_grown _ _ _ _ _ _ _ Hp v _ Hl) as [E|[(_&HF&E) _]]; [done|].
      rewrite Nat2Z.id in E. rewrite Hl in E. simplify_eq. by destruct Hb.
  - split.
    + intros Hb. destruct (pi_new _ _ _ _ _ _ _ Hp Hb) as [?|(trg&Ht&HF&Hu)]; [by left|right].
      exists (Z.to_nat trg). by rewrite Z2Nat.id by lia.
    + intros Hb. assert (visited_new_vertex st0 = true ∨ level st ≠ level st0) as H.
      { destruct Hb as [?|(v&Hv&Hu)]; [by left|right]. intros E. apply (Hall v Hv). by rewrite E. }
      destruct (pi_raise _ _ _ _ _ _ _ Hp H) as [?|Hx]; [done|]. by apply Hno in Hx.
Qed.

(** ** The whole search *)

Context (Hn : Z.of_nat n < k_infinite_level) (root : nat).

Definition good (conf : pconf) : Prop :=
  match conf with
  | Level cur ts st => ∃ c st0, cur = Z.of_nat c ∧ layered n index edges root c st0 ∧
      visited_new_vertex st0 = false ∧ pinv n index edges cur st0 ts st
  | Finished cur st => ∃ c, cur = Z.of_nat c ∧ labelled n index edges root c (level st)
  end.

Lemma layered_bound c st : layered n index edges root c st → 0 ≤ Z.of_nat c < k_infinite_level - 1.
Proof. intros [_ _ Hr _]. lia. Qed.

Lemma good_thread cur ts st k t :
  good (Level cur ts st) → ts !! k = Some t → t ≠ TNext [] →
  ∃ t' st', tstep index edges cur t st = Ok t' st' ∧ good (Level cur (<[k := t']> ts) st') ∧
    (weight index edges t' < weight index edges t)%nat.
Proof.
  intros (c&st0&->&Hla&Hb&Hp) Hk Hne. pose proof (layered_bound _ _ Hla) as Hc.
  destruct (thread_steps n index edges Hcsr (Z.of_nat c) Hc st0 (la_ok _ _ _ _ _ _ Hla) ts st Hp k t Hk Hne)
    as (t'&st'&E&Hef).
  exists t', st'. split; [done|]. split; [|apply Hef]. exists c, st0. split_and!; [done..|].
  by eapply pinv_effect; [exact Hc|exact Hp|exact Hk|].
Qed.

(** after a level either the next one starts or everything is labelled *)
Lemma good_round cur ts st :
  good (Level cur ts st) → Forall idle_thread ts →
  if visited_new_vertex st
  then ∃ c, cur = Z.of_nat c ∧ u16 (cur + 1) = Z.of_nat (S c) ∧ (S c < n)%nat ∧
         good (Level (u16 (cur + 1)) (TNext <$> chunks) (with_new false st))
  else good (Finished cur st).
Proof.
  intros (c&st0&->&Hla&Hb&Hp) Hidle. pose proof (layered_bound _ _ Hla) as Hc.
  pose proof (pinv_done _ _ _ _ Hc (la_ok _ _ _ _ _ _ Hla) Hp Hidle) as Hv.
  destruct (visited_new_vertex st) eqn:Enew.
  - pose proof (layered_next n index edges Hcsr Hn root c st0 st Hla Hb Hv Enew) as Hla'.
    assert (u16 (Z.of_nat c + 1) = Z.of_nat (S c)) as Eu.
    { unfold u16, k_infinite_level in *. rewrite Z.mod_small; lia. }
    exists c. split_and!; [done|done|pose proof (la_room _ _ _ _ _ _ Hla'); lia|].
    exists (S c), (with_new false st). split_and!; [done|exact Hla'|done|].
    apply pinv_start. exact (la_ok _ _ _ _ _ _ Hla').
  - destruct (layered_last n index edges Hcsr Hn root c st0 st Hla Hb Hv Enew) as [El Hno].
    exists c. split; [done|]. unfold labelled. rewrite El. split_and!; [apply Hla|apply Hla|].
    intros v l Hl. destruct (la_level _ _ _ _ _ _ Hla v l Hl) as [[-> _]|?]; [|by right]. left.
    split; [done|]. by apply Hno.
Qed.

Lemma good_step conf conf' : good conf → pstep index edges chunks conf conf' → good conf'.
Proof.
  intros Hg Hs. destruct Hs as [cur ts st k t t' st' Hk E|cur ts st Hi Hb|cur ts st Hi Hb].
  - assert (t ≠ TNext []) as Hne by (intros ->; discriminate E).
    destruct (good_thread _ _ _ _ _ Hg Hk Hne) as (?&?&E'&Hg'&_). congruence.
  - pose proof (good_round _ _ _ Hg Hi) as H. rewrite Hb in H. by destruct H as (?&_&_&_&?).
  - pose proof (good_round _ _ _ Hg Hi) as H. by rewrite Hb in H.
Qed.

(** no deadlock: some thread is not done, or the level ends *)
Lemma good_progress cur ts st :
  good (Level cur ts st) → ∃ conf', pstep index edges chunks (Level cur ts st) conf'.
Proof.
  intros Hg. destruct (decide (Forall (λ t, is_idle t = true) ts)) as [Hi|Hi].
  - assert (Forall idle_thread ts) as Hi' by (eapply Forall_impl; [exact Hi|]; intros t; apply is_idle_spec).
    destruct (visited_new_vertex st) eqn:E; eexists; [by apply p_next|by apply p_last].
  - apply not_Forall_Exists in Hi; [|apply _]. apply Exists_exists in Hi as (t&Ht&Hne).
    apply list_elem_of_lookup in Ht as [k Hk].
    destruct (good_thread _ _ _ _ _ Hg Hk) as (t'&st'&E&_); [intros ->; by apply Hne|].
    eexists. by eapply p_thread.
Qed.

Definition total_weight (ts : list Thread) : nat := sum_list_with (weight index edges) ts.

Lemma total_weight_insert ts k t t' :
  ts !! k = Some t → (weight index edges t' < weight index edges t)%nat →
  (total_weight (<[k := t']> ts) < total_weight ts)%nat.
Proof.
  intros Hk Hw. rewrite <- (take_drop_middle ts k t Hk) at 2. rewrite insert_take_drop
    by (by apply lookup_lt_Some in Hk).
  unfold total_weight. rewrite !sum_list_with_app. simpl. lia.
Qed.

(** every schedule ends: a step of a thread does a part of its work, and there
    are at most as many levels as vertices *)
Lemma good_terminates conf : good conf → sn (pstep index edges chunks) conf.
Proof.
  destruct conf as [cur ts st|cur st]; [|constructor; intros conf' Hs; inversion Hs].
  intros Hg. pose proof Hg as (c&_&Hc&_). revert Hg.
  remember (n - c)%nat as m eqn:Hm. revert c cur ts st Hc Hm.
  induction m as [m IHm] using (well_founded_induction lt_wf). intros c cur ts st Hc Hm.
  remember (total_weight ts) as w eqn:Hw. revert ts st Hw.
  induction w as [w IHw] using (well_founded_induction lt_wf). intros ts st Hw Hg.
  constructor. intros conf' Hs. unfold flip in Hs. pose proof (good_step _ _ Hg Hs) as Hg'.
  inversion Hs as [? ? ? k t t' st' Hk E|? ? ? Hi Hb|? ? ? Hi Hb]; simplify_eq.
  - assert (t ≠ TNext []) as Hne by (intros ->; discriminate E).
    destruct (good_thread _ _ _ _ _ Hg Hk Hne) as (t2&st2&E'&_&Hlt).
    rewrite E in E'. injection E' as -> ->. eapply IHw; [|reflexivity|done].
    by eapply total_weight_insert.
  - pose proof (good_round _ _ _ Hg Hi) as H. rewrite Hb in H. destruct H as (c'&Hc'&Hu&Hlt&_).
    assert (c' = c) as -> by lia. eapply (IHm (n - S c)%nat); [lia|exact Hu|done|done].
  - constructor. intros conf'' Hs'. inversion Hs'.
Qed.
End rounds.

(** ** Labels are unique *)

Section unique.
Context (n : nat) (index edges : list Z) (Hcsr : csr_ok n index edges) (root : nat) (Hr : (root < n)%nat).

Lemma distance_unique k k' v :
  distance index edges root k v → distance index edges root k' v → k = k'.
Proof.
  intros [H1 H2] [H3 H4]. destruct (Nat.lt_trichotomy k k') as [H|[H|H]]; [|done|].
  - by destruct (H4 k H).
  - by destruct (H2 k' H).
Qed.

Lemma path_in_graph k v : path index edges root k v → (v < n)%nat.
Proof.
  destruct k as [|k]; simpl; [by intros ->|]. intros (u&_&He).
  by destruct (edge_target n index edges Hcsr u v He).
Qed.

Lemma labelled_max c c' L' v :
  distance index edges root c v → labelled n index edges root c' L' → (c ≤ c')%nat.
Proof.
  intros Hd (Hl&_&HL). pose proof (path_in_graph c v (proj1 Hd)) as Hv.
  destruct (lookup_lt_is_Some_2 L' v) as [l E]; [lia|].
  destruct (HL v l E) as [[_ Hno]|(k&_&Hk&Hd')]; [by destruct (Hno c), Hd|].
  by rewrite (distance_unique c k v Hd Hd').
Qed.

Lemma labelled_unique c c' L L' :
  labelled n index edges root c L → labelled n index edges root c' L' → c = c' ∧ L = L'.
Proof.
  intros H H'. pose proof H as (Hl&[v Hv]&HL). pose proof H' as (Hl'&[v' Hv']&HL'). split.
  - pose proof (labelled_max c c' L' v Hv H'). pose proof (labelled_max c' c L v' Hv' H). lia.
  - apply list_eq_same_length with n; [done|done|]. intros i x y Hi Hx Hy.
    destruct (HL i x Hx) as [[-> Hno]|(k&->&_&Hd)], (HL' i y Hy) as [[-> Hno']|(k'&->&_&Hd')].
    + done.
    + by destruct (Hno k'), Hd'.
    + by destruct (Hno' k), Hd.
    + by rewrite (distance_unique k k' i Hd Hd').
Qed.
End unique.

(** C28 (equivalence).  The parallel kernel computes what the sequential one does:
    however the vertices are distributed over threads and however the threads'
    loads and stores interleave, no access is out of bounds, no state is stuck,
    every schedule ends, and it ends with the level array and the largest level
    of the sequential run.  The races on the labels, on the bitmap words and on
    the flag are harmless. *)
Theorem parallel_bfs_equivalent n index edges chunks st :
  csr_ok n index edges → Z.of_nat (length edges) < 2 ^ 64 →
  Z.of_nat n < k_infinite_level → (∃ u v, edge index edges u v) →
  (∀ u, u ∈ concat chunks ↔ 0 ≤ u < Z.of_nat n) →
  ∃ st1 c st2, (modify (init_bfs (Z.of_nat n)) ;; find_bfs_root (Z.of_nat n) index) st = Ok tt st1 ∧
    bfs_main (Z.of_nat n) index edges st = Ok c st2 ∧
    sn (pstep index edges chunks) (par_start chunks st1) ∧
    ∀ conf, rtc (pstep index edges chunks) (par_start chunks st1) conf →
      match conf with
      | Finished c' st' => c' = c ∧ level st' = level st2
      | Level cur ts st' =>
          (∃ conf', pstep index edges chunks conf conf') ∧
          ∀ k t, ts !! k = Some t → t ≠ TNext [] → ∃ t' st'', tstep index edges cur t st' = Ok t' st''
      end.
Proof.
  intros Hcsr H64 Hn Hex Hchunks.
  destruct (bfs_main_run n index edges Hcsr H64 st Hn Hex) as (root&c&st2&Hfirst&Em&Hlab&_).
  destruct (find_root_run n index edges Hcsr H64 n 0 (init_bfs (Z.of_nat n) st)) as (root'&Hfirst'&Hr&E);
    [lia|lia|cbn; by rewrite length_replicate, Nat2Z.id|intros; lia|done|].
  assert (root' = root) as ->.
  { destruct Hfirst as [[v Hv] Hmin], Hfirst' as [[v' Hv'] Hmin'].
    destruct (Nat.lt_trichotomy root root') as [H|[H|H]]; [|done|].
    - by destruct (Hmin' root v H).
    - by destruct (Hmin root' v' H). }
  set (st1 := mkBfs _ _ _) in E.
  assert (good n index edges root (par_start chunks st1)) as Hg.
  { unfold par_start. pose proof (init_layered n index edges root false Hr) as Hla.
    exists 0%nat, (with_new false st1). cbn [init_bfs level visited_filter with_new] in *.
    unfold st1, with_new. cbn. rewrite Nat2Z.id. split_and!; [done|exact Hla|done|].
    apply pinv_start; [done|]. apply (la_ok _ _ _ _ _ _ Hla). }
  exists st1, (Z.of_nat c), st2. split_and!; [|done|by eapply good_terminates|].
  { erewrite bind_run by reflexivity. unfold find_bfs_root. by rewrite Nat2Z.id. }
  intros conf Hrun.
  assert (good n index edges root conf) as Hgc.
  { clear -Hg Hrun Hcsr Hchunks Hn. induction Hrun as [|x y z Hs _ IH]; [done|].
    by eapply IH, good_step. }
  destruct conf as [cur ts st'|cur st'].
  - split; [by eapply good_progress|]. intros k t Hk Hne.
    destruct (good_thread n index edges Hcsr Hn root _ _ _ _ _ Hgc Hk Hne) as (t'&st''&Et&_). eauto.
  - destruct Hgc as (c'&->&Hlab').
    destruct (labelled_unique n index edges Hcsr root Hr c c' _ _ Hlab Hlab') as [-> ->]. done.
Qed.

(** ** Machine types *)

(** the arrays hold values of their element types *)
Definition typed_state (st : BfsState) : Prop :=
  Forall (λ l, 0 ≤ l < 2 ^ 16) (level st) ∧ Forall is_u64 (visited_filter st).

(** a loop over edges, and the variables of a thread *)
Definition typed_loop (i last : Z) : Prop := 0 ≤ i < last ∧ last < 2 ^ 64.

Definition typed_thread (t : Thread) : Prop :=
  match t with
  | TNext _ => True
  | TEdge i last _ => is_u64 i ∧ is_u64 last
  | TLevel trg i last _ | TStore trg i last _ | TRead trg i last _ => is_u64 trg ∧ typed_loop i last
  | TWrite w trg i last _ => is_u64 w ∧ is_u64 trg ∧ typed_loop i last
  | TFlag i last _ => typed_loop i last
  end.

Definition typed_conf (conf : pconf) : Prop :=
  match conf with
  | Level cur ts st => 0 ≤ cur < 2 ^ 16 ∧ Forall typed_thread ts ∧ typed_state st
  | Finished cur st => 0 ≤ cur < 2 ^ 16 ∧ typed_state st
  end.

Lemma read_at_typed {S A} (P : A → Prop) l i (s s' : S) a :
  Forall P l → read_at l i s = Ok a s' → P a ∧ s' = s.
Proof.
  unfold read_at, at_index. intros Hl H. case_bool_decide; [|done].
  destruct (l !! Z.to_nat i) eqn:E; [|done]. inv_ok. by eapply Forall_lookup_1 in E.
Qed.

Lemma write_at_typed {S A} (P : A → Prop) l i (s s' : S) a l' :
  Forall P l → P a → write_at i a l s = Ok l' s' → Forall P l' ∧ s' = s.
Proof.
  unfold write_at. intros Hl Ha H. case_bool_decide; [|done]. inv_ok. split; [by apply Forall_insert|done].
Qed.

Lemma u16_range z : 0 ≤ u16 z < 2 ^ 16.
Proof. apply Z.mod_pos_bound. lia. Qed.

Lemma set_mask_u64 w pos : is_u64 w → is_u64 (Z.lor w (u64 (Z.shiftl 1 (bitmap_local_pos pos)))).
Proof.
  intros Hw. pose proof (u64_range (Z.shiftl 1 (bitmap_local_pos pos))) as Hm.
  set (m := u64 _) in *. unfold is_u64 in *. split; [apply Z.lor_nonneg; lia|].
  rewrite <- (Z.mod_small w (2 ^ 64)), <- (Z.mod_small m (2 ^ 64)) by lia.
  rewrite <- !Z.land_ones, <- Z.land_lor_distr_l, Z.land_ones by lia. apply Z.mod_pos_bound. lia.
Qed.

Section typing.
Context (index edges : list Z) (Hix : Forall is_u64 index) (Hes : Forall is_u64 edges).

Lemma tstep_typed cur t st t' st' :
  0 ≤ cur < 2 ^ 16 → typed_thread t → typed_state st → tstep index edges cur t st = Ok t' st' →
  typed_thread t' ∧ typed_state st'.
Proof.
  intros Hc Ht [Hl Hf] H. unfold tstep in H. erewrite bind_run in H by reflexivity.
  destruct t as [[|src srcs]|i last srcs|trg i last srcs|trg i last srcs|trg i last srcs|w trg i last srcs|i last srcs];
    [done|..]; unfold typed_thread, typed_loop in *.
  - apply bind_Ok in H as (l&s1&[_ ->]%(read_at_typed _ _ _ _ _ _ Hl)&H). case_bool_decide; [by inv_ok|].
    apply bind_Ok in H as (x&s1&[Hx ->]%(read_at_typed _ _ _ _ _ _ Hix)&H).
    apply bind_Ok in H as (y&s1&[Hy ->]%(read_at_typed _ _ _ _ _ _ Hix)&H). by inv_ok.
  - case_bool_decide; [|by inv_ok].
    apply bind_Ok in H as (trg&s1&[Htrg ->]%(read_at_typed _ _ _ _ _ _ Hes)&H).
    unfold get_bit in H. apply bind_Ok in H as (b&s1&Hb&H). apply bind_Ok in Hb as (w&s2&[_ ->]%(read_at_typed _ _ _ _ _ _ Hf)&Hb).
    inv_ok. split; [|done]. unfold is_u64 in *. case_bool_decide; simpl; lia.
  - apply bind_Ok in H as (l&s1&[_ ->]%(read_at_typed _ _ _ _ _ _ Hl)&H). inv_ok. split; [|done].
    unfold is_u64 in *. case_bool_decide; simpl; lia.
  - apply bind_Ok in H as (l&s1&[Hl' ->]%(write_at_typed (λ l, 0 ≤ l < 2 ^ 16) _ _ _ _ _ _ Hl (u16_range _))&H).
    inv_ok. done.
  - apply bind_Ok in H as (w&s1&[Hw ->]%(read_at_typed _ _ _ _ _ _ Hf)&H). inv_ok. done.
  - apply bind_Ok in H as (f&s1&[Hf' ->]%(write_at_typed is_u64 _ _ _ _ _ _ Hf (set_mask_u64 _ _ (proj1 Ht)))&H).
    inv_ok. split; [apply Ht|done].
  - inv_ok. unfold is_u64. split; [lia|done].
Qed.

Lemma pstep_typed chunks conf conf' :
  typed_conf conf → pstep index edges chunks conf conf' → typed_conf conf'.
Proof.
  intros Hc H. destruct H as [cur ts st k t t' st' Hk Ht|cur ts st Hi Hv|cur ts st Hi Hv]; simpl in *.
  - destruct Hc as (Hcur&Hts&Hst). destruct (tstep_typed cur t st t' st') as [? ?]; try done.
    { by eapply Forall_lookup_1 in Hk. }
    split; [done|]. split; [by apply Forall_insert|done].
  - destruct Hc as (Hcur&_&Hst). split; [apply u16_range|]. split; [|done].
    apply Forall_fmap, Forall_true. done.
  - destruct Hc as (Hcur&_&Hst). done.
Qed.
End typing.


(** ** Witness: the edges 1-2, 1-3, 2-3 on two threads *)

Lemma demo_chunks_ok u : u ∈ concat [[0; 1]; [2; 3]] ↔ 0 ≤ u < Z.of_nat 4.
Proof. simpl. rewrite !elem_of_cons, elem_of_nil. lia. Qed.

Lemma parallel_bfs_equivalent_witness :
  ∃ st1 c st2, bfs_main 4 demo_index demo_edges (mkBfs [] [] false) = Ok c st2 ∧
    sn (pstep demo_index demo_edges [[0; 1]; [2; 3]]) (par_start [[0; 1]; [2; 3]] st1) ∧
    ∀ c' st', rtc (pstep demo_index demo_edges [[0; 1]; [2; 3]]) (par_start [[0; 1]; [2; 3]] st1)
      (Finished c' st') → c' = c ∧ level st' = level st2.
Proof.
  destruct (parallel_bfs_equivalent 4 demo_index demo_edges [[0; 1]; [2; 3]] (mkBfs [] [] false)
    demo_csr ltac:(by vm_compute) ltac:(by vm_compute)) as (st1&c&st2&_&E&Hsn&Hrun).
  - exists 1%nat, 2%nat. vm_compute. left.
  - exact demo_chunks_ok.
  - exists st1, c, st2. split; [exact E|]. split; [exact Hsn|]. intros c' st' H. exact (Hrun _ H).
Defined.

(** the first thread has stored the level of vertex 2 and not yet its bit *)
Definition demo_mid : pconf :=
  Level 0 [TRead 2 0 2 []; TNext [2; 3]] (mkBfs [65535; 0; 1; 65535] [0] false).

