(* ===== verification/Ingest.v ===== *)
(** * From edge lists to a mapped graph
      (src/examples/bfs/rmat_graph_generator/ingest_edge_list.cpp)

    Text files of source-target pairs are read twice: to find the number of
    vertices and edges, and to build the compressed sparse row arrays that
    [Bfs] searches, in the memory of the mapped graph file.  This is the
    sequential build; IngestParallel.v has the threads of the OpenMP build. *)

From stdpp Require Import base list numbers strings sets.
From S2P Require Import Prelude Config SparseStore Bitmap Bfs.
Local Open Scope Z_scope.

(** ** Reading the files *)

(** [while (stream >> source >> target)]; every round consumes a character *)
Fixpoint read_pairs (fuel : nat) (stream : list Ascii.ascii) : list (Z * Z) :=
  match fuel with
  | O => []
  | S fuel =>
      let '(source, s1) := extract None (Some stream) in
      let '(target, s2) := extract None s1 in
      match source, target, s2 with
      | Some source, Some target, Some rest => (source, target) :: read_pairs fuel rest
      | _, _, _ => []
      end
  end.

Definition edges_of_text (text : string) : list (Z * Z) :=
  let stream := String.list_ascii_of_string text in read_pairs (length stream) stream.

(** [None] is a file that cannot be opened: the program aborts *)
Fixpoint read_files (files : list (option string)) {S} : M S (list (Z * Z)) :=
  match files with
  | [] => mret []
  | None :: _ => throw "Can not open"
  | Some text :: files => l ← read_files files; mret (edges_of_text text ++ l)
  end.

Definition max_and_count (edges : list (Z * Z)) : Z * Z :=
  foldl (λ '(max_id, num_edges) '(src, trg), (Z.max trg (Z.max src max_id), u64 (num_edges + 1)))
    (0, 0) edges.

Definition check_edge_list (files : list (option string)) {S} : M S (Z * Z) :=
  edges ← read_files files; mret (max_and_count edges).

(** ** Building the arrays *)

Record Ingest := mkIngest { index : list Z; graph_map : list Z }.

Definition write_index (i v : Z) : M Ingest unit :=
  st ← get;
  l ← write_at i v (index st);
  modify (λ st, mkIngest l (graph_map st)).

Definition write_map (i v : Z) : M Ingest unit :=
  st ← get;
  l ← write_at i v (graph_map st);
  modify (λ st, mkIngest (index st) l).

Definition read_index (i : Z) : M Ingest Z := st ← get; read_at (index st) i.

(** Count degree *)
Definition count_degree (edges : list (Z * Z)) : M Ingest unit :=
  for_each edges (λ '(source, _), d ← read_index source; write_index source (u64 (d + 1))).

(** Construct index *)
Definition shift_index (max_id : Z) : M Ingest unit :=
  for_each (reverse (seqZ 1 (max_id + 1))) (λ i, v ← read_index (i - 1); write_index i v) ;;
  write_index 0 0.

Definition sum_index (max_id : Z) : M Ingest unit :=
  for_each (seqZ 0 (max_id + 1)) (λ i,
    a ← read_index (i + 1);
    b ← read_index i;
    write_index (i + 1) (u64 (a + b))).

(** Writing index: the [memcpy] *)
Definition copy_index (max_id : Z) : M Ingest unit :=
  for_each (seqZ 0 (max_id + 2)) (λ i, v ← read_index i; write_map i v).

(** Load edges *)
Definition load_edges (max_id : Z) (edges : list (Z * Z)) : M Ingest unit :=
  for_each edges (λ '(source, target),
    pos ← read_index source;
    write_index source (u64 (pos + 1)) ;;
    write_map (max_id + 2 + pos) target).

Definition ingest_edges (max_id : Z) (edges : list (Z * Z)) : M Ingest unit :=
  modify (λ st, mkIngest (replicate (Z.to_nat (max_id + 2)) 0) (graph_map st)) ;;
  count_degree edges ;;
  shift_index max_id ;;
  sum_index max_id ;;
  copy_index max_id ;;
  load_edges max_id edges.

(** [main]: the graph file is created and extended with zeros *)
Definition ingest_main (files : list (option string)) : M Ingest (Z * Z) :=
  '(max_id, num_edges) ← check_edge_list files;
  modify (λ st, mkIngest (index st) (replicate (Z.to_nat (max_id + 2 + num_edges)) 0)) ;;
  edges ← read_files files;
  ingest_edges max_id edges ;;
  mret (max_id, num_edges).

(** ** Specification *)

(** the targets of [v], in the order of the edge list *)
Definition targets_of (E : list (Z * Z)) (v : nat) : list Z :=
  snd <$> filter (λ e, e.1 = Z.of_nat v) E.

Definition degree (E : list (Z * Z)) (v : nat) : nat := length (targets_of E v).

(** the number of edges whose source is below [v] *)
Fixpoint row_start (E : list (Z * Z)) (v : nat) : nat :=
  match v with O => O | S v => (row_start E v + degree E v)%nat end.

Lemma targets_of_app E1 E2 v : targets_of (E1 ++ E2) v = targets_of E1 v ++ targets_of E2 v.
Proof. unfold targets_of. by rewrite filter_app, fmap_app. Qed.

Lemma targets_of_one s t v :
  0 ≤ s → targets_of [(s, t)] v = if bool_decide (v = Z.to_nat s) then [t] else [].
Proof.
  intros Hs. unfold targets_of. rewrite filter_cons, filter_nil. cbn.
  case_bool_decide; case_decide; try done; lia.
Qed.

Lemma row_start_mono E u v : (u ≤ v)%nat → (row_start E u ≤ row_start E v)%nat.
Proof. induction 1; cbn; lia. Qed.

(** rows do not overlap *)
Lemma row_start_next E u v : (u < v)%nat → (row_start E u + degree E u ≤ row_start E v)%nat.
Proof. intros H. apply (row_start_mono E (S u) v). lia. Qed.

Lemma row_start_app E1 E2 v : row_start (E1 ++ E2) v = (row_start E1 v + row_start E2 v)%nat.
Proof. induction v as [|v IH]; [done|]. cbn. unfold degree in *. rewrite IH, targets_of_app, length_app. lia. Qed.

Definition edges_below (n : nat) (E : list (Z * Z)) : Prop :=
  Forall (λ '(s, t), 0 ≤ s < Z.of_nat n ∧ 0 ≤ t < Z.of_nat n) E.

Lemma row_start_one s t n :
  0 ≤ s → row_start [(s, t)] n = if bool_decide (Z.to_nat s < n)%nat then 1%nat else 0%nat.
Proof.
  intros Hs. induction n as [|n IH]; [done|]. cbn [row_start]. rewrite IH. unfold degree. rewrite targets_of_one by done.
  repeat case_bool_decide; cbn; lia.
Qed.

(** the rows together hold all edges *)
Lemma row_start_total n E : edges_below n E → row_start E n = length E.
Proof.
  induction 1 as [|[s t] E [Hs _] _ IH]; [clear; by induction n as [|n IH]; [|cbn [row_start]; rewrite IH]|].
  rewrite (row_start_app [(s, t)] E), IH, row_start_one, bool_decide_true by lia. done.
Qed.

(** every place of the edge array belongs to a row *)
Lemma entry_of_row n E i :
  edges_below n E → (i < length E)%nat →
  ∃ u k, (u < n)%nat ∧ (row_start E u + k = i)%nat ∧ (k < degree E u)%nat.
Proof.
  intros HE. rewrite <- (row_start_total n E HE). clear HE.
  induction n as [|n IH]; cbn [row_start]; intros Hi; [lia|].
  destruct (decide (i < row_start E n)%nat) as [H|H].
  - destruct (IH H) as (u&k&?&?&?). exists u, k. split_and!; [lia|done|done].
  - exists n, (i - row_start E n)%nat. lia.
Qed.

Lemma degree_le E v : (degree E v ≤ length E)%nat.
Proof. unfold degree, targets_of. rewrite length_fmap. apply length_filter. Qed.

Lemma for_each_app {S A} (l1 l2 : list A) (f : A → M S unit) s s1 :
  for_each l1 f s = Ok tt s1 → for_each (l1 ++ l2) f s = for_each l2 f s1.
Proof.
  revert s. induction l1 as [|x l1 IH]; intros s E; cbn in *; [by inv_ok|].
  apply bind_Ok in E as ([]&s2&E1&E2). erewrite bind_run by exact E1. by apply IH.
Qed.

(** ** The index array *)

Section build.
Context (n : nat) (E : list (Z * Z)) (HE : edges_below n E).
Context (Hn : Z.of_nat n + Z.of_nat (length E) < 2 ^ 63).
Abbreviation max_id := (Z.of_nat n - 1).

(** the first [n + 1] entries of the array are given by [f] *)
Definition index_is (f : nat → nat) (st : Ingest) : Prop :=
  length (index st) = S n ∧ ∀ v, (v ≤ n)%nat → index st !! v = Some (Z.of_nat (f v)).

Lemma read_index_run f st v :
  index_is f st → (v ≤ n)%nat → read_index (Z.of_nat v) st = Ok (Z.of_nat (f v)) st.
Proof using Type. clear HE Hn E.
  intros [_ Hf] Hv. unfold read_index. erewrite bind_run by reflexivity. cbv beta.
  apply read_at_run; [lia|]. rewrite Nat2Z.id. by apply Hf.
Qed.

Lemma write_index_run f st v x :
  index_is f st → (v ≤ n)%nat →
  ∃ st', write_index (Z.of_nat v) (Z.of_nat x) st = Ok tt st' ∧ graph_map st' = graph_map st ∧
    index_is (λ u, if bool_decide (u = v) then x else f u) st'.
Proof using Type. clear HE Hn E.
  intros [Hl Hf] Hv. unfold write_index. erewrite bind_run by reflexivity. cbv beta.
  erewrite bind_run by (apply write_at_run; lia). eexists. split; [reflexivity|]. split; [done|].
  split; cbn; [by rewrite length_insert|]. intros u Hu. rewrite Nat2Z.id. case_bool_decide as Eu.
  - subst u. by rewrite list_lookup_insert_eq by lia.
  - rewrite list_lookup_insert_ne by done. by apply Hf.
Qed.

Lemma index_is_ext f g st : (∀ v, (v ≤ n)%nat → f v = g v) → index_is f st → index_is g st.
Proof using Type. clear HE Hn E. intros Hfg [Hl Hf]. split; [done|]. intros v Hv. rewrite <- Hfg by done. by apply Hf. Qed.

(** the entry of a vertex is read and incremented *)
Lemma bump_run f st s :
  index_is f st → 0 ≤ s < Z.of_nat n → Z.of_nat (f (Z.to_nat s)) < 2 ^ 64 - 1 →
  ∃ st', read_index s st = Ok (Z.of_nat (f (Z.to_nat s))) st ∧
    write_index s (u64 (Z.of_nat (f (Z.to_nat s)) + 1)) st = Ok tt st' ∧ graph_map st' = graph_map st ∧
    index_is (λ v, f v + (if bool_decide (v = Z.to_nat s) then 1 else 0))%nat st'.
Proof using Type. clear HE Hn E.
  intros Hst Hs Hf. destruct (Z_of_nat_complete s) as [u ->]; [lia|]. rewrite Nat2Z.id in *.
  destruct (write_index_run f st u (S (f u)) Hst) as (st1&E1&Hm1&Hi1); [lia|].
  exists st1. split; [apply read_index_run; [done|lia]|].
  rewrite u64_small by (unfold is_u64; lia). rewrite Z.add_1_r, <- Nat2Z.inj_succ.
  split_and!; [done|done|]. eapply index_is_ext; [|exact Hi1]. intros v Hv. cbn beta.
  case_bool_decide; [subst v|]; lia.
Qed.

Lemma degree_snoc P s t v : 0 ≤ s →
  degree (P ++ [(s, t)]) v = (degree P v + (if bool_decide (v = Z.to_nat s) then 1 else 0))%nat.
Proof.
  intros Hs. unfold degree. rewrite targets_of_app, targets_of_one, length_app by done. by case_bool_decide.
Qed.

Lemma count_degree_run P Q st :
  P ++ Q = E → index_is (degree P) st →
  ∃ st', count_degree Q st = Ok tt st' ∧ graph_map st' = graph_map st ∧ index_is (degree E) st'.
Proof.
  revert P st. induction Q as [|[s t] Q IH]; intros P st HPQ Hst.
  { rewrite app_nil_r in HPQ. subst P. by exists st. }
  assert (0 ≤ s < Z.of_nat n) as Hs.
  { rewrite <- HPQ in HE. apply Forall_app in HE as [_ [[? _] _]%Forall_cons]. done. }
  assert (degree P (Z.to_nat s) ≤ length E)%nat as Hd.
  { etrans; [apply degree_le|]. rewrite <- HPQ, length_app. lia. }
  unfold count_degree. cbn [for_each].
  destruct (bump_run _ st s Hst Hs) as (st1&Er&Ew&Hm1&Hi1); [lia|].
  erewrite bind_run by (erewrite bind_run by exact Er; exact Ew).
  destruct (IH (P ++ [(s, t)]) st1) as (st2&E2&Hm2&Hi2); [by rewrite <- app_assoc| |exists st2; split_and!; [exact E2|congruence|done]].
  eapply index_is_ext; [|exact Hi1]. intros v Hv. by rewrite degree_snoc by lia.
Qed.

Lemma shift_loop_run m f st :
  (m ≤ n)%nat → index_is f st →
  ∃ st', for_each (reverse (seqZ 1 (Z.of_nat m))) (λ i, v ← read_index (i - 1); write_index i v) st = Ok tt st' ∧
    graph_map st' = graph_map st ∧
    index_is (λ v, if bool_decide (1 ≤ v ≤ m)%nat then f (pred v) else f v) st'.
Proof using Type. clear HE Hn E.
  revert f st. induction m as [|m IH]; intros f st Hm Hst.
  { exists st. split_and!; [done|done|]. eapply index_is_ext; [|exact Hst]. intros v _.
    by rewrite bool_decide_false by lia. }
  rewrite Nat2Z.inj_succ, <- Z.add_1_r, seqZ_app by lia.
  assert (seqZ (1 + Z.of_nat m) 1 = [Z.of_nat (S m)]) as ->.
  { change (seqZ (1 + Z.of_nat m) 1) with [Z.of_nat 0 + (1 + Z.of_nat m)]. f_equal. lia. }
  rewrite reverse_app, reverse_singleton. cbn [app for_each].
  destruct (write_index_run f st (S m) (f m) Hst Hm) as (st1&E1&Hm1&Hi1).
  erewrite bind_run.
  2:{ replace (Z.of_nat (S m) - 1) with (Z.of_nat m) by lia.
      erewrite bind_run by (apply (read_index_run f); [done|lia]). exact E1. }
  destruct (IH _ st1 ltac:(lia) Hi1) as (st2&E2&Hm2&Hi2). exists st2. split_and!; [exact E2|congruence|].
  eapply index_is_ext; [|exact Hi2]. intros v Hv. cbn.
  repeat case_bool_decide; try lia; try done. subst v. done.
Qed.

Lemma sum_loop_run a k st :
  (a + k = n)%nat →
  index_is (λ v, if bool_decide (v ≤ a)%nat then row_start E v else degree E (pred v)) st →
  ∃ st', for_each (seqZ (Z.of_nat a) (Z.of_nat k)) (λ i,
      x ← read_index (i + 1); y ← read_index i; write_index (i + 1) (u64 (x + y))) st = Ok tt st' ∧
    graph_map st' = graph_map st ∧ index_is (row_start E) st'.
Proof.
  revert a st. induction k as [|k IH]; intros a st Hak Hst.
  { exists st. split_and!; [done|done|]. eapply index_is_ext; [|exact Hst]. intros v Hv. cbn beta.
    by rewrite bool_decide_true by lia. }
  rewrite seqZ_cons by lia. replace (Z.pred (Z.of_nat (S k))) with (Z.of_nat k) by lia.
  replace (Z.succ (Z.of_nat a)) with (Z.of_nat (S a)) by lia. cbn [for_each].
  destruct (write_index_run _ st (S a) (row_start E (S a)) Hst) as (st1&E1&Hm1&Hi1); [lia|].
  assert (row_start E (S a) ≤ length E)%nat as Hle.
  { rewrite <- (row_start_total n E HE). apply row_start_mono. lia. }
  erewrite bind_run.
  2:{ replace (Z.of_nat a + 1) with (Z.of_nat (S a)) by lia.
      erewrite bind_run by (apply (read_index_run _ _ _ Hst); lia). cbv beta.
      erewrite bind_run by (apply (read_index_run _ _ _ Hst); lia). cbv beta.
      rewrite (bool_decide_false (S a ≤ a)%nat), (bool_decide_true (a ≤ a)%nat) by lia. cbn [pred].
      rewrite u64_small by (unfold is_u64; cbn [row_start] in Hle; lia).
      rewrite <- Nat2Z.inj_add, Nat.add_comm. exact E1. }
  destruct (IH (S a) st1) as (st2&E2&Hm2&Hi2); [lia| |exists st2; split_and!; [exact E2|congruence|done]].
  eapply index_is_ext; [|exact Hi1]. intros v Hv. cbn beta.
  repeat case_bool_decide; try lia; try done. by subst v.
Qed.

Lemma write_map_run st v x :
  (v < length (graph_map st))%nat →
  write_map (Z.of_nat v) x st = Ok tt (mkIngest (index st) (<[v := x]> (graph_map st))).
Proof using Type. clear HE Hn E.
  intros Hv. unfold write_map. erewrite bind_run by reflexivity. cbv beta.
  erewrite bind_run by (apply write_at_run; lia). by rewrite Nat2Z.id.
Qed.

Lemma copy_loop_run f a k st :
  (a + k = S n)%nat → index_is f st → (S n ≤ length (graph_map st))%nat →
  (∀ v, (v < a)%nat → graph_map st !! v = Some (Z.of_nat (f v))) →
  ∃ st', for_each (seqZ (Z.of_nat a) (Z.of_nat k)) (λ i, v ← read_index i; write_map i v) st = Ok tt st' ∧
    index_is f st' ∧ length (graph_map st') = length (graph_map st) ∧
    ∀ v, (v ≤ n)%nat → graph_map st' !! v = Some (Z.of_nat (f v)).
Proof using Type. clear HE Hn E.
  revert a st. induction k as [|k IH]; intros a st Hak Hst Hlen Hpre.
  { exists st. split_and!; try done. intros v Hv. apply Hpre. lia. }
  rewrite seqZ_cons by lia. replace (Z.pred (Z.of_nat (S k))) with (Z.of_nat k) by lia.
  replace (Z.succ (Z.of_nat a)) with (Z.of_nat (S a)) by lia. cbn [for_each].
  erewrite bind_run.
  2:{ erewrite bind_run by (apply (read_index_run f); [done|lia]). cbv beta. apply write_map_run. lia. }
  destruct (IH (S a) (mkIngest (index st) (<[a := Z.of_nat (f a)]> (graph_map st)))) as (st2&E2&Hi2&Hl2&Hp2).
  - lia.
  - exact Hst.
  - cbn. by rewrite length_insert.
  - intros v Hv. cbn. destruct (decide (v = a)) as [->|]; [by rewrite list_lookup_insert_eq by lia|].
    rewrite list_lookup_insert_ne by done. apply Hpre. lia.
  - exists st2. split_and!; [exact E2|done| |done]. cbn in Hl2. by rewrite length_insert in Hl2.
Qed.

(** the arrays after the edges [P] have been loaded *)
Record loaded (P : list (Z * Z)) (st : Ingest) : Prop := {
  lo_index : index_is (λ v, row_start E v + degree P v)%nat st;
  lo_len : length (graph_map st) = (S n + length E)%nat;
  lo_rows v : (v ≤ n)%nat → graph_map st !! v = Some (Z.of_nat (row_start E v));
  lo_edges v k t : targets_of P v !! k = Some t → graph_map st !! (S n + (row_start E v + k))%nat = Some t
}.

(** the next free place of a row is in the row and used by no other edge *)
Lemma free_place P s t Q v k :
  P ++ (s, t) :: Q = E → 0 ≤ s < Z.of_nat n → (k < degree P v)%nat →
  (row_start E (Z.to_nat s) + degree P (Z.to_nat s) < length E)%nat ∧
  (row_start E v + k ≠ row_start E (Z.to_nat s) + degree P (Z.to_nat s))%nat.
Proof.
  intros HPQ Hs Hk.
  assert (∀ u, (degree P u + (if bool_decide (u = Z.to_nat s) then 1 else 0) ≤ degree E u)%nat) as Hd.
  { intros u. unfold degree. rewrite <- HPQ, targets_of_app, length_app, (targets_of_app [(s, t)] Q), length_app,
      targets_of_one by lia. case_bool_decide; cbn; lia. }
  pose proof (Hd (Z.to_nat s)) as Hds. rewrite bool_decide_true in Hds by done. split.
  - rewrite <- (row_start_total n E HE). pose proof (row_start_next E (Z.to_nat s) n). lia.
  - destruct (Nat.lt_trichotomy v (Z.to_nat s)) as [Hlt|[->|Hgt]]; [|lia|].
    + pose proof (row_start_next E v (Z.to_nat s) Hlt). specialize (Hd v).
      rewrite bool_decide_false in Hd by lia. lia.
    + pose proof (row_start_next E (Z.to_nat s) v Hgt). lia.
Qed.

Lemma load_one P s t Q st :
  P ++ (s, t) :: Q = E → loaded P st →
  ∃ st', (pos ← read_index s; write_index s (u64 (pos + 1)) ;; write_map (max_id + 2 + pos) t) st = Ok tt st' ∧
    loaded (P ++ [(s, t)]) st'.
Proof.
  intros HPQ [Hi Hl Hr He].
  assert (0 ≤ s < Z.of_nat n) as Hs.
  { rewrite <- HPQ in HE. apply Forall_app in HE as [_ [[? _] _]%Forall_cons]. done. }
  set (u := Z.to_nat s) in *. set (pos := (row_start E u + degree P u)%nat).
  assert (pos < length E)%nat as Hpos.
  { unfold pos. rewrite <- (row_start_total n E HE). pose proof (row_start_next E u n ltac:(lia)).
    assert (degree P u < degree E u)%nat; [|lia]. unfold degree. rewrite <- HPQ, targets_of_app, length_app,
      (targets_of_app [(s, t)] Q), length_app, targets_of_one, bool_decide_true by lia. cbn. lia. }
  destruct (write_index_run _ st u (S pos) Hi) as (st1&E1&Hm1&Hi1); [lia|].
  exists (mkIngest (index st1) (<[(S n + pos)%nat := t]> (graph_map st1))). split.
  - replace s with (Z.of_nat u) by lia. erewrite bind_run by (apply (read_index_run _ _ _ Hi); lia). cbv beta.
    fold pos. rewrite u64_small by (unfold is_u64; lia). rewrite Z.add_1_r, <- Nat2Z.inj_succ.
    erewrite bind_run by exact E1. cbv beta.
    replace (max_id + 2 + Z.of_nat pos) with (Z.of_nat (S n + pos)) by lia.
    apply write_map_run. rewrite Hm1. lia.
  - split; cbn [graph_map index].
    + eapply index_is_ext; [|exact Hi1]. intros v Hv. cbn beta. unfold degree.
      rewrite targets_of_app, targets_of_one, length_app by lia. fold u.
      case_bool_decide as Ev; cbn; [subst v; unfold pos, degree; lia|lia].
    + by rewrite length_insert, Hm1.
    + intros v Hv. rewrite list_lookup_insert_ne by lia. rewrite Hm1. by apply Hr.
    + intros v k t' Hk. rewrite targets_of_app, targets_of_one in Hk by lia. fold u in Hk.
      apply lookup_app_Some in Hk as [Hk|[Hge Hk]].
      * apply lookup_lt_Some in Hk as Hlt.
        destruct (free_place P s t Q v k HPQ Hs Hlt) as [_ Hne]. fold u in Hne.
        rewrite list_lookup_insert_ne by (unfold pos; lia). rewrite Hm1. by apply He.
      * case_bool_decide; [|done]. apply list_lookup_singleton_Some in Hk as [Hk0 <-].
        assert (row_start E v + k = pos)%nat as -> by (subst v; unfold pos, degree; lia).
        rewrite list_lookup_insert_eq; [done|]. rewrite Hm1. lia.
Qed.

Lemma load_run P Q st :
  P ++ Q = E → loaded P st → ∃ st', load_edges max_id Q st = Ok tt st' ∧ loaded E st'.
Proof.
  revert P st. induction Q as [|[s t] Q IH]; intros P st HPQ Hst.
  { rewrite app_nil_r in HPQ. subst P. by exists st. }
  destruct (load_one P s t Q st HPQ Hst) as (st1&E1&H1). unfold load_edges. cbn [for_each].
  erewrite bind_run by exact E1. apply (IH (P ++ [(s, t)])); [by rewrite <- app_assoc|done].
Qed.

(** from the degrees to the index in memory and in the file *)
Lemma build_index_run st1 :
  index_is (degree E) st1 → length (graph_map st1) = (S n + length E)%nat →
  ∃ st3 st4 st5, shift_index max_id st1 = Ok tt st3 ∧ sum_index max_id st3 = Ok tt st4 ∧
    copy_index max_id st4 = Ok tt st5 ∧ loaded [] st5.
Proof.
  intros Hi1 Hlen.
  destruct (shift_loop_run n (degree E) st1 ltac:(lia) Hi1) as (st2&E2&Hm2&Hi2).
  destruct (write_index_run _ st2 0 0 Hi2) as (st3&E3&Hm3&Hi3); [lia|].
  destruct (sum_loop_run 0 n st3 eq_refl) as (st4&E4&Hm4&Hi4).
  { eapply index_is_ext; [|exact Hi3]. intros v Hv. cbn beta. repeat case_bool_decide; try lia; try done. by subst v. }
  destruct (copy_loop_run (row_start E) 0 (S n) st4 eq_refl Hi4) as (st5&E5&Hi5&Hl5&Hp5).
  { rewrite Hm4, Hm3, Hm2. cbn. lia. }
  { intros v ?. lia. }
  exists st3, st4, st5. unfold shift_index, sum_index, copy_index.
  replace (max_id + 1) with (Z.of_nat n) by lia. replace (max_id + 2) with (Z.of_nat (S n)) by lia.
  split_and!; [by erewrite bind_run by exact E2|done|done|].
  split; [|rewrite Hl5, Hm4, Hm3, Hm2; exact Hlen|done|intros v [|k] t Hk; discriminate Hk].
  eapply index_is_ext; [|exact Hi5]. intros v _. unfold degree. cbn. lia.
Qed.

Lemma ingest_run st :
  length (graph_map st) = (S n + length E)%nat →
  ∃ st', ingest_edges max_id E st = Ok tt st' ∧ loaded E st'.
Proof.
  intros Hlen. unfold ingest_edges. erewrite bind_run by reflexivity. cbv beta.
  replace (Z.to_nat (max_id + 2)) with (S n) by lia.
  set (st0 := mkIngest (replicate (S n) 0) (graph_map st)).
  assert (index_is (degree []) st0) as H0.
  { split; [apply length_replicate|]. intros v Hv. apply lookup_replicate_2. lia. }
  destruct (count_degree_run [] E st0 eq_refl H0) as (st1&E1&Hm1&Hi1). erewrite bind_run by exact E1. cbv beta.
  destruct (build_index_run st1 Hi1) as (st3&st4&st5&E3&E4&E5&Hld); [by rewrite Hm1|].
  erewrite bind_run by exact E3. erewrite bind_run by exact E4. erewrite bind_run by exact E5.
  by apply (load_run []).
Qed.
End build.

(** ** What is read *)

Lemma read_digits_nonneg s acc any : 0 ≤ acc → 0 ≤ (read_digits s acc any).1.
Proof.
  revert acc any. induction s as [|c s IH]; intros acc any Ha; [done|]. cbn.
  destruct (digit_val c) as [d|] eqn:E; [|done]. apply IH. unfold digit_val in E.
  case_bool_decide; simplify_eq. lia.
Qed.

Lemma extract_nonneg stream v rest : extract None stream = (Some v, rest) → 0 ≤ v.
Proof.
  unfold extract. destruct (skip_space <$> stream) as [[|c l]|]; try done.
  destruct (if bool_decide _ then _ else _) as [neg digits].
  pose proof (read_digits_nonneg digits 0 false ltac:(lia)) as Hd.
  destruct (read_digits digits 0 false) as [m any]. destruct any; intros; simplify_eq; [|done].
  unfold clamp_u64. cbn in Hd. destruct (bool_decide _); [lia|]. destruct neg; [|done]. apply u64_range.
Qed.

Lemma read_pairs_nonneg fuel stream : Forall (λ '(s, t), 0 ≤ s ∧ 0 ≤ t) (read_pairs fuel stream).
Proof.
  revert stream. induction fuel as [|fuel IH]; intros stream; [constructor|]. cbn [read_pairs].
  destruct (extract None (Some stream)) as [[s|] s1] eqn:E1; [|destruct (extract None s1); constructor].
  destruct (extract None s1) as [[t|] [rest|]] eqn:E2; try constructor; [|apply IH].
  split; by eapply extract_nonneg.
Qed.

Lemma texts_nonneg texts : Forall (λ '(s, t), 0 ≤ s ∧ 0 ≤ t) (texts ≫= edges_of_text).
Proof.
  induction texts as [|x l IH]; cbn; [constructor|].
  apply Forall_app. split; [apply read_pairs_nonneg|exact IH].
Qed.

Lemma read_files_run {S} texts (s : S) :
  read_files (Some <$> texts) s = Ok (texts ≫= edges_of_text) s.
Proof.
  induction texts as [|x texts IH]; [done|]. cbn. by erewrite bind_run by exact IH.
Qed.

Lemma max_and_count_run E m c :
  Forall (λ '(s, t), 0 ≤ s ∧ 0 ≤ t) E → 0 ≤ c → c + Z.of_nat (length E) < 2 ^ 64 →
  let r := foldl (λ '(max_id, num_edges) '(src, trg), (Z.max trg (Z.max src max_id), u64 (num_edges + 1))) (m, c) E in
  m ≤ r.1 ∧ r.2 = c + Z.of_nat (length E) ∧ Forall (λ '(s, t), 0 ≤ s ≤ r.1 ∧ 0 ≤ t ≤ r.1) E.
Proof.
  intros HE. revert m c. induction HE as [|[s t] E [Hs Ht] _ IH]; intros m c Hc Hb; cbn.
  { split_and!; [lia|lia|constructor]. }
  cbn [length] in Hb. rewrite u64_small by (unfold is_u64; lia).
  destruct (IH (Z.max t (Z.max s m)) (c + 1)) as (H1&H2&H3); [lia|lia|].
  cbv zeta in *. split_and!; [lia|lia|]. constructor; [lia|exact H3].
Qed.

Definition rows_of (n : nat) (g : list Z) : list Z := take (S n) g.
Definition edges_part (n : nat) (g : list Z) : list Z := drop (S n) g.

(** the arrays in the map are the graph of the edge list *)
Lemma loaded_csr n E st :
  edges_below n E → loaded n E E st →
  let ix := rows_of n (graph_map st) in let es := edges_part n (graph_map st) in
  csr_ok n ix es ∧ ∀ u, (u < n)%nat → targets ix es u = targets_of E u.
Proof.
  intros HE [_ Hl Hr He] ix es.
  assert (∀ v, (v ≤ n)%nat → ix !! v = Some (Z.of_nat (row_start E v))) as Hix.
  { intros v Hv. unfold ix, rows_of. rewrite lookup_take_lt by lia. by apply Hr. }
  assert (length ix = S n) as Hlix by (unfold ix, rows_of; rewrite length_take; lia).
  assert (length es = length E) as Hles by (unfold es, edges_part; rewrite length_drop; lia).
  assert (∀ u, (u < n)%nat → targets ix es u = targets_of E u) as Ht.
  { intros u Hu. unfold targets. rewrite !Hix by lia. cbn [row_start].
    replace (Z.to_nat (Z.of_nat (row_start E u + degree E u) - Z.of_nat (row_start E u))) with (degree E u) by lia.
    rewrite Nat2Z.id. pose proof (row_start_next E u n Hu). rewrite (row_start_total n E HE) in *.
    apply list_eq_same_length with (degree E u).
    - done.
    - rewrite length_take, length_drop. lia.
    - intros k x y Hk Hx Hy. apply lookup_take_Some in Hx as [Hx _]. rewrite lookup_drop in Hx.
      unfold es, edges_part in Hx. rewrite lookup_drop in Hx. rewrite (He u k y Hy) in Hx. congruence. }
  split; [|done]. split; [done| |].
  - intros u lo hi H1 H2. apply lookup_lt_Some in H2 as Hu. rewrite Hlix in Hu.
    rewrite Hix in H1, H2 by lia. simplify_eq. cbn [row_start].
    pose proof (row_start_next E u n ltac:(lia)). rewrite (row_start_total n E HE) in *. lia.
  - intros i v Hi. destruct (entry_of_row n E i HE) as (u&k&Hu&Ek&Hk).
    { apply lookup_lt_Some in Hi. lia. }
    destruct (lookup_lt_is_Some_2 (targets_of E u) k Hk) as [t Htk].
    unfold es, edges_part in Hi. rewrite lookup_drop in Hi. rewrite <- Ek, (He u k t Htk) in Hi. simplify_eq.
    apply list_elem_of_lookup_2 in Htk. unfold targets_of in Htk.
    apply list_elem_of_fmap in Htk as ([s t]&->&[_ Hin]%list_elem_of_filter).
    unfold edges_below in HE. rewrite Forall_forall in HE. apply (HE (s, t) Hin).
Qed.

(** [ingest_main] as a whole *)
Lemma ingest_main_run texts st :
  let E := texts ≫= edges_of_text in
  (max_and_count E).1 < 2 ^ 62 → Z.of_nat (length E) < 2 ^ 62 →
  ∃ st', ingest_main (Some <$> texts) st = Ok (max_and_count E) st' ∧
    (max_and_count E).2 = Z.of_nat (length E) ∧
    let n := Z.to_nat ((max_and_count E).1 + 1) in
    csr_ok n (rows_of n (graph_map st')) (edges_part n (graph_map st')) ∧
    (∀ u, (u < n)%nat →
      targets (rows_of n (graph_map st')) (edges_part n (graph_map st')) u = targets_of E u) ∧
    length (graph_map st') = (S n + length E)%nat.
Proof.
  intros E Hb Hlen.
  assert (Forall (λ '(s, t), 0 ≤ s ∧ 0 ≤ t) E) as HE0.
  { apply texts_nonneg. }
  destruct (max_and_count_run E 0 0 HE0) as (Hm&Hc&HE); [lia|lia|]. fold (max_and_count E) in *.
  destruct (max_and_count E) as [m c] eqn:Emc. cbn in Hb, Hm, Hc, HE |- *. subst c.
  set (n := Z.to_nat (m + 1)) in *.
  assert (edges_below n E) as Hbelow.
  { eapply Forall_impl; [exact HE|]. intros [s t]. unfold n. lia. }
  destruct (ingest_run n E Hbelow ltac:(lia)
    (mkIngest (index st) (replicate (Z.to_nat (m + 2 + Z.of_nat (length E))) 0))) as (st'&Ei&Hload).
  { cbn [graph_map]. rewrite length_replicate. lia. }
  rewrite Z.add_0_l in *. destruct (loaded_csr n E st' Hbelow Hload) as [Hcsr Ht].
  exists st'. split_and!; [|done|exact Hcsr|exact Ht|by destruct Hload].
  unfold ingest_main, check_edge_list. erewrite bind_run.
  2:{ erewrite bind_run by apply read_files_run. fold E. rewrite Emc. reflexivity. }
  cbv beta iota. erewrite bind_run by reflexivity. cbv beta.
  erewrite bind_run by apply read_files_run. cbv beta. fold E.
  replace (Z.of_nat n - 1) with m in Ei by lia. by erewrite bind_run by exact Ei.
Qed.



(** ** The text format *)

(** [edge_list_file << edge.first << " " << edge.second << "\n"], as
    generate_edge_list.cpp writes the edges *)
Definition print_edge (e : Z * Z) : list Ascii.ascii :=
  decimal e.1 ++ Ascii.ascii_of_nat 32 :: decimal e.2 ++ [Ascii.ascii_of_nat 10].

Definition print_edges (es : list (Z * Z)) : string := String.string_of_list_ascii (es ≫= print_edge).

Lemma extract_space v c s : is_space_char c = true → extract v (Some (c :: s)) = extract v (Some s).
Proof. intros Hc. unfold extract. cbn [fmap option_fmap option_map skip_space]. by rewrite Hc. Qed.

(** the separator in front of a number is skipped *)
Lemma extract_edge nl e rest :
  nl = [] ∨ nl = [Ascii.ascii_of_nat 10] → is_u64 e.1 → is_u64 e.2 →
  let s1 := Ascii.ascii_of_nat 32 :: decimal e.2 ++ Ascii.ascii_of_nat 10 :: rest in
  extract None (Some (nl ++ print_edge e ++ rest)) = (Some e.1, Some s1) ∧
  extract None (Some s1) = (Some e.2, Some (Ascii.ascii_of_nat 10 :: rest)).
Proof.
  intros Hnl H1 H2 s1. split.
  - assert (print_edge e ++ rest = decimal e.1 ++ s1) as E.
    { unfold print_edge, s1. rewrite <- !app_assoc. cbn [app]. by rewrite <- app_assoc. }
    rewrite E. destruct Hnl as [-> | ->]; cbn [app]; [|rewrite extract_space by done]; by apply extract_decimal.
  - unfold s1. rewrite extract_space by done. by apply extract_decimal.
Qed.

Lemma read_pairs_print es nl fuel :
  nl = [] ∨ nl = [Ascii.ascii_of_nat 10] → Forall (λ e, is_u64 e.1 ∧ is_u64 e.2) es → (length es < fuel)%nat →
  read_pairs fuel (nl ++ (es ≫= print_edge)) = es.
Proof.
  intros Hnl Hes. revert nl Hnl fuel. induction Hes as [|e es [H1 H2] _ IH]; intros nl Hnl fuel Hf;
    (destruct fuel as [|fuel]; [lia|]); cbn [read_pairs].
  - rewrite app_nil_r. destruct Hnl as [-> | ->]; reflexivity.
  - cbn [mbind list_bind]. destruct (extract_edge nl e (es ≫= print_edge) Hnl H1 H2) as [E1 E2].
    rewrite E1, E2. destruct e as [a b]. cbn [fst snd]. f_equal.
    apply (IH [Ascii.ascii_of_nat 10]); [by right|cbn in Hf; lia].
Qed.

Lemma length_print_edges es : (2 * length es ≤ length (es ≫= print_edge))%nat.
Proof.
  induction es as [|e es IH]; [done|]. rewrite bind_cons, length_app. unfold print_edge at 1.
  rewrite length_app. cbn [length]. rewrite length_app. cbn. lia.
Qed.

(** (roundtrip).  The edge list text that the generator writes is read back
    by the ingestion as the same edges in the same order, for all 64-bit vertex
    numbers. *)
Theorem edge_text_roundtrip es :
  Forall (λ e, is_u64 e.1 ∧ is_u64 e.2) es → edges_of_text (print_edges es) = es.
Proof.
  intros Hes. unfold edges_of_text, print_edges. cbv zeta. rewrite String.list_ascii_of_string_of_list_ascii.
  destruct es as [|e es]; [done|]. apply (read_pairs_print (e :: es) []); [by left|done|].
  pose proof (length_print_edges (e :: es)). cbn [length] in *. lia.
Qed.

Lemma edge_text_roundtrip_witness : edges_of_text (print_edges [(3, 70); (70, 3)]) = [(3, 70); (70, 3)].
Proof. apply edge_text_roundtrip. repeat constructor; decide_now. Defined.
