(* ===== verification/IngestParallel.v ===== *)
(** * The ingestion with its threads
      (the OpenMP build of ingest_edges in
      src/examples/bfs/rmat_graph_generator/ingest_edge_list.cpp)

    The edge lists are distributed over threads.  While degrees are counted, every
    increment of an index entry is atomic; while edges are loaded, a thread first
    takes a position out of the index atomically and then stores the target there,
    and other threads may run in between.  All threads wait for each other between
    the two loops, where one thread builds the index. *)

From stdpp Require Import base list numbers strings sets relations.
From S2P Require Import Prelude Bitmap Bfs Ingest.
Local Open Scope Z_scope.

(** ** Threads *)

(** a thread of the second loop: between two edges, or with a position taken *)
Inductive Loader :=
| Loop (es : list (Z * Z))
| Take (pos target : Z) (es : list (Z * Z)).

#[export] Instance Loader_eq_dec : EqDecision Loader.
Proof. solve_decision. Defined.

(** the edges a thread has not taken a position for *)
Definition untaken (t : Loader) : list (Z * Z) := match t with Loop es | Take _ _ es => es end.

Inductive iconf :=
| Counting (ts : list (list (Z * Z))) (st : Ingest)
| Loading (ts : list Loader) (st : Ingest)
| Ingested (st : Ingest).

Section program.
Context (max_id : Z) (chunks : list (list (Z * Z))).

(** [++index[source]] *)
Definition count_step (source : Z) : M Ingest unit :=
  d ← read_index source; write_index source (u64 (d + 1)).

(** [pos = index[source]++] *)
Definition take_step (source : Z) : M Ingest Z :=
  pos ← read_index source; write_index source (u64 (pos + 1)) ;; mret pos.

(** between the loops *)
Definition build_index : M Ingest unit :=
  shift_index max_id ;; sum_index max_id ;; copy_index max_id.

Inductive istep : iconf → iconf → Prop :=
| i_count ts st k s t es st' :
    ts !! k = Some ((s, t) :: es) → count_step s st = Ok tt st' →
    istep (Counting ts st) (Counting (<[k := es]> ts) st')
| i_build ts st st' :
    Forall (λ es, es = []) ts → build_index st = Ok tt st' →
    istep (Counting ts st) (Loading (Loop <$> chunks) st')
| i_take ts st k s t es pos st' :
    ts !! k = Some (Loop ((s, t) :: es)) → take_step s st = Ok pos st' →
    istep (Loading ts st) (Loading (<[k := Take pos t es]> ts) st')
| i_store ts st k pos t es st' :
    ts !! k = Some (Take pos t es) → write_map (max_id + 2 + pos) t st = Ok tt st' →
    istep (Loading ts st) (Loading (<[k := Loop es]> ts) st')
| i_done ts st :
    Forall (λ t, t = Loop []) ts → istep (Loading ts st) (Ingested st).

Definition ingest_start (st : Ingest) : iconf :=
  Counting chunks (mkIngest (replicate (Z.to_nat (max_id + 2)) 0) (graph_map st)).
End program.

(** ** Lists of threads *)

(** a thread gives [x] up *)
Lemma bind_insert_perm {A B} (f : A → list B) ts k t t' x :
  ts !! k = Some t → f t ≡ₚ x ++ f t' → ts ≫= f ≡ₚ x ++ (<[k := t']> ts ≫= f).
Proof.
  intros Hk Hf. revert k Hk. induction ts as [|u ts IH]; intros [|k] Hk; [done|done|..]; cbn in Hk.
  - simplify_eq. cbn [insert list_insert]. rewrite !bind_cons, Hf. by rewrite <- (assoc_L (++)).
  - cbn [insert list_insert]. rewrite !bind_cons. rewrite (IH k Hk).
    by rewrite !(assoc_L (++)), (Permutation_app_comm (f u)).
Qed.

(** either every thread satisfies [P], or one does not *)
Lemma all_or_one {A} (P : A → Prop) `{!∀ x, Decision (P x)} (ts : list A) :
  Forall P ts ∨ ∃ k t, ts !! k = Some t ∧ ¬ P t.
Proof.
  destruct (decide (Forall P ts)) as [Hall|Hone]; [by left|right].
  apply not_Forall_Exists, Exists_exists in Hone as (t&[k Hk]%list_elem_of_lookup&Ht); [|apply _]. eauto.
Qed.

(** ** Degrees do not depend on the order *)

#[export] Instance targets_of_proper : Proper ((≡ₚ) ==> eq ==> (≡ₚ)) targets_of.
Proof. intros E E' HE v ? <-. unfold targets_of. by rewrite HE. Qed.

#[export] Instance degree_proper : Proper ((≡ₚ) ==> eq ==> eq) degree.
Proof. intros E E' HE v ? <-. unfold degree. by rewrite HE. Qed.

#[export] Instance row_start_proper : Proper ((≡ₚ) ==> eq ==> eq) row_start.
Proof.
  intros E E' HE v ? <-. induction v as [|v IH]; [done|]. simpl. by rewrite IH, HE.
Qed.

Lemma degree_app E E' v : degree (E ++ E') v = (degree E v + degree E' v)%nat.
Proof. unfold degree. by rewrite targets_of_app, length_app. Qed.

(** a place in the edge array belongs to one edge of one row *)
Lemma place_unique E v k v' k' :
  (k < degree E v)%nat → (k' < degree E v')%nat →
  (row_start E v + k = row_start E v' + k')%nat → v = v' ∧ k = k'.
Proof.
  intros Hk Hk' He. destruct (Nat.lt_trichotomy v v') as [H|[->|H]].
  - pose proof (row_start_next E v v' H). lia.
  - lia.
  - pose proof (row_start_next E v' v H). lia.
Qed.

(** ** The invariant *)

Section invariant.
Context (n : nat) (chunks : list (list (Z * Z))).
Abbreviation E := (chunks ≫= id).
Abbreviation max_id := (Z.of_nat n - 1).
Context (HE : edges_below n E) (Hn : Z.of_nat n + Z.of_nat (length E) < 2 ^ 63).

(** [P] has been counted *)
Definition counted (P : list (Z * Z)) (ts : list (list (Z * Z))) (st : Ingest) : Prop :=
  P ++ (ts ≫= id) ≡ₚ E ∧ index_is n (degree P) st ∧ length (graph_map st) = (S n + length E)%nat.

(** the target of the [k]-th position taken in the row of [v] is stored, or a
    thread is about to store it *)
Record taken (C : list (Z * Z)) (ts : list Loader) (st : Ingest) : Prop := {
  tk_all : C ++ (ts ≫= untaken) ≡ₚ E;
  tk_index : index_is n (λ v, row_start E v + degree C v)%nat st;
  tk_len : length (graph_map st) = (S n + length E)%nat;
  tk_rows v : (v ≤ n)%nat → graph_map st !! v = Some (Z.of_nat (row_start E v));
  tk_edges v k t : targets_of C v !! k = Some t →
    graph_map st !! (S n + (row_start E v + k))%nat = Some t ∨
    ∃ es, Take (Z.of_nat (row_start E v + k)) t es ∈ ts;
  tk_pending pos t es : Take pos t es ∈ ts →
    ∃ v k, pos = Z.of_nat (row_start E v + k) ∧ targets_of C v !! k = Some t
}.

Definition iinv (conf : iconf) : Prop :=
  match conf with
  | Counting ts st => ∃ P, counted P ts st
  | Loading ts st => ∃ C, taken C ts st
  | Ingested st => ∃ C, C ≡ₚ E ∧ loaded n C C st
  end.

(** an edge that is still to be processed *)
Lemma part_below P R s t : P ++ (s, t) :: R ≡ₚ E →
  0 ≤ s < Z.of_nat n ∧ (degree P (Z.to_nat s) < degree E (Z.to_nat s))%nat ∧
  (degree E (Z.to_nat s) ≤ length E)%nat.
Proof.
  intros HP. assert (0 ≤ s < Z.of_nat n) as Hs.
  { unfold edges_below in HE. rewrite Forall_forall in HE. apply (HE (s, t)). rewrite <- HP. set_solver. }
  split; [done|]. split; [|apply degree_le]. rewrite <- HP, degree_app, (degree_app [(s, t)] R).
  assert (degree [(s, t)] (Z.to_nat s) = 1%nat) as ->; [|lia].
  unfold degree. by rewrite targets_of_one, bool_decide_eq_true_2 by lia.
Qed.

Lemma count_ok P ts st k s t es :
  counted P ts st → ts !! k = Some ((s, t) :: es) →
  ∃ st', count_step s st = Ok tt st' ∧ counted (P ++ [(s, t)]) (<[k := es]> ts) st'.
Proof.
  intros (HP&Hi&Hl) Hk. pose proof (bind_insert_perm id ts k _ es [(s, t)] Hk ltac:(done)) as Hts.
  rewrite Hts in HP. destruct (part_below P _ s t HP) as (Hs&Hd&Hle).
  destruct (bump_run n _ st s Hi Hs) as (st'&Er&Ew&Hm&Hi'); [lia|]. exists st'. split.
  - unfold count_step. by erewrite bind_run by exact Er.
  - split_and!; [by rewrite <- (assoc_L (++))| |by rewrite Hm].
    eapply index_is_ext; [|exact Hi']. intros v _. by rewrite degree_snoc by lia.
Qed.

Lemma build_ok P ts st :
  counted P ts st → Forall (λ es, es = []) ts →
  ∃ st', build_index max_id st = Ok tt st' ∧ taken [] (Loop <$> chunks) st'.
Proof.
  intros (HP&Hi&Hl) Hts.
  assert (ts ≫= id = []) as Hnil by (induction Hts as [|es ts -> _ IH]; [done|by rewrite bind_cons, IH]).
  rewrite Hnil, app_nil_r in HP.
  destruct (build_index_run n E HE Hn st) as (st3&st4&st5&E3&E4&E5&[Hi5 Hl5 Hr5 _]); [|done|].
  { eapply index_is_ext; [|exact Hi]. intros v _. by rewrite HP. }
  exists st5. split; [unfold build_index; by erewrite bind_run by exact E3; erewrite bind_run by exact E4|].
  split; [|done|done|done|intros v [|k] t Hk; discriminate Hk|].
  - clear. induction chunks as [|es l IH]; [done|]. rewrite fmap_cons, !bind_cons. simpl in *. by rewrite IH.
  - intros pos t es (x&Hx&_)%list_elem_of_fmap. done.
Qed.

(** a taken position is in its row, and the row in the array *)
Lemma taken_place C ts st v k t :
  taken C ts st → targets_of C v !! k = Some t →
  (k < degree E v)%nat ∧ (row_start E v + k < length E)%nat.
Proof.
  intros [HC _ _ _ _ _] Hk. apply lookup_lt_Some in Hk. fold (degree C v) in Hk.
  assert (degree C v ≤ degree E v)%nat by (rewrite <- HC, degree_app; lia). split; [lia|].
  rewrite <- (row_start_total n E HE). destruct (decide (v < n)%nat) as [Hv|Hv].
  - pose proof (row_start_next E v n Hv). lia.
  - assert (degree E v = 0%nat); [|lia]. unfold degree, targets_of. rewrite length_fmap.
    apply length_zero_iff_nil. apply elem_of_nil_inv. intros [s t'] [Hs Hin]%list_elem_of_filter.
    unfold edges_below in HE. rewrite Forall_forall in HE. specialize (HE _ Hin). simpl in *. lia.
Qed.

(** the threads other than the one that moves *)
Lemma elem_of_other {A} (ts : list A) k t t' x :
  ts !! k = Some t → x ∈ ts → x ≠ t → x ∈ <[k := t']> ts.
Proof.
  intros Hk [j Hj]%list_elem_of_lookup Hx. apply list_elem_of_lookup. exists j.
  rewrite list_lookup_insert_ne; [done|]. intros <-. congruence.
Qed.

Lemma elem_of_insert_inv {A} (ts : list A) k t' x : x ∈ <[k := t']> ts → x = t' ∨ x ∈ ts.
Proof.
  intros [j Hj]%list_elem_of_lookup. apply list_lookup_insert_Some in Hj as [(_&->&_)|[_ Hj]]; [by left|].
  right. by eapply list_elem_of_lookup_2.
Qed.

Lemma take_ok C ts st k s t es :
  taken C ts st → ts !! k = Some (Loop ((s, t) :: es)) →
  ∃ pos st', take_step s st = Ok pos st' ∧ taken (C ++ [(s, t)]) (<[k := Take pos t es]> ts) st'.
Proof.
  intros [HC Hi Hl Hr He Hp] Hk.
  pose proof (λ pos, bind_insert_perm untaken ts k _ (Take pos t es) [(s, t)] Hk ltac:(done)) as Hts.
  pose proof HC as HC'. rewrite (Hts 0) in HC'. destruct (part_below C _ s t HC') as (Hs&Hd&Hle).
  set (u := Z.to_nat s) in *. set (pos := (row_start E u + degree C u)%nat).
  assert (Z.of_nat pos < 2 ^ 64 - 1) as Hpos.
  { unfold pos. pose proof (row_start_next E u n ltac:(lia)). rewrite (row_start_total n E HE) in *. lia. }
  destruct (bump_run n _ st s Hi Hs Hpos) as (st'&Er&Ew&Hm&Hi'). fold u pos in Er, Ew.
  exists (Z.of_nat pos), st'. split.
  { unfold take_step. erewrite bind_run by exact Er. by erewrite bind_run by exact Ew. }
  assert (∀ v, targets_of (C ++ [(s, t)]) v = targets_of C v ++ (if bool_decide (v = u) then [t] else [])) as Ht
    by (intros v; rewrite targets_of_app, targets_of_one by lia; done).
  split; [| |by rewrite Hm|by intros; rewrite Hm; apply Hr| |].
  - rewrite <- (assoc_L (++)), <- (Hts (Z.of_nat pos)). done.
  - eapply index_is_ext; [|exact Hi']. intros v _. cbn beta. rewrite degree_snoc by lia. fold u. lia.
  - intros v j t' Hj. rewrite Ht in Hj. rewrite Hm. apply lookup_app_Some in Hj as [Hj|[Hge Hj]].
    + destruct (He v j t' Hj) as [?|[es' Hes]]; [by left|right]. exists es'. by eapply elem_of_other.
    + case_bool_decide; [|done]. apply list_lookup_singleton_Some in Hj as [Hj <-]. right. exists es. subst v.
      replace (row_start E u + j)%nat with pos by (unfold pos, degree; lia).
      apply list_elem_of_lookup. exists k. apply list_lookup_insert_eq. by eapply lookup_lt_Some.
  - intros p t' es' [Hx|Hx]%elem_of_insert_inv.
    + simplify_eq. exists u, (degree C u). split; [done|].
      rewrite Ht, bool_decide_eq_true_2 by done. unfold degree. by rewrite lookup_app_r, Nat.sub_diag by lia.
    + destruct (Hp _ _ _ Hx) as (v&j&->&Hj). exists v, j. split; [done|]. rewrite Ht. by apply lookup_app_l_Some.
Qed.

Lemma store_ok C ts st k pos t es :
  taken C ts st → ts !! k = Some (Take pos t es) →
  ∃ st', write_map (max_id + 2 + pos) t st = Ok tt st' ∧ taken C (<[k := Loop es]> ts) st'.
Proof.
  intros Htk Hk. pose proof Htk as [HC Hi Hl Hr He Hp].
  destruct (Hp pos t es) as (v&j&->&Hj); [by eapply list_elem_of_lookup_2|].
  destruct (taken_place C ts st v j t Htk Hj) as [Hjd Hpl].
  replace (max_id + 2 + Z.of_nat (row_start E v + j)) with (Z.of_nat (S n + (row_start E v + j))) by lia.
  eexists. split; [apply write_map_run; lia|].
  split; cbn [graph_map index]; [|done|by rewrite length_insert| | |].
  - rewrite <- (bind_insert_perm untaken ts k _ (Loop es) [] Hk ltac:(done)). done.
  - intros w Hw. rewrite list_lookup_insert_ne by lia. by apply Hr.
  - intros w i t' Hwi. destruct (taken_place C ts st w i t' Htk Hwi) as [Hid _].
    destruct (decide (row_start E v + j = row_start E w + i)%nat) as [Heq|Hne].
    + destruct (place_unique E v j w i Hjd Hid Heq) as [<- <-]. left.
      rewrite list_lookup_insert_eq by lia. congruence.
    + destruct (He w i t' Hwi) as [?|[es' Hes]].
      * left. by rewrite list_lookup_insert_ne by lia.
      * right. exists es'. eapply elem_of_other; [done|done|]. intros [= Heq _ _]. lia.
  - intros p t' es' [Hx|Hx]%elem_of_insert_inv; [done|]. by apply Hp in Hx.
Qed.

Lemma done_ok C ts st :
  taken C ts st → Forall (λ t, t = Loop []) ts → C ≡ₚ E ∧ loaded n C C st.
Proof.
  intros [HC Hi Hl Hr He Hp] Hts.
  assert (ts ≫= untaken = []) as Hnil
    by (clear -Hts; induction Hts as [|t ts -> _ IH]; [done|by rewrite bind_cons, IH]).
  rewrite Hnil, app_nil_r in HC. split; [done|]. split.
  - eapply index_is_ext; [|exact Hi]. intros v _. cbn beta. by rewrite HC.
  - by rewrite HC.
  - intros v Hv. by rewrite HC, Hr.
  - intros v k t Hk. rewrite (row_start_proper C E HC v v eq_refl). destruct (He v k t Hk) as [?|[es Hes]]; [done|].
    rewrite Forall_forall in Hts. by specialize (Hts _ Hes).
Qed.

(** ** Every run is finite and can go on until all is ingested *)

Lemma istep_inv conf conf' : iinv conf → istep max_id chunks conf conf' → iinv conf'.
Proof.
  intros Hc H. destruct H as [ts st k s t es st' Hk H|ts st st' Hts H|ts st k s t es pos st' Hk H
    |ts st k pos t es st' Hk H|ts st Hts]; destruct Hc as [P HP].
  - destruct (count_ok P ts st k s t es HP Hk) as (st''&E'&?).
    rewrite E' in H. simplify_eq. by eexists.
  - destruct (build_ok P ts st HP Hts) as (st''&E'&?).
    rewrite E' in H. simplify_eq. by eexists.
  - destruct (take_ok P ts st k s t es HP Hk) as (pos'&st''&E'&?).
    rewrite E' in H. simplify_eq. by eexists.
  - destruct (store_ok P ts st k pos t es HP Hk) as (st''&E'&?).
    rewrite E' in H. simplify_eq. by eexists.
  - exists P. by apply (done_ok P ts st).
Qed.

(** a thread that is not finished can move, and so can the program *)
Lemma istep_progress conf : iinv conf → (∃ st, conf = Ingested st) ∨ ∃ conf', istep max_id chunks conf conf'.
Proof.
  destruct conf as [ts st|ts st|st]; intros [P HP]; [right|right|left; eauto].
  - destruct (all_or_one (λ es, es = []) ts) as [H|(k&es&Hk&Hne)].
    + destruct (build_ok P ts st HP H) as (st'&E'&_). eexists. by eapply i_build.
    + destruct es as [|[s t] es]; [done|]. destruct (count_ok P ts st k s t es HP Hk) as (st'&E'&_).
      eexists. by eapply i_count.
  - destruct (all_or_one (λ t, t = Loop []) ts) as [H|(k&t&Hk&Hne)]; [eexists; by eapply i_done|].
    destruct t as [[|[s t] es]|pos t es]; [done| |].
    + destruct (take_ok P ts st k s t es HP Hk) as (pos&st'&E'&_). eexists. by eapply i_take.
    + destruct (store_ok P ts st k pos t es HP Hk) as (st'&E'&_). eexists. by eapply i_store.
Qed.

Definition loader_weight (t : Loader) : nat :=
  match t with Loop es => 2 * length es | Take _ _ es => S (2 * length es) end.

Definition iweight (conf : iconf) : nat :=
  match conf with
  | Counting ts _ => sum_list_with length ts + sum_list_with loader_weight (Loop <$> chunks) + 2
  | Loading ts _ => sum_list_with loader_weight ts + 1
  | Ingested _ => 0
  end.

Lemma sum_insert_lt {A} (f : A → nat) ts k t t' :
  ts !! k = Some t → (f t' < f t)%nat → (sum_list_with f (<[k := t']> ts) < sum_list_with f ts)%nat.
Proof.
  intros Hk Hf. revert k Hk. induction ts as [|u ts IH]; intros [|k] Hk; [done|done|..]; cbn in Hk.
  - simplify_eq. cbn. lia.
  - change (f u + sum_list_with f (<[k := t']> ts) < f u + sum_list_with f ts)%nat.
    specialize (IH k Hk). lia.
Qed.

Lemma istep_weight conf conf' : istep max_id chunks conf conf' → (iweight conf' < iweight conf)%nat.
Proof.
  destruct 1 as [ts st k s t es st' Hk H|ts st st' Hts H|ts st k s t es pos st' Hk H
    |ts st k pos t es st' Hk H|ts st Hts]; unfold iweight; try lia.
  - pose proof (sum_insert_lt length ts k _ es Hk ltac:(simpl; lia)). lia.
  - pose proof (sum_insert_lt loader_weight ts k _ (Take pos t es) Hk ltac:(simpl; lia)). lia.
  - pose proof (sum_insert_lt loader_weight ts k _ (Loop es) Hk ltac:(simpl; lia)). lia.
Qed.

Lemma istep_sn conf : sn (istep max_id chunks) conf.
Proof.
  induction conf as [conf IH] using (induction_ltof1 _ iweight). constructor. intros conf' H.
  apply IH, istep_weight, H.
Qed.

Lemma start_inv st :
  length (graph_map st) = (S n + length E)%nat → iinv (ingest_start max_id chunks st).
Proof.
  intros Hl. exists []. split_and!; [done| |done].
  replace (Z.to_nat (max_id + 2)) with (S n) by lia.
  split; [apply length_replicate|]. intros v Hv. apply lookup_replicate_2. lia.
Qed.
End invariant.

Lemma concat_bind_id {A} (l : list (list A)) : concat l = l ≫= id.
Proof. induction l as [|x l IH]; [done|]. simpl. by rewrite IH. Qed.

(** the graph in the file is determined *)
Lemma loaded_unique n E st st' :
  edges_below n E → loaded n E E st → loaded n E E st' → graph_map st = graph_map st'.
Proof.
  intros HE [_ Hl Hr He] [_ Hl' Hr' He']. apply list_eq_same_length with (length (graph_map st)); [congruence|done|].
  intros i x y Hi Hx Hy. destruct (decide (i ≤ n)%nat) as [Hin|Hin].
  - rewrite Hr in Hx by done. rewrite Hr' in Hy by done. congruence.
  - destruct (entry_of_row n E (i - S n) HE) as (u&k&_&Ek&Hk); [lia|].
    destruct (lookup_lt_is_Some_2 (targets_of E u) k Hk) as [t Ht].
    pose proof (He u k t Ht) as H1. pose proof (He' u k t Ht) as H2.
    replace (S n + (row_start E u + k))%nat with i in * by lia. congruence.
Qed.

(** C31 (equivalence).  The parallel ingestion is the sequential one of some order
    of the edges: however the edges are distributed over the threads and however
    the threads interleave, every run is finite, no thread ever gets stuck or
    accesses an array out of bounds, and at the end the arrays are those of
    [ingest_edges] on a permutation of the edges: a well-formed graph in which
    the row of every vertex holds its targets, in some order. *)
Theorem parallel_ingest_equivalent n chunks st :
  edges_below n (concat chunks) → Z.of_nat n + Z.of_nat (length (concat chunks)) < 2 ^ 63 →
  length (graph_map st) = (S n + length (concat chunks))%nat →
  sn (istep (Z.of_nat n - 1) chunks) (ingest_start (Z.of_nat n - 1) chunks st) ∧
  ∀ conf, rtc (istep (Z.of_nat n - 1) chunks) (ingest_start (Z.of_nat n - 1) chunks st) conf →
    match conf with
    | Ingested st' => ∃ E, E ≡ₚ concat chunks ∧
        (∃ st'', ingest_edges (Z.of_nat n - 1) E st = Ok tt st'' ∧ graph_map st'' = graph_map st') ∧
        let ix := rows_of n (graph_map st') in let es := edges_part n (graph_map st') in
        csr_ok n ix es ∧ ∀ u, (u < n)%nat → targets ix es u ≡ₚ targets_of (concat chunks) u
    | _ => ∃ conf', istep (Z.of_nat n - 1) chunks conf conf'
    end.
Proof.
  rewrite concat_bind_id. intros HE Hn Hl. split; [apply istep_sn|]. intros conf Hr.
  assert (iinv n chunks conf) as Hc.
  { pose proof (start_inv n chunks st Hl) as H0. revert H0. clear Hl.
    induction Hr as [|x y z Hs _ IH]; [done|]. intros Hx. apply IH. by eapply istep_inv. }
  destruct conf as [ts st'|ts st'|st'].
  - by destruct (istep_progress n chunks HE Hn _ Hc) as [[? ?]|?].
  - by destruct (istep_progress n chunks HE Hn _ Hc) as [[? ?]|?].
  - destruct Hc as (C&HC&Hld). exists C. split; [done|].
    assert (edges_below n C) as HCb by (unfold edges_below; by rewrite HC).
    destruct (loaded_csr n C st' HCb Hld) as [Hcsr Ht]. split; [|split; [done|]].
    + destruct (ingest_run n C HCb) with (st := st) as (st''&Ei&Hld''); [by rewrite HC|by rewrite HC|].
      exists st''. split; [done|]. by eapply loaded_unique.
    + intros u Hu. rewrite Ht by done. by rewrite HC.
Qed.

(** ** Witness: two threads, of which both have edges of vertex 1 *)

Definition demo_chunks : list (list (Z * Z)) := [[(1, 2)]; [(1, 3); (2, 3)]].
Definition demo_ingest : Ingest := mkIngest [] (replicate 8 0).

Lemma parallel_ingest_equivalent_witness :
  sn (istep 3 demo_chunks) (ingest_start 3 demo_chunks demo_ingest) ∧
  ∀ st', rtc (istep 3 demo_chunks) (ingest_start 3 demo_chunks demo_ingest) (Ingested st') →
    csr_ok 4 (rows_of 4 (graph_map st')) (edges_part 4 (graph_map st')) ∧
    targets (rows_of 4 (graph_map st')) (edges_part 4 (graph_map st')) 1 ≡ₚ [2; 3].
Proof.
  destruct (parallel_ingest_equivalent 4 demo_chunks demo_ingest) as [Hsn Hrun].
  - repeat constructor; vm_compute; congruence.
  - reflexivity.
  - reflexivity.
  - split; [exact Hsn|]. intros st' Hr. destruct (Hrun _ Hr) as (E&_&_&Hcsr&Ht).
    split; [exact Hcsr|]. exact (Ht 1%nat ltac:(lia)).
Defined.
