(* ===== verification/BufferPrint.v ===== *)
(** * What the buffer prints
      (the stream operators of Buffer.cpp and the log line of Buffer::monitor)

    Text is a list of characters.  The statistics are printed at the end of the
    buffer's life; a reader that takes the number behind each colon gets the
    counters back. *)

From stdpp Require Import base list numbers strings gmap.
From S2P Require Import Prelude Config PageDescriptor WorkQueue Engine Buffer SparseStore Ingest.
Local Open Scope Z_scope.

Definition chars (s : string) : list Ascii.ascii := String.list_ascii_of_string s.

(** [std::setw]: padded with spaces on the left *)
Definition setw (w : nat) (s : list Ascii.ascii) : list Ascii.ascii :=
  replicate (w - length s) (Ascii.ascii_of_nat 32) ++ s.

Definition size_text {A} (l : list A) : list Ascii.ascii := decimal (Z.of_nat (length l)).

(** an [int] *)
Definition int_text (z : Z) : list Ascii.ascii :=
  if bool_decide (z < 0) then Ascii.ascii_of_nat 45 :: decimal (- z) else decimal z.

(** [operator<<] of a buffer, [None] for a null pointer *)
Definition print_buffer (b : option Buffer) : list Ascii.ascii :=
  match b with
  | Some b =>
      chars "{ m_size: " ++ decimal (m_size b) ++
      chars ", m_waits_for_avail_pd: " ++ int_text (m_waits_for_avail_pd b) ++
      chars ", m_present_pages.size(): " ++ setw 2 (decimal (Z.of_nat (size (m_present_pages b)))) ++
      chars ", m_free_pages.size(): " ++ setw 2 (size_text (m_free_pages b)) ++
      chars ", m_busy_pages.size(): " ++ setw 2 (size_text (m_busy_pages b)) ++
      chars " }"
  | None => chars "{ nullptr }"
  end.

(** the line [monitor] logs *)
Definition monitor_text (b : Buffer) : list Ascii.ascii :=
  chars "m_size = " ++ decimal (m_size b) ++
  chars ", num_busy_pages = " ++ size_text (m_busy_pages b) ++
  chars ", num_free_pages = " ++ size_text (m_free_pages b) ++
  chars ", events_processed = " ++ decimal (events_processed (m_stats b)).

Definition newline : list Ascii.ascii := [Ascii.ascii_of_nat 10].

(** [operator<<] of the statistics *)
Definition print_stats (s : BufferStats) : list Ascii.ascii :=
  chars "Buffer Statisics:" ++ newline ++
  chars "   Pages Inserted: " ++ setw 12 (decimal (pages_inserted s)) ++ newline ++
  chars "    Pages Deleted: " ++ setw 12 (decimal (pages_deleted s)) ++ newline ++
  chars " Unavailable wait: " ++ setw 12 (decimal (not_avail s)) ++ newline ++
  chars "            Locks: " ++ setw 12 (decimal (lock_count s)) ++ newline ++
  chars "  Lock collisions: " ++ setw 12 (decimal (lock_collision s)) ++ newline ++
  chars "            waits: " ++ setw 12 (decimal (waits s)).

(** ** Reading the statistics back *)

Fixpoint after_colon (s : list Ascii.ascii) : list Ascii.ascii :=
  match s with
  | [] => []
  | c :: s => if bool_decide (Ascii.nat_of_ascii c = 58%nat) then s else after_colon s
  end.

(** the numbers behind the next [k] colons *)
Fixpoint read_counters (k : nat) (s : list Ascii.ascii) : option (list Z) :=
  match k with
  | O => Some []
  | S k =>
      match extract None (Some (after_colon s)) with
      | (Some v, Some rest) => l ← read_counters k rest; Some (v :: l)
      | _ => None
      end
  end.

Definition read_stats (s : list Ascii.ascii) : option (list Z) := read_counters 6 (after_colon s).

(** what the six lines hold; the count of processed events is not printed *)
Definition printed_counters (s : BufferStats) : list Z :=
  [pages_inserted s; pages_deleted s; not_avail s; lock_count s; lock_collision s; waits s].

Lemma extract_setw w v n rest :
  is_u64 n → hd_error rest ≫= digit_val = None →
  extract v (Some (setw w (decimal n) ++ rest)) = (Some n, Some rest).
Proof.
  intros Hn Hr. unfold setw. rewrite <- app_assoc.
  induction (w - length (decimal n))%nat as [|k IH]; [by apply extract_decimal|].
  cbn [replicate app]. by rewrite extract_space.
Qed.

(** one line: the label ends with a colon and a space *)
Lemma read_counters_line k n rest label :
  is_u64 n → hd_error rest ≫= digit_val = None →
  after_colon (label ++ setw 12 (decimal n) ++ rest) = Ascii.ascii_of_nat 32 :: setw 12 (decimal n) ++ rest →
  read_counters (S k) (label ++ setw 12 (decimal n) ++ rest) = (l ← read_counters k rest; Some (n :: l)).
Proof.
  intros Hn Hr E. cbn [read_counters]. rewrite E, extract_space by done. by rewrite extract_setw.
Qed.

Ltac counter_line :=
  match goal with
  | |- context [read_counters (S ?k) (?nl ++ ?label ++ setw 12 (decimal ?n) ++ ?r)] =>
      rewrite (app_assoc nl label), (read_counters_line k n r (nl ++ label)) by (done || reflexivity)
  end.

(** (roundtrip).  The printed statistics determine the counters: reading the
    number behind each colon gives back pages inserted and deleted, waits for a
    descriptor, lock operations, collisions and waits, whatever their 64-bit
    values, also those wider than the twelve columns. *)
Theorem stats_roundtrip s :
  Forall is_u64 (printed_counters s) → read_stats (print_stats s) = Some (printed_counters s).
Proof.
  unfold printed_counters. rewrite !Forall_cons. intros (H1&H2&H3&H4&H5&H6&_).
  unfold read_stats, print_stats, newline.
  rewrite <- (app_nil_r (setw 12 (decimal (waits s)))).
  change (after_colon (chars "Buffer Statisics:" ++ ?r)) with r.
  do 6 counter_line. done.
Qed.

(** ** Witness: a count wider than its column *)

Lemma stats_roundtrip_witness :
  read_stats (print_stats (mkStats 1 2000000000000000 3 0 5 6 7)) = Some [3; 0; 5; 2000000000000000; 1; 6].
Proof.
  apply (stats_roundtrip (mkStats 1 2000000000000000 3 0 5 6 7)).
  repeat constructor; vm_compute; congruence.
Defined.
