(* ===== verification/Hash.v ===== *)
(** * The vertex scrambling hash
      (src/examples/bfs/rmat_graph_generator/hash.hpp)

    The hash functions at their machine widths, and the proof that they permute
    the vertex numbers: every step of a hash is invertible, so that a scrambled
    graph has the same shape as the original. *)

From stdpp Require Import base list numbers strings.
From Stdlib Require Import Znumtheory Zpow_facts.
From S2P Require Import Prelude.
Local Open Scope Z_scope.

(** [uint32_t] arithmetic wraps; [uint16_t] operands are promoted to [int] and
    only the assignments truncate *)
Definition hash32 (a : Z) : Z :=
  let a := u32 (u32 (a + 0x7ed55d16) + u32 (Z.shiftl a 12)) in
  let a := Z.lxor (Z.lxor a 0xc761c23c) (Z.shiftr a 19) in
  let a := u32 (u32 (a + 0x165667b1) + u32 (Z.shiftl a 5)) in
  let a := Z.lxor (u32 (a + 0xd3a2646c)) (u32 (Z.shiftl a 9)) in
  let a := u32 (u32 (a + 0xfd7046c5) + u32 (Z.shiftl a 3)) in
  let a := Z.lxor (Z.lxor a 0xb55a4f09) (Z.shiftr a 16) in
  a.

Definition hash16 (a : Z) : Z :=
  let a := u16 ((a + 0x5d16) + Z.shiftl a 6) in
  let a := u16 (Z.lxor (Z.lxor a 0xc23c) (Z.shiftr a 9)) in
  let a := u16 ((a + 0x67b1) + Z.shiftl a 5) in
  let a := u16 (Z.lxor (a + 0x646c) (Z.shiftl a 7)) in
  let a := u16 ((a + 0x46c5) + Z.shiftl a 3) in
  let a := u16 (Z.lxor (Z.lxor a 0x4f09) (Z.shiftr a 8)) in
  a.

(** the common body of [shifted_n_hash32] and [shifted_n_hash16] *)
Definition shifted_n_hash (hash : Z → Z) (mask0 input n : Z) : Z :=
  let to_hash := Z.land (Z.shiftr input n) mask0 in
  let to_hash := hash to_hash in
  let to_hash := u64 (Z.shiftl to_hash n) in
  let mask := u64 (Z.shiftl mask0 n) in
  let input := Z.land input (u64 (Z.lnot mask)) in
  Z.lor input to_hash.

Definition shifted_n_hash32 (input n : Z) : Z := shifted_n_hash hash32 0xFFFFFFFF input n.
Definition shifted_n_hash16 (input n : Z) : Z := shifted_n_hash hash16 0xFFFF input n.

(** the two loops, up from 0 to [n] and down from [n] to 0 *)
Definition hash_rounds (f : Z → Z → Z) (input n : Z) : Z :=
  foldl f input (seqZ 0 (n + 1) ++ reverse (seqZ 0 (n + 1))).

(** [None] is the failed assertion that at least 17 bits are hashed *)
Definition hash_nbits (input n : Z) : option Z :=
  if bool_decide (n = 32) then Some (hash32 (u32 input))
  else if bool_decide (32 < n) then Some (hash_rounds shifted_n_hash32 input (n - 32))
  else if bool_decide (16 < n) then Some (hash_rounds shifted_n_hash16 input (n - 16))
  else None.

(** ** Invertible steps on [w]-bit numbers *)

(** [f] permutes the [w]-bit numbers *)
Definition permutes (w : Z) (f : Z → Z) : Prop :=
  (∀ a, 0 ≤ a < 2 ^ w → 0 ≤ f a < 2 ^ w) ∧
  ∀ a b, 0 ≤ a < 2 ^ w → 0 ≤ b < 2 ^ w → f a = f b → a = b.

Lemma permutes_id w : permutes w (λ a, a).
Proof. by split. Qed.

Lemma permutes_compose w f g : permutes w f → permutes w g → permutes w (λ a, g (f a)).
Proof. intros [F1 F2] [G1 G2]. split; [auto|]. intros a b Ha Hb E. apply F2, G2; auto. Qed.

Lemma permutes_ext w f g : (∀ a, 0 ≤ a < 2 ^ w → f a = g a) → permutes w f → permutes w g.
Proof.
  intros E [F1 F2]. split.
  - intros a Ha. rewrite <- E by done. auto.
  - intros a b Ha Hb. rewrite <- !E by done. auto.
Qed.

Section steps.
Context (w : Z) (Hw : 0 < w).
Abbreviation trunc x := (x mod 2 ^ w).

Lemma pow_w_pos : 0 < 2 ^ w.
Proof using Hw. apply Z.pow_pos_nonneg; lia. Qed.

(** [a + c + (a << s)] multiplies by the odd number [2^s + 1] *)
Lemma step_add c s : 0 < s → permutes w (λ a, trunc ((a + c) + Z.shiftl a s)).
Proof using Hw.
  intros Hs. pose proof pow_w_pos as Hp. split.
  - intros a _. apply Z.mod_pos_bound. lia.
  - intros a b Ha Hb E. rewrite !Z.shiftl_mul_pow2 in E by lia.
    assert ((2 ^ w | (2 ^ s + 1) * (a - b))) as Hd.
    { apply Z.mod_divide; [lia|]. replace ((2 ^ s + 1) * (a - b)) with ((a + c + a * 2 ^ s) - (b + c + b * 2 ^ s)) by ring.
      by rewrite Zminus_mod, E, Z.sub_diag, Z.mod_0_l by lia. }
    apply Z.gauss in Hd.
    2:{ apply Zgcd_1_rel_prime, rel_prime_sym, rel_prime_Zpower_r; [lia|]. apply rel_prime_sym.
        apply prime_rel_prime; [apply prime_2|]. intros [q Hq].
        replace s with (1 + (s - 1)) in Hq by lia. rewrite Z.pow_add_r in Hq by lia. lia. }
    destruct Hd as [q Hq]. clear E. set (P := 2 ^ w) in *. clearbody P.
    assert (q = 0) as -> by nia. lia.
Qed.

Lemma lxor_range a b : 0 ≤ a < 2 ^ w → 0 ≤ b < 2 ^ w → 0 ≤ Z.lxor a b < 2 ^ w.
Proof using Hw.
  intros Ha Hb. split; [apply Z.lxor_nonneg; lia|].
  destruct (decide (Z.lxor a b = 0)) as [->|]; [apply pow_w_pos|].
  assert (0 ≤ Z.lxor a b) by (apply Z.lxor_nonneg; lia).
  apply Z.log2_lt_pow2; [lia|]. eapply Z.le_lt_trans; [apply Z.log2_lxor; lia|].
  assert (∀ x, 0 ≤ x < 2 ^ w → Z.log2 x < w) as Hl.
  { intros x Hx. destruct (decide (x = 0)) as [->|]; [done|]. apply Z.log2_lt_pow2; lia. }
  apply Z.max_lub_lt; auto.
Qed.

Lemma lxor_cancel_r a b c : Z.lxor a c = Z.lxor b c → a = b.
Proof using.
  intros E. rewrite <- (Z.lxor_0_r a), <- (Z.lxor_nilpotent c), <- Z.lxor_assoc, E.
  by rewrite Z.lxor_assoc, Z.lxor_nilpotent, Z.lxor_0_r.
Qed.

(** a number that is its own right shift is 0 *)
Lemma shiftr_fixpoint d s : 0 < s → 0 ≤ d → Z.shiftr d s = d → d = 0.
Proof using.
  intros Hs Hd E. rewrite Z.shiftr_div_pow2 in E by lia.
  assert (2 ≤ 2 ^ s). { change 2 with (2 ^ 1) at 1. apply Z.pow_le_mono_r; lia. }
  destruct (decide (d = 0)); [done|]. pose proof (Z.div_lt d (2 ^ s) ltac:(lia) ltac:(lia)). lia.
Qed.

(** [(a ^ c) ^ (a >> s)] *)
Lemma step_xorshift c s : 0 ≤ c < 2 ^ w → 0 < s → permutes w (λ a, Z.lxor (Z.lxor a c) (Z.shiftr a s)).
Proof using Hw.
  intros Hc Hs. split.
  - intros a Ha. apply lxor_range; [by apply lxor_range|].
    rewrite Z.shiftr_div_pow2 by lia. assert (0 < 2 ^ s) by (apply Z.pow_pos_nonneg; lia).
    split; [apply Z.div_pos; lia|]. pose proof (Z.div_le_upper_bound a (2 ^ s) a ltac:(lia) ltac:(nia)). lia.
  - intros a b Ha Hb E. apply Z.lxor_eq. apply shiftr_fixpoint with s; [done|apply Z.lxor_nonneg; lia|].
    rewrite Z.shiftr_lxor. apply Z.bits_inj. intros i. apply (f_equal (λ x, Z.testbit x i)) in E.
    cbv beta in E. rewrite !Z.lxor_spec in E. rewrite !Z.lxor_spec.
    destruct (Z.testbit a i), (Z.testbit b i), (Z.testbit c i), (Z.testbit (Z.shiftr a s) i),
      (Z.testbit (Z.shiftr b s) i); cbn in *; congruence.
Qed.

Lemma lxor_mod x y k : 0 ≤ k → Z.lxor x y mod 2 ^ k = Z.lxor (x mod 2 ^ k) (y mod 2 ^ k).
Proof using.
  intros Hk. apply Z.bits_inj'. intros i Hi. rewrite Z.lxor_spec. destruct (decide (i < k)).
  - rewrite !Z.mod_pow2_bits_low by lia. apply Z.lxor_spec.
  - by rewrite !Z.mod_pow2_bits_high by lia.
Qed.

Lemma mod_weaken x y i k : 0 ≤ i ≤ k → x mod 2 ^ k = y mod 2 ^ k → x mod 2 ^ i = y mod 2 ^ i.
Proof using.
  intros Hi E. assert ((2 ^ i | 2 ^ k)) as Hd.
  { exists (2 ^ (k - i)). rewrite <- Z.pow_add_r by lia. f_equal. lia. }
  assert (0 < 2 ^ i) by (apply Z.pow_pos_nonneg; lia). assert (0 < 2 ^ k) by (apply Z.pow_pos_nonneg; lia).
  rewrite (Zmod_div_mod (2 ^ i) (2 ^ k) x), (Zmod_div_mod (2 ^ i) (2 ^ k) y) by (done || lia).
  by rewrite E.
Qed.

Lemma mod_eq_divide x y m : 0 < m → x mod m = y mod m ↔ (m | x - y).
Proof using.
  intros Hm. split.
  - intros E. apply Z.mod_divide; [lia|]. by rewrite Zminus_mod, E, Z.sub_diag, Z.mod_0_l by lia.
  - intros [q Hq]. replace x with (y + q * m) by lia. by rewrite Z.mod_add by lia.
Qed.

(** [(a + c) ^ (a << s)], truncated: the low bits determine the next one *)
Lemma step_addxor c s : 0 < s → permutes w (λ a, trunc (Z.lxor (a + c) (Z.shiftl a s))).
Proof using Hw.
  intros Hs. pose proof pow_w_pos as Hp. split.
  { intros a _. apply Z.mod_pos_bound. lia. }
  intros a b Ha Hb E. cbv beta in E.
  enough (∀ i : nat, Z.of_nat i ≤ w → a mod 2 ^ Z.of_nat i = b mod 2 ^ Z.of_nat i) as H.
  { specialize (H (Z.to_nat w) ltac:(lia)). rewrite Z2Nat.id, !Z.mod_small in H by lia. done. }
  induction i as [|i IH]; intros Hi; [by rewrite !Z.mod_1_r|]. specialize (IH ltac:(lia)).
  set (k := Z.of_nat (S i)) in *. assert (0 < 2 ^ k) by (apply Z.pow_pos_nonneg; lia).
  assert (0 < 2 ^ Z.of_nat i) by (apply Z.pow_pos_nonneg; lia).
  apply (mod_weaken _ _ k) in E; [|lia]. rewrite !lxor_mod in E by lia.
  assert (Z.shiftl a s mod 2 ^ k = Z.shiftl b s mod 2 ^ k) as Es.
  { apply mod_eq_divide in IH as [q Hq]; [|done]. apply mod_eq_divide; [done|].
    rewrite !Z.shiftl_mul_pow2 by lia. exists (q * 2 ^ (s - 1)).
    replace (a * 2 ^ s - b * 2 ^ s) with ((a - b) * 2 ^ s) by ring. rewrite Hq.
    replace (2 ^ s) with (2 ^ (s - 1) * 2) by (rewrite Z.mul_comm, <- Z.pow_succ_r by lia; f_equal; lia).
    unfold k. rewrite Nat2Z.inj_succ, Z.pow_succ_r by lia. ring. }
  rewrite Es in E. apply lxor_cancel_r in E. apply mod_eq_divide in E; [|done]. apply mod_eq_divide; [done|].
  replace (a - b) with (a + c - (b + c)) by ring. done.
Qed.
End steps.

(** ** The hashes *)

Lemma u32_lxor x y : Z.lxor (u32 x) (u32 y) = u32 (Z.lxor x y).
Proof. unfold u32. by rewrite lxor_mod. Qed.

Lemma u32_add x y : u32 (u32 x + u32 y) = u32 (x + y).
Proof. unfold u32. by rewrite <- Zplus_mod. Qed.

Lemma permutes_compose6 w f1 f2 f3 f4 f5 f6 :
  permutes w f1 → permutes w f2 → permutes w f3 → permutes w f4 → permutes w f5 → permutes w f6 →
  permutes w (λ a, f6 (f5 (f4 (f3 (f2 (f1 a)))))).
Proof.
  intros. apply (permutes_compose w f1 (λ a, f6 (f5 (f4 (f3 (f2 a)))))); [done|].
  apply (permutes_compose w f2 (λ a, f6 (f5 (f4 (f3 a))))); [done|].
  apply (permutes_compose w f3 (λ a, f6 (f5 (f4 a)))); [done|].
  apply (permutes_compose w f4 (λ a, f6 (f5 a))); [done|].
  by apply (permutes_compose w f5 f6).
Qed.

Lemma hash32_permutes : permutes 32 hash32.
Proof.
  apply (permutes_compose6 32
    (λ a, u32 (u32 (a + 0x7ed55d16) + u32 (Z.shiftl a 12)))
    (λ a, Z.lxor (Z.lxor a 0xc761c23c) (Z.shiftr a 19))
    (λ a, u32 (u32 (a + 0x165667b1) + u32 (Z.shiftl a 5)))
    (λ a, Z.lxor (u32 (a + 0xd3a2646c)) (u32 (Z.shiftl a 9)))
    (λ a, u32 (u32 (a + 0xfd7046c5) + u32 (Z.shiftl a 3)))
    (λ a, Z.lxor (Z.lxor a 0xb55a4f09) (Z.shiftr a 16)));
    [eapply permutes_ext; [intros a _; symmetry; apply u32_add|by apply step_add]
    |by apply step_xorshift
    |eapply permutes_ext; [intros a _; symmetry; apply u32_add|by apply step_add]
    |eapply permutes_ext; [intros a _; symmetry; apply u32_lxor|by apply step_addxor]
    |eapply permutes_ext; [intros a _; symmetry; apply u32_add|by apply step_add]
    |by apply step_xorshift].
Qed.

(** the truncation of a number of the right width changes nothing *)
Lemma permutes_u16 f : permutes 16 f → permutes 16 (λ a, u16 (f a)).
Proof. intros Hf. eapply permutes_ext; [|exact Hf]. intros a Ha. symmetry. apply Z.mod_small, Hf, Ha. Qed.

Lemma hash16_permutes : permutes 16 hash16.
Proof.
  apply (permutes_compose6 16
    (λ a, u16 ((a + 0x5d16) + Z.shiftl a 6))
    (λ a, u16 (Z.lxor (Z.lxor a 0xc23c) (Z.shiftr a 9)))
    (λ a, u16 ((a + 0x67b1) + Z.shiftl a 5))
    (λ a, u16 (Z.lxor (a + 0x646c) (Z.shiftl a 7)))
    (λ a, u16 ((a + 0x46c5) + Z.shiftl a 3))
    (λ a, u16 (Z.lxor (Z.lxor a 0x4f09) (Z.shiftr a 8))));
    [by apply step_add|by apply permutes_u16, step_xorshift|by apply step_add
    |by apply step_addxor|by apply step_add|by apply permutes_u16, step_xorshift].
Qed.

(** ** Hashing a window of the bits *)

Lemma bits_high w x i : 0 ≤ x < 2 ^ w → 0 ≤ w ≤ i → Z.testbit x i = false.
Proof.
  intros Hx Hi. destruct (decide (x = 0)) as [->|]; [apply Z.bits_0|].
  apply Z.bits_above_log2; [lia|]. assert (Z.log2 x < w) by (apply Z.log2_lt_pow2; lia). lia.
Qed.

Section window.
Context (W : Z) (HW : 0 < W) (hash : Z → Z) (Hh : permutes W hash).
Context (N : Z) (HN : N ≤ 64) (n : Z) (Hn : 0 ≤ n) (HnW : n + W ≤ N).
Abbreviation mask0 := (Z.ones W).
Abbreviation window a := (Z.land (Z.shiftr a n) mask0).

Lemma window_range a : 0 ≤ window a < 2 ^ W.
Proof using HW. rewrite Z.land_ones by lia. apply Z.mod_pos_bound, Z.pow_pos_nonneg; lia. Qed.

(** a shifted [W]-bit number does not leave the 64 bits *)
Lemma u64_shiftl_bits h i :
  0 ≤ h < 2 ^ W → 0 ≤ i → Z.testbit (u64 (Z.shiftl h n)) i = bool_decide (n ≤ i) && Z.testbit h (i - n).
Proof using HN HW Hn HnW.
  intros Hr Hi. rewrite u64_small.
  - rewrite Z.shiftl_spec by lia. case_bool_decide; [done|]. cbn. apply Z.testbit_neg_r. lia.
  - rewrite Z.shiftl_mul_pow2 by lia. assert (0 < 2 ^ n) by (apply Z.pow_pos_nonneg; lia).
    split; [nia|]. apply Z.lt_le_trans with (2 ^ W * 2 ^ n); [nia|].
    rewrite <- Z.pow_add_r by lia. apply Z.pow_le_mono_r; lia.
Qed.

Lemma shifted_bits a i :
  0 ≤ a < 2 ^ N → 0 ≤ i →
  Z.testbit (shifted_n_hash hash mask0 a n) i =
    if bool_decide (n ≤ i < n + W) then Z.testbit (hash (window a)) (i - n) else Z.testbit a i.
Proof using All.
  intros Ha Hi. unfold shifted_n_hash. rewrite Z.lor_spec, Z.land_spec.
  pose proof (window_range a) as Hw. destruct Hh as [Hr _].
  rewrite u64_shiftl_bits by (auto || lia).
  assert (0 ≤ Z.ones W < 2 ^ W) as Ho by (rewrite Z.ones_equiv; pose proof (Z.pow_pos_nonneg 2 W); lia).
  destruct (decide (i < 64)) as [H64|H64].
  - unfold u64 at 1. rewrite Z.mod_pow2_bits_low, Z.lnot_spec, u64_shiftl_bits, Z.testbit_ones by lia.
    destruct (decide (n ≤ i)); [|rewrite !(bool_decide_false (n ≤ i)) by lia].
    + rewrite !(bool_decide_true (n ≤ i)) by lia. destruct (decide (i < n + W)).
      * rewrite (proj2 (Z.leb_le 0 (i - n))), (proj2 (Z.ltb_lt (i - n) W)), bool_decide_true by lia.
        cbn. by rewrite andb_false_r.
      * rewrite (proj2 (Z.ltb_ge (i - n) W)), bool_decide_false by lia. rewrite andb_false_r. cbn.
        rewrite andb_true_r. rewrite (bits_high W (hash _)) by (auto || lia). by rewrite orb_false_r.
    + rewrite bool_decide_false by lia. cbn. by rewrite andb_true_r, orb_false_r.
  - rewrite (bits_high N a) by lia. cbn. rewrite (bool_decide_false (n ≤ i < n + W)) by lia.
    rewrite (bool_decide_true (n ≤ i)) by lia. cbn. apply bits_high with W; [by apply Hr|lia].
Qed.

Lemma shifted_permutes : permutes N (λ a, shifted_n_hash hash mask0 a n).
Proof using All.
  split.
  - intros a Ha. assert (0 ≤ shifted_n_hash hash mask0 a n) as Hpos.
    { unfold shifted_n_hash. apply Z.lor_nonneg. split; [apply Z.land_nonneg; left; lia|apply u64_range]. }
    split; [done|]. destruct (decide (shifted_n_hash hash mask0 a n = 0)) as [->|Hne]; [apply Z.pow_pos_nonneg; lia|].
    apply Z.log2_lt_pow2; [lia|]. destruct (decide (Z.log2 (shifted_n_hash hash mask0 a n) < N)) as [|Hge]; [done|].
    pose proof (Z.bit_log2 (shifted_n_hash hash mask0 a n) ltac:(lia)) as Hb.
    rewrite shifted_bits, bool_decide_false, (bits_high N a) in Hb by lia. done.
  - intros a b Ha Hb E. cbv beta in E.
    assert (∀ i, 0 ≤ i → Z.testbit (shifted_n_hash hash mask0 a n) i = Z.testbit (shifted_n_hash hash mask0 b n) i)
      as Eb by (intros; by rewrite E).
    assert (window a = window b) as Ew.
    { apply Hh; [apply window_range|apply window_range|]. apply Z.bits_inj'. intros i Hi.
      destruct (decide (i < W)).
      - specialize (Eb (i + n) ltac:(lia)). rewrite !shifted_bits, !bool_decide_true, Z.add_simpl_r in Eb by lia. done.
      - rewrite !(bits_high W (hash _)); [done|apply Hh, window_range|lia|apply Hh, window_range|lia]. }
    apply Z.bits_inj'. intros i Hi. destruct (decide (n ≤ i < n + W)) as [Hin|Hout].
    + apply (f_equal (λ x, Z.testbit x (i - n))) in Ew. cbv beta in Ew.
      rewrite !Z.land_spec, !Z.shiftr_spec, Z.testbit_ones in Ew by lia.
      rewrite (proj2 (Z.leb_le 0 (i - n))), (proj2 (Z.ltb_lt (i - n) W)) in Ew by lia. cbn in Ew.
      rewrite !andb_true_r, Z.sub_add in Ew. done.
    + specialize (Eb i Hi). rewrite !shifted_bits, !bool_decide_false in Eb by lia. done.
Qed.
End window.

(** ** The whole hash *)

Lemma rounds_permutes N (f : Z → Z → Z) (l : list Z) : Forall (λ i, permutes N (λ a, f a i)) l → permutes N (λ a, foldl f a l).
Proof.
  induction 1 as [|i l Hi _ IH]; [apply permutes_id|]. cbn.
  by apply (permutes_compose N (λ a, f a i) (λ a, foldl f a l)).
Qed.

Lemma hash_rounds_permutes N f m :
  0 ≤ m → (∀ i, 0 ≤ i ≤ m → permutes N (λ a, f a i)) → permutes N (λ a, hash_rounds f a m).
Proof.
  intros Hm Hf. apply rounds_permutes. apply Forall_app. split; [|apply Forall_reverse];
    apply Forall_forall; intros i Hi%elem_of_seqZ; apply Hf; lia.
Qed.

(** the permutation [hash_nbits] computes *)
Lemma hash_nbits_permutes N :
  16 < N ≤ 64 → ∃ f, permutes N f ∧ ∀ a, 0 ≤ a < 2 ^ N → hash_nbits a N = Some (f a).
Proof.
  intros HN. unfold hash_nbits. destruct (decide (N = 32)) as [->|Hne].
  - exists hash32. split; [apply hash32_permutes|]. intros a Ha. rewrite bool_decide_true by done.
    unfold u32. by rewrite Z.mod_small.
  - rewrite bool_decide_false by done. destruct (decide (32 < N)).
    + rewrite bool_decide_true by lia. eexists. split; [|done]. apply hash_rounds_permutes; [lia|].
      intros i Hi. apply (shifted_permutes 32); [lia|apply hash32_permutes|lia|lia|lia].
    + rewrite bool_decide_false, bool_decide_true by lia. eexists. split; [|done].
      apply hash_rounds_permutes; [lia|].
      intros i Hi. apply (shifted_permutes 16); [lia|apply hash16_permutes|lia|lia|lia].
Qed.

(** C32 (functional).  For every number of bits from 17 to 64, [hash_nbits]
    passes its assertions and permutes the numbers of that many bits: scrambled
    vertex numbers stay in range and no two vertices are confused. *)
Theorem hash_nbits_bijective N :
  16 < N ≤ 64 →
  (∀ a, 0 ≤ a < 2 ^ N → ∃ b, hash_nbits a N = Some b ∧ 0 ≤ b < 2 ^ N) ∧
  ∀ a b, 0 ≤ a < 2 ^ N → 0 ≤ b < 2 ^ N → hash_nbits a N = hash_nbits b N → a = b.
Proof.
  intros HN. destruct (hash_nbits_permutes N HN) as (f&[Hr Hi]&Ef). split.
  - intros a Ha. exists (f a). auto.
  - intros a b Ha Hb E. rewrite !Ef in E by done. simplify_eq. auto.
Qed.

Lemma hash_nbits_bijective_witness : 5 = 6 ∨ hash_nbits 5 17 ≠ hash_nbits 6 17.
Proof.
  right. intros E. destruct (hash_nbits_bijective 17 ltac:(lia)) as [_ H].
  specialize (H 5 6 ltac:(lia) ltac:(lia) E). discriminate H.
Defined.
