(* ===== verification/Rmat.v ===== *)
(** * The RMAT edge generator
      (src/examples/bfs/rmat_graph_generator/rmat_edge_generator.hpp and
      generate_edge_list.cpp)

    An edge is drawn by descending the quadrants of the adjacency matrix with
    probabilities that are perturbed at every level, in IEEE double precision;
    an input iterator yields the edges, each followed by its reverse when the
    graph is undirected; and the program splits the edges among its threads.
    The random numbers are an input: any generator state and any distribution. *)

From stdpp Require Import base list numbers strings.
From Stdlib Require Import Floats.SpecFloat.
From S2P Require Import Prelude Hash.
Local Open Scope Z_scope.

(** ** Doubles *)

Definition d_add : spec_float → spec_float → spec_float := SFadd 53 1024.
Definition d_sub : spec_float → spec_float → spec_float := SFsub 53 1024.
Definition d_mul : spec_float → spec_float → spec_float := SFmul 53 1024.
Definition d_div : spec_float → spec_float → spec_float := SFdiv 53 1024.
Definition d_lt (x y : spec_float) : bool := SFltb x y.
Definition d_ge (x y : spec_float) : bool := SFleb y x.

(** the literals 0.9, 0.2 and 1. *)
Definition d_09 : spec_float := S754_finite false 8106479329266893 (-53).
Definition d_02 : spec_float := S754_finite false 7205759403792794 (-55).
Definition d_1 : spec_float := S754_finite false 4503599627370496 (-52).

(** ** The generator *)

Record rmat_edge_generator := mkRmat {
  m_seed : Z;
  m_vertex_scale : Z;
  m_edge_count : Z;
  m_scramble : bool;
  m_undirected : bool;
  m_rmat_a : spec_float;
  m_rmat_b : spec_float;
  m_rmat_c : spec_float;
  m_rmat_d : spec_float
}.

Definition max_vertex_id (g : rmat_edge_generator) : Z := u64 (Z.shiftl 1 (m_vertex_scale g)) - 1.

Section rmat.
Context {R : Type} (dis : R → spec_float * R).

(** [x *= 0.9 + 0.2 * dis(rng)] *)
Definition perturb (x : spec_float) (rng : R) : spec_float * R :=
  let '(p, rng) := dis rng in (d_mul x (d_add d_09 (d_mul d_02 p)), rng).

(** one round of the loop per level *)
Fixpoint descend (levels : nat) (a b c d : spec_float) (u v step : Z) (rng : R) : Z * Z * R :=
  match levels with
  | O => (u, v, rng)
  | S levels =>
      let '(p, rng) := dis rng in
      let ab := d_add a b in
      let abc := d_add ab c in
      let '(u, v) :=
        if d_lt p a then (u, v)
        else if d_ge p a && d_lt p ab then (u, u64 (v + step))
        else if d_ge p ab && d_lt p abc then (u64 (u + step), v)
        else (u64 (u + step), u64 (v + step)) in
      let step := step / 2 in
      let '(a, rng) := perturb a rng in
      let '(b, rng) := perturb b rng in
      let '(c, rng) := perturb c rng in
      let '(d, rng) := perturb d rng in
      let s := d_add (d_add (d_add a b) c) d in
      let a := d_div a s in
      let b := d_div b s in
      let c := d_div c s in
      let d := d_sub (d_sub (d_sub d_1 a) b) c in
      descend levels a b c d u v step rng
  end.

(** [None] is a failed assertion of the hash *)
Definition generate_edge (g : rmat_edge_generator) (rng : R) : option ((Z * Z) * R) :=
  let '(u, v, rng) :=
    descend (Z.to_nat (m_vertex_scale g)) (m_rmat_a g) (m_rmat_b g) (m_rmat_c g) (m_rmat_d g)
      0 0 (u64 (Z.shiftl 1 (m_vertex_scale g)) / 2) rng in
  if m_scramble g then
    u ← hash_nbits u (m_vertex_scale g);
    v ← hash_nbits v (m_vertex_scale g);
    Some ((u, v), rng)
  else Some ((u, v), rng).

(** *** The input iterator *)

Record iterator := mkIt {
  m_rng : R;
  m_count : Z;
  m_current : Z * Z;
  m_make_undirected : bool
}.

(** [None] is a failed assertion *)
Definition get_next (g : rmat_edge_generator) (it : iterator) : option iterator :=
  it' ← (if m_undirected g && m_make_undirected it
         then Some (mkIt (m_rng it) (m_count it) ((m_current it).2, (m_current it).1) false)
         else '(e, rng) ← generate_edge g (m_rng it);
              Some (mkIt rng (u64 (m_count it + 1)) e true));
  if bool_decide ((m_current it').1 ≤ max_vertex_id g ∧ (m_current it').2 ≤ max_vertex_id g)
  then Some it' else None.

(** the constructor; the first edge is generated for a count of 0 *)
Definition new_iterator (g : rmat_edge_generator) (rng : R) (count : Z) : option iterator :=
  let it := mkIt rng count (0, 0) false in
  if bool_decide (count = 0) then
    it ← get_next g it;
    Some (mkIt (m_rng it) 0 (m_current it) (m_make_undirected it))
  else Some it.

(** [for (auto edge : rmat)]: iterators are compared by their counts *)
Fixpoint iterate (fuel : nat) (g : rmat_edge_generator) (it : iterator) : option (list (Z * Z)) :=
  match fuel with
  | O => None
  | S fuel =>
      if bool_decide (m_count it = m_edge_count g) then Some []
      else
        it' ← get_next g it;
        l ← iterate fuel g it';
        Some (m_current it :: l)
  end.

Definition generate_all (g : rmat_edge_generator) (rng : R) : option (list (Z * Z)) :=
  it ← new_iterator g rng 0;
  iterate (S (2 * Z.to_nat (m_edge_count g))) g it.

(** [sanity_max_vertex_id], which nothing calls: the largest number, after at
    most [fuel] rounds of a loop that does not advance its iterator *)
Fixpoint sanity_loop (fuel : nat) (g : rmat_edge_generator) (itr itr_end : iterator) (value : Z)
    : option Z :=
  match fuel with
  | O => None
  | S fuel =>
      if bool_decide (m_count itr = m_count itr_end) then Some value
      else sanity_loop fuel g itr itr_end (Z.max (Z.max value (m_current itr).1) (m_current itr).2)
  end.

Definition sanity_max_vertex_id (fuel : nat) (g : rmat_edge_generator) (rng : R) : option bool :=
  itr ← new_iterator g rng 0;
  itr_end ← new_iterator g rng (m_edge_count g);
  value ← sanity_loop fuel g itr itr_end 0;
  Some (bool_decide (max_vertex_id g = value)).

(** it never ends, unless there are no edges *)
Lemma sanity_never_ends fuel g rng :
  m_edge_count g ≠ 0 → sanity_max_vertex_id fuel g rng = None.
Proof.
  intros Hc. unfold sanity_max_vertex_id. destruct (new_iterator g rng 0) as [itr|] eqn:E; [|done]. simpl.
  unfold new_iterator in *. rewrite bool_decide_eq_true_2 in E by done.
  rewrite bool_decide_eq_false_2 by done. simpl.
  apply bind_Some in E as (it&_&[= <-]).
  assert (∀ v, sanity_loop fuel g (mkIt (m_rng it) 0 (m_current it) (m_make_undirected it))
    (mkIt rng (m_edge_count g) (0, 0) false) v = None) as ->; [|done].
  induction fuel as [|fuel IH]; intros v; [done|]. cbn [sanity_loop m_count].
  rewrite bool_decide_eq_false_2 by done. apply IH.
Qed.
End rmat.

(** ** The program generate_edge_list *)

Definition num_local_edges (first last myid nthreads : Z) : Z :=
  let len := u64 (u64 (last - first) + 1) in
  let chunk := len / nthreads in
  let r := len mod nthreads in
  let '(start, end_) :=
    if bool_decide (myid < r) then
      let start := u64 (first + u64 ((chunk + 1) * myid)) in (start, u64 (start + chunk))
    else
      let start := u64 (u64 (first + u64 ((chunk + 1) * r)) + u64 (chunk * u64 (myid - r))) in
      (start, u64 (u64 (start + chunk) - 1)) in
  u64 (u64 (end_ - start) + 1).

Record rmat_option_t := mkOpt {
  seed : Z;
  vertex_scale : Z;
  edge_count : Z;
  opt_a : spec_float;
  opt_b : spec_float;
  opt_c : spec_float;
  scramble_id : bool;
  generate_both_directions : bool
}.

(** the generator of one thread *)
Definition thread_generator (o : rmat_option_t) (nthreads myid : Z) : rmat_edge_generator :=
  mkRmat (u64 (seed o + myid)) (vertex_scale o)
    (num_local_edges 0 (u64 (edge_count o - 1)) myid nthreads)
    (scramble_id o) (generate_both_directions o)
    (opt_a o) (opt_b o) (opt_c o) (d_sub d_1 (d_add (d_add (opt_a o) (opt_b o)) (opt_c o))).

(** the parallel region: the edges every thread writes to its file *)
Definition generate_edges {R} (dis : R → spec_float * R) (seed_rng : Z → R)
    (o : rmat_option_t) (nthreads : nat) : option (list (list (Z * Z))) :=
  mapM (λ i : nat,
    let g := thread_generator o (Z.of_nat nthreads) (Z.of_nat i) in
    generate_all dis g (seed_rng (m_seed g))) (seq 0 nthreads).

(** [main]: the files, or [None] when the sanity check (or an assertion) fails *)
Definition generate_main {R} (dis : R → spec_float * R) (seed_rng : Z → R)
    (o : rmat_option_t) (nthreads : nat) : option (list (list (Z * Z))) :=
  files ← generate_edges dis seed_rng o nthreads;
  let num_generated_edges := foldl (λ acc l, u64 (acc + Z.of_nat (length l))) 0 files in
  let supposed := if generate_both_directions o then u64 (edge_count o * 2) else edge_count o in
  if bool_decide (supposed ≠ num_generated_edges) then None else Some files.

(** ** The split among the threads *)

Lemma u64_add_l a b : u64 (u64 a + b) = u64 (a + b).
Proof. apply Zplus_mod_idemp_l. Qed.
Lemma u64_sub_l a b : u64 (u64 a - b) = u64 (a - b).
Proof. apply Zminus_mod_idemp_l. Qed.

(** the length of a span, whatever its start *)
Lemma span_length s c : u64 (u64 (u64 (s + c) - s) + 1) = u64 (c + 1).
Proof. rewrite u64_sub_l, u64_add_l. f_equal. lia. Qed.
Lemma span_length_pred s c : u64 (u64 (u64 (u64 (s + c) - 1) - s) + 1) = u64 c.
Proof. rewrite (u64_sub_l (s + c) 1), u64_sub_l, u64_add_l. f_equal. lia. Qed.

(** the share of a thread, whatever wraps around on the way *)
Lemma num_local_edges_eq e myid nthreads :
  0 < nthreads → 0 ≤ e < 2 ^ 64 - 1 →
  num_local_edges 0 (u64 (e - 1)) myid nthreads =
    e / nthreads + (if bool_decide (myid < e mod nthreads) then 1 else 0).
Proof.
  intros Hn He. unfold num_local_edges. rewrite Z.sub_0_r, u64_add_l, u64_add_l.
  replace (e - 1 + 1) with e by lia. rewrite (u64_small e) by (unfold is_u64; lia).
  pose proof (Z.div_pos e nthreads ltac:(lia) Hn).
  pose proof (Z.div_le_upper_bound e nthreads e Hn ltac:(nia)).
  case_bool_decide.
  - rewrite span_length. apply u64_small. unfold is_u64. lia.
  - rewrite span_length_pred, Z.add_0_r. apply u64_small. unfold is_u64. lia.
Qed.

Lemma sum_shares (q r : Z) (n : nat) :
  0 ≤ r → foldr Z.add 0 ((λ i : nat, q + (if bool_decide (Z.of_nat i < r) then 1 else 0)) <$> seq 0 n) =
    Z.of_nat n * q + Z.min r (Z.of_nat n).
Proof.
  intros Hr. induction n as [|n IH]; [cbn; lia|].
  rewrite seq_S, fmap_app, foldr_app. cbn [fmap list_fmap foldr]. rewrite Nat.add_0_l.
  assert (∀ l x, foldr Z.add x l = foldr Z.add 0 l + x) as Hf.
  { induction l as [|y l IHl]; intros x; cbn; [lia|]. rewrite IHl. lia. }
  rewrite Hf, IH. case_bool_decide; lia.
Qed.

(** the shares of all threads add up *)
Lemma shares_total e (n : nat) :
  (0 < n)%nat → 0 ≤ e < 2 ^ 64 - 1 →
  foldr Z.add 0 ((λ i : nat, num_local_edges 0 (u64 (e - 1)) (Z.of_nat i) (Z.of_nat n)) <$> seq 0 n) = e.
Proof.
  intros Hn He. erewrite list_fmap_ext; [|intros i x _; by rewrite num_local_edges_eq by lia].
  pose proof (Z.mod_pos_bound e (Z.of_nat n) ltac:(lia)). pose proof (Z.div_mod e (Z.of_nat n) ltac:(lia)).
  rewrite sum_shares by lia. lia.
Qed.

(** ** Edges *)

Definition swap (e : Z * Z) : Z * Z := (e.2, e.1).

Section edges.
Context {R : Type} (dis : R → spec_float * R).

Lemma descend_range (levels : nat) a b c d u v rng :
  0 ≤ u → 0 ≤ v → u + 2 ^ Z.of_nat levels < 2 ^ 64 → v + 2 ^ Z.of_nat levels < 2 ^ 64 →
  let r := descend dis levels a b c d u v (2 ^ Z.of_nat levels / 2) rng in
  u ≤ r.1.1 < u + 2 ^ Z.of_nat levels ∧ v ≤ r.1.2 < v + 2 ^ Z.of_nat levels.
Proof.
  revert a b c d u v rng. induction levels as [|levels IH]; intros a b c d u v rng Hu Hv Hub Hvb; [cbn; lia|].
  rewrite Nat2Z.inj_succ, Z.pow_succ_r in * by lia. rewrite (Z.mul_comm 2), Z.div_mul in * by lia.
  assert (0 < 2 ^ Z.of_nat levels) as Hp by (apply Z.pow_pos_nonneg; lia).
  cbn [descend]. destruct (dis rng) as [p rng1].
  match goal with |- context [let '(u, v) := ?X in _] => set (q := X) end.
  assert (0 ≤ q.1 - u ≤ 2 ^ Z.of_nat levels ∧ 0 ≤ q.2 - v ≤ 2 ^ Z.of_nat levels) as Hq.
  { unfold q. repeat case_match; cbn [fst snd]; rewrite ?u64_small by (unfold is_u64; lia); lia. }
  destruct q as [u1 v1]. cbn [fst snd] in Hq.
  destruct (perturb dis a rng1) as [a1 r1], (perturb dis b r1) as [b1 r2], (perturb dis c r2) as [c1 r3],
    (perturb dis d r3) as [d1 r4].
  match goal with |- context [descend dis levels ?a2 ?b2 ?c2 ?d2 u1 v1 _ r4] =>
    specialize (IH a2 b2 c2 d2 u1 v1 r4) end.
  cbv zeta in *. destruct IH as [H1 H2]; [lia..|]. lia.
Qed.

(** the options with which edges can be generated *)
Record generator_ok (g : rmat_edge_generator) : Prop := {
  g_scale : 0 ≤ m_vertex_scale g < 64;
  g_scramble : m_scramble g = true → 16 < m_vertex_scale g;
  g_count : 0 ≤ m_edge_count g < 2 ^ 63
}.

Definition in_range (g : rmat_edge_generator) (e : Z * Z) : Prop :=
  0 ≤ e.1 ≤ max_vertex_id g ∧ 0 ≤ e.2 ≤ max_vertex_id g.

Lemma generate_edge_ok g rng :
  generator_ok g → ∃ e rng', generate_edge dis g rng = Some (e, rng') ∧ in_range g e.
Proof.
  intros [Hs Hsc _]. unfold generate_edge, in_range, max_vertex_id.
  assert (0 < 2 ^ m_vertex_scale g) by (apply Z.pow_pos_nonneg; lia).
  assert (2 ^ m_vertex_scale g ≤ 2 ^ 63) by (apply Z.pow_le_mono_r; lia).
  rewrite Z.shiftl_mul_pow2, Z.mul_1_l, u64_small by (unfold is_u64; lia).
  pose proof (descend_range (Z.to_nat (m_vertex_scale g)) (m_rmat_a g) (m_rmat_b g) (m_rmat_c g) (m_rmat_d g) 0 0 rng)
    as Hd. rewrite Z2Nat.id in Hd by lia. specialize (Hd ltac:(lia) ltac:(lia) ltac:(lia) ltac:(lia)).
  destruct (descend _ _ _ _ _ _ _ _ _ _) as [[u v] rng']. cbn in Hd.
  destruct (m_scramble g); [|eexists _, _; split; [done|cbn; lia]].
  destruct (hash_nbits_permutes (m_vertex_scale g)) as (f&[Hr _]&Ef); [specialize (Hsc eq_refl); lia|].
  rewrite !Ef by lia. eexists _, _. split; [done|]. cbn.
  specialize (Hr u ltac:(lia)) as Hru. specialize (Hr v ltac:(lia)). lia.
Qed.

Lemma get_next_draw g (it : iterator (R := R)) :
  generator_ok g → m_undirected g && m_make_undirected it = false →
  ∃ e rng', get_next dis g it = Some (mkIt rng' (u64 (m_count it + 1)) e true) ∧ in_range g e.
Proof.
  intros Hg Hf. destruct (generate_edge_ok g (m_rng it) Hg) as (e&rng'&E&Hr).
  exists e, rng'. split; [|done]. unfold get_next. rewrite Hf, E. cbn.
  rewrite bool_decide_true; [done|]. unfold in_range in Hr. lia.
Qed.

Lemma get_next_swap g (it : iterator (R := R)) :
  m_undirected g = true → m_make_undirected it = true → in_range g (m_current it) →
  get_next dis g it = Some (mkIt (m_rng it) (m_count it) (swap (m_current it)) false).
Proof.
  intros Hu Hm Hr. unfold get_next. rewrite Hu, Hm. cbn. unfold swap, in_range in *.
  rewrite bool_decide_true; [done|]. lia.
Qed.

(** the edges the iterator yields, each followed by its reverse or not *)
Definition both (g : rmat_edge_generator) (es : list (Z * Z)) : list (Z * Z) :=
  if m_undirected g then es ≫= λ e, [e; swap e] else es.

Lemma iterate_ok g k fuel it :
  generator_ok g → m_count it + Z.of_nat k = m_edge_count g → 0 ≤ m_count it →
  m_make_undirected it = true → in_range g (m_current it) → (2 * k < fuel)%nat →
  ∃ es, length es = k ∧ Forall (in_range g) es ∧ iterate dis fuel g it = Some (both g es).
Proof.
  intros Hg. revert fuel it. induction k as [|k IH]; intros fuel it Hc H0 Hm Hr Hf;
    destruct fuel as [|fuel]; try lia; cbn [iterate].
  { exists []. split_and!; [done|constructor|]. rewrite bool_decide_true by lia. unfold both. by case_match. }
  rewrite bool_decide_false by lia. pose proof (g_count _ Hg). destruct (m_undirected g) eqn:Eu.
  - destruct fuel as [|fuel]; [lia|]. rewrite get_next_swap by done. cbn [mbind option_bind iterate m_count].
    rewrite bool_decide_false by lia.
    destruct (get_next_draw g (mkIt (m_rng it) (m_count it) (swap (m_current it)) false) Hg) as (e&rng'&E&He).
    { cbn. apply andb_false_r. }
    rewrite E. cbn [mbind option_bind m_count]. rewrite u64_small by (unfold is_u64; lia).
    destruct (IH fuel (mkIt rng' (m_count it + 1) e true)) as (es&Hl&Hes&Ei); cbn; [lia|lia|done|done|lia|].
    rewrite Ei. exists (m_current it :: es). split_and!; [by rewrite <- Hl|by constructor|].
    cbn. unfold both. by rewrite Eu.
  - destruct (get_next_draw g it Hg) as (e&rng'&E&He); [by rewrite Eu|].
    rewrite E. cbn [mbind option_bind]. rewrite u64_small by (unfold is_u64; lia).
    destruct (IH fuel (mkIt rng' (m_count it + 1) e true)) as (es&Hl&Hes&Ei); cbn; [lia|lia|done|done|lia|].
    rewrite Ei. exists (m_current it :: es). split_and!; [by rewrite <- Hl|by constructor|].
    cbn. unfold both. by rewrite Eu.
Qed.

Lemma generate_all_ok g rng :
  generator_ok g →
  ∃ es, length es = Z.to_nat (m_edge_count g) ∧ Forall (in_range g) es ∧ generate_all dis g rng = Some (both g es).
Proof.
  intros Hg. unfold generate_all, new_iterator. rewrite bool_decide_true by done.
  destruct (get_next_draw g (mkIt rng 0 (0, 0) false) Hg) as (e&rng'&E&He); [apply andb_false_r|].
  rewrite E. cbn [mbind option_bind m_rng m_current m_make_undirected].
  pose proof (g_count _ Hg). apply iterate_ok; cbn; [done|lia|lia|done|done|lia].
Qed.

Lemma length_both g es : length (both g es) = ((if m_undirected g then 2 else 1) * length es)%nat.
Proof.
  unfold both. destruct (m_undirected g); [|lia]. induction es as [|e es IH]; [done|].
  cbn [mbind list_bind length app]. change (length (e :: swap e :: (es ≫= λ e, [e; swap e])) = (2 * S (length es))%nat).
  cbn [length]. rewrite IH. lia.
Qed.
End edges.

(** ** The program *)

Section program.
Context {R : Type} (dis : R → spec_float * R) (seed_rng : Z → R).

Record options_ok (o : rmat_option_t) : Prop := {
  o_scale : 0 ≤ vertex_scale o < 64;
  o_scramble : scramble_id o = true → 16 < vertex_scale o;
  o_count : 0 ≤ edge_count o < 2 ^ 62
}.

Lemma thread_generator_ok o n i :
  options_ok o → 0 < n → 0 ≤ i → generator_ok (thread_generator o n i).
Proof.
  intros [Hs Hsc Hc] Hn Hi. split; cbn; [done|done|].
  rewrite num_local_edges_eq by lia. pose proof (Z.div_pos (edge_count o) n ltac:(lia) Hn).
  pose proof (Z.div_le_upper_bound (edge_count o) n (edge_count o) Hn ltac:(nia)). case_bool_decide; lia.
Qed.

Lemma generate_edges_ok o (n : nat) :
  options_ok o → (0 < n)%nat →
  ∃ files, generate_edges dis seed_rng o n = Some files ∧
    Forall2 (λ i l, ∃ es, let g := thread_generator o (Z.of_nat n) (Z.of_nat i) in
      length es = Z.to_nat (m_edge_count g) ∧ Forall (in_range g) es ∧ l = both g es) (seq 0 n) files.
Proof.
  intros Ho Hn. unfold generate_edges. generalize (seq 0 n) as l0. induction l0 as [|i l0 IH].
  { exists []. by split. }
  destruct (generate_all_ok dis (thread_generator o (Z.of_nat n) (Z.of_nat i))
    (seed_rng (m_seed (thread_generator o (Z.of_nat n) (Z.of_nat i))))) as (es&Hl&Hr&E).
  { apply thread_generator_ok; [done|lia|lia]. }
  destruct IH as (files&Ef&Hf). exists (both (thread_generator o (Z.of_nat n) (Z.of_nat i)) es :: files).
  split; [|constructor; [by exists es|done]]. cbn [mapM]. rewrite E. cbn [mbind option_bind]. by rewrite Ef.
Qed.

Lemma fold_lengths (files : list (list (Z * Z))) acc :
  0 ≤ acc → acc + foldr Z.add 0 ((λ l, Z.of_nat (length l)) <$> files) < 2 ^ 64 →
  foldl (λ acc l, u64 (acc + Z.of_nat (length l))) acc files =
    acc + foldr Z.add 0 ((λ l, Z.of_nat (length l)) <$> files).
Proof.
  revert acc. induction files as [|l files IH]; intros acc Ha Hb; cbn in *; [lia|].
  assert (0 ≤ foldr Z.add 0 ((λ l, Z.of_nat (length l)) <$> files)).
  { clear. induction files; cbn; lia. }
  rewrite u64_small by (unfold is_u64; lia). rewrite IH by lia. lia.
Qed.

(** [generate_main] as a whole *)
Lemma generate_main_run o (n : nat) :
  options_ok o → (0 < n)%nat →
  ∃ files, generate_main dis seed_rng o n = Some files ∧
    foldr Z.add 0 ((λ l, Z.of_nat (length l)) <$> files) =
      (if generate_both_directions o then 2 else 1) * edge_count o ∧
    Forall (λ l, ∃ es, l = (if generate_both_directions o then es ≫= λ e, [e; swap e] else es) ∧
      Forall (λ e, 0 ≤ e.1 < 2 ^ vertex_scale o ∧ 0 ≤ e.2 < 2 ^ vertex_scale o) es) files.
Proof.
  intros Ho Hn. pose proof Ho as [Hs _ Hc].
  destruct (generate_edges_ok o n Ho Hn) as (files&Ef&Hf).
  set (k := if generate_both_directions o then 2 else 1).
  assert (foldr Z.add 0 ((λ l, Z.of_nat (length l)) <$> files) = k * edge_count o) as Htot.
  { rewrite <- (shares_total (edge_count o) n) by lia. clear Ef. induction Hf as [|i l l0 files (es&Hl&_&->) _ IH].
    { cbn. lia. }
    cbn [fmap list_fmap foldr]. rewrite IH, length_both, Hl, Nat2Z.inj_mul, Z2Nat.id.
    - cbn. unfold k. destruct (generate_both_directions o); lia.
    - apply (thread_generator_ok o (Z.of_nat n) (Z.of_nat i) Ho); lia. }
  exists files. split_and!; [|done|].
  - unfold generate_main. rewrite Ef. cbn [mbind option_bind]. cbv zeta.
    assert (0 ≤ k * edge_count o < 2 ^ 63) by (unfold k; case_match; lia).
    rewrite fold_lengths, Htot, Z.add_0_l by lia. rewrite bool_decide_false; [done|].
    unfold k in *. destruct (generate_both_directions o).
    + rewrite u64_small by (unfold is_u64; lia). lia.
    + lia.
  - clear Ef Htot. induction Hf as [|i l l0 files (es&_&Hr&->) _ IH]; [constructor|]. constructor; [|done].
    exists es. split; [done|]. eapply Forall_impl; [exact Hr|]. intros e.
    unfold in_range, max_vertex_id. cbn.
    assert (2 ^ vertex_scale o ≤ 2 ^ 63) by (apply Z.pow_le_mono_r; lia).
    assert (0 < 2 ^ vertex_scale o) by (apply Z.pow_pos_nonneg; lia).
    rewrite Z.shiftl_mul_pow2, Z.mul_1_l, u64_small by (unfold is_u64; lia). lia.
Qed.

(** (functional).  For every option set whose scrambling is supported (17
    bits or more) and every number of threads, whatever the random numbers,
    generate_edge_list succeeds: no assertion fires, the sanity check on the
    number of edges passes, the threads together draw exactly [edge_count]
    edges, every edge joins vertices below 2^vertex_scale, and with both
    directions every drawn edge is followed by its reverse. *)
Theorem generate_main_succeeds o (n : nat) :
  options_ok o → (0 < n)%nat →
  ∃ files, generate_main dis seed_rng o n = Some files ∧
    foldr Z.add 0 ((λ l, Z.of_nat (length l)) <$> files) =
      (if generate_both_directions o then 2 else 1) * edge_count o ∧
    Forall (λ l, ∃ es, l = (if generate_both_directions o then es ≫= λ e, [e; swap e] else es) ∧
      Forall (λ e, 0 ≤ e.1 < 2 ^ vertex_scale o ∧ 0 ≤ e.2 < 2 ^ vertex_scale o) es) files.
Proof. exact (generate_main_run o n). Qed.
End program.

Definition demo_options : rmat_option_t := mkOpt 123 17 3 d_09 d_02 d_02 true true.

Lemma generate_main_succeeds_witness :
  ∃ files, generate_main (λ r : unit, (d_02, r)) (λ _, tt) demo_options 2 = Some files ∧
    foldr Z.add 0 ((λ l, Z.of_nat (length l)) <$> files) = 6.
Proof.
  destruct (generate_main_succeeds (λ r : unit, (d_02, r)) (λ _, tt) demo_options 2) as (files&E&Hn&_).
  - split; cbn; [lia|intros _; lia|lia].
  - lia.
  - exists files. split; [exact E|exact Hn].
Defined.
