(* ===== verification/MapFile.v ===== *)
(** * Options and mapped files of the examples
    (src/examples/umapsort/{commandline,map_file}.hpp)

    [umt_getoptions] over the events [getopt_long] delivers, and [map_file] over
    a class of system calls [MapOS] with their documented behaviour as laws
    [MapLaws].  The copies of both headers under src/examples/bfs/utility are
    identical. *)

From stdpp Require Import base list numbers strings gmap.
From Stdlib Require Import Strings.Byte.
From S2P Require Import Prelude Store Config.
Local Open Scope Z_scope.

(** ** [strtoull(s, nullptr, 0)] *)

Definition hex_val (c : Ascii.ascii) : option Z :=
  let n := Z.of_nat (Ascii.nat_of_ascii c) in
  if bool_decide (48 ≤ n ≤ 57) then Some (n - 48)
  else if bool_decide (65 ≤ n ≤ 70) then Some (n - 55)
  else if bool_decide (97 ≤ n ≤ 102) then Some (n - 87) else None.

(** the value of the longest prefix of digits of the base, added to [acc] *)
Fixpoint digits_value (base : Z) (s : list Ascii.ascii) (acc : Z) : Z :=
  match s with
  | [] => acc
  | c :: s =>
      match hex_val c with
      | Some d => if bool_decide (d < base) then digits_value base s (acc * base + d) else acc
      | None => acc
      end
  end.

Definition is_x (c : Ascii.ascii) : bool :=
  bool_decide (Ascii.nat_of_ascii c = 120%nat) || bool_decide (Ascii.nat_of_ascii c = 88%nat).
Definition is_zero (c : Ascii.ascii) : bool := bool_decide (Ascii.nat_of_ascii c = 48%nat).

(** base 0: a prefix 0x of a hexadecimal digit, or 0, selects the base *)
Definition base0_value (s : list Ascii.ascii) : Z :=
  match s with
  | z :: x :: h :: l =>
      if is_zero z && is_x x && bool_decide (is_Some (hex_val h)) then digits_value 16 (h :: l) 0
      else digits_value (if is_zero z then 8 else 10) s 0
  | z :: _ => digits_value (if is_zero z then 8 else 10) s 0
  | [] => 0
  end.

(** white space, a sign, the digits; a value out of range is ULLONG_MAX, and the
    sign negates modulo 2^64 *)
Definition strtoull (s : string) : Z :=
  match skip_space (String.list_ascii_of_string s) with
  | [] => 0
  | c :: l =>
      let '(neg, digits) :=
        if bool_decide (Ascii.nat_of_ascii c = 45%nat) then (true, l)
        else if bool_decide (Ascii.nat_of_ascii c = 43%nat) then (false, l) else (false, c :: l) in
      clamp_u64 neg (base0_value digits)
  end.

(** ** Options *)

Record umt_optstruct_t := mkOpts {
  initonly : bool;
  noinit : bool;
  usemmap : bool;
  shuffle : bool;
  pagesize : Z;
  bufsize : Z;
  numpages : Z;
  numthreads : Z;
  numfiles : Z;                 (* int64_t *)
  num_filler_threads : Z;
  num_evictor_threads : Z;
  evict_hiwater : Z;
  evict_lowater : Z;
  pages_to_access : Z;
  filename : string;
  dirname : string
}.

Definition with_flags (i n m s : bool) (o : umt_optstruct_t) : umt_optstruct_t :=
  mkOpts i n m s (pagesize o) (bufsize o) (numpages o) (numthreads o) (numfiles o)
    (num_filler_threads o) (num_evictor_threads o) (evict_hiwater o) (evict_lowater o)
    (pages_to_access o) (filename o) (dirname o).
Definition with_numpages (v : Z) (o : umt_optstruct_t) : umt_optstruct_t :=
  mkOpts (initonly o) (noinit o) (usemmap o) (shuffle o) (pagesize o) (bufsize o) v (numthreads o)
    (numfiles o) (num_filler_threads o) (num_evictor_threads o) (evict_hiwater o) (evict_lowater o)
    (pages_to_access o) (filename o) (dirname o).
Definition with_numthreads (v : Z) (o : umt_optstruct_t) : umt_optstruct_t :=
  mkOpts (initonly o) (noinit o) (usemmap o) (shuffle o) (pagesize o) (bufsize o) (numpages o) v
    (numfiles o) (num_filler_threads o) (num_evictor_threads o) (evict_hiwater o) (evict_lowater o)
    (pages_to_access o) (filename o) (dirname o).
Definition with_numfiles (v : Z) (o : umt_optstruct_t) : umt_optstruct_t :=
  mkOpts (initonly o) (noinit o) (usemmap o) (shuffle o) (pagesize o) (bufsize o) (numpages o)
    (numthreads o) v (num_filler_threads o) (num_evictor_threads o) (evict_hiwater o)
    (evict_lowater o) (pages_to_access o) (filename o) (dirname o).
Definition with_access (v : Z) (o : umt_optstruct_t) : umt_optstruct_t :=
  mkOpts (initonly o) (noinit o) (usemmap o) (shuffle o) (pagesize o) (bufsize o) (numpages o)
    (numthreads o) (numfiles o) (num_filler_threads o) (num_evictor_threads o) (evict_hiwater o)
    (evict_lowater o) v (filename o) (dirname o).
Definition with_names (f d : string) (o : umt_optstruct_t) : umt_optstruct_t :=
  mkOpts (initonly o) (noinit o) (usemmap o) (shuffle o) (pagesize o) (bufsize o) (numpages o)
    (numthreads o) (numfiles o) (num_filler_threads o) (num_evictor_threads o) (evict_hiwater o)
    (evict_lowater o) (pages_to_access o) f d.

Definition DIRNAME : string := "/mnt/intel/".
Definition FILENAME : string := "abc".
Definition NUMPAGES : Z := 10000000.
Definition NUMTHREADS : Z := 2.
Definition NUMFILES : Z := 1.

(** [int64_t] *)
Definition i64 (z : Z) : Z := (z + 2 ^ 63) mod 2 ^ 64 - 2 ^ 63.

Definition default_options (cfg : Config) : umt_optstruct_t :=
  mkOpts false false false false (m_umap_page_size cfg) (m_max_pages_in_buffer cfg) NUMPAGES
    NUMTHREADS NUMFILES (m_num_fillers cfg) (m_num_evictors cfg)
    (u64 (m_evict_high_water_threshold cfg)) (u64 (m_evict_low_water_threshold cfg)) 0
    FILENAME DIRNAME.

(** what a call of [getopt_long] returns; an unknown option, or one without its
    argument, is [BadOption] *)
Inductive opt_event :=
| Initonly | Noinit | Usemmap | Shuffle | Help
| Opt_p (optarg : string) | Opt_N (optarg : string) | Opt_t (optarg : string)
| Opt_a (optarg : string) | Opt_d (optarg : string) | Opt_f (optarg : string)
| BadOption.

(** one round of the loop; [None] is a call of [usage], which exits *)
Definition option_step (e : opt_event) (o : umt_optstruct_t) : option umt_optstruct_t :=
  match e with
  | Initonly => Some (with_flags true (noinit o) (usemmap o) (shuffle o) o)
  | Noinit => Some (with_flags (initonly o) true (usemmap o) (shuffle o) o)
  | Usemmap => Some (with_flags (initonly o) (noinit o) true (shuffle o) o)
  | Shuffle => Some (with_flags (initonly o) (noinit o) (usemmap o) true o)
  | Help | BadOption => None
  | Opt_p s => if bool_decide (0 < strtoull s) then Some (with_numpages (strtoull s) o) else None
  | Opt_N s =>
      if bool_decide (0 < i64 (strtoull s)) then Some (with_numfiles (i64 (strtoull s)) o) else None
  | Opt_t s =>
      if bool_decide (0 < strtoull s) then Some (with_numthreads (strtoull s) o) else None
  | Opt_a s => Some (with_access (strtoull s) o)
  | Opt_d s => Some (with_names (filename o) s o)
  | Opt_f s => Some (with_names s (dirname o) o)
  end.

(** [extra]: arguments are left when the options end *)
Definition umt_getoptions (cfg : Config) (events : list opt_event) (extra : bool)
    : option umt_optstruct_t :=
  o ← foldl (λ r e, r ≫= option_step e) (Some (default_options cfg)) events;
  if bool_decide (numpages o < pages_to_access o) then None
  else if extra then None else Some o.

(** ** Mapped files *)

Definition PROT_READ_WRITE : Z := 3.
Definition PROT_READ_ONLY : Z := 1.
Definition MAP_SHARED_NORESERVE : Z := 0x4001.
Definition MAP_FIXED_FLAG : Z := 16.
Definition UMAP_PRIVATE_FLAG : Z := 2.

(** The system calls of [map_file], and [umap] and [uunmap] ([usemmap = false]).
    [None] is a call that fails. *)
Class MapOS (F : Type) := {
  unlink : string → F → Z * F;                            (* 0 or the error *)
  open_path : string → bool → bool → F → option (Z * F);  (* O_CREAT, O_RDWR *)
  fallocate : Z → Z → F → Z * F;                          (* fd, length: 0 or an error *)
  fstat_size : Z → F → option Z;
  map_call : bool → Z → Z → Z → Z → Z → F → option (Z * F); (* usemmap addr length prot flags fd *)
  unmap_call : bool → Z → Z → F → option F;               (* usemmap addr length *)
  view : Z → F → bytes                                    (* what loads from a mapping see *)
}.

Definition ENOENT : Z := 2.

(** no file is left at the path: it is removed, or there was none *)
Definition unlink_ok {F} `{MapOS F} (p : string) (f : F) : Prop :=
  (unlink p f).1 = 0 ∨ (unlink p f).1 = ENOENT.

(** [contents f p] is the regular file at path [p], [path_of f fd] the file an
    open descriptor refers to *)
Class MapLaws (F : Type) `{MapOS F} := {
  contents : F → string → option bytes;
  path_of : F → Z → option string;
  unlink_law f p : unlink_ok p f → contents (unlink p f).2 p = None;
  open_new_law f p rw fd f' :
    contents f p = None → open_path p true rw f = Some (fd, f') →
    path_of f' fd = Some p ∧ contents f' p = Some [];
  open_old_law f p l rw fd f' :
    contents f p = Some l → open_path p false rw f = Some (fd, f') →
    path_of f' fd = Some p ∧ contents f' p = Some l;
  m_fallocate_law f fd p l n f' :
    path_of f fd = Some p → contents f p = Some l → fallocate fd n f = (0, f') →
    path_of f' fd = Some p ∧
    contents f' p = Some (l ++ replicate (Z.to_nat n - length l) x00);
  fstat_law f fd p l n :
    path_of f fd = Some p → contents f p = Some l → fstat_size fd f = Some n →
    n = Z.of_nat (length l) ∧ n < 2 ^ 63;
  map_law f fd p l mm a n prot flags r f' :
    path_of f fd = Some p → contents f p = Some l → n = Z.of_nat (length l) →
    map_call mm a n prot flags fd f = Some (r, f') → view r f' = l
}.

(** ** The mapped memory as an array of [uint64_t] *)

(** little-endian value of the bytes *)
Definition le_value (b : bytes) : Z :=
  foldr (λ x v, Z.of_N (Byte.to_N x) + 256 * v) 0 b.

Fixpoint words_of (n : nat) (b : bytes) : list Z :=
  match n with
  | O => []
  | S n => le_value (take 8 b) :: words_of n (drop 8 b)
  end.

Section map_file.
Context {F : Type} `{MapOS F}.

(** [None] is the null pointer; [start_addr = 0] is the default argument *)
Definition map_file (name : string) (need_init has_write mm : bool) (numbytes start_addr : Z)
    : M F (option Z) :=
  let has_write := has_write || need_init in
  when need_init (modify (λ f, (unlink name f).2)) ;;       (* the result is not checked *)
  f ← get;
  match open_path name need_init has_write f with
  | None => mret None
  | Some (fd, f1) =>
      modify (λ _, f1) ;;
      x ← (if need_init then
             f ← get;
             let '(x, f2) := fallocate fd numbytes f in
             modify (λ _, f2) ;; mret x
           else mret 0);
      if bool_decide (x ≠ 0) then mret None
      else
        f ← get;
        match fstat_size fd f with
        | None => mret None
        | Some st_size =>
            if bool_decide (u64 st_size ≠ numbytes) then mret None
            else
              let prot := if has_write then PROT_READ_WRITE else PROT_READ_ONLY in
              let flags := if mm : bool then MAP_SHARED_NORESERVE else UMAP_PRIVATE_FLAG in
              let flags := if bool_decide (start_addr ≠ 0) then Z.lor flags MAP_FIXED_FLAG else flags in
              match map_call mm start_addr numbytes prot flags fd f with
              | None => mret None
              | Some (region, f3) => modify (λ _, f3) ;; mret (Some region)
              end
        end
  end.

(** [false]: the process exits *)
Definition unmap_file (mm : bool) (numbytes region : Z) : M F bool :=
  f ← get;
  match unmap_call mm region numbytes f with
  | None => mret false
  | Some f' => modify (λ _, f') ;; mret true
  end.
End map_file.

(** ** Properties *)

Lemma length_words_of n b : length (words_of n b) = n.
Proof. revert b. induction n as [|n IH]; intros b; simpl; [done|]. by rewrite IH. Qed.

Lemma le_value_zeros n : le_value (replicate n x00) = 0.
Proof. unfold le_value. induction n as [|n IH]; simpl; [done|]. by rewrite IH. Qed.

Lemma words_of_zeros n m : words_of n (replicate m x00) = replicate n 0.
Proof.
  revert m. induction n as [|n IH]; intros m; simpl; [done|].
  by rewrite take_replicate, le_value_zeros, drop_replicate, IH.
Qed.


Lemma hex_val_nonneg c d : hex_val c = Some d → 0 ≤ d.
Proof.
  unfold hex_val. intros H. repeat case_bool_decide; simplify_eq; lia.
Qed.

Lemma digits_value_nonneg base s acc : 0 ≤ base → 0 ≤ acc → 0 ≤ digits_value base s acc.
Proof.
  intros Hb. revert acc. induction s as [|c s IH]; intros acc Ha; [done|]. simpl.
  destruct (hex_val c) as [d|] eqn:E; [|done]. case_bool_decide; [|done].
  apply IH. apply hex_val_nonneg in E. nia.
Qed.

Lemma base0_value_nonneg s : 0 ≤ base0_value s.
Proof.
  unfold base0_value. destruct s as [|z [|x [|h l]]]; [done|..];
    repeat case_match; apply digits_value_nonneg; lia.
Qed.

Lemma strtoull_range s : is_u64 (strtoull s).
Proof.
  unfold strtoull. destruct (skip_space _) as [|c l]; [unfold is_u64; lia|].
  destruct (if bool_decide _ then (true, l) else _) as [neg digits].
  pose proof (base0_value_nonneg digits). unfold clamp_u64. case_bool_decide; [unfold is_u64; lia|].
  destruct neg; [apply u64_range|unfold is_u64; lia].
Qed.

Definition options_ok (o : umt_optstruct_t) : Prop :=
  0 < numpages o < 2 ^ 64 ∧ 0 < numthreads o < 2 ^ 64 ∧ 0 < numfiles o < 2 ^ 63 ∧
  0 ≤ pages_to_access o.

Lemma option_step_ok e o o' : options_ok o → option_step e o = Some o' → options_ok o'.
Proof.
  intros (Hp&Ht&Hf&Ha) He. destruct e as [| | | | |s|s|s|s|s|s|]; simpl in He;
    try pose proof (strtoull_range s) as Hs; unfold is_u64 in *;
    repeat case_bool_decide; simplify_eq; unfold options_ok; simpl; try lia.
  assert (i64 (strtoull s) < 2 ^ 63); [|lia]. unfold i64.
  pose proof (Z.mod_pos_bound (strtoull s + 2 ^ 63) (2 ^ 64)). lia.
Qed.

Lemma options_fold_ok events r o :
  (∀ o, r = Some o → options_ok o) →
  foldl (λ r e, r ≫= option_step e) r events = Some o → options_ok o.
Proof.
  revert r. induction events as [|e events IH]; intros r Hr; simpl; [apply Hr|].
  apply IH. intros o' (o1&Ho1&He)%bind_Some. eapply option_step_ok; [by apply Hr|done].
Qed.

(** (bounds).  Options that are accepted are usable: at least one page, thread
    and file, all in the range of their type, and no more pages to access than
    there are. *)
Theorem getoptions_sound cfg events extra o :
  umt_getoptions cfg events extra = Some o →
  0 < numpages o < 2 ^ 64 ∧ 0 < numthreads o < 2 ^ 64 ∧ 0 < numfiles o < 2 ^ 63 ∧
  0 ≤ pages_to_access o ≤ numpages o.
Proof.
  unfold umt_getoptions. intros (o'&Hf&H)%bind_Some.
  apply options_fold_ok in Hf as (?&?&?&?).
  - case_bool_decide; [done|]. destruct extra; simplify_eq. split_and!; lia.
  - intros o1 [= <-]. unfold options_ok. simpl. unfold NUMPAGES, NUMTHREADS, NUMFILES. lia.
Qed.

Section map_file_props.
Context {F : Type} `{!MapOS F} `{!MapLaws F}.

(** a mapping with [need_init], up to the contents of the region *)
Lemma map_file_init_run name hw mm numbytes addr f r f' :
  0 ≤ numbytes → unlink_ok name f →
  map_file name true hw mm numbytes addr f = Ok (Some r) f' →
  view r f' = replicate (Z.to_nat numbytes) x00.
Proof.
  intros Hn Hu H. unfold map_file in H. simpl when in H. inv_ok.
  destruct (open_path name true _ _) as [[fd f1]|] eqn:Eo; [|by inv_ok]. inv_ok.
  destruct (open_new_law _ _ _ _ _ (unlink_law f name Hu) Eo) as [Hp1 Hc1].
  destruct (fallocate fd numbytes _) as [x f2] eqn:Ea. inv_ok.
  case_bool_decide as Hx; [by inv_ok|]. subst. inv_ok.
  destruct (m_fallocate_law _ _ _ _ _ _ Hp1 Hc1 Ea) as [Hp2 Hc2].
  destruct (fstat_size fd _) as [n|] eqn:Es; [|by inv_ok].
  case_bool_decide as Hsz; [by inv_ok|].
  destruct (map_call _ _ _ _ _ _ _) as [[r' f3]|] eqn:Em; [|by inv_ok]. inv_ok. simplify_eq.
  rewrite app_nil_l, Nat.sub_0_r in Hc2.
  eapply map_law; [exact Hp2|exact Hc2|by rewrite length_replicate, Z2Nat.id|exact Em].
Qed.

(** (functional).  A file mapped with [need_init], when the old one can be
    removed, is created anew: the region shows [numbytes] zeros, whatever the
    file held before. *)
Theorem map_file_fresh name hw mm numbytes addr f r f' :
  0 ≤ numbytes → unlink_ok name f →
  map_file name true hw mm numbytes addr f = Ok (Some r) f' →
  view r f' = replicate (Z.to_nat numbytes) x00.
Proof. apply map_file_init_run. Qed.

(** (functional).  Without [need_init] the region shows the file as it is, and
    the file has exactly the requested size. *)
Theorem map_file_existing name hw mm numbytes addr f l r f' :
  contents f name = Some l →
  map_file name false hw mm numbytes addr f = Ok (Some r) f' →
  view r f' = l ∧ Z.of_nat (length l) = numbytes.
Proof.
  intros Hl H. unfold map_file in H. simpl when in H. inv_ok.
  destruct (open_path name false _ _) as [[fd f1]|] eqn:Eo; [|by inv_ok]. inv_ok.
  destruct (open_old_law _ _ _ _ _ _ Hl Eo) as [Hp1 Hc1].
  rewrite bool_decide_false in H by auto. inv_ok.
  destruct (fstat_size fd _) as [n|] eqn:Es; [|by inv_ok].
  destruct (fstat_law _ _ _ _ _ Hp1 Hc1 Es) as [-> Hlt].
  case_bool_decide as Hsz; [by inv_ok|].
  rewrite u64_small in Hsz by (unfold is_u64; lia).
  destruct (map_call _ _ _ _ _ _ _) as [[r' f3]|] eqn:Em; [|by inv_ok]. inv_ok. simplify_eq.
  split; [|done]. by eapply map_law.
Qed.
End map_file_props.

(** ** Witnesses: files in memory, mapped at fresh addresses *)

Record procfs := mkProc {
  pf_files : gmap string bytes;
  pf_fds : gmap Z string;
  pf_maps : gmap Z bytes
}.

Definition procfs_open (p : string) (creat rw : bool) (f : procfs) : option (Z * procfs) :=
  let fd := Z.of_nat (size (pf_fds f)) in
  match pf_files f !! p with
  | Some _ => Some (fd, mkProc (pf_files f) (<[fd := p]> (pf_fds f)) (pf_maps f))
  | None =>
      if creat then Some (fd, mkProc (<[p := []]> (pf_files f)) (<[fd := p]> (pf_fds f)) (pf_maps f))
      else None
  end.

Definition procfs_file (fd : Z) (f : procfs) : option (string * bytes) :=
  p ← pf_fds f !! fd; l ← pf_files f !! p; Some (p, l).

#[export] Instance procfs_ops : MapOS procfs := {|
  unlink p f :=
    (if bool_decide (is_Some (pf_files f !! p)) then 0 else ENOENT,
     mkProc (delete p (pf_files f)) (pf_fds f) (pf_maps f));
  open_path := procfs_open;
  fallocate fd n f :=
    match procfs_file fd f with
    | Some (p, l) =>
        (0, mkProc (<[p := l ++ replicate (Z.to_nat n - length l) x00]> (pf_files f)) (pf_fds f) (pf_maps f))
    | None => (9, f)
    end;
  fstat_size fd f :=
    '(_, l) ← procfs_file fd f;
    if bool_decide (Z.of_nat (length l) < 2 ^ 63) then Some (Z.of_nat (length l)) else None;
  map_call mm a n prot flags fd f :=
    '(_, l) ← procfs_file fd f;
    let r := 4096 + Z.of_nat (size (pf_maps f)) in
    Some (r, mkProc (pf_files f) (pf_fds f) (<[r := l]> (pf_maps f)));
  unmap_call mm r n f := Some (mkProc (pf_files f) (pf_fds f) (delete r (pf_maps f)));
  view r f := default [] (pf_maps f !! r)
|}.

#[export, refine] Instance procfs_laws : MapLaws procfs := {|
  contents f p := pf_files f !! p;
  path_of f fd := pf_fds f !! fd
|}.
Proof.
  - intros f p _. apply lookup_delete_eq.
  - intros f p rw fd f' Hn. simpl. unfold procfs_open. rewrite Hn. intros [= <- <-]. simpl.
    by rewrite !lookup_insert_eq.
  - intros f p l rw fd f' Hl. simpl. unfold procfs_open. rewrite Hl. intros [= <- <-]. simpl.
    by rewrite lookup_insert_eq.
  - intros f fd p l n f' Hp Hl. simpl. unfold procfs_file. rewrite Hp. simpl. rewrite Hl. simpl.
    intros [= <-]. simpl. by rewrite lookup_insert_eq.
  - intros f fd p l n Hp Hl. simpl. unfold procfs_file. rewrite Hp. simpl. rewrite Hl. simpl.
    case_bool_decide; [|done]. by intros [= <-].
  - intros f fd p l mm a n prot flags r f' Hp Hl Hn. simpl. unfold procfs_file. rewrite Hp. simpl.
    rewrite Hl. simpl. intros [= <- <-]. simpl. by rewrite lookup_insert_eq.
Defined.

Definition sort_cfg : Config := mkConfig (mkVersion 2 1 0) 2 0 32 32 1 1 70 90 256.
Definition sort_options (n : bool) : umt_optstruct_t :=
  default (default_options sort_cfg)
    (umt_getoptions sort_cfg ([Opt_p "0x2"; Opt_t "1"] ++ if n then [Noinit] else []) false).

Lemma getoptions_sound_witness : 0 < numpages (sort_options true) < 2 ^ 64.
Proof.
  apply (getoptions_sound sort_cfg [Opt_p "0x2"; Opt_t "1"; Noinit] false). vm_compute. reflexivity.
Defined.

Lemma map_file_fresh_witness :
  match map_file "a" true true false 4 0 (mkProc {[ "a" := [x01; x02] ]} ∅ ∅) with
  | Ok (Some r) f => view r f = [x00; x00; x00; x00]
  | _ => False
  end.
Proof.
  destruct (map_file _ _ _ _ _ _ _) as [[r|] f| | |] eqn:E; [|vm_compute in E; discriminate E..].
  refine (map_file_fresh "a" true false 4 0 _ r f _ _ E); [lia|by left].
Defined.

Lemma map_file_existing_witness :
  match map_file "a" false true false 2 0 (mkProc {[ "a" := [x01; x02] ]} ∅ ∅) with
  | Ok (Some r) f => view r f = [x01; x02]
  | _ => False
  end.
Proof.
  destruct (map_file _ _ _ _ _ _ _) as [[r|] f| | |] eqn:E; [|vm_compute in E; discriminate E..].
  exact (proj1 (map_file_existing "a" true false 2 0 (mkProc {[ "a" := [x01; x02] ]} ∅ ∅)
    [x01; x02] r f eq_refl E)).
Defined.
