(* ===== verification/GraphFile.v ===== *)
(** * The files of the graph programs
    (src/examples/bfs/utility/{file,mmap}.hpp)

    The helpers with which the programs of the breadth-first search example
    create, extend, measure and map files, over a file system with paths,
    descriptors and shared mappings.  Every system call may fail.  The file
    system is also an instance of the system calls [MapOS] of MapFile.v, so that
    [map_file] of map_file.hpp runs on it. *)

From stdpp Require Import base list numbers strings gmap.
From Stdlib Require Import Strings.Byte.
From S2P Require Import Prelude Store Config MapFile.
Local Open Scope Z_scope.

(** ** 64-bit words in memory *)

Definition byte_of (z : Z) : byte := default x00 (Byte.of_N (Z.to_N (z mod 256))).

Fixpoint le_bytes (k : nat) (z : Z) : bytes :=
  match k with O => [] | S k => byte_of z :: le_bytes k (z / 256) end.

Definition bytes_of_words (l : list Z) : bytes := l ≫= le_bytes 8.

(** ** The file system *)

Record FS := mkFS {
  fs_files : gmap string bytes;
  fs_fds : gmap Z string;                (* open descriptors *)
  fs_next_fd : Z;
  fs_maps : gmap Z (string * nat);       (* mappings: the file and the length *)
  fs_next_map : Z;
  fs_count : nat                         (* system calls so far *)
}.

Inductive fscall :=
| Open | Fstat | Ftruncate | Fallocate | Mmap | Munmap | Msync | Sysconf | Unlink | Ifstream | Ofstream.

Definition with_files (l : gmap string bytes) (f : FS) : FS :=
  mkFS l (fs_fds f) (fs_next_fd f) (fs_maps f) (fs_next_map f) (fs_count f).
Definition with_fds (l : gmap Z string) (f : FS) : FS :=
  mkFS (fs_files f) l (fs_next_fd f) (fs_maps f) (fs_next_map f) (fs_count f).
Definition with_maps (l : gmap Z (string * nat)) (f : FS) : FS :=
  mkFS (fs_files f) (fs_fds f) (fs_next_fd f) l (fs_next_map f) (fs_count f).
Definition tick (f : FS) : FS :=
  mkFS (fs_files f) (fs_fds f) (fs_next_fd f) (fs_maps f) (fs_next_map f) (S (fs_count f)).

(** the file grows with zeros, or is cut *)
Definition resize_bytes (n : nat) (l : bytes) : bytes := take n l ++ replicate (n - length l) x00.

Section fs.
Context (succeeds : fscall → nat → bool) (page_size : Z).

Definition allowed (c : fscall) (f : FS) : bool := succeeds c (fs_count f).

(** [open]: O_CREAT, O_TRUNC; [None] is -1 *)
Definition sys_open (name : string) (creat trunc : bool) (f : FS) : option Z * FS :=
  let fd := fs_next_fd f in
  let opened files := (Some fd, mkFS files (<[fd := name]> (fs_fds f)) (fd + 1) (fs_maps f)
                                  (fs_next_map f) (S (fs_count f))) in
  if negb (allowed Open f) then (None, tick f)
  else match fs_files f !! name with
       | Some l => opened (if trunc then <[name := []]> (fs_files f) else fs_files f)
       | None => if creat then opened (<[name := []]> (fs_files f)) else (None, tick f)
       end.

Definition file_of (fd : Z) (f : FS) : option (string * bytes) :=
  p ← fs_fds f !! fd; l ← fs_files f !! p; Some (p, l).

Definition sys_fstat (fd : Z) (f : FS) : option Z :=
  if allowed Fstat f then (λ x, Z.of_nat (length x.2)) <$> file_of fd f else None.

(** [ftruncate] and [posix_fallocate] through [resize]; [false] is a failure *)
Definition sys_resize (c : fscall) (resize : bytes → bytes) (fd : Z) (f : FS) : bool * FS :=
  match file_of fd f with
  | Some (p, l) =>
      if allowed c f then (true, tick (with_files (<[p := resize l]> (fs_files f)) f))
      else (false, tick f)
  | None => (false, tick f)
  end.

(** a shared mapping at a new page-aligned address *)
Definition sys_mmap (length_ : Z) (fd : Z) (f : FS) : option Z * FS :=
  match fs_fds f !! fd with
  | Some p =>
      if allowed Mmap f && bool_decide (0 < length_) then
        (Some (fs_next_map f),
         mkFS (fs_files f) (fs_fds f) (fs_next_fd f)
           (<[fs_next_map f := (p, Z.to_nat length_)]> (fs_maps f))
           (fs_next_map f + page_size * (length_ / page_size + 1)) (S (fs_count f)))
      else (None, tick f)
  | None => (None, tick f)
  end.

Definition sys_munmap (addr : Z) (f : FS) : bool * FS :=
  if allowed Munmap f then (true, tick (with_maps (delete addr (fs_maps f)) f)) else (false, tick f).

(** what loads from a mapping see *)
Definition fs_view (addr : Z) (f : FS) : bytes :=
  match fs_maps f !! addr with
  | Some (p, n) => take n (default [] (fs_files f !! p))
  | None => []
  end.

(** the system calls of map_file.hpp *)
#[local] Instance fs_os : MapOS FS := {|
  unlink p f :=
    if negb (allowed Unlink f) then (1, tick f)
    else match fs_files f !! p with
         | Some _ => (0, tick (with_files (delete p (fs_files f)) f))
         | None => (ENOENT, tick f)
         end;
  open_path p creat _ f :=
    match sys_open p creat false f with (Some fd, f') => Some (fd, f') | (None, _) => None end;
  fallocate fd n f :=
    match sys_resize Fallocate (λ l, l ++ replicate (Z.to_nat n - length l) x00) fd f with
    | (true, f') => (0, f') | (false, f') => (5, f') end;
  fstat_size := sys_fstat;
  map_call _ _ n _ _ fd f :=
    match sys_mmap n fd f with (Some a, f') => Some (a, f') | (None, _) => None end;
  unmap_call _ a _ f :=
    match sys_munmap a f with (true, f') => Some f' | (false, _) => None end;
  view := fs_view |}.

(** ** utility/file.hpp *)

(** a call of the file system as an operation *)
Definition lift {A} (c : FS → A * FS) : M FS A := λ f, Ok (c f).1 (c f).2.

Definition sys_close (fd : Z) : M FS unit := modify (λ f, with_fds (delete fd (fs_fds f)) f).

Definition extend_file_size_fd (fd file_size : Z) : M FS bool :=
  f ← get;
  match sys_fstat fd f with
  | None => mret false
  | Some st_size =>
      if bool_decide (Z.abs st_size < i64 file_size)
      then lift (sys_resize Ftruncate (resize_bytes (Z.to_nat file_size)) fd)
      else mret true
  end.

Definition extend_file_size_name (file_name : string) (file_size : Z) : M FS bool :=
  fd ← lift (sys_open file_name false false);
  match fd with
  | None => mret false
  | Some fd =>
      ok ← extend_file_size_fd fd file_size;
      if negb ok then mret false else sys_close fd ;; mret true
  end.

Definition create_graph_file (file_name : string) : M FS bool :=
  fd ← lift (sys_open file_name true true);
  match fd with
  | None => mret false
  | Some fd => sys_close fd ;; mret true
  end.

(** the position at the end of an [ifstream], -1 if it is not open *)
Definition get_file_size (file_name : string) : M FS Z :=
  f ← get;
  modify tick ;;
  mret (match (if allowed Ifstream f then fs_files f !! file_name else None) with
        | Some l => Z.of_nat (length l)
        | None => -1
        end).

(** ** utility/mmap.hpp *)

Definition get_page_size : M FS Z :=
  f ← get; modify tick ;; mret (if allowed Sysconf f then page_size else -1).

(** [map_file] of mmap.hpp; 0 is the null pointer *)
Definition mmap_file (addr length_ fd offset : Z) : M FS Z :=
  page_size ← get_page_size;
  if bool_decide (page_size = -1) then mret 0
  else if bool_decide (Z.rem addr page_size ≠ 0) then mret 0
  else if bool_decide (Z.rem offset page_size ≠ 0) then mret 0
  else
    mapped_addr ← lift (sys_mmap length_ fd);
    match mapped_addr with
    | None => mret 0
    | Some a => if bool_decide (Z.rem a page_size ≠ 0) then mret 0 else mret a
    end.

(** the body of [map_file_read_mode] and [map_file_write_mode], which differ in
    the protection only; -1 and 0 are an error *)
Definition map_file_mode (file_name : string) (addr length_ offset : Z) : M FS (Z * Z) :=
  fd ← lift (sys_open file_name false false);
  match fd with
  | None => mret (-1, 0)
  | Some fd =>
      a ← mmap_file addr length_ fd offset;
      if bool_decide (a = 0) then sys_close fd ;; mret (-1, 0) else mret (fd, a)
  end.

Definition map_file_read_mode := map_file_mode.
Definition map_file_write_mode := map_file_mode.

(** [msync]: a shared mapping is coherent with its file, and a failure is only
    reported *)
Definition msync : M FS unit := modify tick.

Definition munmap (addr : Z) (call_msync : bool) : M FS unit :=
  when call_msync msync ;;
  lift (sys_munmap addr) ;; mret tt.
End fs.

(** [get_num_page_faults]; [stat] is what reading /proc/self/stat gives: [None]
    if it cannot be opened, [Some None] if the line does not have the fields *)
Definition get_num_page_faults {S} (stat : option (option (Z * Z))) : M S (Z * Z) :=
  match stat with
  | Some (Some r) => mret r
  | Some None => mret (0, 0)
  | None => undefined "fclose of a null pointer"
  end.

(** an operation on other state, run to its end *)
Definition run_local {S F A} (m : M S A) (s : S) : M F (A * S) := λ f,
  match m s with
  | Ok a s' => Ok (a, s') f
  | Throw msg _ => Throw msg f
  | Block c _ => Block c f
  | UB why => UB why
  end.

(** Stores of an array of words through a writable mapping. *)
Definition store_words (addr : Z) (l : list Z) (f : FS) : FS :=
  match fs_maps f !! addr with
  | Some (p, _) => with_files (alter (overwrite (bytes_of_words l)) p (fs_files f)) f
  | None => f
  end.

(** ** Words and bytes *)

Lemma to_N_byte_of z : Z.of_N (Byte.to_N (byte_of z)) = z mod 256.
Proof.
  pose proof (Z.mod_pos_bound z 256 ltac:(lia)) as Hz. unfold byte_of.
  destruct (Byte.of_N (Z.to_N (z mod 256))) as [b|] eqn:E.
  - apply Byte.to_of_N in E. simpl. rewrite E. lia.
  - apply Byte.of_N_None_iff in E. lia.
Qed.

Lemma le_value_le_bytes k z : le_value (le_bytes k z) = z mod 256 ^ Z.of_nat k.
Proof.
  revert z. induction k as [|k IH]; intros z; [by rewrite Z.mod_1_r|].
  cbn [le_bytes]. unfold le_value in *. cbn [foldr]. rewrite IH, to_N_byte_of, Nat2Z.inj_succ, Z.pow_succ_r by lia.
  rewrite Z.rem_mul_r by (try apply Z.pow_pos_nonneg; lia). lia.
Qed.

Lemma length_le_bytes k z : length (le_bytes k z) = k.
Proof. revert z. induction k as [|k IH]; intros z; [done|]. simpl. by rewrite IH. Qed.

Lemma length_bytes_of_words l : length (bytes_of_words l) = (8 * length l)%nat.
Proof.
  unfold bytes_of_words. induction l as [|z l IH]; [done|]. rewrite bind_cons, length_app, IH, length_le_bytes.
  simpl. lia.
Qed.

(** what was stored as words is loaded as words *)
Lemma words_of_bytes_of_words l r :
  Forall is_u64 l → words_of (length l) (bytes_of_words l ++ r) = l.
Proof.
  induction 1 as [|z l Hz _ IH]; [done|]. unfold bytes_of_words in *. rewrite bind_cons.
  cbn [length words_of]. rewrite <- app_assoc, take_app_le, drop_app_le by (rewrite length_le_bytes; lia).
  rewrite take_ge, drop_ge by (rewrite length_le_bytes; lia). rewrite le_value_le_bytes, app_nil_l, IH.
  f_equal. by apply Z.mod_small.
Qed.

Lemma words_of_app k n b : words_of (k + n) b = words_of k b ++ words_of n (drop (8 * k) b).
Proof.
  revert b. induction k as [|k IH]; intros b; [done|]. cbn [Nat.add words_of]. rewrite IH, drop_drop.
  by replace (8 * S k)%nat with (8 + 8 * k)%nat by lia.
Qed.

Lemma words_of_padded ws j :
  Forall is_u64 ws →
  words_of (length (bytes_of_words ws ++ replicate j x00) / 8) (bytes_of_words ws ++ replicate j x00) =
  ws ++ replicate (j / 8) 0.
Proof.
  intros Hws. rewrite length_app, length_replicate, length_bytes_of_words.
  rewrite (Nat.mul_comm 8), Nat.add_comm, Nat.div_add, Nat.add_comm by lia.
  rewrite words_of_app, words_of_bytes_of_words by done.
  by rewrite drop_app_length', words_of_zeros by (by rewrite length_bytes_of_words).
Qed.

(** ** The operations, when every call succeeds *)

Section success.
Context (succeeds : fscall → nat → bool) (page_size : Z).
Context (Hok : ∀ c k, succeeds c k = true) (Hpage : 0 < page_size).

Record fs_wf (f : FS) : Prop := {
  wf_fd : 0 ≤ fs_next_fd f;
  wf_map : 0 < fs_next_map f;
  wf_aligned : Z.rem (fs_next_map f) page_size = 0
}.

(** the files after an operation, which also leaves [f'] well formed *)
Definition leaves (files : gmap string bytes) (f f' : FS) : Prop :=
  fs_files f' = files ∧ (fs_wf f → fs_wf f').

Lemma open_run name creat trunc f l :
  fs_files f !! name = Some l ∨ (creat = true ∧ l = []) ∧ fs_files f !! name = None →
  ∃ fd f', sys_open succeeds name creat trunc f = (Some fd, f') ∧ fs_fds f' !! fd = Some name ∧
    leaves (if trunc || bool_decide (fs_files f !! name = None) then <[name := []]> (fs_files f)
            else fs_files f) f f' ∧
    fs_next_map f' = fs_next_map f ∧ (0 ≤ fs_next_fd f → 0 ≤ fd).
Proof.
  intros H. unfold sys_open, allowed. rewrite Hok. simpl.
  destruct H as [Hl|[[-> ->] Hl]]; rewrite Hl.
  - eexists _, _. split; [reflexivity|]. simpl. rewrite lookup_insert_eq.
    split; [done|]. split; [|done]. rewrite orb_false_r. split; [done|]. intros []. split; simpl; (done || lia).
  - eexists _, _. split; [reflexivity|]. simpl. rewrite lookup_insert_eq.
    split; [done|]. split; [|done]. rewrite orb_true_r. split; [done|]. intros []. split; simpl; (done || lia).
Qed.

Lemma leaves_trans files1 files2 f f1 f2 :
  leaves files1 f f1 → leaves files2 f1 f2 → leaves files2 f f2.
Proof. intros [_ H1] [H2 H3]. split; [done|]. auto. Qed.

Lemma close_run fd f : ∃ f', sys_close fd f = Ok tt f' ∧ leaves (fs_files f) f f'.
Proof. eexists. split; [reflexivity|]. split; [done|]. by intros []. Qed.

(** a created file is empty *)
Lemma create_graph_file_run name f :
  ∃ f', create_graph_file succeeds name f = Ok true f' ∧ leaves (<[name := []]> (fs_files f)) f f'.
Proof.
  destruct (open_run name true true f (default [] (fs_files f !! name))) as (fd&f1&E&_&Hl&_).
  { destruct (fs_files f !! name) eqn:Ef; [by left|by right]. }
  unfold create_graph_file. erewrite bind_run by (unfold lift; by rewrite E). simpl.
  destruct (close_run fd f1) as (f2&E2&Hl2). erewrite bind_run by exact E2.
  exists f2. split; [done|]. simpl in Hl. eapply leaves_trans; [exact Hl|]. destruct Hl as [<- _]. done.
Qed.

(** an extended file has zeros behind its contents, and at least the size *)
Lemma extend_file_size_run name l size f :
  fs_files f !! name = Some l → 0 ≤ size < 2 ^ 63 →
  ∃ f', extend_file_size_name succeeds name size f = Ok true f' ∧
    leaves (<[name := l ++ replicate (Z.to_nat size - length l) x00]> (fs_files f)) f f'.
Proof.
  intros Hl Hs. destruct (open_run name false false f l) as (fd&f1&E&Hfd&Hl1&_); [by left|].
  rewrite Hl, bool_decide_eq_false_2 in Hl1 by done. simpl in Hl1. pose proof Hl1 as [Ef1 Hwf].
  unfold extend_file_size_name. erewrite bind_run by (unfold lift; by rewrite E). simpl.
  assert (file_of fd f1 = Some (name, l)) as Efile.
  { unfold file_of. rewrite Hfd. simpl. by rewrite Ef1, Hl. }
  assert (i64 size = size) as Ei by (unfold i64; rewrite Z.mod_small; lia).
  enough (∃ f2, extend_file_size_fd succeeds fd size f1 = Ok true f2 ∧
    leaves (<[name := l ++ replicate (Z.to_nat size - length l) x00]> (fs_files f)) f f2) as (f2&E2&Hl2).
  { erewrite bind_run by exact E2. simpl. destruct (close_run fd f2) as (f3&E3&Hl3).
    erewrite bind_run by exact E3. exists f3. split; [done|]. eapply leaves_trans; [exact Hl2|].
    destruct Hl2 as [<- _]. done. }
  unfold extend_file_size_fd. erewrite bind_run by reflexivity. cbv beta.
  unfold sys_fstat, allowed. rewrite Hok, Efile. simpl. rewrite Ei, Z.abs_eq by lia.
  case_bool_decide as Hlt.
  - unfold lift, sys_resize, allowed. rewrite Efile, Hok. eexists. split; [reflexivity|]. split; simpl.
    + unfold resize_bytes. by rewrite take_ge, Ef1 by lia.
    + intros Hw. destruct (Hwf Hw). by split.
  - exists f1. split; [done|]. replace (Z.to_nat size - length l)%nat with 0%nat by lia.
    rewrite app_nil_r, insert_id by done. done.
Qed.

Lemma get_file_size_run name l f :
  fs_files f !! name = Some l →
  ∃ f', get_file_size succeeds name f = Ok (Z.of_nat (length l)) f' ∧ leaves (fs_files f) f f'.
Proof.
  intros Hl. unfold get_file_size, allowed. eexists. split.
  - unfold mbind, M_bind, get, modify, mret, M_ret. by rewrite Hok, Hl.
  - split; [done|]. by intros [].
Qed.

Lemma next_map_wf f n : 0 ≤ n → fs_wf f →
  0 < fs_next_map f + page_size * (n / page_size + 1) ∧
  Z.rem (fs_next_map f + page_size * (n / page_size + 1)) page_size = 0.
Proof.
  intros Hn [_ Hp Ha]. pose proof (Z.div_pos n page_size Hn Hpage). split; [nia|].
  rewrite Z.rem_mod_nonneg in * by nia. rewrite Z.add_mod, Ha, Z.mul_comm, Z.mod_mul by lia. done.
Qed.

Lemma sys_mmap_run n fd name f :
  0 < n → fs_fds f !! fd = Some name → fs_wf f →
  ∃ f', sys_mmap succeeds page_size n fd f = (Some (fs_next_map f), f') ∧
    leaves (fs_files f) f f' ∧ fs_maps f' !! fs_next_map f = Some (name, Z.to_nat n).
Proof.
  intros Hn Hfd Hw. unfold sys_mmap, allowed. rewrite Hfd, Hok, bool_decide_eq_true_2 by done.
  eexists. split; [reflexivity|]. simpl. rewrite lookup_insert_eq. split; [|done].
  split; [done|]. intros _. destruct (next_map_wf f n ltac:(lia) Hw). split; simpl; [apply Hw|done|done].
Qed.

(** the writable mapping of the ingestion *)
Lemma map_file_mode_run name l n f :
  fs_files f !! name = Some l → 0 < n → fs_wf f →
  ∃ fd a f', map_file_mode succeeds page_size name 0 n 0 f = Ok (fd, a) f' ∧ fd ≠ -1 ∧ a ≠ 0 ∧
    leaves (fs_files f) f f' ∧ fs_maps f' !! a = Some (name, Z.to_nat n).
Proof.
  intros Hl Hn Hw. destruct (open_run name false false f l) as (fd&f1&E&Hfd&Hl1&Hm&Hpos); [by left|].
  rewrite Hl, bool_decide_eq_false_2 in Hl1 by done. simpl in Hl1.
  unfold map_file_mode. erewrite bind_run by (unfold lift; by rewrite E). simpl.
  assert (leaves (fs_files f1) f1 (tick f1)) as Ht by (split; [done|]; by intros []).
  pose proof (proj2 Ht (proj2 Hl1 Hw)) as Hw1.
  destruct (sys_mmap_run n fd name (tick f1) Hn Hfd Hw1) as (f2&E2&Hl2&Hmap). simpl in *.
  exists fd, (fs_next_map f1), f2. split_and!.
  - erewrite bind_run; [rewrite bool_decide_eq_false_2; [reflexivity|]|].
    + destruct Hw1 as [_ ? _]. simpl in *. lia.
    + unfold mmap_file. erewrite bind_run by reflexivity. unfold allowed. rewrite Hok. cbv beta.
      rewrite bool_decide_eq_false_2 by lia. rewrite Z.rem_0_l by lia. simpl.
      erewrite bind_run by (unfold lift; by rewrite E2). simpl.
      rewrite bool_decide_eq_false_2; [done|]. destruct Hw1 as [_ _ Ha]. simpl in Ha. lia.
  - destruct Hw. specialize (Hpos wf_fd0). lia.
  - destruct Hw1 as [_ ? _]. simpl in *. lia.
  - destruct Hl1 as [<- ?]. destruct Hl2 as [? ?]. split; [done|]. auto.
  - done.
Qed.

(** the mapping of the search, which shows the whole file *)
Lemma map_file_run name l mm f :
  fs_files f !! name = Some l → 0 < Z.of_nat (length l) < 2 ^ 64 → fs_wf f →
  ∃ a f', map_file (H := fs_os succeeds page_size) name false false mm (Z.of_nat (length l)) 0 f =
      Ok (Some a) f' ∧
    leaves (fs_files f) f f' ∧ fs_view a f' = l.
Proof.
  intros Hl Hn Hw. destruct (open_run name false false f l) as (fd&f1&E&Hfd&Hl1&_); [by left|].
  rewrite Hl, bool_decide_eq_false_2 in Hl1 by done. simpl in Hl1. pose proof Hl1 as [Ef1 Hw1].
  destruct (sys_mmap_run (Z.of_nat (length l)) fd name f1 ltac:(lia) Hfd (Hw1 Hw)) as (f2&E2&Hl2&Hmap).
  exists (fs_next_map f1), f2. split_and!.
  - unfold map_file. simpl when. erewrite bind_run by reflexivity. erewrite bind_run by reflexivity.
    cbn [open_path fs_os]. rewrite E. do 2 erewrite bind_run by reflexivity.
    rewrite bool_decide_eq_false_2 by (intros H; by apply H). erewrite bind_run by reflexivity.
    assert (fstat_size fd f1 = Some (Z.of_nat (length l))) as ->.
    { cbn [fstat_size fs_os]. unfold sys_fstat, allowed, file_of. rewrite Hok, Hfd. simpl. by rewrite Ef1, Hl. }
    rewrite u64_small by (unfold is_u64; lia). rewrite bool_decide_eq_false_2 by (intros H; by apply H).
    cbn [map_call fs_os]. by rewrite E2.
  - destruct Hl2 as [H1 H2]. split; [by rewrite H1, Ef1|]. auto.
  - unfold fs_view. destruct Hl2 as [H1 _]. rewrite Hmap, H1, Ef1, Hl, Nat2Z.id. simpl. by rewrite take_ge.
Qed.

Lemma unmap_file_run mm n a f :
  ∃ f', unmap_file (H := fs_os succeeds page_size) mm n a f = Ok true f' ∧ leaves (fs_files f) f f'.
Proof.
  unfold unmap_file. erewrite bind_run by reflexivity. cbn [unmap_call fs_os].
  unfold sys_munmap, allowed. rewrite Hok. eexists. split; [reflexivity|]. split; [done|]. by intros [].
Qed.

Lemma munmap_run a f : ∃ f', munmap succeeds a true f = Ok tt f' ∧ leaves (fs_files f) f f'.
Proof.
  unfold munmap, msync. simpl when. erewrite bind_run by reflexivity.
  unfold sys_munmap, allowed. erewrite bind_run; [|unfold lift; simpl; rewrite Hok; reflexivity].
  eexists. split; [reflexivity|]. split; [done|]. by intros [].
Qed.

(** words stored through a mapping are the file *)
Lemma store_words_run a ws p n l f :
  fs_maps f !! a = Some (p, n) → fs_files f !! p = Some l → length l = (8 * length ws)%nat →
  leaves (<[p := bytes_of_words ws]> (fs_files f)) f (store_words a ws f).
Proof.
  intros Ha Hp Hn. unfold store_words. rewrite Ha. split; [|by intros []]. simpl.
  apply map_eq. intros q. destruct (decide (p = q)) as [<-|Hq].
  - rewrite lookup_alter_eq, lookup_insert_eq, Hp. simpl. f_equal. apply overwrite_all.
    rewrite length_bytes_of_words. lia.
  - by rewrite lookup_alter_ne, lookup_insert_ne by done.
Qed.
End success.

(** A file that cannot be examined or extended stays open. *)
Lemma failed_extension_leaks succeeds name l size f :
  fs_files f !! name = Some l →
  (∀ k, succeeds Open k = true) → (∀ k, succeeds Fstat k = false) →
  ∃ f', extend_file_size_name succeeds name size f = Ok false f' ∧
        fs_fds f' = <[fs_next_fd f := name]> (fs_fds f).
Proof.
  intros Hl Ho Hs. unfold extend_file_size_name, lift, sys_open, allowed.
  eexists. split.
  - erewrite bind_run by reflexivity. rewrite Ho, Hl. cbn [negb fst snd].
    erewrite bind_run; [|unfold extend_file_size_fd; erewrite bind_run by reflexivity;
      unfold sys_fstat, allowed; rewrite Hs; reflexivity]. reflexivity.
  - done.
Qed.

(** ** The build without ftruncate

    [extend_file_size_manually]; [buffer] is what the 4096 bytes of [new unsigned
    char[4096]] hold, which are never initialised, and the results of [pwrite]
    are not looked at. *)

Section manual.
Context {F : Type} `{!FileOps F}.

Definition extend_file_size_manually (buffer : bytes) (fd file_size : Z) : M F unit :=
  for_each (seqZ 0 (file_size / 4096)) (λ i, modify (λ f, (pwrite f fd buffer (i * 4096)).2)) ;;
  let remained_size := file_size mod 4096 in
  when (bool_decide (0 < remained_size))
    (modify (λ f, (pwrite f fd (take (Z.to_nat remained_size) buffer) (file_size - remained_size)).2)).

Context `{!FileLaws F}.

Lemma splice_prefix pre buf (l : bytes) off :
  length pre = off → splice off buf (pre ++ drop off l) = (pre ++ buf) ++ drop (off + length buf) l.
Proof.
  intros <-. unfold splice. rewrite take_app_length, length_app.
  replace (length pre - _)%nat with 0%nat by lia. simpl.
  rewrite drop_app_ge, drop_drop by lia. rewrite <- app_assoc. do 3 f_equal. lia.
Qed.

Lemma length_blocks k (buffer : bytes) :
  length buffer = 4096%nat → length (concat (replicate k buffer)) = (4096 * k)%nat.
Proof. intros Hb. induction k as [|k IH]; [done|]. simpl replicate. cbn [concat]. rewrite length_app. lia. Qed.

Lemma write_blocks buffer fd l f k :
  length buffer = 4096%nat → Store.contents f fd = Some l →
  ∃ f', for_each (seqZ 0 (Z.of_nat k)) (λ i, modify (λ f, (pwrite f fd buffer (i * 4096)).2)) f = Ok tt f' ∧
    Store.contents f' fd = Some (concat (replicate k buffer) ++ drop (4096 * k) l).
Proof.
  intros Hb Hl. induction k as [|k (f1&E1&C1)]; [by exists f|].
  destruct (pwrite_law f1 fd buffer (Z.of_nat k * 4096) _ C1 ltac:(lia)) as (f2&E2&C2&_).
  exists f2. split.
  - replace (Z.of_nat (S k)) with (Z.of_nat k + 1) by lia. rewrite seqZ_app by lia.
    assert (∀ l1 l2 (g : Z → M F unit) s s1 s2, for_each l1 g s = Ok tt s1 → for_each l2 g s1 = Ok tt s2 →
      for_each (l1 ++ l2) g s = Ok tt s2) as Happ.
    { clear. induction l1 as [|x l1 IH]; intros l2 g s s1 s2 H1 H2; simpl in *; [by injection H1 as ->|].
      apply bind_Ok in H1 as ([]&s3&Ha&Hr). rewrite (bind_run _ _ _ _ _ Ha). by eapply IH. }
    eapply Happ; [exact E1|]. rewrite seqZ_cons, Z.add_0_l by lia. cbn [for_each].
    erewrite bind_run by reflexivity. by rewrite E2.
  - rewrite C2. f_equal. replace (Z.to_nat (Z.of_nat k * 4096)) with (4096 * k)%nat by lia.
    rewrite splice_prefix by (by apply length_blocks). rewrite Hb. f_equal; [|f_equal; lia].
    rewrite replicate_S_end, concat_app.
    simpl. by rewrite app_nil_r.
Qed.
(** (error).  On a system without ftruncate the file is not extended but
    overwritten: its first [file_size] bytes, those it held before included,
    become copies of uninitialised memory. *)
Theorem extend_manually_overwrites buffer fd l f n :
  length buffer = 4096%nat → Store.contents f fd = Some l →
  ∃ f', extend_file_size_manually buffer fd (Z.of_nat n) f = Ok tt f' ∧
    Store.contents f' fd = Some (take n (concat (replicate (S (n / 4096)) buffer)) ++ drop n l).
Proof.
  intros Hb Hl. set (k := (n / 4096)%nat). set (m := (n mod 4096)%nat).
  assert (n = 4096 * k + m)%nat as En by (apply Nat.div_mod; lia).
  assert (m < 4096)%nat as Hm by (apply Nat.mod_upper_bound; lia).
  destruct (write_blocks buffer fd l f k Hb Hl) as (f1&E1&C1).
  assert (take n (concat (replicate (S k) buffer)) = concat (replicate k buffer) ++ take m buffer) as Et.
  { rewrite replicate_S_end, concat_app. cbn [concat]. rewrite app_nil_r, take_app.
    pose proof (length_blocks k buffer Hb) as Hk. rewrite Hk, take_ge by lia. do 2 f_equal. lia. }
  unfold extend_file_size_manually. change 4096 with (Z.of_nat 4096).
  rewrite <- Nat2Z.inj_div, <- Nat2Z.inj_mod. fold k m. change (Z.of_nat 4096) with 4096.
  rewrite (bind_run _ _ _ _ _ E1). cbv zeta. rewrite Et, Nat2Z.id. case_bool_decide as H0; cbn [when].
  - destruct (pwrite_law f1 fd (take m buffer) (Z.of_nat n - Z.of_nat m) _ C1 ltac:(lia)) as (f2&E2&C2&_).
    exists f2. split; [unfold modify; by rewrite E2|]. rewrite C2. f_equal.
    replace (Z.to_nat (Z.of_nat n - Z.of_nat m)) with (4096 * k)%nat by lia.
    rewrite splice_prefix by (by apply length_blocks). f_equal. f_equal. rewrite length_take. lia.
  - exists f1. split; [done|]. rewrite C1. replace m with 0%nat in * by lia.
    rewrite take_0, app_nil_r. do 3 f_equal. lia.
Qed.
End manual.

