(* ===== verification/Umapsort.v ===== *)
(** * The umapsort example (src/examples/umapsort/main.cpp)

    A program that maps a file, fills it with descending numbers, sorts the
    mapped array with the parallel sort of the C++ library and validates the
    result.  The sort is a parameter with the contract of [std::sort]; the
    OpenMP loops, whose iterations are independent, run in order.  The memory of
    a run with several files is taken to be the mapped files one behind the
    other; the theorems on the contents of the array are for one file. *)

From stdpp Require Import base list numbers strings gmap sorting.
From Stdlib Require Import Strings.Byte.
From S2P Require Import Prelude Store Config Bitmap SparseStore MapFile.
Local Open Scope Z_scope.

Section umapsort.
Context {F : Type} `{MapOS F} (sort : (Z → Z → bool) → list Z → list Z).

(** ** Initialisation *)

Fixpoint init_loop (rlen : Z) (idx : list Z) (region : list Z) : M F (list Z) :=
  match idx with
  | [] => mret region
  | i :: idx =>
      region ← write_at i (u64 (rlen - i)) region;
      init_loop rlen idx region
  end.

Definition initdata (region : list Z) (rlen : Z) : M F (list Z) :=
  init_loop rlen (seqZ 0 rlen) region.

(** ** Validation *)

(** the reads of [print_context], which then exits with status 1 *)
Definition print_context (i : Z) (region : list Z) (rlen : Z) : M F unit :=
  let js :=
    if bool_decide (i < 3) then seqZ 0 7
    else if bool_decide (u64 (rlen - 4) < i) then seqZ (u64 (rlen - 8)) (rlen - u64 (rlen - 8))
    else seqZ (i - 3) 7 in
  for_each (i :: js) (λ j, read_at region j ;; mret tt).

(** [failed] is a private variable of every thread and has no initial value:
    [uninit i] is what the thread of iteration [i] finds in it.  [false]: the
    process exits with status 1 *)
Fixpoint validate_loop (uninit : Z → bool) (expected : Z → Z) (rlen : Z) (idx : list Z)
    (region : list Z) : M F bool :=
  match idx with
  | [] => mret true
  | i :: idx =>
      if uninit i then validate_loop uninit expected rlen idx region
      else
        v ← read_at region i;
        if bool_decide (v ≠ expected i) then print_context i region rlen ;; mret false
        else validate_loop uninit expected rlen idx region
  end.

Definition validatedata (uninit : Z → bool) (sort_ascending : bool) (region : list Z) (rlen : Z)
    : M F bool :=
  validate_loop uninit
    (if sort_ascending then (λ i, u64 (i + 1)) else (λ i, u64 (rlen - i)))
    rlen (seqZ 0 rlen) region.

(** ** Several files *)

Definition pages_per_file (o : umt_optstruct_t) : Z := numpages o / u64 (numfiles o).
Definition pages_in_last_file (o : umt_optstruct_t) : Z :=
  u64 (pages_per_file o + numpages o mod u64 (numfiles o)).

Definition pagecount (o : umt_optstruct_t) (i : Z) : Z :=
  if bool_decide (i = numfiles o - 1) then pages_per_file o else pages_in_last_file o.

Definition bcount (o : umt_optstruct_t) (psize : Z) (i : Z) : Z := u64 (psize * pagecount o i).

(** the loop that maps the files one behind the other; [None]: a file cannot be
    mapped *)
Fixpoint map_files (o : umt_optstruct_t) (psize : Z) (idx : list Z) (range : Z)
    : M F (option (list (Z * Z))) :=
  match idx with
  | [] => mret (Some [])
  | i :: idx =>
      let mapsize := bcount o psize i in
      val ← map_file (filename o +:+ "." +:+ to_string i) true true (usemmap o) mapsize range;
      match val with
      | None => mret None
      | Some val =>
          rest ← map_files o psize idx (u64 (range + mapsize));
          mret ((λ l, (val, mapsize) :: l) <$> rest)
      end
  end.

Definition mappings (o : umt_optstruct_t) (psize range totalbytes : Z) : M F (option (list (Z * Z))) :=
  if bool_decide (1 < numfiles o) then map_files o psize (seqZ 0 (numfiles o)) range
  else mret (Some [(range, totalbytes)]).

(** the memory behind consecutive mappings *)
Definition memory_of (ms : list (Z * Z)) (f : F) : bytes := ms ≫= (λ m, view m.1 f).

Fixpoint unmap_all (mm : bool) (ms : list (Z * Z)) : M F bool :=
  match ms with
  | [] => mret true
  | (region, size) :: ms =>
      ok ← unmap_file mm size region;
      if ok : bool then unmap_all mm ms else mret false
  end.

(** ** [main]: the exit status and the array at the end *)

Definition sort_and_validate (uninit : Z → bool) (arr : list Z) (arraysize : Z)
    : M F (bool * list Z) :=
  first ← read_at arr 0;
  let sort_ascending := bool_decide (first ≠ 1) in
  let arr := if sort_ascending then sort Z.ltb arr else sort Z.gtb arr in
  ok ← validatedata uninit sort_ascending arr arraysize;
  mret (ok, arr).

Definition main (uninit : Z → bool) (psize : Z) (o : umt_optstruct_t) : M F (Z * list Z) :=
  let totalbytes := u64 (numpages o * psize) in
  range ← map_file (filename o) true true (usemmap o) totalbytes 0;
  match range with
  | None => mret (-1, [])
  | Some range =>
      ms ← mappings o psize range totalbytes;
      match ms with
      | None => mret (-1, [])
      | Some ms =>
          f ← get;
          let arraysize := totalbytes / 8 in
          let arr := words_of (Z.to_nat arraysize) (memory_of ms f) in
          arr ← (if noinit o then mret arr else initdata arr arraysize);
          '(ok, arr) ← (if initonly o then mret (true, arr)
                        else sort_and_validate uninit arr arraysize);
          if negb ok then mret (1, arr)
          else
            ok ← unmap_all (usemmap o) ms;
            mret (if ok : bool then 0 else -1, arr)
      end
  end.
End umapsort.

(** ** The contract of [std::sort] *)

Record sort_contract (sort : (Z → Z → bool) → list Z → list Z) : Prop := {
  sort_perm : ∀ lt l, sort lt l ≡ₚ l;
  sort_sorted : ∀ lt l,
    (∀ a, lt a a = false) → (∀ a b c, lt a b = true → lt b c = true → lt a c = true) →
    (∀ a b, lt a b = false → lt b a = false → a = b) →
    Sorted (λ a b, lt b a = false) (sort lt l)
}.

Section properties.
Context {F : Type} `{!MapOS F} (sort : (Z → Z → bool) → list Z → list Z).
Hypothesis Hsort : sort_contract sort.

(** n, n - 1, ..., 1 *)
Definition descending (n : Z) : list Z := (λ i, n - i) <$> seqZ 0 n.

Lemma descending_reverse n : descending n = reverse (seqZ 1 n).
Proof.
  apply list_eq_same_length with (n := Z.to_nat n);
    [by rewrite length_reverse, length_seqZ|by unfold descending; rewrite length_fmap, length_seqZ|].
  intros i x y Hi Hx Hy. apply list_lookup_fmap_Some in Hx as (z&->&[-> Hz]%lookup_seqZ).
  rewrite reverse_lookup in Hy by (rewrite length_seqZ; lia).
  rewrite length_seqZ in Hy. apply lookup_seqZ in Hy as [-> Hb]. lia.
Qed.

(** ** Loops *)

(** a list with the values of [g] at the indices below [k] *)
Lemma init_loop_run rlen k i (region : list Z) (f : F) :
  Z.of_nat (length region) = rlen → 0 ≤ i → i + Z.of_nat k = rlen →
  (∀ j, 0 ≤ j < i → region !! Z.to_nat j = Some (u64 (rlen - j))) →
  ∃ region', init_loop rlen (seqZ i (Z.of_nat k)) region f = Ok region' f ∧
    Z.of_nat (length region') = rlen ∧
    ∀ j, 0 ≤ j < rlen → region' !! Z.to_nat j = Some (u64 (rlen - j)).
Proof.
  revert i region. induction k as [|k IH]; intros i region Hlen Hi Hk Hdone.
  - exists region. split_and!; [done|done|]. intros j Hj. apply Hdone. lia.
  - rewrite seqZ_cons by lia. simpl init_loop.
    rewrite (bind_run _ _ _ _ _ (write_at_run region i _ f ltac:(lia))).
    replace (Z.pred (Z.of_nat (S k))) with (Z.of_nat k) by lia.
    apply IH; [by rewrite length_insert|lia|lia|]. intros j Hj.
    destruct (decide (j = i)) as [->|Hne].
    + apply list_lookup_insert_eq. lia.
    + rewrite list_lookup_insert_ne by lia. apply Hdone. lia.
Qed.

Lemma initdata_run rlen region (f : F) :
  Z.of_nat (length region) = rlen → rlen < 2 ^ 64 →
  initdata region rlen f = Ok (descending rlen) f.
Proof.
  intros Hlen Hlt. unfold initdata.
  destruct (init_loop_run rlen (length region) 0 region f) as (region'&E&Hl&Hv); try lia.
  rewrite Hlen in E. rewrite E. f_equal. apply list_eq_same_length with (n := length region);
    [by unfold descending; rewrite length_fmap, length_seqZ; lia|lia|].
  intros i x y Hi Hx Hy. specialize (Hv (Z.of_nat i) ltac:(lia)).
  rewrite Nat2Z.id in Hv. rewrite u64_small in Hv by (unfold is_u64; lia).
  apply list_lookup_fmap_Some in Hy as (z&->&[-> Hz]%lookup_seqZ). simplify_eq. lia.
Qed.

Lemma validate_loop_ok uninit expected rlen k i (region : list Z) (f : F) :
  0 ≤ i → (∀ j, i ≤ j < i + Z.of_nat k → region !! Z.to_nat j = Some (expected j)) →
  validate_loop uninit expected rlen (seqZ i (Z.of_nat k)) region f = Ok true f.
Proof.
  revert i. induction k as [|k IH]; intros i Hi Hv; [done|].
  rewrite seqZ_cons by lia. replace (Z.pred (Z.of_nat (S k))) with (Z.of_nat k) by lia. simpl.
  assert (validate_loop uninit expected rlen (seqZ (Z.succ i) (Z.of_nat k)) region f = Ok true f) as IHk
    by (apply IH; [lia|]; intros j Hj; apply Hv; lia).
  destruct (uninit i); [done|].
  rewrite (bind_run _ _ _ _ _ (read_at_run region i _ f Hi (Hv i ltac:(lia)))).
  by rewrite bool_decide_false by auto.
Qed.

(** ** Sorting a permutation of 1, ..., n *)

Lemma sorted_weaken (R S : Z → Z → Prop) l :
  (∀ a b, R a b → S a b) → Sorted R l → Sorted S l.
Proof.
  intros HRS. induction 1 as [|x l Hs IH Hd]; constructor; [done|]. destruct Hd; constructor; auto.
Qed.

Lemma sorted_fmap_seqZ (R : Z → Z → Prop) g m n :
  (∀ i, R (g i) (g (i + 1))) → Sorted R (g <$> seqZ m n).
Proof.
  intros HR. destruct (decide (0 ≤ n)) as [Hn|Hn]; [|rewrite seqZ_nil by lia; constructor].
  rewrite <- (Z2Nat.id n) by done. generalize (Z.to_nat n) as k. clear n Hn. intros k. revert m.
  induction k as [|k IH]; intros m; [constructor|]. rewrite seqZ_cons by lia.
  replace (Z.pred (Z.of_nat (S k))) with (Z.of_nat k) by lia. constructor; [apply IH|].
  destruct k; [constructor|]. rewrite seqZ_cons by lia. constructor. apply HR.
Qed.

Lemma sort_up l n : l ≡ₚ seqZ 1 n → sort Z.ltb l = seqZ 1 n.
Proof.
  intros Hl. apply (Sorted_unique Z.le).
  - eapply (sorted_weaken (λ a b, (b <? a) = false)); [lia|].
    apply (sort_sorted _ Hsort); intros; lia.
  - rewrite <- (list_fmap_id (seqZ 1 n)). apply sorted_fmap_seqZ. intros. simpl. lia.
  - by rewrite (sort_perm _ Hsort).
Qed.

Lemma sort_down l n : l ≡ₚ seqZ 1 n → sort Z.gtb l = descending n.
Proof.
  intros Hl. assert (AntiSymm (=) (flip Z.le)) by (intros a b ??; unfold flip in *; lia).
  apply (Sorted_unique (flip Z.le)).
  - eapply (sorted_weaken (λ a b, (b >? a) = false)); [unfold flip; lia|].
    apply (sort_sorted _ Hsort); intros; lia.
  - apply sorted_fmap_seqZ. intros. unfold flip. lia.
  - by rewrite (sort_perm _ Hsort), Hl, descending_reverse, reverse_Permutation.
Qed.

(** A permutation of 1, ..., n is sorted, upwards unless it starts with 1, and
    the result is accepted. *)
Lemma sort_and_validate_ok uninit l n (f : F) :
  0 < n < 2 ^ 63 → l ≡ₚ seqZ 1 n →
  sort_and_validate sort uninit l n f =
    Ok (true, if bool_decide (head l = Some 1) then descending n else seqZ 1 n) f.
Proof.
  intros Hn Hl. destruct l as [|x l'].
  { apply Permutation_nil_l in Hl. by rewrite seqZ_cons in Hl by lia. }
  unfold sort_and_validate. erewrite bind_run by reflexivity.
  set (l := x :: l') in *.
  case_bool_decide as Hx; case_bool_decide as Hx'; simpl in Hx'; simplify_eq; cbv zeta.
  - rewrite (sort_up l n Hl). erewrite bind_run; [reflexivity|].
    unfold validatedata. replace (seqZ 0 n) with (seqZ 0 (Z.of_nat (Z.to_nat n))) by (f_equal; lia).
    apply validate_loop_ok; [done|]. intros j Hj. rewrite u64_small by (unfold is_u64; lia).
    apply lookup_seqZ. lia.
  - rewrite (sort_down l n Hl). erewrite bind_run; [reflexivity|].
    unfold validatedata. replace (seqZ 0 n) with (seqZ 0 (Z.of_nat (Z.to_nat n))) by (f_equal; lia).
    apply validate_loop_ok; [done|]. intros j Hj. rewrite u64_small by (unfold is_u64; lia).
    unfold descending. rewrite list_lookup_fmap.
    rewrite (proj2 (lookup_seqZ 0 n (Z.to_nat j) j)) by lia. done.
Qed.
(** ** [main] *)

Lemma unmap_all_run mm ms (f : F) : ∃ ok f', unmap_all mm ms f = Ok ok f'.
Proof.
  revert f. induction ms as [|[r n] ms IH]; intros f; [by eexists _, _|]. simpl.
  unfold unmap_file, mbind, M_bind. simpl. destruct (unmap_call mm r n f) as [f1|]; [apply IH|].
  by eexists _, _.
Qed.

Lemma map_file_returns name ni hw mm n a (f : F) : ∃ r f', map_file name ni hw mm n a f = Ok r f'.
Proof.
  unfold map_file, when, mbind, M_bind, get, modify, mret, M_ret.
  destruct ni; repeat (case_match; simplify_eq; try by eexists _, _).
Qed.

Lemma map_files_run o psize idx range (f : F) : ∃ ms f', map_files o psize idx range f = Ok ms f'.
Proof.
  revert range f. induction idx as [|i idx IH]; intros range f; [by eexists _, _|]. simpl.
  destruct (map_file_returns (filename o +:+ "." +:+ to_string i) true true (usemmap o)
    (bcount o psize i) range f) as ([val|]&f1&E); rewrite (bind_run _ _ _ _ _ E); [|by eexists _, _].
  destruct (IH (u64 (range + bcount o psize i)) f1) as (rest&f2&E2).
  rewrite (bind_run _ _ _ _ _ E2). by eexists _, _.
Qed.

Lemma mappings_run o psize range total (f : F) :
  ∃ ms f', mappings o psize range total f = Ok ms f'.
Proof. unfold mappings. case_bool_decide; [apply map_files_run|by eexists _, _]. Qed.


(** (bounds).  The files of a run with several files are given
    [pages_in_last_file] pages each, except for the last one, which gets
    [pages_per_file]: together they map (numfiles - 2) times the remainder too
    many pages, beyond the range reserved for the array. *)
Theorem split_overshoots o :
  1 < numfiles o < 2 ^ 63 → 0 ≤ numpages o < 2 ^ 64 →
  foldr Z.add 0 (pagecount o <$> seqZ 0 (numfiles o)) =
    numpages o + (numfiles o - 2) * (numpages o mod numfiles o).
Proof.
  intros Hf Hp. unfold pagecount, pages_in_last_file, pages_per_file.
  rewrite (u64_small (numfiles o)) by (unfold is_u64; lia).
  set (q := numpages o / numfiles o). set (r := numpages o mod numfiles o).
  assert (numpages o = numfiles o * q + r) as Hqr by (apply Z.div_mod; lia).
  assert (0 ≤ r < numfiles o) as Hr by (apply Z.mod_pos_bound; lia).
  assert (0 ≤ q) as Hq by (apply Z.div_pos; lia).
  rewrite (u64_small (q + r)) by (unfold is_u64; nia).
  assert (∀ k, 0 ≤ k ≤ numfiles o → ∀ a, a + k = numfiles o →
    foldr Z.add 0 ((λ i, if bool_decide (i = numfiles o - 1) then q else q + r) <$> seqZ a k) =
      if bool_decide (k = 0) then 0 else (k - 1) * (q + r) + q) as H.
  { intros k Hk. rewrite <- (Z2Nat.id k) by lia. generalize (Z.to_nat k) as j. clear k Hk.
    intros j. induction j as [|j IH]; intros a Ha; [done|].
    rewrite seqZ_cons by lia. replace (Z.pred (Z.of_nat (S j))) with (Z.of_nat j) by lia.
    rewrite fmap_cons. simpl foldr. rewrite IH by lia.
    repeat case_bool_decide; lia. }
  rewrite (H (numfiles o)) by lia. rewrite bool_decide_false by lia. rewrite Hqr. nia.
Qed.
(** *** Without initialisation *)

Lemma reads_run {A} (l : list A) idx (f : F) :
  (∀ j, j ∈ idx → 0 ≤ j < Z.of_nat (length l)) →
  for_each idx (λ j, read_at l j ;; mret tt) f = Ok tt f.
Proof.
  induction idx as [|j idx IH]; intros Hj; [done|]. simpl.
  destruct (lookup_lt_is_Some_2 l (Z.to_nat j)) as [x Hx]; [specialize (Hj j); set_solver by lia|].
  erewrite bind_run; [apply IH; set_solver|].
  assert (0 ≤ j) as H0 by (apply Hj; set_solver).
  by rewrite (bind_run _ _ _ _ _ (read_at_run l j x f H0 Hx)).
Qed.

(** (error).  The option --noinit, documented to use a previously initialised
    file, never works: [main] maps the file with [need_init], which removes and
    recreates it, so that the program sorts zeros and its own validation fails
    with status 1. *)
Theorem noinit_always_fails `{!MapLaws F} uninit psize o f code arr f' :
  noinit o = true → initonly o = false → numfiles o = 1 →
  56 ≤ u64 (numpages o * psize) → uninit 0 = false → unlink_ok (filename o) f →
  main sort uninit psize o f = Ok (code, arr) f' →
  code = -1 ∧ arr = [] ∨ code = 1 ∧ arr = replicate (Z.to_nat (u64 (numpages o * psize) / 8)) 0.
Proof.
  intros Hno Hio Hnf Hsz Hu Hul E. pose proof (u64_range (numpages o * psize)) as Hr. unfold is_u64 in Hr.
  unfold main in E. cbv zeta in E. set (n := u64 (numpages o * psize) / 8) in *.
  assert (7 ≤ n) as Hn by (apply Z.div_le_lower_bound; lia).
  apply bind_Ok in E as ([range|]&f1&E1&E); [|inv_ok; by left].
  unfold mappings in E. rewrite bool_decide_false in E by lia.
  erewrite bind_run in E by reflexivity. cbn beta iota in E.
  erewrite bind_run in E by reflexivity. rewrite Hno, Hio in E.
  apply map_file_init_run in E1; [|lia|done].
  unfold memory_of in E. cbn [mbind list_bind fst app] in E. rewrite app_nil_r, E1, words_of_zeros in E.
  erewrite bind_run in E by reflexivity. set (zs := replicate (Z.to_nat n) 0) in *.
  assert (length zs = Z.to_nat n) as Hlen by apply length_replicate.
  assert (∀ i, 0 ≤ i < n → zs !! Z.to_nat i = Some 0) as Hz
    by (intros i Hi; apply lookup_replicate_2; lia).
  assert (sort Z.ltb zs = zs) as Hs.
  { symmetry. apply replicate_Permutation. symmetry. apply (sort_perm _ Hsort). }
  assert (sort_and_validate sort uninit zs n f1 = Ok (false, zs) f1) as Hsv.
  { unfold sort_and_validate.
    rewrite (bind_run _ _ _ _ _ (read_at_run zs 0 0 f1 ltac:(lia) (Hz 0 ltac:(lia)))).
    rewrite bool_decide_true by done. cbv zeta. rewrite Hs.
    erewrite bind_run; [reflexivity|]. unfold validatedata. rewrite seqZ_cons by lia. simpl.
    rewrite Hu. rewrite (bind_run _ _ _ _ _ (read_at_run zs 0 0 f1 ltac:(lia) (Hz 0 ltac:(lia)))).
    rewrite bool_decide_true by done. unfold print_context. rewrite bool_decide_true by lia.
    erewrite bind_run; [reflexivity|]. apply reads_run.
    intros j [->|[? ?]%elem_of_seqZ]%elem_of_cons; lia. }
  rewrite (bind_run _ _ _ _ _ Hsv) in E. simpl in E. inv_ok. by right.
Qed.
End properties.

(** ** Witnesses: insertion sort *)

Fixpoint insert_by (lt : Z → Z → bool) (x : Z) (l : list Z) : list Z :=
  match l with
  | [] => [x]
  | y :: l' => if lt y x then y :: insert_by lt x l' else x :: l
  end.
Definition sort_by (lt : Z → Z → bool) (l : list Z) : list Z := foldr (insert_by lt) [] l.

Lemma insert_by_perm lt x l : insert_by lt x l ≡ₚ x :: l.
Proof.
  induction l as [|y l IH]; simpl; [done|]. destruct (lt y x); [|done].
  rewrite IH. apply Permutation_swap.
Qed.

Lemma sort_by_contract : sort_contract sort_by.
Proof.
  split.
  - intros lt l. induction l as [|x l IH]; simpl; [done|]. by rewrite insert_by_perm, IH.
  - intros lt l Hirr Htr Htot. induction l as [|x l IH]; simpl; [constructor|].
    induction IH as [|y k Hs IHk Hd]; simpl; [by repeat constructor|].
    destruct (lt y x) eqn:E.
    + constructor; [done|]. destruct k as [|z k]; simpl.
      * constructor. destruct (lt x y) eqn:E'; [|done]. by rewrite <- (Hirr y), (Htr y x y).
      * destruct (lt z x); constructor; [by inversion Hd|].
        destruct (lt x y) eqn:E'; [|done]. by rewrite <- (Hirr y), (Htr y x y).
    + by constructor; [constructor|constructor].
Qed.

Definition no_files : procfs := mkProc ∅ ∅ ∅.


Lemma split_overshoots_witness :
  foldr Z.add 0 (pagecount (with_numfiles 3 (sort_options false)) <$> seqZ 0 3) = 2 + 1 * 2.
Proof. apply (split_overshoots (with_numfiles 3 (sort_options false))); vm_compute; intuition discriminate. Defined.

Lemma noinit_always_fails_witness :
  match main sort_by (λ _, false) 32 (sort_options true) no_files with
  | Ok (code, arr) _ => code = -1 ∧ arr = [] ∨ code = 1 ∧ arr = replicate 8 0
  | _ => False
  end.
Proof.
  destruct (main sort_by (λ _, false) 32 (sort_options true) no_files) as [[code arr] f'| | |] eqn:E;
    [|vm_compute in E; discriminate E..].
  change (replicate 8 0) with (replicate (Z.to_nat (u64 (numpages (sort_options true) * 32) / 8)) 0).
  apply (noinit_always_fails sort_by sort_by_contract (λ _, false) 32 (sort_options true) no_files code arr f');
    [vm_compute; first [reflexivity|discriminate]..|right; vm_compute; reflexivity|exact E].
Defined.
