(* ===== verification/Pipeline.v ===== *)
(** * From the generator to the search
    (src/examples/bfs/main.cpp and src/examples/bfs/utility/file.hpp)

    The three programs of the breadth-first search example in a row: the edge
    lists that generate_edge_list writes are ingested into a graph file, which
    run_bfs extends to whole umap pages, maps and searches.  A graph file is the
    list of its 64-bit words. *)

From stdpp Require Import base list numbers strings sets.
From Stdlib Require Import Floats.SpecFloat.
From S2P Require Import Prelude Bitmap Bfs Ingest Hash Rmat.
Local Open Scope Z_scope.

(** ** The graph file *)

(** [extend_file_size], for sizes in whole words *)
Definition extend_file_size (file : list Z) (file_size : Z) : list Z :=
  if bool_decide (8 * Z.of_nat (length file) < file_size)
  then file ++ replicate (Z.to_nat (file_size / 8) - length file) 0
  else file.

(** [map_graph] with umap: the index array, of which n + 1 words are used, and
    the edge array behind it *)
Definition map_graph (umap_page_size num_vertices num_edges : Z) (file : list Z) : list Z * list Z :=
  let file := extend_file_size file (aligned_graph_size umap_page_size num_vertices num_edges) in
  let edges_offset := Z.to_nat (num_vertices + 1) in
  (take edges_offset file, drop edges_offset file).

Section pipeline.
Context {R : Type} (dis : R → spec_float * R) (seed_rng : Z → R).

(** [generate_edge_list], [ingest_edge_list] on its files, and [run_bfs] with the
    numbers of vertices and edges the latter prints; [None] is an abort of the
    generator *)
Definition pipeline (o : rmat_option_t) (nthreads : nat) (umap_page_size : Z) (ist : Ingest)
    (bst : BfsState) : option (outcome BfsState Z) :=
  files ← generate_main dis seed_rng o nthreads;
  match ingest_main ((λ es, Some (print_edges es)) <$> files) ist with
  | Ok (max_id, num_edges) ist' =>
      let '(index, edges) := map_graph umap_page_size (max_id + 1) num_edges (graph_map ist') in
      Some (bfs_main (max_id + 1) index edges bst)
  | _ => None
  end.
End pipeline.

(** ** Specification: paths in an edge list *)

Fixpoint edge_path (E : list (Z * Z)) (root k v : nat) : Prop :=
  match k with
  | O => v = root
  | S k => ∃ u, edge_path E root k u ∧ (Z.of_nat u, Z.of_nat v) ∈ E
  end.

(** the label of [v]: its distance, or 65535 *)
Definition right_level (E : list (Z * Z)) (root v : nat) (l : Z) : Prop :=
  (l = 65535 ∧ ∀ k, ¬ edge_path E root k v) ∨
  (∃ k, l = Z.of_nat k ∧ edge_path E root k v ∧ ∀ j, (j < k)%nat → ¬ edge_path E root j v).

(** ** Padding *)

Lemma extend_file_size_pad file size :
  ∃ k, extend_file_size file size = file ++ replicate k 0.
Proof.
  unfold extend_file_size. case_bool_decide; [by eexists|]. exists 0%nat. by rewrite app_nil_r.
Qed.

Lemma map_graph_pad psize n m g :
  (S n ≤ length g)%nat →
  ∃ k, map_graph psize (Z.of_nat n) m g = (rows_of n g, edges_part n g ++ replicate k 0).
Proof.
  intros Hg. unfold map_graph. destruct (extend_file_size_pad g
    (aligned_graph_size psize (Z.of_nat n) m)) as [k ->]. exists k.
  replace (Z.to_nat (Z.of_nat n + 1)) with (S n) by lia.
  by rewrite take_app_le, drop_app_le by lia.
Qed.

Lemma aligned_graph_size_bound psize n m :
  0 < psize < 2 ^ 62 → 0 ≤ n → 0 ≤ m → n + 1 + m < 2 ^ 58 →
  0 ≤ aligned_graph_size psize n m < 2 ^ 63.
Proof.
  intros Hp Hn Hm Hb. unfold aligned_graph_size. rewrite (u64_small (n + 1 + m)), u64_small by (unfold is_u64; lia).
  pose proof (Z.mod_pos_bound ((n + 1 + m) * 8) psize ltac:(lia)).
  case_bool_decide; [lia|]. rewrite u64_small by (unfold is_u64; lia). lia.
Qed.

(** the extension does not grow beyond the aligned size *)
Lemma map_graph_length psize n m g :
  0 < psize < 2 ^ 62 → 0 ≤ n → 0 ≤ m → n + 1 + m < 2 ^ 58 → Z.of_nat (length g) = n + 1 + m →
  Z.of_nat (length (map_graph psize n m g).2) < 2 ^ 64.
Proof.
  intros Hp Hn Hm Hb Hg. unfold map_graph, extend_file_size. simpl. rewrite length_drop.
  pose proof (aligned_graph_size_bound psize n m Hp Hn Hm Hb) as Hs.
  pose proof (Z.div_lt_upper_bound (aligned_graph_size psize n m) 8 (2 ^ 60) ltac:(lia) ltac:(lia)).
  case_bool_decide; rewrite ?length_app, ?length_replicate; lia.
Qed.

Section padding.
Context (n : nat) (ix es : list Z) (Hcsr : csr_ok n ix es) (Hn : (0 < n)%nat).

Lemma csr_pad k : csr_ok n ix (es ++ replicate k 0).
Proof.
  destruct Hcsr as [H1 H2 H3]. split; [done| |].
  - intros u lo hi Hlo Hhi. rewrite length_app. destruct (H2 u lo hi Hlo Hhi). lia.
  - intros i v [Hv|[_ Hv]]%lookup_app_Some; [by eapply H3|].
    apply lookup_replicate in Hv as [-> _]. lia.
Qed.

Lemma targets_pad k u : targets ix (es ++ replicate k 0) u = targets ix es u.
Proof.
  unfold targets. destruct (ix !! u) as [lo|] eqn:Hlo; [|done].
  destruct (ix !! S u) as [hi|] eqn:Hhi; [|done].
  destruct (csr_rows _ _ _ Hcsr _ _ _ Hlo Hhi).
  rewrite drop_app_le, take_app_le by (rewrite ?length_drop; lia). done.
Qed.
End padding.

(** ** Paths of the arrays are paths of the edge list *)

Section paths.
Context (n : nat) (E : list (Z * Z)) (ix es : list Z).
Context (Hcsr : csr_ok n ix es) (HE : edges_below n E).
Context (Ht : ∀ u, (u < n)%nat → targets ix es u = targets_of E u).

Lemma edge_iff u v : edge ix es u v ↔ (Z.of_nat u, Z.of_nat v) ∈ E.
Proof.
  unfold edge. split.
  - intros Hv. destruct (decide (u < n)%nat) as [Hu|Hu].
    + rewrite Ht in Hv by done. unfold targets_of in Hv.
      apply list_elem_of_fmap in Hv as ([s t]&Hv&[Hs Hin]%list_elem_of_filter). simpl in *. by subst.
    + unfold targets in Hv. rewrite (lookup_ge_None_2 ix (S u)) in Hv
        by (rewrite (csr_index _ _ _ Hcsr); lia). destruct (ix !! u); by apply elem_of_nil in Hv.
  - intros Hin. unfold edges_below in HE. rewrite Forall_forall in HE.
    specialize (HE _ Hin). simpl in HE. rewrite Ht by lia. unfold targets_of.
    apply list_elem_of_fmap. exists (Z.of_nat u, Z.of_nat v). split; [done|]. by apply list_elem_of_filter.
Qed.

Lemma path_iff root k v : path ix es root k v ↔ edge_path E root k v.
Proof.
  revert v. induction k as [|k IH]; intros v; simpl; [done|].
  split; intros (u&Hp&He); exists u; (split; [by apply IH|by apply edge_iff]).
Qed.

Lemma labelled_right root c L :
  labelled n ix es root c L → ∀ v l, L !! v = Some l → right_level E root v l.
Proof.
  intros (_&_&HL) v l Hl. destruct (HL v l Hl) as [[-> Hno]|(k&->&_&Hp&Hmin)].
  - left. split; [done|]. intros k. rewrite <- path_iff. apply Hno.
  - right. exists k. split; [done|]. split; [by apply path_iff|].
    intros j Hj. rewrite <- path_iff. by apply Hmin.
Qed.
End paths.

(** ** The edges that reach the search *)

Lemma max_below B E m c :
  Forall (λ '(s, t), 0 ≤ s < B ∧ 0 ≤ t < B) E → m < B →
  (foldl (λ '(max_id, num_edges) '(src, trg),
     (Z.max trg (Z.max src max_id), u64 (num_edges + 1))) (m, c) E).1 < B.
Proof.
  intros HE. revert m c. induction HE as [|[s t] E [Hs Ht] _ IH]; intros m c Hm; [done|].
  simpl. apply IH. lia.
Qed.

(** the ingestion reads the edges the generator wrote *)
Lemma files_edges (files : list (list (Z * Z))) :
  Forall (λ e, is_u64 e.1 ∧ is_u64 e.2) (concat files) →
  (print_edges <$> files) ≫= edges_of_text = concat files.
Proof.
  induction files as [|es files IH]; intros H; [done|]. simpl in *.
  apply Forall_app in H as [H1 H2]. change (edges_of_text (print_edges es) ++
    ((print_edges <$> files) ≫= edges_of_text) = es ++ concat files).
  by rewrite edge_text_roundtrip, IH.
Qed.

Lemma total_length {A} (files : list (list A)) :
  foldr Z.add 0 ((λ l, Z.of_nat (length l)) <$> files) = Z.of_nat (length (concat files)).
Proof.
  induction files as [|l files IH]; [done|]. rewrite fmap_cons. cbn [foldr concat].
  rewrite IH, length_app. lia.
Qed.

(** edges with small numbers in both directions *)
Lemma files_below B (b : bool) (files : list (list (Z * Z))) :
  Forall (λ l, ∃ es, l = (if b then es ≫= λ e, [e; swap e] else es) ∧
    Forall (λ e, 0 ≤ e.1 < B ∧ 0 ≤ e.2 < B) es) files →
  Forall (λ '(s, t), 0 ≤ s < B ∧ 0 ≤ t < B) (concat files).
Proof.
  induction 1 as [|l files (es&->&Hes) _ IH]; simpl; [constructor|]. apply Forall_app. split; [|done].
  destruct b; [|by eapply Forall_impl; [exact Hes|]; intros []].
  induction Hes as [|[s t] es [Hs Ht] _ IHes]; [constructor|]. simpl.
  by repeat constructor; simpl in *; try lia.
Qed.

Section composition.
Context {R : Type} (dis : R → spec_float * R) (seed_rng : Z → R).

(** the search of a graph in memory, with any number of zeros behind the edges *)
Lemma search_of_graph n E g k bst :
  csr_ok n (rows_of n g) (edges_part n g) →
  (∀ u, (u < n)%nat → targets (rows_of n g) (edges_part n g) u = targets_of E u) →
  edges_below n E → E ≠ [] → Z.of_nat n < k_infinite_level →
  Z.of_nat (length (edges_part n g ++ replicate k 0)) < 2 ^ 64 →
  ∃ root c bst', bfs_main (Z.of_nat n) (rows_of n g) (edges_part n g ++ replicate k 0) bst = Ok (Z.of_nat c) bst' ∧
    (∃ t, (Z.of_nat root, t) ∈ E) ∧ (∀ e, e ∈ E →
      Z.of_nat root ≤ e.1 < Z.of_nat (length (level bst')) ∧ e.2 < Z.of_nat (length (level bst'))) ∧
    (∀ v l, level bst' !! v = Some l → right_level E root v l) ∧
    is_Some (count_level (Z.of_nat c) (level bst')).
Proof.
  intros Hcsr Ht Hbelow Hne Hn H64.
  assert (∃ s t, (Z.of_nat s, Z.of_nat t) ∈ E ∧ (s < n)%nat) as (s&t&Hst&Hs).
  { destruct E as [|[s t] E']; [done|]. unfold edges_below in Hbelow.
    apply Forall_cons in Hbelow as [[Hs Ht'] _]. exists (Z.to_nat s), (Z.to_nat t).
    rewrite !Z2Nat.id by lia. split; [left|lia]. }
  pose proof (csr_pad n _ _ Hcsr ltac:(lia) k) as Hcsr'.
  assert (∀ u, (u < n)%nat → targets (rows_of n g) (edges_part n g ++ replicate k 0) u = targets_of E u) as Ht'.
  { intros u Hu. rewrite (targets_pad n _ _ Hcsr) by lia. by apply Ht. }
  pose proof (edge_iff n E _ _ Hcsr' Hbelow Ht') as Hedge.
  destruct (bfs_main_run n _ _ Hcsr' H64 bst Hn) as (root&c&bst'&[[v Hv] Hfirst]&Eb&Hlab&Hcount).
  { exists s, t. by apply Hedge. }
  exists root, c, bst'. split_and!; [done| | | |done].
  - exists (Z.of_nat v). by apply Hedge.
  - intros [a b] Hin. unfold edges_below in Hbelow. rewrite Forall_forall in Hbelow.
    destruct (Hbelow (a, b) Hin), Hlab as [-> _]. simpl.
    destruct (decide (a < Z.of_nat root)); [|lia].
    destruct (Hfirst (Z.to_nat a) (Z.to_nat b)); [lia|]. apply Hedge. by rewrite !Z2Nat.id by lia.
  - by apply (labelled_right n E _ _ Hcsr' Hbelow Ht' root c).
Qed.

(** ingestion and search of any edges with numbers below 2^15 *)
Lemma search_of_edges E texts psize ist bst :
  texts ≫= edges_of_text = E → E ≠ [] → Z.of_nat (length E) < 2 ^ 57 →
  Forall (λ '(s, t), 0 ≤ s < 2 ^ 15 ∧ 0 ≤ t < 2 ^ 15) E → 0 < psize < 2 ^ 62 →
  ∃ max_id m ist' index edges root c bst',
    ingest_main (Some <$> texts) ist = Ok (max_id, m) ist' ∧
    map_graph psize (max_id + 1) m (graph_map ist') = (index, edges) ∧
    bfs_main (max_id + 1) index edges bst = Ok (Z.of_nat c) bst' ∧
    (∃ t, (Z.of_nat root, t) ∈ E) ∧ (∀ e, e ∈ E →
      Z.of_nat root ≤ e.1 < Z.of_nat (length (level bst')) ∧ e.2 < Z.of_nat (length (level bst'))) ∧
    ∀ v l, level bst' !! v = Some l → right_level E root v l.
Proof.
  intros HtE Hne Hlen Hb Hp.
  assert (Forall (λ '(s, t), 0 ≤ s ∧ 0 ≤ t) E) as H0
    by (eapply Forall_impl; [exact Hb|]; intros []; lia).
  destruct (max_and_count_run E 0 0 H0 ltac:(lia) ltac:(lia)) as (Hm0&_&HE).
  pose proof (max_below _ E 0 0 Hb ltac:(lia)) as HmB. fold (max_and_count E) in *.
  destruct (ingest_main_run texts ist) as (ist'&Ei&Hm&Hcsr&Ht&Hlg); rewrite HtE in *; [lia|lia|].
  destruct (max_and_count E) as [mx m] eqn:Emc. simpl in *. subst m.
  set (n := Z.to_nat (mx + 1)) in *. assert (mx + 1 = Z.of_nat n) as Hn by lia.
  assert (edges_below n E) as Hbelow by (eapply Forall_impl; [exact HE|]; intros []; lia).
  destruct (map_graph_pad psize n (Z.of_nat (length E)) (graph_map ist')) as [k Hmap]; [lia|].
  assert (Z.of_nat (length (edges_part n (graph_map ist') ++ replicate k 0)) < 2 ^ 64) as H64.
  { pose proof (map_graph_length psize (Z.of_nat n) (Z.of_nat (length E)) (graph_map ist')) as H.
    rewrite Hmap in H. apply H; lia. }
  destruct (search_of_graph n E _ k bst Hcsr Ht Hbelow Hne ltac:(unfold k_infinite_level; lia) H64)
    as (root&c&bst'&Eb&Hroot&Hmin&HL&_).
  exists mx, (Z.of_nat (length E)), ist', (rows_of n (graph_map ist')),
    (edges_part n (graph_map ist') ++ replicate k 0), root, c, bst'. rewrite Hn.
  by split_and!.
Qed.

(** (functional).  The example as a whole: for every option set that asks for
    some edges among at most 2^15 vertices, every number of threads and whatever
    the random numbers, the generator, the ingestion of its files and the search
    of the resulting graph file all succeed, and the search labels every vertex
    with its distance, in the graph of the generated edges, from the smallest
    vertex that has an outgoing edge. *)
Theorem pipeline_distances o nthreads psize ist bst :
  options_ok o → vertex_scale o ≤ 15 → 0 < edge_count o < 2 ^ 56 → (0 < nthreads)%nat →
  0 < psize < 2 ^ 62 →
  ∃ files root c bst', generate_main dis seed_rng o nthreads = Some files ∧
    pipeline dis seed_rng o nthreads psize ist bst = Some (Ok (Z.of_nat c) bst') ∧
    (∃ t, (Z.of_nat root, t) ∈ concat files) ∧
    (∀ e, e ∈ concat files →
      Z.of_nat root ≤ e.1 < Z.of_nat (length (level bst')) ∧ e.2 < Z.of_nat (length (level bst'))) ∧
    ∀ v l, level bst' !! v = Some l → right_level (concat files) root v l.
Proof.
  intros Ho Hs He Hn Hp.
  destruct (generate_main_run dis seed_rng o nthreads Ho Hn) as (files&Eg&Hlen&Hf).
  rewrite total_length in Hlen. apply files_below in Hf.
  assert (2 ^ vertex_scale o ≤ 2 ^ 15) as H15 by (apply Z.pow_le_mono_r; lia).
  assert (Forall (λ '(s, t), 0 ≤ s < 2 ^ 15 ∧ 0 ≤ t < 2 ^ 15) (concat files)) as Hb
    by (eapply Forall_impl; [exact Hf|]; intros []; lia).
  destruct (search_of_edges (concat files) (print_edges <$> files) psize ist bst)
    as (mx&m&ist'&ix&es&root&c&bst'&Ei&Em&Eb&Hroot&Hmin&HL).
  - apply files_edges. eapply Forall_impl; [exact Hb|]. intros [s t]. unfold is_u64. simpl. lia.
  - intros E. rewrite E in Hlen. simpl in Hlen. destruct (generate_both_directions o); lia.
  - rewrite Hlen. destruct (generate_both_directions o); lia.
  - done.
  - done.
  - exists files, root, c, bst'. split_and!; [done| |done|done|done].
    unfold pipeline. rewrite Eg. cbn [mbind option_bind]. rewrite <- list_fmap_compose in Ei. unfold compose in Ei.
    by rewrite Ei, Em, Eb.
Qed.
End composition.

(** ** Witness: one thread, four vertices *)

Definition small_options : rmat_option_t := mkOpt 7 2 3 d_02 d_02 d_02 false true.

Lemma pipeline_distances_witness :
  ∃ files root c bst',
    pipeline (λ r : bool, (if r then d_09 else d_02, negb r)) (λ _, true) small_options 1 4096
      (mkIngest [] []) (mkBfs [] [] false) = Some (Ok (Z.of_nat c) bst') ∧
    ∀ v l, level bst' !! v = Some l → right_level (concat files) root v l.
Proof.
  destruct (pipeline_distances (λ r : bool, (if r then d_09 else d_02, negb r)) (λ _, true)
    small_options 1 4096 (mkIngest [] []) (mkBfs [] [] false)) as (files&root&c&bst'&_&E&_&_&HL).
  - split; cbn; [lia|done|lia].
  - cbn. lia.
  - cbn. lia.
  - lia.
  - lia.
  - exists files, root, c, bst'. by split.
Defined.
