(* ===== verification/GraphPrograms.v ===== *)
(** * The three programs of the breadth-first search example
    (src/examples/bfs/main.cpp, rmat_graph_generator/{generate,ingest}_edge_list.cpp)

    [generate_edge_list], [ingest_edge_list] and [run_bfs] as programs: from the
    options [getopt] delivers, over the file system of GraphFile.v.  The text of
    the edge lists and the bytes of the graph file are what one program leaves to
    the next.  An abort or an exception is [Throw]. *)

From stdpp Require Import base list numbers strings gmap sets.
From Stdlib Require Import Strings.Byte Floats.SpecFloat.
From S2P Require Import Prelude Store Config SparseStore MapFile GraphFile.
From S2P Require Import Bitmap Bfs Ingest Hash Rmat Pipeline.
Local Open Scope Z_scope.

(** ** Numbers in arguments *)

(** [std::stoull]: [None] is an exception; the text is read as by a stream, but
    what follows the digits is ignored *)
Definition stoull (s : string) : option Z :=
  match extract None (Some (String.list_ascii_of_string s)) with
  | (Some v, Some _) => Some v
  | _ => None
  end.

(** [std::stoi] *)
Definition stoi (s : string) : option Z :=
  match skip_space (String.list_ascii_of_string s) with
  | [] => None
  | c :: l =>
      let '(neg, digits) :=
        if bool_decide (Ascii.nat_of_ascii c = 45%nat) then (true, l)
        else if bool_decide (Ascii.nat_of_ascii c = 43%nat) then (false, l) else (false, c :: l) in
      let '(n, any) := read_digits digits 0 false in
      let v := if neg : bool then - n else n in
      if any && bool_decide (- 2 ^ 31 ≤ v < 2 ^ 31) then Some v else None
  end.

(** an argument that does not convert is an exception that nobody catches *)
Definition or_throw {S A} (msg : string) (x : option A) : M S A :=
  match x with Some a => mret a | None => throw msg end.

(** ** Options *)

Record bfs_options := mkBfsOptions {
  o_num_vertices : Z;
  o_num_edges : Z;
  graph_file_name : string;
  bfs_level_reference_file_name : string;
  use_mmap : bool
}.

(** what [getopt(argc, argv, "n:m:g:l:sh")] returns *)
Inductive bfs_event :=
| Bn (optarg : string) | Bm (optarg : string) | Bg (optarg : string) | Bl (optarg : string)
| Bs | Bh | Bunknown.

(** [None]: the process has exited with status 0 *)
Fixpoint parse_bfs_options (events : list bfs_event) (o : bfs_options) {S} : M S (option bfs_options) :=
  match events with
  | [] => mret (Some o)
  | Bn s :: events =>
      v ← or_throw "stoull" (stoull s);
      parse_bfs_options events (mkBfsOptions v (o_num_edges o) (graph_file_name o)
                                  (bfs_level_reference_file_name o) (use_mmap o))
  | Bm s :: events =>
      v ← or_throw "stoull" (stoull s);
      parse_bfs_options events (mkBfsOptions (o_num_vertices o) v (graph_file_name o)
                                  (bfs_level_reference_file_name o) (use_mmap o))
  | Bg s :: events =>
      parse_bfs_options events (mkBfsOptions (o_num_vertices o) (o_num_edges o) s
                                  (bfs_level_reference_file_name o) (use_mmap o))
  | Bl s :: events =>
      parse_bfs_options events (mkBfsOptions (o_num_vertices o) (o_num_edges o) (graph_file_name o)
                                  s (use_mmap o))
  | Bs :: events =>
      parse_bfs_options events (mkBfsOptions (o_num_vertices o) (o_num_edges o) (graph_file_name o)
                                  (bfs_level_reference_file_name o) true)
  | Bh :: _ => mret None
  | Bunknown :: events => parse_bfs_options events o      (* no default case *)
  end.

(** [getopt(argc, argv, "g:h")] *)
Inductive ingest_event := Ig (optarg : string) | Ih | Iunknown.

(** the last -g wins; the other arguments are the edge lists *)
Definition parse_ingest_options (events : list ingest_event) : string :=
  foldl (λ name e, match e with Ig s => s | _ => name end) "" events.

(** [getopt(argc, argv, "o:s:v:e:a:b:c:r:u:")] *)
Inductive generate_event :=
| Go (optarg : string) | Gs (optarg : string) | Gv (optarg : string) | Ge (optarg : string)
| Ga (optarg : string) | Gb (optarg : string) | Gc (optarg : string)
| Gr (optarg : string) | Gu (optarg : string) | Gunknown.

Definition d_057 : spec_float := S754_finite false 5134103575202365 (-53).
Definition d_019 : spec_float := S754_finite false 6845471433603154 (-55).

Definition rmat_defaults : rmat_option_t :=
  mkOpt 123 17 (2 ^ 17 * 16) d_057 d_019 d_019 true true.

Section generate_options.
(** [std::stod] *)
Context (stod : string → option spec_float).

Definition generate_option (e : generate_event) (r : rmat_option_t * string) {S}
    : M S (rmat_option_t * string) :=
  let '(o, out) := r in
  match e with
  | Go s => mret (o, s)
  | Gs s =>
      v ← or_throw "stoull" (stoull s);
      mret (mkOpt v (vertex_scale o) (edge_count o) (opt_a o) (opt_b o) (opt_c o) (scramble_id o)
              (generate_both_directions o), out)
  | Gv s =>
      v ← or_throw "stoull" (stoull s);
      mret (mkOpt (seed o) v (edge_count o) (opt_a o) (opt_b o) (opt_c o) (scramble_id o)
              (generate_both_directions o), out)
  | Ge s =>
      v ← or_throw "stoull" (stoull s);
      mret (mkOpt (seed o) (vertex_scale o) v (opt_a o) (opt_b o) (opt_c o) (scramble_id o)
              (generate_both_directions o), out)
  | Ga s =>
      v ← or_throw "stod" (stod s);
      mret (mkOpt (seed o) (vertex_scale o) (edge_count o) v (opt_b o) (opt_c o) (scramble_id o)
              (generate_both_directions o), out)
  | Gb s =>
      v ← or_throw "stod" (stod s);
      mret (mkOpt (seed o) (vertex_scale o) (edge_count o) (opt_a o) v (opt_c o) (scramble_id o)
              (generate_both_directions o), out)
  | Gc s =>
      v ← or_throw "stod" (stod s);
      mret (mkOpt (seed o) (vertex_scale o) (edge_count o) (opt_a o) (opt_b o) v (scramble_id o)
              (generate_both_directions o), out)
  | Gr s =>
      v ← or_throw "stoi" (stoi s);
      mret (mkOpt (seed o) (vertex_scale o) (edge_count o) (opt_a o) (opt_b o) (opt_c o)
              (bool_decide (v ≠ 0)) (generate_both_directions o), out)
  | Gu s =>
      v ← or_throw "stoi" (stoi s);
      mret (mkOpt (seed o) (vertex_scale o) (edge_count o) (opt_a o) (opt_b o) (opt_c o)
              (scramble_id o) (bool_decide (v ≠ 0)), out)
  | Gunknown => throw "Illegal option"
  end.

Fixpoint generate_options (events : list generate_event) (r : rmat_option_t * string) {S}
    : M S (rmat_option_t * string) :=
  match events with
  | [] => mret r
  | e :: events => r ← generate_option e r; generate_options events r
  end.

Definition parse_generate_options (events : list generate_event) {S} : M S (rmat_option_t * string) :=
  r ← generate_options events (rmat_defaults, "");
  if bool_decide (r.2 = "") then throw "edge list file name (-o option) is required" else mret r.
End generate_options.

(** ** Reading the level reference *)

(** the extraction of a [uint16_t] *)
Definition extract16 (stream : option (list Ascii.ascii)) : option Z * option (list Ascii.ascii) :=
  match skip_space <$> stream with
  | None | Some [] => (None, None)
  | Some (c :: l) =>
      let '(neg, digits) :=
        if bool_decide (Ascii.nat_of_ascii c = 45%nat) then (true, l)
        else if bool_decide (Ascii.nat_of_ascii c = 43%nat) then (false, l) else (false, c :: l) in
      let '(n, any) := read_digits digits 0 false in
      if any && bool_decide (n < 2 ^ 16)
      then (Some (if neg : bool then u16 (- n) else n), Some (after_digits digits)) else (None, None)
  end.

(** [while (ifs >> id >> lv)] *)
Fixpoint read_levels (fuel : nat) (stream : list Ascii.ascii) : list (Z * Z) :=
  match fuel with
  | O => []
  | S fuel =>
      let '(id, s1) := extract None (Some stream) in
      match id, extract16 s1 with
      | Some id, (Some lv, Some rest) => (id, lv) :: read_levels fuel rest
      | _, _ => []
      end
  end.

Definition levels_of_text (text : string) : list (Z * Z) :=
  let stream := String.list_ascii_of_string text in read_levels (length stream) stream.

(** ** The programs *)

Section programs.
Context (succeeds : fscall → nat → bool) (page_size : Z).
#[local] Existing Instance fs_os.
#[local] Instance os : MapOS FS := fs_os succeeds page_size.

(** an [ifstream], [None] if it is not open *)
Definition read_text (name : string) : M FS (option string) :=
  f ← get;
  modify tick ;;
  mret (if allowed succeeds Ifstream f then String.string_of_list_byte <$> fs_files f !! name else None).

Fixpoint read_texts (names : list string) : M FS (list (option string)) :=
  match names with
  | [] => mret []
  | name :: names => t ← read_text name; ts ← read_texts names; mret (t :: ts)
  end.

(** an [ofstream] that is written and closed *)
Definition write_text (name text : string) : M FS unit :=
  f ← get;
  modify tick ;;
  if allowed succeeds Ofstream f
  then modify (λ f, with_files (<[name := String.list_byte_of_string text]> (fs_files f)) f)
  else throw "Cannot open".

(** *** generate_edge_list *)

Definition edge_list_name (out : string) (i : nat) : string :=
  out +:+ "_" +:+ String.string_of_list_ascii (decimal (Z.of_nat i)).

Fixpoint write_edge_lists (out : string) (i : nat) (files : list (list (Z * Z))) : M FS unit :=
  match files with
  | [] => mret tt
  | es :: files => write_text (edge_list_name out i) (print_edges es) ;; write_edge_lists out (S i) files
  end.

Definition generate_program {R} (stod : string → option spec_float) (dis : R → spec_float * R)
    (seed_rng : Z → R) (events : list generate_event) (nthreads : nat) : M FS unit :=
  '(o, out) ← parse_generate_options stod events;
  files ← or_throw "assertion" (generate_edges dis seed_rng o nthreads);
  write_edge_lists out 0 files ;;
  let num_generated_edges := foldl (λ acc l, u64 (acc + Z.of_nat (length l))) 0 files in
  let supposed := if generate_both_directions o then u64 (edge_count o * 2) else edge_count o in
  if bool_decide (supposed ≠ num_generated_edges) then throw "The number of generated edges is wrong"
  else mret tt.

(** [ingest_edges], which reads the files once to count and once to load *)
Definition ingest_counted_loaded (max_id : Z) (counted loaded : list (Z * Z)) : M Ingest unit :=
  modify (λ st, mkIngest (replicate (Z.to_nat (max_id + 2)) 0) (graph_map st)) ;;
  count_degree counted ;;
  shift_index max_id ;;
  sum_index max_id ;;
  copy_index max_id ;;
  load_edges max_id loaded.

(** *** ingest_edge_list: the numbers of vertices and edges it prints *)

Definition ingest_program (events : list ingest_event) (edge_list_file_names : list string)
    : M FS (Z * Z) :=
  let graph_file_name := parse_ingest_options events in
  texts ← read_texts edge_list_file_names;
  '(max_id, num_edges) ← check_edge_list texts;
  let graph_size := u64 (u64 (max_id + 2 + num_edges) * 8) in
  ok ← create_graph_file succeeds graph_file_name;
  if negb ok then throw "Failed to create a file" else
  ok ← extend_file_size_name succeeds graph_file_name graph_size;
  if negb ok then throw "Failed to extend a file" else
  '(fd, addr) ← map_file_write_mode succeeds page_size graph_file_name 0 graph_size 0;
  if bool_decide (fd = -1) || bool_decide (addr = 0)
  then throw "Failed to map a file with write mode" else
  texts ← read_texts edge_list_file_names;
  counted ← read_files texts;
  texts ← read_texts edge_list_file_names;                  (* not checked *)
  f ← get;
  '(_, st) ← run_local (ingest_counted_loaded max_id counted (texts ≫= from_option edges_of_text []))
               (mkIngest [] (words_of (Z.to_nat (graph_size / 8)) (fs_view addr f)));
  modify (store_words addr (graph_map st)) ;;
  munmap succeeds addr true ;;
  mret (u64 (max_id + 1), num_edges).

(** *** run_bfs *)

(** [map_graph]: the address, the index array and the edge array *)
Definition map_graph_file (umap_page_size : Z) (o : bfs_options) : M FS (Z * (list Z * list Z)) :=
  ok ← (if negb (use_mmap o)
        then extend_file_size_name succeeds (graph_file_name o)
               (aligned_graph_size umap_page_size (o_num_vertices o) (o_num_edges o))
        else mret true);
  if negb ok then throw "Failed to extend the graph file" else
  size ← get_file_size succeeds (graph_file_name o);
  a ← map_file (graph_file_name o) false false (use_mmap o) (u64 size) 0;
  match a with
  | None => throw "Failed to map the graph"
  | Some a =>
      f ← get;
      let words := words_of (length (fs_view a f) / 8) (fs_view a f) in
      let edges_offset := Z.to_nat (u64 (o_num_vertices o + 1)) in
      mret (a, (take edges_offset words, drop edges_offset words))
  end.

(** [validate_level] on a file *)
Definition validate_file (level : list Z) (name : string) : M FS unit :=
  if bool_decide (name = "") then mret tt else
  text ← read_text name;
  text ← or_throw "Can not open" text;
  validate_level level (levels_of_text text).

(** [main]: the levels, and the number of vertices on each of them ([None]: the
    message about an invalid level); [None] is an exit at -h *)
Definition bfs_program (umap_page_size : Z) (stat : option (option (Z * Z))) (events : list bfs_event)
    : M FS (option (list Z * option (list Z))) :=
  o ← parse_bfs_options events (mkBfsOptions 0 0 "" "" false);
  match o with
  | None => mret None
  | Some o =>
      get_num_page_faults stat ;;
      '(a, (index, edges)) ← map_graph_file umap_page_size o;
      let n := o_num_vertices o in
      let st := mkBfs (replicate (Z.to_nat n) 0) (replicate (Z.to_nat (bitmap_size n)) 0) false in
      '(max_level, st) ← run_local (bfs_main n index edges) st;
      validate_file (level st) (bfs_level_reference_file_name o) ;;
      size ← get_file_size succeeds (graph_file_name o);
      ok ← unmap_file (use_mmap o) (u64 size) a;
      if negb ok then throw "exit status -1"
      else mret (Some (level st, count_level max_level (level st)))
  end.
End programs.

(** ** Numbers *)

Lemma stoull_decimal n : is_u64 n → stoull (String.string_of_list_ascii (decimal n)) = Some n.
Proof.
  intros Hn. unfold stoull. rewrite String.list_ascii_of_string_of_list_ascii.
  rewrite <- (app_nil_r (decimal n)). by rewrite extract_decimal.
Qed.

Lemma edge_list_name_inj out i j :
  is_u64 (Z.of_nat i) → is_u64 (Z.of_nat j) → edge_list_name out i = edge_list_name out j → i = j.
Proof.
  intros Hi Hj E. unfold edge_list_name in E. apply (inj (String.append out)), (inj (String.append "_")) in E.
  pose proof (stoull_decimal _ Hi) as H. rewrite E, stoull_decimal in H by done. simplify_eq. lia.
Qed.

(** ** Text files *)

Section runs.
Context (succeeds : fscall → nat → bool) (page_size : Z).
Context (Hok : ∀ c k, succeeds c k = true) (Hpage : 0 < page_size).

(** the file [name] holds the text *)
Definition holds (f : FS) (name text : string) : Prop :=
  fs_files f !! name = Some (String.list_byte_of_string text).

Abbreviation leaves := (leaves page_size).

Lemma read_texts_run names texts f :
  Forall2 (holds f) names texts →
  ∃ f', read_texts succeeds names f = Ok (Some <$> texts) f' ∧ leaves (fs_files f) f f' ∧
    fs_maps f' = fs_maps f.
Proof.
  intros H. revert texts f H. induction names as [|name names IH]; intros texts f H.
  - apply Forall2_nil_inv_l in H as ->. exists f. done.
  - apply Forall2_cons_inv_l in H as (text&texts'&Ht&H&->). cbn [read_texts].
    unfold read_text, allowed. erewrite bind_run.
    2: { unfold mbind, M_bind, get, modify, mret, M_ret. rewrite Hok, Ht. simpl.
         by rewrite String.string_of_list_byte_of_string. }
    destruct (IH texts' (tick f)) as (f'&E&[Hl Hw]&Hm); [exact H|]. erewrite bind_run by exact E.
    exists f'. split; [done|]. split; [|done]. split; [done|]. intros Hf. apply Hw. by destruct Hf.
Qed.

(** every edge list is in its file, and other files are left alone *)
Lemma write_edge_lists_run out i files f :
  is_u64 (Z.of_nat (i + length files)) →
  ∃ f', write_edge_lists succeeds out i files f = Ok tt f' ∧ (fs_wf page_size f → fs_wf page_size f') ∧
    (∀ name, name ∉ edge_list_name out <$> seq i (length files) → fs_files f' !! name = fs_files f !! name) ∧
    Forall2 (holds f') (edge_list_name out <$> seq i (length files)) (print_edges <$> files).
Proof.
  revert i f. induction files as [|es files IH]; intros i f Hu; [exists f; split_and!; try done; constructor|].
  cbn [write_edge_lists]. unfold write_text, allowed. erewrite bind_run.
  2: { unfold mbind, M_bind, get, modify, mret, M_ret. rewrite Hok. reflexivity. }
  cbn [length] in Hu. rewrite Nat.add_succ_r in Hu.
  match goal with |- context [write_edge_lists _ _ _ _ ?g] => set (f1 := g) end.
  destruct (IH (S i) f1 Hu) as (f'&E&Hw&Hother&Hall). exists f'. split; [exact E|].
  cbn [length seq]. rewrite !fmap_cons. split; [|split].
  - intros []. apply Hw. by split.
  - intros name [Hn Hn']%not_elem_of_cons. rewrite Hother by done. simpl. by rewrite lookup_insert_ne.
  - constructor; [|exact Hall]. unfold holds. rewrite Hother; [by simpl; rewrite lookup_insert_eq|].
    intros (j&Ej&Hj%elem_of_seq)%list_elem_of_fmap.
    apply edge_list_name_inj in Ej; unfold is_u64 in *; lia.
Qed.

(** ** The ingestion *)

(** the words of a graph in memory fit *)
Lemma csr_words_u64 n g :
  csr_ok n (rows_of n g) (edges_part n g) → (0 < n)%nat → Z.of_nat (length g) < 2 ^ 63 →
  Forall is_u64 g.
Proof.
  intros [Hi Hr He] Hn Hlen. rewrite <- (take_drop (S n) g). apply Forall_app. split.
  - apply Forall_lookup_2. intros i x Hx. fold (rows_of n g) in Hx.
    pose proof (lookup_lt_Some _ _ _ Hx) as Hlt. rewrite Hi in Hlt.
    assert (length (edges_part n g) ≤ length g)%nat by (unfold edges_part; rewrite length_drop; lia).
    destruct (decide (i = n)) as [->|Hin].
    + destruct n as [|n']; [lia|].
      destruct (lookup_lt_is_Some_2 (rows_of (S n') g) n') as [y Hy]; [lia|].
      destruct (Hr _ _ _ Hy Hx). unfold is_u64. lia.
    + destruct (lookup_lt_is_Some_2 (rows_of n g) (S i)) as [y Hy]; [lia|].
      destruct (Hr _ _ _ Hx Hy). unfold is_u64. lia.
  - apply Forall_lookup_2. intros i x Hx. fold (edges_part n g) in Hx.
    apply lookup_lt_Some in Hx as Hlt. unfold edges_part in Hlt. rewrite length_drop in Hlt.
    apply He in Hx. unfold is_u64. lia.
Qed.

(** the part of [ingest_main] that works on the mapped file *)
Lemma ingest_main_edges texts st mx m st' :
  ingest_main (Some <$> texts) st = Ok (mx, m) st' →
  max_and_count (texts ≫= edges_of_text) = (mx, m) ∧
  ingest_edges mx (texts ≫= edges_of_text)
    (mkIngest (index st) (replicate (Z.to_nat (mx + 2 + m)) 0)) = Ok tt st'.
Proof.
  unfold ingest_main, check_edge_list. intros H.
  erewrite bind_run in H by (erewrite bind_run by apply read_files_run; reflexivity).
  destruct (max_and_count _) as [mx' m'] eqn:Em. erewrite bind_run in H by reflexivity.
  erewrite bind_run in H by apply read_files_run. apply bind_Ok in H as ([]&st1&H1&H2).
  unfold mret, M_ret in H2. simplify_eq. done.
Qed.

(** the creation, extension and mapping of the graph file *)
Lemma prepare_graph_run g size f :
  fs_wf page_size f → 0 < size < 2 ^ 63 →
  ∃ f2 f3 fd a f4, create_graph_file succeeds g f = Ok true f2 ∧
    extend_file_size_name succeeds g size f2 = Ok true f3 ∧
    map_file_mode succeeds page_size g 0 size 0 f3 = Ok (fd, a) f4 ∧ fd ≠ -1 ∧ a ≠ 0 ∧
    fs_wf page_size f4 ∧ fs_files f4 = <[g := replicate (Z.to_nat size) x00]> (fs_files f) ∧
    fs_maps f4 !! a = Some (g, Z.to_nat size).
Proof.
  intros Hwf Hs.
  destruct (create_graph_file_run succeeds page_size Hok g f) as (f2&E2&[Hl2 Hw2]).
  destruct (extend_file_size_run succeeds page_size Hok g [] size f2)
    as (f3&E3&[Hl3 Hw3]); [by rewrite Hl2, lookup_insert_eq|lia|].
  rewrite app_nil_l, Nat.sub_0_r, Hl2, insert_insert_eq in Hl3.
  destruct (map_file_mode_run succeeds page_size Hok Hpage g (replicate (Z.to_nat size) x00) size f3)
    as (fd&a&f4&E4&Hfd&Ha&[Hl4 Hw4]&Hmap); [by rewrite Hl3, lookup_insert_eq|lia|auto|].
  exists f2, f3, fd, a, f4. rewrite Hl4, Hl3. split_and!; auto.
Qed.

(** the edge lists do not change when another file is written *)
Lemma holds_other f f' g l names texts :
  fs_files f' = <[g := l]> (fs_files f) → g ∉ names →
  Forall2 (holds f) names texts → Forall2 (holds f') names texts.
Proof.
  intros Hf Hg. induction 1 as [|name text names texts Ht _ IH]; [constructor|].
  apply not_elem_of_cons in Hg as [Hne Hg]. constructor; [|by apply IH].
  unfold holds. by rewrite Hf, lookup_insert_ne.
Qed.

Lemma loaded_texts texts :
  (Some <$> texts) ≫= from_option edges_of_text [] = texts ≫= edges_of_text.
Proof. induction texts as [|t texts IH]; [done|]. by rewrite fmap_cons, !bind_cons, IH. Qed.

Lemma ingest_program_run g names texts f :
  let E := texts ≫= edges_of_text in
  let n := Z.to_nat ((max_and_count E).1 + 1) in
  fs_wf page_size f → Forall2 (holds f) names texts → g ∉ names →
  (max_and_count E).1 < 2 ^ 57 → Z.of_nat (length E) < 2 ^ 57 →
  ∃ f' ws, ingest_program succeeds page_size [Ig g] names f = Ok (Z.of_nat n, Z.of_nat (length E)) f' ∧
    fs_wf page_size f' ∧ fs_files f' !! g = Some (bytes_of_words ws) ∧ Forall is_u64 ws ∧
    csr_ok n (rows_of n ws) (edges_part n ws) ∧
    (∀ u, (u < n)%nat → targets (rows_of n ws) (edges_part n ws) u = targets_of E u) ∧
    length ws = (S n + length E)%nat ∧ edges_below n E ∧ (0 < n)%nat.
Proof.
  intros E n Hwf Ht Hg Hmx Hlen.
  destruct (max_and_count_run E 0 0 (texts_nonneg texts) ltac:(lia) ltac:(lia)) as (Hm0&_&HE).
  fold (max_and_count E) in *.
  destruct (ingest_main_run texts (mkIngest [] [])) as (ist&Ei&Hm&Hcsr&Htg&Hlg); fold E; [lia|lia|].
  fold E n in Ei, Hm, Hcsr, Htg, Hlg. destruct (max_and_count E) as [mx m] eqn:Emc.
  apply ingest_main_edges in Ei as [_ Ei]. fold E in Ei. simpl in *. subst m.
  assert (Z.of_nat n = mx + 1) as Hn by lia. clearbody n.
  assert (edges_below n E) as Hbelow by (eapply Forall_impl; [exact HE|]; intros []; lia).
  set (size := 8 * (mx + 2 + Z.of_nat (length E))).
  assert (u64 (u64 (mx + 2 + Z.of_nat (length E)) * 8) = size) as Hsz
    by (rewrite !u64_small; unfold is_u64; try rewrite u64_small; unfold is_u64; lia).
  destruct (read_texts_run names texts f Ht) as (f1&E1&[Hl1 Hw1]&_).
  destruct (prepare_graph_run g size f1) as (f2&f3&fd&a&f4&E2&E3&E4&Hfd&Ha&Hwf4&Hf4&Hmap); [auto|lia|].
  rewrite Hl1 in Hf4.
  pose proof (holds_other f f4 g _ _ _ Hf4 Hg Ht) as Ht4.
  destruct (read_texts_run names texts f4 Ht4) as (f4'&E4'&[Hl4' Hw4']&Hm4').
  destruct (read_texts_run names texts f4') as (f5&E5&[Hl5 Hw5]&Hm5).
  { unfold holds. rewrite Hl4'. exact Ht4. }
  rewrite Hm4' in Hm5. rewrite Hl4' in Hl5.
  assert (words_of (Z.to_nat (size / 8)) (fs_view a f5) = replicate (Z.to_nat (mx + 2 + Z.of_nat (length E))) 0) as Hv.
  { unfold fs_view. rewrite Hm5, Hmap, Hl5, Hf4, lookup_insert_eq. simpl. rewrite take_replicate, words_of_zeros.
    f_equal. unfold size. rewrite Z.mul_comm, Z.div_mul by lia. done. }
  destruct (store_words_run page_size a (graph_map ist) g (Z.to_nat size) (replicate (Z.to_nat size) x00) f5)
    as [Hl6 Hw6]; [by rewrite Hm5|by rewrite Hl5, Hf4, lookup_insert_eq|rewrite length_replicate; lia|].
  destruct (munmap_run succeeds page_size Hok a (store_words a (graph_map ist) f5)) as (f7&E7&[Hl7 Hw7]).
  exists f7, (graph_map ist). split_and!; [|auto| |apply (csr_words_u64 n); [done|lia|lia]|done|done|done|done|lia].
  - unfold ingest_program. cbn [parse_ingest_options foldl]. erewrite bind_run by exact E1.
    erewrite bind_run by (unfold check_edge_list; erewrite bind_run by apply read_files_run; reflexivity).
    fold E. rewrite Emc, Hsz. erewrite bind_run by exact E2. cbn [negb]. erewrite bind_run by exact E3. cbn [negb].
    erewrite bind_run by exact E4. cbv beta iota. rewrite !bool_decide_eq_false_2 by done. cbn [orb].
    erewrite bind_run by exact E4'. erewrite bind_run by apply read_files_run. fold E.
    erewrite bind_run by exact E5. erewrite bind_run by reflexivity.
    rewrite loaded_texts. fold E. rewrite Hv. erewrite bind_run.
    2: { change (ingest_counted_loaded mx E E) with (ingest_edges mx E).
         unfold run_local. simpl in Ei. by rewrite Ei. }
    cbv beta iota. erewrite bind_run by reflexivity. erewrite bind_run by exact E7.
    rewrite u64_small by (unfold is_u64; lia). by rewrite Hn.
  - by rewrite Hl7, Hl6, lookup_insert_eq.
Qed.

(** ** The search *)

(** the mapped arrays: those of the file, with zeros behind the edges if the
    file was extended *)
Lemma map_graph_file_run psize o n (m : nat) ws f :
  fs_wf page_size f → fs_files f !! graph_file_name o = Some (bytes_of_words ws) → Forall is_u64 ws →
  o_num_vertices o = Z.of_nat n → o_num_edges o = Z.of_nat m → length ws = (S n + m)%nat →
  Z.of_nat n + 1 + Z.of_nat m < 2 ^ 58 → 0 < psize < 2 ^ 62 →
  ∃ a f' l k, map_graph_file succeeds page_size psize o f =
      Ok (a, (rows_of n ws, edges_part n ws ++ replicate k 0)) f' ∧
    fs_wf page_size f' ∧ fs_files f' !! graph_file_name o = Some l ∧
    Z.of_nat (length (edges_part n ws ++ replicate k 0)) < 2 ^ 64.
Proof.
  intros Hwf Hf Hws Hn Hm Hlen Hb Hp.
  pose proof (aligned_graph_size_bound psize (Z.of_nat n) (Z.of_nat m) Hp ltac:(lia) ltac:(lia) Hb) as Hal.
  assert (∃ j f1, (if negb (use_mmap o)
      then extend_file_size_name succeeds (graph_file_name o)
             (aligned_graph_size psize (o_num_vertices o) (o_num_edges o)) else mret true) f = Ok true f1 ∧
    fs_wf page_size f1 ∧ fs_files f1 !! graph_file_name o = Some (bytes_of_words ws ++ replicate j x00) ∧
    Z.of_nat j < 2 ^ 63) as (j&f1&E1&Hw1&Hf1&Hj).
  { destruct (use_mmap o); simpl.
    - exists 0%nat, f. by rewrite app_nil_r.
    - rewrite Hn, Hm. destruct (extend_file_size_run succeeds page_size Hok _ _ _ _ Hf Hal) as (f1&E1&[Hl1 Hw1]).
      eexists _, f1. split; [exact E1|]. rewrite Hl1, lookup_insert_eq. split; [auto|]. split; [done|]. lia. }
  set (l := bytes_of_words ws ++ replicate j x00) in *.
  assert (length l = 8 * length ws + j)%nat as Hl
    by (unfold l; rewrite length_app, length_replicate, length_bytes_of_words; lia).
  destruct (get_file_size_run succeeds page_size Hok _ _ _ Hf1) as (f2&E2&[Hl2 Hw2]).
  destruct (map_file_run succeeds page_size Hok Hpage (graph_file_name o) l (use_mmap o) f2)
    as (a&f3&E3&[Hl3 Hw3]&Hv); [by rewrite Hl2|lia|auto|].
  exists a, f3, l, (j / 8)%nat. split_and!; [|auto|by rewrite Hl3, Hl2|].
  - unfold map_graph_file. erewrite bind_run by exact E1. cbn [negb]. erewrite bind_run by exact E2.
    rewrite (u64_small (Z.of_nat (length l))) by (unfold is_u64; lia). erewrite bind_run by exact E3.
    cbv beta iota. erewrite bind_run by reflexivity. rewrite Hv. unfold l. rewrite words_of_padded by done.
    rewrite Hn, u64_small by (unfold is_u64; lia). replace (Z.to_nat (Z.of_nat n + 1)) with (S n) by lia.
    unfold rows_of, edges_part. by rewrite take_app_le, drop_app_le by lia.
  - unfold edges_part. rewrite length_app, length_drop, length_replicate.
    pose proof (Nat.Div0.div_le_upper_bound j 8 j ltac:(lia)). lia.
Qed.

(** what the search promises of its labels *)
Definition labels_right (E : list (Z * Z)) (root : nat) (levels : list Z) : Prop :=
  (∃ t, (Z.of_nat root, t) ∈ E) ∧
  (∀ e, e ∈ E → Z.of_nat root ≤ e.1 < Z.of_nat (length levels) ∧ e.2 < Z.of_nat (length levels)) ∧
  ∀ v l, levels !! v = Some l → right_level E root v l.

Definition dec (z : Z) : string := String.string_of_list_ascii (decimal z).

(** the command line of the search *)
Definition bfs_arguments (mm : bool) (n m : Z) (g : string) : list bfs_event :=
  (if mm then [Bs] else []) ++ [Bn (dec n); Bm (dec m); Bg g].

Lemma parse_bfs_arguments mm n m g {S} (s : S) :
  is_u64 n → is_u64 m →
  parse_bfs_options (bfs_arguments mm n m g) (mkBfsOptions 0 0 "" "" false) s =
    Ok (Some (mkBfsOptions n m g "" mm)) s.
Proof.
  intros Hn Hm. unfold bfs_arguments, dec. destruct mm; cbn [parse_bfs_options app].
  - rewrite !stoull_decimal by done. reflexivity.
  - rewrite !stoull_decimal by done. reflexivity.
Qed.

Lemma bfs_program_run psize stat mm g n E ws f :
  fs_wf page_size f → fs_files f !! g = Some (bytes_of_words ws) → Forall is_u64 ws →
  csr_ok n (rows_of n ws) (edges_part n ws) →
  (∀ u, (u < n)%nat → targets (rows_of n ws) (edges_part n ws) u = targets_of E u) →
  length ws = (S n + length E)%nat → edges_below n E → E ≠ [] →
  Z.of_nat n < k_infinite_level → Z.of_nat (length E) < 2 ^ 57 → 0 < psize < 2 ^ 62 →
  ∃ f' levels counts root,
    bfs_program succeeds page_size psize (Some stat)
      (bfs_arguments mm (Z.of_nat n) (Z.of_nat (length E)) g) f = Ok (Some (levels, Some counts)) f' ∧
    labels_right E root levels.
Proof.
  intros Hwf Hg Hws Hcsr Ht Hlen Hbelow Hne Hn HE Hp. unfold k_infinite_level in Hn.
  set (o := mkBfsOptions (Z.of_nat n) (Z.of_nat (length E)) g "" mm).
  destruct (map_graph_file_run psize o n (length E) ws f) as (a&f1&l&k&E1&Hw1&Hf1&H64); try done; [lia|].
  set (st := mkBfs (replicate (Z.to_nat (Z.of_nat n)) 0) (replicate (Z.to_nat (bitmap_size (Z.of_nat n))) 0) false).
  destruct (search_of_graph n E ws k st Hcsr Ht Hbelow Hne Hn H64) as (root&c&st'&Eb&Hroot&Hmin&HL&[counts Hc]).
  destruct (get_file_size_run succeeds page_size Hok _ _ _ Hf1) as (f2&E2&_).
  destruct (unmap_file_run succeeds page_size Hok mm (u64 (Z.of_nat (length l))) a f2) as (f3&E3&_).
  exists f3, (level st'), counts, root. split; [|done].
  unfold bfs_program. erewrite bind_run by (apply parse_bfs_arguments; unfold is_u64; lia).
  cbv beta iota. fold o. assert (∃ r, get_num_page_faults (Some stat) f = Ok r f) as [r Er] by (destruct stat; by eexists).
  erewrite bind_run by exact Er.
  erewrite bind_run by exact E1. cbv beta iota zeta. cbn [o_num_vertices o]. fold st.
  erewrite bind_run by (unfold run_local; by rewrite Eb). cbv beta iota.
  erewrite bind_run by reflexivity. erewrite bind_run by exact E2. erewrite bind_run by exact E3.
  simpl. by rewrite Hc.
Qed.
End runs.

(** ** The three programs in a row *)

(** the generator's edges: their number, their range, and their text *)
Lemma generated_edges {R} (dis : R → spec_float * R) (seed_rng : Z → R) o nthreads :
  options_ok o → vertex_scale o ≤ 15 → 0 < edge_count o < 2 ^ 56 → (0 < nthreads)%nat →
  ∃ files, generate_main dis seed_rng o nthreads = Some files ∧
    generate_edges dis seed_rng o nthreads = Some files ∧ length files = nthreads ∧
    (if generate_both_directions o then u64 (edge_count o * 2) else edge_count o) =
      foldl (λ acc l, u64 (acc + Z.of_nat (length l))) 0 files ∧
    concat files ≠ [] ∧ Z.of_nat (length (concat files)) < 2 ^ 57 ∧
    (max_and_count (concat files)).1 < 2 ^ 15 ∧
    (print_edges <$> files) ≫= edges_of_text = concat files.
Proof.
  intros Ho Hs He Hn. destruct (generate_main_run dis seed_rng o nthreads Ho Hn) as (files&Eg&Hlen&Hf).
  rewrite total_length in Hlen. apply files_below in Hf.
  assert (2 ^ vertex_scale o ≤ 2 ^ 15) as H15 by (apply Z.pow_le_mono_r; lia).
  assert (Forall (λ '(s, t), 0 ≤ s < 2 ^ 15 ∧ 0 ≤ t < 2 ^ 15) (concat files)) as Hb
    by (eapply Forall_impl; [exact Hf|]; intros []; lia).
  pose proof Eg as Eg'. unfold generate_main in Eg'. apply bind_Some in Eg' as (files'&Ee&Eg').
  case_bool_decide as Hcount; [done|]. simplify_eq.
  exists files. split_and!; [done|done| |done| | | |].
  - unfold generate_edges in Ee. apply length_mapM in Ee. by rewrite length_seq in Ee.
  - intros E. rewrite E in Hlen. simpl in Hlen. destruct (generate_both_directions o); lia.
  - rewrite Hlen; destruct (generate_both_directions o); lia.
  - apply max_below; [done|lia].
  - apply files_edges. eapply Forall_impl; [exact Hb|]. intros [s t]. unfold is_u64. simpl. lia.
Qed.


(** ** Witness: one thread, four vertices *)

Definition demo_fs : FS := mkFS ∅ ∅ 3 ∅ 4096 0.

Definition demo_generate : list generate_event := [Go "e"; Gs "7"; Gv "2"; Ge "3"; Gr "0"].

