(* ===== verification/Logger.v ===== *)
(** * Logging and exceptions
    (src/src/umap/util/{Logger,Exception}.{hpp,cpp}, Macros.hpp)

    The logger singleton with the environment it is configured from, its two
    output streams as lists of lines, the exception class, and the macros
    [UMAP_LOG] and [UMAP_ERROR] that the whole library reports through. *)

From stdpp Require Import base list numbers strings sets.
From S2P Require Import Prelude SparseStore.
Local Open Scope Z_scope.

(** ** Levels *)

Inductive Level := Error | Warning | Info | Debug.

#[export] Instance Level_eq_dec : EqDecision Level.
Proof. solve_decision. Defined.

Definition level_index (l : Level) : nat :=
  match l with Error => 0 | Warning => 1 | Info => 2 | Debug => 3 end.
Definition Num_Levels : nat := 4.
Definition levels : list Level := [Error; Warning; Info; Debug].

Definition MessageLevelName (l : Level) : string :=
  match l with
  | Error => "ERROR" | Warning => "WARNING" | Info => "INFO" | Debug => "DEBUG"
  end.

(** [strcasecmp(a, b) == 0] *)
Definition tolower (c : Ascii.ascii) : Ascii.ascii :=
  let n := Ascii.nat_of_ascii c in
  if bool_decide (65 ≤ n ≤ 90)%nat then Ascii.ascii_of_nat (n + 32) else c.
Definition strcasecmp_eq (a b : string) : bool :=
  bool_decide (tolower <$> String.list_ascii_of_string a = tolower <$> String.list_ascii_of_string b).

(** ** The logger *)

Record Logger := mkLogger {
  m_log_timestamp : bool;
  m_isEnabled : list bool
}.

(** the static members, the environment, and the lines written to [std::cout]
    and [std::cerr] *)
Record LogState := mkLogState {
  s_Logger : option Logger;
  log_env : string → option string;
  log_out : list string;
  log_err : list string
}.
Definition set_logger (l : option Logger) (s : LogState) : LogState :=
  mkLogState l (log_env s) (log_out s) (log_err s).
Definition cout (line : string) (s : LogState) : LogState :=
  mkLogState (s_Logger s) (log_env s) (log_out s ++ [line]) (log_err s).
Definition cerr (line : string) (s : LogState) : LogState :=
  mkLogState (s_Logger s) (log_env s) (log_out s) (log_err s ++ [line]).

Definition Logger_ctor (log_with_timestamp : bool) : Logger :=
  mkLogger log_with_timestamp (replicate Num_Levels false).

Definition setLoggingMsgLevel (level : Level) (l : Logger) : Logger :=
  mkLogger (m_log_timestamp l)
    ((λ i, bool_decide (i ≤ level_index level)%nat) <$> seq 0 Num_Levels).

Definition logLevelEnabled (l : Logger) (level : Level) : bool :=
  default false (m_isEnabled l !! level_index level).

(** what the process reads of itself while it prints a message *)
Record stamp := mkStamp { ms_since_epoch : Z; pid : Z; tid : Z }.

(** seconds with three digits: milliseconds below 2^53 divided by 1000.0 print
    back exactly *)
Definition seconds (ms : Z) : string :=
  to_string (ms / 1000) +:+ "." +:+ to_string (ms / 100 mod 10) +:+ to_string (ms / 10 mod 10)
    +:+ to_string (ms mod 10).

Definition render (timestamp : bool) (t : stamp) (level : Level) (message fileName : string)
    (line : Z) : string :=
  if timestamp then
    seconds (ms_since_epoch t) +:+ ":" +:+ to_string (pid t) +:+ ":" +:+ to_string (tid t) +:+ " " +:+
    "[" +:+ MessageLevelName level +:+ "]" +:+
    "[" +:+ fileName +:+ ":" +:+ to_string line +:+ "]:" +:+ message
  else message.

Definition logMessage (l : Logger) (t : stamp) (level : Level) (message fileName : string) (line : Z)
    : M LogState unit :=
  if logLevelEnabled l level then
    modify (cout (render (m_log_timestamp l) t level message fileName line))
  else mret tt.

Definition env_name : string := "UMAP_LOG_LEVEL".
Definition env_name_no_timestamp : string := "UMAP_LOG_NO_TIMESTAMP_LEVEL".
Definition defaultLevel : Level := Info.

(** the first level whose name is [enval] *)
Fixpoint find_level (enval : string) (ls : list Level) : option Level :=
  match ls with
  | [] => None
  | l :: ls => if strcasecmp_eq enval (MessageLevelName l) then Some l else find_level enval ls
  end.

Definition complain (enval : string) : M LogState unit :=
  modify (cerr ("No matching logging levels for: " +:+ enval)) ;;
  modify (cerr "Available levels are:") ;;
  for_each levels (λ l, modify (cerr (String (Ascii.ascii_of_nat 9) (MessageLevelName l)))).

Definition initialize : M LogState unit :=
  s ← get;
  match s_Logger s with
  | Some _ => mret tt
  | None =>
      let enval := log_env s env_name in
      let enval_no_timestamp := log_env s env_name_no_timestamp in
      let log_with_timestamp := bool_decide (enval_no_timestamp = None) in
      level ← match (match enval_no_timestamp with Some v => Some v | None => enval end) with
              | None => mret defaultLevel
              | Some enval =>
                  match find_level enval levels with
                  | Some level => mret level
                  | None => complain enval ;; mret defaultLevel
                  end
              end;
      modify (set_logger (Some (setLoggingMsgLevel level (Logger_ctor log_with_timestamp))))
  end.

Definition finalize : M LogState unit := modify (set_logger None).

Definition getActiveLogger : M LogState Logger :=
  s ← get;
  when (bool_decide (s_Logger s = None)) initialize ;;
  s ← get;
  match s_Logger s with
  | Some l => mret l
  | None => undefined "null logger"
  end.

(** ** Exceptions *)

Record Exception := mkException {
  m_message : string;
  m_file : string;
  m_line : Z;
  m_what : string
}.

Definition exception_message (message file : string) (line : Z) : string :=
  "! UMAP Exception [" +:+ file +:+ ":" +:+ to_string line +:+ "]: " +:+ message.

Definition Exception_ctor (message file : string) (line : Z) : Exception :=
  mkException message file line (exception_message message file line).

Definition what (e : Exception) : string := m_what e.

(** ** Macros *)

(** a place in the program that logs: [__func__], the message, [__FILE__] and
    [__LINE__], and what the process reads of itself there *)
Record site := mkSite {
  st_func : string;
  st_msg : string;
  st_file : string;
  st_line : Z;
  st_stamp : stamp
}.
Definition site_text (x : site) : string := " " +:+ st_func x +:+ " " +:+ st_msg x.

Section macros.
(** [UMAP_DEBUG_LOGGING] *)
Context (debug_logging : bool).

Definition UMAP_LOG (level : Level) (x : site) : M LogState unit :=
  if debug_logging then
    l ← getActiveLogger;
    when (logLevelEnabled l level)
      (l ← getActiveLogger; logMessage l (st_stamp x) level (site_text x) (st_file x) (st_line x))
  else mret tt.

Definition UMAP_ERROR {A} (x : site) : M LogState A :=
  UMAP_LOG Error x ;;
  throw (what (Exception_ctor (site_text x) (st_file x) (st_line x))).
End macros.

(** ** Specification: the level an environment asks for *)

(** the variable that counts: the one without time stamps wins *)
Definition requested (env : string → option string) : option string :=
  match env "UMAP_LOG_NO_TIMESTAMP_LEVEL" with Some v => Some v | None => env "UMAP_LOG_LEVEL" end.

Definition names (v : string) (l : Level) : Prop :=
  tolower <$> String.list_ascii_of_string v
  = tolower <$> String.list_ascii_of_string (MessageLevelName l).

Definition threshold (env : string → option string) (l : Level) : Prop :=
  match requested env with
  | None => l = Info
  | Some v => names v l ∨ (l = Info ∧ ∀ l', ¬ names v l')
  end.

Definition at_most (l : Level) (x : Level * site) : Prop :=
  (level_index x.1 ≤ level_index l)%nat.
#[export] Instance at_most_dec l x : Decision (at_most l x).
Proof. unfold at_most. apply _. Defined.

(** the line of a message *)
Definition line_of (env : string → option string) (x : Level * site) : string :=
  render (bool_decide (env "UMAP_LOG_NO_TIMESTAMP_LEVEL" = None)) (st_stamp x.2) x.1
    (site_text x.2) (st_file x.2) (st_line x.2).

(** the logger a threshold configures *)
Definition logger_for (env : string → option string) (l : Level) : Logger :=
  setLoggingMsgLevel l (Logger_ctor (bool_decide (env "UMAP_LOG_NO_TIMESTAMP_LEVEL" = None))).

Lemma find_level_Some v ls l : find_level v ls = Some l → names v l.
Proof.
  induction ls as [|l' ls IH]; simpl; [done|]. unfold strcasecmp_eq. case_bool_decide; [|done].
  by intros [= <-].
Qed.

Lemma find_level_None v ls l : find_level v ls = None → l ∈ ls → ¬ names v l.
Proof.
  induction ls as [|l' ls IH]; simpl; [set_solver|]. unfold strcasecmp_eq.
  case_bool_decide; [done|]. intros E [->|?]%elem_of_cons; auto.
Qed.

Lemma all_levels (l : Level) : l ∈ levels.
Proof. destruct l; set_solver. Qed.

(** the enabled flags are those up to the level *)
Lemma enabled_spec env l l' :
  logLevelEnabled (logger_for env l) l' = bool_decide (level_index l' ≤ level_index l)%nat.
Proof. by destruct l, l'. Qed.

(** initialisation installs the logger of the threshold, writing at most to
    [std::cerr] *)
Lemma initialize_run env out err :
  ∃ l err', threshold env l ∧
    initialize (mkLogState None env out err) =
      Ok tt (mkLogState (Some (logger_for env l)) env out err').
Proof.
  unfold initialize, threshold, requested. erewrite bind_run by reflexivity. cbv zeta.
  cbn [s_Logger log_env]. unfold env_name, env_name_no_timestamp, logger_for.
  assert (∀ v, ∃ l err',
    (names v l ∨ (l = Info ∧ ∀ l', ¬ names v l')) ∧
    match find_level v levels with
    | Some level => mret level
    | None => complain v ;; mret defaultLevel
    end (mkLogState None env out err) = Ok l (mkLogState None env out err')) as Hv.
  { intros v. destruct (find_level v levels) as [l|] eqn:E.
    - exists l, err. split; [left; by eapply find_level_Some|done].
    - exists Info. eexists. split; [right; split; [done|]|].
      + intros l'. eapply find_level_None; [done|apply all_levels].
      + reflexivity. }
  destruct (env "UMAP_LOG_NO_TIMESTAMP_LEVEL") as [v|];
    [|destruct (env "UMAP_LOG_LEVEL") as [v|]].
  3: by eexists Info, _.
  all: destruct (Hv v) as (l&err'&Hl&E); exists l, err'; split; [done|];
    by rewrite (bind_run _ _ _ _ _ E).
Qed.

Definition log_all (debug : bool) (xs : list (Level * site)) : M LogState unit :=
  for_each xs (λ x, UMAP_LOG debug x.1 x.2).

(** with a logger in place, a message is written iff its level is enabled *)
Lemma umap_log_run env l x out err :
  UMAP_LOG true x.1 x.2 (mkLogState (Some (logger_for env l)) env out err) =
    Ok tt (mkLogState (Some (logger_for env l)) env
      (out ++ (line_of env <$> filter (at_most l) [x])) err).
Proof.
  unfold UMAP_LOG. erewrite bind_run by reflexivity. rewrite enabled_spec.
  destruct (decide (at_most l x)) as [H|H].
  - rewrite filter_cons_True, bool_decide_true by done. simpl when.
    erewrite bind_run by reflexivity. unfold logMessage. rewrite enabled_spec.
    by rewrite bool_decide_true by done.
  - rewrite filter_cons_False, bool_decide_false by done. simpl. by rewrite app_nil_r.
Qed.

Lemma log_all_run env l xs out err :
  log_all true xs (mkLogState (Some (logger_for env l)) env out err) =
    Ok tt (mkLogState (Some (logger_for env l)) env
      (out ++ (line_of env <$> filter (at_most l) xs)) err).
Proof.
  revert out. induction xs as [|x xs IH]; intros out; [by rewrite app_nil_r|].
  unfold log_all in *. simpl for_each. rewrite (bind_run _ _ _ _ _ (umap_log_run env l x out err)), IH.
  do 2 f_equal. rewrite <- app_assoc, <- fmap_app, <- filter_app. done.
Qed.

(** the first message initialises the logger *)
Lemma umap_log_first level x s s' :
  s_Logger s = None → initialize s = Ok tt s' → is_Some (s_Logger s') →
  UMAP_LOG true level x s = UMAP_LOG true level x s'.
Proof.
  intros Hs E [l Hl].
  assert (getActiveLogger s' = Ok l s') as Hg'.
  { unfold getActiveLogger. erewrite bind_run by reflexivity.
    rewrite bool_decide_false by (by rewrite Hl). erewrite bind_run by reflexivity.
    erewrite bind_run by reflexivity. by rewrite Hl. }
  assert (getActiveLogger s = Ok l s') as Hg.
  { unfold getActiveLogger. erewrite bind_run by reflexivity.
    rewrite bool_decide_true by done. rewrite (bind_run _ _ _ _ _ E).
    erewrite bind_run by reflexivity. by rewrite Hl. }
  unfold UMAP_LOG. by rewrite (bind_run _ _ _ _ _ Hg), (bind_run _ _ _ _ _ Hg').
Qed.

(** (functional).  A program that logs any sequence of messages through
    [UMAP_LOG], starting without a logger, prints exactly the messages of the
    level the environment asks for and of the more severe ones, in order: the
    level named, in any case, by UMAP_LOG_NO_TIMESTAMP_LEVEL if that is set and
    by UMAP_LOG_LEVEL otherwise, and Info for an unknown name or without both;
    no message is lost to the initialisation. *)
Theorem umap_log_prints env xs :
  ∃ l s', threshold env l ∧ log_all true xs (mkLogState None env [] []) = Ok tt s' ∧
    log_out s' = line_of env <$> filter (at_most l) xs.
Proof.
  destruct (initialize_run env [] []) as (l&err'&Hl&E). exists l.
  destruct xs as [|x xs]; [by eexists|]. eexists. split; [done|].
  assert (UMAP_LOG true x.1 x.2 (mkLogState None env [] []) = _) as Hx
    by (etrans; [eapply umap_log_first; [done|exact E|done]|apply umap_log_run]).
  unfold log_all. simpl for_each. rewrite (bind_run _ _ _ _ _ Hx).
  split; [apply (log_all_run env l xs)|]. cbn [log_out].
  by rewrite app_nil_l, <- fmap_app, <- filter_app.
Qed.

(** (error).  [UMAP_ERROR] throws an exception whose text names the file, the
    line and the function; with logging compiled in, the same text is printed
    first, at every level the logger can be set to. *)
Theorem umap_error_reports env (x : site) :
  (∃ s', UMAP_ERROR (A := unit) true x (mkLogState None env [] []) =
     Throw ("! UMAP Exception [" +:+ st_file x +:+ ":" +:+ to_string (st_line x) +:+ "]: " +:+
            " " +:+ st_func x +:+ " " +:+ st_msg x) s' ∧
     log_out s' = [line_of env (Error, x)]) ∧
  ∀ s, UMAP_ERROR (A := unit) false x s =
     Throw ("! UMAP Exception [" +:+ st_file x +:+ ":" +:+ to_string (st_line x) +:+ "]: " +:+
            " " +:+ st_func x +:+ " " +:+ st_msg x) s.
Proof.
  split; [|done]. destruct (initialize_run env [] []) as (l&err'&Hl&E). eexists. split.
  - unfold UMAP_ERROR. erewrite bind_run; [reflexivity|].
    erewrite umap_log_first; [apply (umap_log_run env l (Error, x))|done|exact E|done].
  - cbn [log_out]. rewrite filter_cons_True by (unfold at_most; simpl; lia). done.
Qed.
