(* ===== verification/Stream.v ===== *)
(** * The STREAM example (src/examples/stream/stream.c)

    The memory benchmark on three mapped arrays of doubles: a first invocation
    initialises the files, a second one checks them, runs the four kernels
    [NTIMES] times and validates the arrays against a scalar recomputation.  The
    arithmetic is IEEE double precision without contraction into fused
    operations; the OpenMP loops, whose iterations are independent, run in
    order.  The clock, which only influences what is printed, is in
    StreamTiming.v. *)

From stdpp Require Import base list numbers strings.
From Stdlib Require Import Floats.SpecFloat Strings.Byte.
From S2P Require Import Prelude MapFile Rmat.
Local Open Scope Z_scope.

(** ** Doubles *)

Definition d_0 : spec_float := S754_zero false.
Definition d_2 : spec_float := S754_finite false 4503599627370496 (-51).
Definition d_3 : spec_float := S754_finite false 6755399441055744 (-51).
Definition d_1em13 : spec_float := S754_finite false 7922816251426434 (-96).
(** [a != b] and [a > b] *)
Definition d_ne (x y : spec_float) : bool := negb (SFeqb x y).
Definition d_gt (x y : spec_float) : bool := SFltb y x.
(** [#define abs(a) ((a) >= 0 ? (a) : -(a))] *)
Definition d_abs (x : spec_float) : spec_float := if d_ge x d_0 then x else SFopp x.
(** [(double) n] of an unsigned integer *)
Definition d_of_Z (n : Z) : spec_float := binary_normalize 53 1024 n 0 false.

(** ** The arrays *)

Inductive array_name := A_ | B_ | C_.

Record Arrays := mkArrays {
  a_ : list spec_float;
  b_ : list spec_float;
  c_ : list spec_float
}.

Definition arr (w : array_name) (s : Arrays) : list spec_float :=
  match w with A_ => a_ s | B_ => b_ s | C_ => c_ s end.
Definition set_arr (w : array_name) (l : list spec_float) (s : Arrays) : Arrays :=
  match w with
  | A_ => mkArrays l (b_ s) (c_ s)
  | B_ => mkArrays (a_ s) l (c_ s)
  | C_ => mkArrays (a_ s) (b_ s) l
  end.

(** [w[j]] and [w[j] = v], with j below the size of the mapping *)
Definition rd (w : array_name) (j : Z) : M Arrays spec_float :=
  s ← get;
  match arr w s !! Z.to_nat j with
  | Some v => mret v
  | None => undefined "read beyond the mapping"
  end.
Definition wr (w : array_name) (j : Z) (v : spec_float) : M Arrays unit :=
  s ← get;
  if bool_decide (Z.to_nat j < length (arr w s))%nat
  then modify (set_arr w (<[Z.to_nat j := v]> (arr w s)))
  else undefined "write beyond the mapping".

(** ** Kernels *)

Definition init_arrays (array_size : Z) : M Arrays unit :=
  for_each (seqZ 0 array_size) (λ j, wr A_ j d_1 ;; wr B_ j d_2 ;; wr C_ j d_0).

(** [false]: the process exits with status 13 *)
Fixpoint check_init (idx : list Z) : M Arrays bool :=
  match idx with
  | [] => mret true
  | j :: idx =>
      a ← rd A_ j;
      if d_ne a d_1 then mret false
      else
        b ← rd B_ j;
        if d_ne b d_2 then mret false
        else
          c ← rd C_ j;
          if d_ne c d_0 then mret false else check_init idx
  end.

Definition double_a (array_size : Z) : M Arrays unit :=
  for_each (seqZ 0 array_size) (λ j, a ← rd A_ j; wr A_ j (d_mul d_2 a)).

Definition Copy (array_size : Z) : M Arrays unit :=
  for_each (seqZ 0 array_size) (λ j, a ← rd A_ j; wr C_ j a).
Definition Scale (scalar : spec_float) (array_size : Z) : M Arrays unit :=
  for_each (seqZ 0 array_size) (λ j, c ← rd C_ j; wr B_ j (d_mul scalar c)).
Definition Add (array_size : Z) : M Arrays unit :=
  for_each (seqZ 0 array_size) (λ j, a ← rd A_ j; b ← rd B_ j; wr C_ j (d_add a b)).
Definition Triad (scalar : spec_float) (array_size : Z) : M Arrays unit :=
  for_each (seqZ 0 array_size)
    (λ j, b ← rd B_ j; c ← rd C_ j; wr A_ j (d_add b (d_mul scalar c))).

Fixpoint kernels (ntimes : nat) (array_size : Z) : M Arrays unit :=
  match ntimes with
  | O => mret tt
  | S k =>
      Copy array_size ;; Scale d_3 array_size ;; Add array_size ;; Triad d_3 array_size ;;
      kernels k array_size
  end.

(** ** Validation *)

(** the scalar recomputation of one element *)
Fixpoint expected_loop (ntimes : nat) (aj bj cj : spec_float) : spec_float * spec_float * spec_float :=
  match ntimes with
  | O => (aj, bj, cj)
  | S k =>
      let cj := aj in
      let bj := d_mul d_3 cj in
      let cj := d_add aj bj in
      let aj := d_add bj (d_mul d_3 cj) in
      expected_loop k aj bj cj
  end.
Definition expected (ntimes : nat) : spec_float * spec_float * spec_float :=
  expected_loop ntimes (d_mul d_2 d_1) d_2 d_0.

Fixpoint sum_errors (aj bj cj : spec_float) (idx : list Z) (ea eb ec : spec_float)
    : M Arrays (spec_float * spec_float * spec_float) :=
  match idx with
  | [] => mret (ea, eb, ec)
  | j :: idx =>
      a ← rd A_ j; b ← rd B_ j; c ← rd C_ j;
      sum_errors aj bj cj idx (d_add ea (d_abs (d_sub a aj))) (d_add eb (d_abs (d_sub b bj)))
        (d_add ec (d_abs (d_sub c cj)))
  end.

(** elements whose relative error exceeds epsilon *)
Fixpoint count_errors (w : array_name) (v : spec_float) (idx : list Z) (ierr : Z) : M Arrays Z :=
  match idx with
  | [] => mret ierr
  | j :: idx =>
      x ← rd w j;
      count_errors w v idx
        (if d_gt (d_abs (d_sub (d_div x v) d_1)) d_1em13 then ierr + 1 else ierr)
  end.

(** the report of one array: [None] when its average error is accepted *)
Definition check_array (w : array_name) (avg_err v : spec_float) (array_size : Z)
    : M Arrays (option Z) :=
  if d_gt (d_abs (d_div avg_err v)) d_1em13 then
    ierr ← count_errors w v (seqZ 0 array_size) 0; mret (Some ierr)
  else mret None.

(** [err], the number of arrays that fail *)
Definition checkSTREAMresults (ntimes : nat) (array_size : Z) : M Arrays Z :=
  let '(aj, bj, cj) := expected ntimes in
  '(ea, eb, ec) ← sum_errors aj bj cj (seqZ 0 array_size) d_0 d_0 d_0;
  let size := d_of_Z array_size in
  ra ← check_array A_ (d_div ea size) aj array_size;
  rb ← check_array B_ (d_div eb size) bj array_size;
  rc ← check_array C_ (d_div ec size) cj array_size;
  mret (Z.of_nat (length (omap id [ra; rb; rc]))).

(** ** [main] on mapped arrays: the exit status, and [err] if the results are
    checked *)
Definition stream_main (ntimes : nat) (is_init : bool) (array_size : Z) : M Arrays (Z * option Z) :=
  if is_init then init_arrays array_size ;; mret (0, None)
  else
    ok ← check_init (seqZ 0 array_size);
    if ok : bool then
      double_a array_size ;;
      kernels ntimes array_size ;;
      err ← checkSTREAMresults ntimes array_size;
      mret (0, Some err)
    else mret (13, None).

(** ** Files *)

(** the length of a mapping: the bytes of the array in whole pages *)
Definition umap_region_length (array_size umap_psize : Z) : Z :=
  u64 (u64 (u64 (8 * array_size) + umap_psize - 1) / umap_psize * umap_psize).

Section files.
Context {F : Type} `{MapOS F}.

(** the descriptor, or -1 *)
Definition open_prealloc_file (is_init : bool) (fname : string) (totalbytes : Z) : M F Z :=
  eno ← (if is_init then
           f ← get;
           modify (λ _, (unlink fname f).2) ;;
           mret (unlink fname f).1
         else mret 0);
  if bool_decide (eno ≠ 0 ∧ eno ≠ ENOENT) then mret (-1)
  else
    f ← get;
    match open_path fname true true f with
    | None => mret (-1)
    | Some (fd, f1) =>
        modify (λ _, f1) ;;
        if is_init : bool then
          let '(x, f2) := fallocate fd totalbytes f1 in
          modify (λ _, f2) ;;
          mret (if bool_decide (x ≠ 0) then -1 else fd)
        else mret fd
    end.
End files.

(** ** Loops on uniform arrays *)

Lemma arr_set w l s : arr w (set_arr w l s) = l.
Proof. by destruct w. Qed.
Lemma arr_set_ne w w' l s : w ≠ w' → arr w' (set_arr w l s) = arr w' s.
Proof. by destruct w, w'. Qed.
Lemma set_set w l l' s : set_arr w l (set_arr w l' s) = set_arr w l s.
Proof. by destruct w. Qed.
Lemma set_same w s : set_arr w (arr w s) s = s.
Proof. by destruct w, s. Qed.

(** the first [k] elements of [l] overwritten by [v] *)
Definition filled (k : nat) (v : spec_float) (l : list spec_float) : list spec_float :=
  replicate k v ++ drop k l.

Lemma filled_insert k v l :
  (k < length l)%nat → <[k := v]> (filled k v l) = filled (S k) v l.
Proof.
  intros Hk. unfold filled. rewrite insert_app_r_alt by (rewrite length_replicate; lia).
  rewrite length_replicate, Nat.sub_diag. destruct (lookup_lt_is_Some_2 l k Hk) as [x Hx].
  rewrite (drop_S _ _ _ Hx), replicate_S_end, <- app_assoc. done.
Qed.

Lemma filled_length k v l : (k ≤ length l)%nat → length (filled k v l) = length l.
Proof. intros. unfold filled. rewrite length_app, length_replicate, length_drop. lia. Qed.

Lemma filled_lookup k v l i : (i < k)%nat → filled k v l !! i = Some v.
Proof.
  intros. unfold filled. rewrite lookup_app_l by (rewrite length_replicate; lia).
  by apply lookup_replicate_2.
Qed.

Lemma filled_lookup_ge k v l i :
  (k ≤ i)%nat → filled k v l !! i = l !! i.
Proof.
  intros. unfold filled. rewrite lookup_app_r by (rewrite length_replicate; lia).
  rewrite length_replicate, lookup_drop. f_equal. lia.
Qed.

Lemma filled_filled n x y l : (n ≤ length l)%nat → filled n x (filled n y l) = filled n x l.
Proof. intros. unfold filled. rewrite drop_app_length'; [done|by rewrite length_replicate]. Qed.

Lemma wr_run w j v s :
  0 ≤ j → (Z.to_nat j < length (arr w s))%nat →
  wr w j v s = Ok tt (set_arr w (<[Z.to_nat j := v]> (arr w s)) s).
Proof. intros. unfold wr, mbind, M_bind. simpl. by rewrite bool_decide_true. Qed.

Lemma rd_run w j v s : arr w s !! Z.to_nat j = Some v → rd w j s = Ok v s.
Proof. intros Hv. unfold rd, mbind, M_bind. simpl. by rewrite Hv. Qed.

Lemma seqZ_S_end k : seqZ 0 (Z.of_nat (S k)) = seqZ 0 (Z.of_nat k) ++ [Z.of_nat k].
Proof.
  replace (Z.of_nat (S k)) with (Z.of_nat k + 1) by lia. rewrite seqZ_app by lia. f_equal.
Qed.

Lemma for_each_snoc {S A} (l : list A) x (body : A → M S unit) s s1 s2 :
  for_each l body s = Ok tt s1 → body x s1 = Ok tt s2 → for_each (l ++ [x]) body s = Ok tt s2.
Proof.
  revert s. induction l as [|y l IH]; intros s; simpl.
  - intros [= ->] E. by rewrite (bind_run _ _ _ _ _ E).
  - unfold mbind, M_bind. destruct (body y s) as [[] s'| | |]; try done. apply IH.
Qed.

(** A loop that writes [v] to element j of one array, where the value it
    computes does not depend on the elements written before. *)
Lemma kernel_loop w (body : Z → M Arrays unit) v n s :
  (n ≤ length (arr w s))%nat →
  (∀ k, (k < n)%nat → let st := set_arr w (filled k v (arr w s)) s in
     body (Z.of_nat k) st = wr w (Z.of_nat k) v st) →
  for_each (seqZ 0 (Z.of_nat n)) body s = Ok tt (set_arr w (filled n v (arr w s)) s).
Proof.
  intros Hn Hf. induction n as [|n IH]; [simpl; unfold filled; by rewrite drop_0, app_nil_l, set_same|].
  rewrite seqZ_S_end. eapply for_each_snoc; [apply IH; [lia|intros; apply Hf; lia]|].
  rewrite (Hf n ltac:(lia)).
  rewrite wr_run; rewrite ?arr_set, ?filled_length, ?Nat2Z.id by lia; [|lia..].
  by rewrite filled_insert, set_set by lia.
Qed.

(** ** Uniform states *)

(** every array starts with [n] equal elements; the rest is that of [r] *)
Definition uni (n : nat) (x y z : spec_float) (r : Arrays) : Arrays :=
  mkArrays (filled n x (a_ r)) (filled n y (b_ r)) (filled n z (c_ r)).

Definition large (n : nat) (r : Arrays) : Prop := ∀ w, (n ≤ length (arr w r))%nat.

Lemma init_arrays_run n r :
  large n r → init_arrays (Z.of_nat n) r = Ok tt (uni n d_1 d_2 d_0 r).
Proof.
  intros Hl. pose proof (Hl A_) as Ha. pose proof (Hl B_) as Hb. pose proof (Hl C_) as Hc.
  simpl in *. clear Hl. unfold init_arrays. induction n as [|n IH].
  { unfold uni, filled. rewrite !drop_0. by destruct r. }
  rewrite seqZ_S_end. eapply for_each_snoc; [apply IH; lia|]. cbv beta. unfold uni.
  do 2 (erewrite bind_run by
    (rewrite wr_run by (simpl; rewrite ?filled_length; lia); reflexivity)).
  rewrite wr_run by (simpl; rewrite ?filled_length; lia). simpl.
  by rewrite Nat2Z.id, !filled_insert by lia.
Qed.

Section uniform.
Context (n : nat) (r : Arrays) (Hl : large n r).

Lemma uni_length w x y z : (n ≤ length (arr w (uni n x y z r)))%nat.
Proof. pose proof (Hl w). destruct w; simpl in *; by rewrite filled_length. Qed.

Lemma uni_rd w x y z k :
  (k < n)%nat → rd w (Z.of_nat k) (uni n x y z r) =
    Ok (match w with A_ => x | B_ => y | C_ => z end) (uni n x y z r).
Proof. intros. apply rd_run. rewrite Nat2Z.id. destruct w; by apply filled_lookup. Qed.

(** reading another array while [w] is being written *)
Lemma uni_rd_ne w w' x y z l k :
  w ≠ w' → (k < n)%nat → rd w' (Z.of_nat k) (set_arr w l (uni n x y z r)) =
    Ok (match w' with A_ => x | B_ => y | C_ => z end) (set_arr w l (uni n x y z r)).
Proof.
  intros. apply rd_run. rewrite arr_set_ne, Nat2Z.id by done. destruct w'; by apply filled_lookup.
Qed.

Lemma uni_set w v x y z :
  set_arr w (filled n v (arr w (uni n x y z r))) (uni n x y z r) =
    match w with A_ => uni n v y z r | B_ => uni n x v z r | C_ => uni n x y v r end.
Proof. pose proof (Hl w). destruct w; unfold uni; simpl in *; by rewrite filled_filled. Qed.

Lemma double_a_run x y z :
  double_a (Z.of_nat n) (uni n x y z r) = Ok tt (uni n (d_mul d_2 x) y z r).
Proof.
  rewrite <- (uni_set A_ (d_mul d_2 x) x y z). apply (kernel_loop A_); [apply uni_length|].
  intros k Hk st. rewrite (bind_run _ _ _ x st); [done|]. apply rd_run. unfold st.
  rewrite arr_set, Nat2Z.id, filled_lookup_ge by done. by apply filled_lookup.
Qed.

Lemma Copy_run x y z : Copy (Z.of_nat n) (uni n x y z r) = Ok tt (uni n x y x r).
Proof.
  rewrite <- (uni_set C_ x x y z). apply (kernel_loop C_); [apply uni_length|].
  intros k Hk st. by erewrite bind_run by (by apply (uni_rd_ne C_ A_)).
Qed.

Lemma Scale_run q x y z :
  Scale q (Z.of_nat n) (uni n x y z r) = Ok tt (uni n x (d_mul q z) z r).
Proof.
  rewrite <- (uni_set B_ (d_mul q z) x y z). apply (kernel_loop B_); [apply uni_length|].
  intros k Hk st. by erewrite bind_run by (by apply (uni_rd_ne B_ C_)).
Qed.

Lemma Add_run x y z : Add (Z.of_nat n) (uni n x y z r) = Ok tt (uni n x y (d_add x y) r).
Proof.
  rewrite <- (uni_set C_ (d_add x y) x y z). apply (kernel_loop C_); [apply uni_length|].
  intros k Hk st. erewrite bind_run by (by apply (uni_rd_ne C_ A_)).
  by erewrite bind_run by (by apply (uni_rd_ne C_ B_)).
Qed.

Lemma Triad_run q x y z :
  Triad q (Z.of_nat n) (uni n x y z r) = Ok tt (uni n (d_add y (d_mul q z)) y z r).
Proof.
  rewrite <- (uni_set A_ (d_add y (d_mul q z)) x y z). apply (kernel_loop A_); [apply uni_length|].
  intros k Hk st. erewrite bind_run by (by apply (uni_rd_ne A_ B_)).
  by erewrite bind_run by (by apply (uni_rd_ne A_ C_)).
Qed.

(** the kernels compute element-wise what the scalar recomputation computes *)
Lemma kernels_run k x y z :
  kernels k (Z.of_nat n) (uni n x y z r) =
    Ok tt (let '(x', y', z') := expected_loop k x y z in uni n x' y' z' r).
Proof.
  revert x y z. induction k as [|k IH]; intros x y z; [done|]. cbn [kernels].
  rewrite (bind_run _ _ _ _ _ (Copy_run x y z)).
  rewrite (bind_run _ _ _ _ _ (Scale_run d_3 x y x)).
  rewrite (bind_run _ _ _ _ _ (Add_run x (d_mul d_3 x) x)).
  rewrite (bind_run _ _ _ _ _ (Triad_run d_3 x (d_mul d_3 x) (d_add x (d_mul d_3 x)))).
  apply IH.
Qed.

Lemma check_init_run m i :
  (i + m ≤ n)%nat →
  check_init (seqZ (Z.of_nat i) (Z.of_nat m)) (uni n d_1 d_2 d_0 r) = Ok true (uni n d_1 d_2 d_0 r).
Proof.
  revert i. induction m as [|m IH]; intros i Hi; [done|].
  rewrite seqZ_cons by lia. cbn [check_init].
  rewrite (bind_run _ _ _ _ _ (uni_rd A_ d_1 d_2 d_0 i ltac:(lia))).
  change (d_ne d_1 d_1) with false. cbv iota.
  rewrite (bind_run _ _ _ _ _ (uni_rd B_ d_1 d_2 d_0 i ltac:(lia))).
  change (d_ne d_2 d_2) with false. cbv iota.
  rewrite (bind_run _ _ _ _ _ (uni_rd C_ d_1 d_2 d_0 i ltac:(lia))).
  change (d_ne d_0 d_0) with false. cbv iota.
  replace (Z.succ (Z.of_nat i)) with (Z.of_nat (S i)) by lia.
  replace (Z.pred (Z.of_nat (S m))) with (Z.of_nat m) by lia. apply IH. lia.
Qed.
End uniform.

(** ** Validation of uniform arrays *)

(** zero or not a number *)
Definition zn (x : spec_float) : Prop :=
  match x with S754_zero _ | S754_nan => True | _ => False end.

Lemma zn_sub_same x : zn (d_sub x x).
Proof.
  destruct x as [s|s| |s m e]; [by destruct s..|done|]. unfold d_sub, SFsub.
  by rewrite Z.sub_diag.
Qed.

Lemma zn_abs x : zn x → zn (d_abs x).
Proof. destruct x as [s|s| |s m e]; try done; by destruct s. Qed.

Lemma zn_add x y : zn x → zn y → zn (d_add x y).
Proof. destruct x as [s|s| |s m e], y as [t|t| |t p q]; try done. by destruct s, t. Qed.

Lemma zn_div x y : zn x → zn (d_div x y).
Proof. by destruct x as [s|s| |s m e], y as [t|t| |t p q]. Qed.

Lemma zn_gt x : zn x → d_gt x d_1em13 = false.
Proof. by destruct x. Qed.

Create HintDb zn_db.
#[export] Hint Resolve zn_sub_same zn_abs zn_add zn_div zn_gt : zn_db.

Section validation.
Context (n : nat) (r : Arrays) (Hl : large n r).

Lemma sum_errors_run m i x y z ea eb ec :
  (i + m ≤ n)%nat → zn ea → zn eb → zn ec →
  ∃ ea' eb' ec', zn ea' ∧ zn eb' ∧ zn ec' ∧
    sum_errors x y z (seqZ (Z.of_nat i) (Z.of_nat m)) ea eb ec (uni n x y z r) =
      Ok (ea', eb', ec') (uni n x y z r).
Proof.
  revert i ea eb ec. induction m as [|m IH]; intros i ea eb ec Hi Ha Hb Hc.
  { exists ea, eb, ec. split_and!; done. }
  rewrite seqZ_cons by lia. cbn [sum_errors].
  rewrite (bind_run _ _ _ _ _ (uni_rd n r A_ x y z i ltac:(lia))).
  rewrite (bind_run _ _ _ _ _ (uni_rd n r B_ x y z i ltac:(lia))).
  rewrite (bind_run _ _ _ _ _ (uni_rd n r C_ x y z i ltac:(lia))).
  replace (Z.succ (Z.of_nat i)) with (Z.of_nat (S i)) by lia.
  replace (Z.pred (Z.of_nat (S m))) with (Z.of_nat m) by lia.
  apply IH; [lia|auto with zn_db..].
Qed.

Lemma check_array_run w e v size s : zn e → check_array w (d_div e size) v (Z.of_nat n) s = Ok None s.
Proof. intros He. unfold check_array. by rewrite zn_gt by auto with zn_db. Qed.

(** the validation accepts arrays that hold the recomputed values *)
Lemma checkSTREAMresults_run ntimes :
  let s := let '(x, y, z) := expected ntimes in uni n x y z r in
  checkSTREAMresults ntimes (Z.of_nat n) s = Ok 0 s.
Proof.
  unfold checkSTREAMresults. destruct (expected ntimes) as [[x y] z]. cbv zeta.
  destruct (sum_errors_run n 0 x y z d_0 d_0 d_0) as (ea&eb&ec&Ha&Hb&Hc&E); [lia|done..|].
  change (Z.of_nat 0) with 0 in E. rewrite (bind_run _ _ _ _ _ E). cbv beta iota.
  rewrite (bind_run _ _ _ _ _ (check_array_run A_ ea x _ _ Ha)).
  rewrite (bind_run _ _ _ _ _ (check_array_run B_ eb y _ _ Hb)).
  by rewrite (bind_run _ _ _ _ _ (check_array_run C_ ec z _ _ Hc)).
Qed.
End validation.

Lemma stream_runs ntimes n r :
  large n r →
  let s1 := uni n d_1 d_2 d_0 r in
  let s2 := let '(x, y, z) := expected ntimes in uni n x y z r in
  stream_main ntimes true (Z.of_nat n) r = Ok (0, None) s1 ∧
  stream_main ntimes false (Z.of_nat n) s1 = Ok (0, Some 0) s2.
Proof.
  intros Hl s1 s2. unfold stream_main. split.
  - by rewrite (bind_run _ _ _ _ _ (init_arrays_run n r Hl)).
  - rewrite (bind_run _ _ _ _ _ (check_init_run n r n 0 ltac:(lia))).
    rewrite (bind_run _ _ _ _ _ (double_a_run n r Hl d_1 d_2 d_0)).
    rewrite (bind_run _ _ _ _ _ (kernels_run n r Hl ntimes (d_mul d_2 d_1) d_2 d_0)).
    by rewrite (bind_run _ _ _ _ _ (checkSTREAMresults_run n r ntimes)).
Qed.

(** (functional).  The intended use, initialisation and then a run: for every
    array length, every number of repetitions and whatever the files held, both
    invocations exit with status 0, the first [n] elements of the arrays end as
    the values of the scalar recomputation, the rest is untouched, and the
    program's validation finds no error. *)
Theorem stream_validates ntimes n r :
  large n r →
  ∃ s1 s2, stream_main ntimes true (Z.of_nat n) r = Ok (0, None) s1 ∧
    stream_main ntimes false (Z.of_nat n) s1 = Ok (0, Some 0) s2 ∧
    let '(x, y, z) := expected ntimes in
    s2 = mkArrays (replicate n x ++ drop n (a_ r)) (replicate n y ++ drop n (b_ r))
           (replicate n z ++ drop n (c_ r)).
Proof.
  intros Hl. destruct (stream_runs ntimes n r Hl) as [E1 E2]. eexists _, _.
  split_and!; [exact E1|exact E2|]. by destruct (expected ntimes) as [[x y] z].
Qed.

(** the values after the default number of repetitions: 6750, 1350 and 1800 *)
Lemma expected_default :
  expected 3 = (d_of_Z 6750, d_of_Z 1350, d_of_Z 1800).
Proof. vm_compute. reflexivity. Qed.

(** (error).  A run consumes its input: a second run with the default number of
    repetitions, without initialising the files again, finds other values and
    exits with status 13. *)
Theorem stream_second_run_exits n r :
  (0 < n)%nat → large n r →
  ∃ s1 s2, stream_main 3 true (Z.of_nat n) r = Ok (0, None) s1 ∧
    stream_main 3 false (Z.of_nat n) s1 = Ok (0, Some 0) s2 ∧
    stream_main 3 false (Z.of_nat n) s2 = Ok (13, None) s2.
Proof.
  intros Hn Hl. destruct (stream_runs 3 n r Hl) as [E1 E2].
  rewrite expected_default in E2. eexists _, _. split_and!; [exact E1|exact E2|].
  unfold stream_main. rewrite (bind_run _ _ _ false
    (uni n (d_of_Z 6750) (d_of_Z 1350) (d_of_Z 1800) r)); [reflexivity|].
  rewrite seqZ_cons by lia. cbn [check_init]. by rewrite (bind_run _ _ _ _ _ (uni_rd n r A_ _ _ _ 0 ltac:(lia))).
Qed.

(** The validation is blind to values that are not numbers: the sum of the
    errors is then not a number, which does not exceed epsilon. *)
Lemma stream_nan_validates :
  checkSTREAMresults 3 2 (mkArrays [S754_nan; d_0] [S754_nan; d_0] [S754_nan; d_0]) =
    Ok 0 (mkArrays [S754_nan; d_0] [S754_nan; d_0] [S754_nan; d_0]).
Proof. vm_compute. reflexivity. Qed.

(** a wrong value is found *)
Lemma stream_error_found :
  checkSTREAMresults 3 2 (mkArrays [d_of_Z 6750; d_of_Z 6751] [d_of_Z 1350; d_of_Z 1350]
    [d_of_Z 1800; d_of_Z 1800]) =
    Ok 1 (mkArrays [d_of_Z 6750; d_of_Z 6751] [d_of_Z 1350; d_of_Z 1350]
    [d_of_Z 1800; d_of_Z 1800]).
Proof. vm_compute. reflexivity. Qed.

(** ** Files *)

(** the mapping is the least number of whole pages that holds the array *)
Lemma umap_region_length_fits array_size psize :
  0 < psize → 0 ≤ array_size → 8 * array_size + psize < 2 ^ 64 →
  let len := umap_region_length array_size psize in
  (psize | len) ∧ 8 * array_size ≤ len < 8 * array_size + psize.
Proof.
  intros Hp Ha Hlt. unfold umap_region_length. rewrite (u64_small (8 * array_size)) by (unfold is_u64; lia).
  rewrite (u64_small (8 * array_size + psize - 1)) by (unfold is_u64; lia).
  pose proof (Z.div_mod (8 * array_size + psize - 1) psize ltac:(lia)) as Hd.
  pose proof (Z.mod_pos_bound (8 * array_size + psize - 1) psize Hp) as Hm.
  set (q := (8 * array_size + psize - 1) / psize) in *. rewrite u64_small by (unfold is_u64; nia).
  split; [by exists q|nia].
Qed.

(** a file opened for initialisation holds [totalbytes] zeros *)
Lemma open_prealloc_fresh {F} `{!MapOS F} `{!MapLaws F} fname totalbytes (f : F) fd f' :
  open_prealloc_file true fname totalbytes f = Ok fd f' → fd ≠ -1 →
  contents f' fname = Some (replicate (Z.to_nat totalbytes) Byte.x00).
Proof.
  intros H Hfd. unfold open_prealloc_file in H.
  apply bind_Ok in H as (eno&f0&E&H).
  assert (eno = (unlink fname f).1 ∧ f0 = (unlink fname f).2) as [-> ->] by (by inv_ok). clear E.
  case_bool_decide as He; [by inv_ok; simplify_eq|].
  assert (unlink_ok fname f) as Hu by (unfold unlink_ok; lia). inv_ok.
  destruct (open_path fname true true _) as [[fd1 f1]|] eqn:Eo; [|by inv_ok; simplify_eq].
  destruct (open_new_law _ _ _ _ _ (unlink_law f fname Hu) Eo) as [Hp Hc]. inv_ok.
  destruct (fallocate fd1 totalbytes _) as [x f2] eqn:Ea. inv_ok. case_bool_decide; [done|]. simplify_eq.
  destruct (m_fallocate_law _ _ _ _ _ _ Hp Hc Ea) as [_ Hc2]. by rewrite app_nil_l, Nat.sub_0_r in Hc2.
Qed.

(** ** Witnesses *)

Definition old_arrays : Arrays :=
  mkArrays [S754_nan; d_3; d_2] [d_0; d_0; d_0] [d_1; d_1; d_1].

Lemma old_arrays_large : large 2 old_arrays.
Proof. intros []; simpl; lia. Defined.

Lemma stream_validates_witness :
  ∃ s1 s2, stream_main 3 true 2 old_arrays = Ok (0, None) s1 ∧
    stream_main 3 false 2 s1 = Ok (0, Some 0) s2 ∧
    let '(x, y, z) := expected 3 in
    s2 = mkArrays [x; x; d_2] [y; y; d_0] [z; z; d_1].
Proof. exact (stream_validates 3 2 old_arrays old_arrays_large). Defined.

Lemma stream_second_run_exits_witness :
  ∃ s1 s2, stream_main 3 true 2 old_arrays = Ok (0, None) s1 ∧
    stream_main 3 false 2 s1 = Ok (0, Some 0) s2 ∧ stream_main 3 false 2 s2 = Ok (13, None) s2.
Proof. exact (stream_second_run_exits 2 old_arrays ltac:(lia) old_arrays_large). Defined.
