(* ===== verification/StreamTiming.v ===== *)
(** * The clock of the STREAM example (src/examples/stream/stream.c)

    [main] around the kernels of Stream.v: the granularity estimate of the clock,
    the times of the kernels, and the report made of them.  The clock is a
    parameter, the value of the n-th call of gettimeofday.  A conversion to [int]
    of a double that does not fit is undefined, as in C, and so is the run when
    the clock does not tick within [fuel] readings. *)

From stdpp Require Import base list numbers strings sets.
From Stdlib Require Import Floats.SpecFloat Sorting.Sorted.
From S2P Require Import Prelude Workers Rmat Stream.
Local Open Scope Z_scope.

Definition d_1em6 : spec_float := S754_finite false 4722366482869645 (-72).
Definition d_1e6 : spec_float := S754_finite false 8589934592000000 (-33).
Definition d_FLT_MAX : spec_float := S754_finite false 9007198717870080 75.

(** [#define MIN(x,y) ((x)<(y)?(x):(y))] and [MAX] *)
Definition d_min (x y : spec_float) : spec_float := if d_lt x y then x else y.
Definition d_max (x y : spec_float) : spec_float := if d_gt x y then x else y.

(** the integer part of a double *)
Definition d_trunc (x : spec_float) : option Z :=
  match x with
  | S754_zero _ => Some 0
  | S754_finite s m e =>
      let v := if bool_decide (0 ≤ e) then Z.pos m * 2 ^ e else Z.pos m / 2 ^ (- e) in
      Some (if s : bool then - v else v)
  | _ => None
  end.

(** [(int) x], if its value fits *)
Definition d_int (x : spec_float) : option Z :=
  v ← d_trunc x; if bool_decide (- 2 ^ 31 ≤ v < 2 ^ 31) then Some v else None.

Record Run := mkRun { now : nat; arrays : Arrays }.
Definition with_arrays (s : Arrays) (r : Run) : Run := mkRun (now r) s.
Definition on_arrays {A} (m : M Arrays A) : M Run A := zoom arrays with_arrays m.

Definition int_of (x : spec_float) : M Run Z :=
  match d_int x with Some v => mret v | None => undefined "conversion to int" end.

Section timing.
Context (gettimeofday : nat → Z * Z).

(** the value of the n-th reading *)
Definition reading (n : nat) : spec_float :=
  let '(tv_sec, tv_usec) := gettimeofday n in
  d_add (d_of_Z tv_sec) (d_mul (d_of_Z tv_usec) d_1em6).

Definition mysecond : M Run spec_float :=
  r ← get;
  modify (λ r, mkRun (S (now r)) (arrays r)) ;;
  mret (reading (now r)).

(** ** [checktick] *)

(** [while( ((t2=mysecond()) - t1) < 1.0E-6 ) ;] *)
Fixpoint await_tick (fuel : nat) (t1 : spec_float) : M Run spec_float :=
  match fuel with
  | O => undefined "the clock stands still"
  | S fuel =>
      t2 ← mysecond;
      if d_lt (d_sub t2 t1) d_1em6 then await_tick fuel t1 else mret t2
  end.

(** [m] values of timesfound *)
Fixpoint collect_ticks (fuel m : nat) : M Run (list spec_float) :=
  match m with
  | O => mret []
  | S m =>
      t1 ← mysecond;
      t2 ← await_tick fuel t1;
      ts ← collect_ticks fuel m;
      mret (t2 :: ts)
  end.

Fixpoint min_delta (minDelta : Z) (previous : spec_float) (timesfound : list spec_float) : M Run Z :=
  match timesfound with
  | [] => mret minDelta
  | t :: ts =>
      Delta ← int_of (d_mul d_1e6 (d_sub t previous));
      min_delta (Z.min minDelta (Z.max Delta 0)) t ts
  end.

Definition checktick (fuel : nat) : M Run Z :=
  timesfound ← collect_ticks fuel 20;
  match timesfound with
  | [] => undefined "no values"
  | t :: ts => min_delta 1000000 t ts
  end.

(** ** Timed kernels *)

Definition timed (kernel : M Arrays unit) : M Run spec_float :=
  t ← mysecond;
  on_arrays kernel ;;
  t' ← mysecond;
  mret (d_sub t' t).

(** row k of the result holds times[0][k], ..., times[3][k] *)
Fixpoint timed_kernels (ntimes : nat) (array_size : Z) : M Run (list (list spec_float)) :=
  match ntimes with
  | O => mret []
  | S k =>
      t0 ← timed (Copy array_size);
      t1 ← timed (Scale d_3 array_size);
      t2 ← timed (Add array_size);
      t3 ← timed (Triad d_3 array_size);
      ts ← timed_kernels k array_size;
      mret ([t0; t1; t2; t3] :: ts)
  end.

(** ** The report *)

Record Stat := mkStat { avgtime : spec_float; mintime : spec_float; maxtime : spec_float }.

Definition add_time (s : Stat) (t : spec_float) : Stat :=
  mkStat (d_add (avgtime s) t) (d_min (mintime s) t) (d_max (maxtime s) t).

(** the first repetition is skipped *)
Definition summary (times : list (list spec_float)) : list Stat :=
  foldl (zip_with add_time) (replicate 4 (mkStat d_0 d_FLT_MAX d_0)) (tail times).

(** the bytes a kernel moves *)
Definition moved_bytes (array_size : Z) : list spec_float :=
  (λ words, d_of_Z (u64 (words * 8 * array_size))) <$> [2; 2; 3; 3].

(** one line: the best rate in MB/s, and the three times *)
Definition report_line (ntimes : nat) (bytes : spec_float) (s : Stat) : spec_float * Stat :=
  (d_div (d_mul d_1em6 bytes) (mintime s),
   mkStat (d_div (avgtime s) (d_of_Z (Z.of_nat ntimes - 1))) (mintime s) (maxtime s)).

Definition report (ntimes : nat) (array_size : Z) (times : list (list spec_float))
    : list (spec_float * Stat) :=
  zip_with (report_line ntimes) (moved_bytes array_size) (summary times).

(** ** [main] with its clock

    [quantum] is the value the variable of this name happens to have: it is only
    assigned when the arrays are initialised. *)

Inductive printed :=
| PInit (init_time : spec_float) (quantum : Z)
| PExit
| PReport (few_ticks : option (Z * Z)) (lines : list (spec_float * Stat)) (err : Z).

Definition exit_status (p : printed) : Z := match p with PExit => 13 | _ => 0 end.
Definition checked (p : printed) : option Z := match p with PReport _ _ err => Some err | _ => None end.

Definition stream_timed (fuel ntimes : nat) (quantum : Z) (is_init : bool) (array_size : Z)
    : M Run printed :=
  if is_init then
    t00 ← mysecond;
    on_arrays (init_arrays array_size) ;;
    t11 ← mysecond;
    quantum ← checktick fuel;
    mret (PInit (d_sub t11 t00) (if bool_decide (1 ≤ quantum) then quantum else 1))
  else
    ok ← on_arrays (check_init (seqZ 0 array_size));
    if ok : bool then
      t ← mysecond;
      on_arrays (double_a array_size) ;;
      t' ← mysecond;
      let t := d_mul d_1e6 (d_sub t' t) in
      ticks ← int_of (d_div t (d_of_Z quantum));
      few ← (if bool_decide (ticks < 20) then us ← int_of t; mret (Some (us, ticks)) else mret None);
      times ← timed_kernels ntimes array_size;
      err ← on_arrays (checkSTREAMresults ntimes array_size);
      mret (PReport few (report ntimes array_size times) err)
    else mret PExit.

(** ** The estimate of the clock's granularity *)

(** from every reading of a window the next tick is at most [fuel] readings away,
    and differences within the window fit an [int] of microseconds *)
Definition tick_at (fuel i : nat) : bool :=
  existsb (λ j, negb (d_lt (d_sub (reading (i + j)) (reading i)) d_1em6)) (seq 1 fuel).
Definition span_fits (i j : nat) : bool :=
  bool_decide (is_Some (d_int (d_mul d_1e6 (d_sub (reading j) (reading i))))).
Definition clock_ok (fuel first last : nat) : Prop :=
  (∀ i, (first ≤ i < last)%nat → tick_at fuel i = true) ∧
  (∀ i j, (first ≤ i)%nat → (i < j ≤ last)%nat → span_fits i j = true).

Lemma mysecond_run r : mysecond r = Ok (reading (now r)) (mkRun (S (now r)) (arrays r)).
Proof. reflexivity. Qed.

(** The loop stops at the first tick. *)
Lemma await_tick_run fuel t1 r k :
  (k < fuel)%nat → d_lt (d_sub (reading (now r + k)) t1) d_1em6 = false →
  ∃ j, (j ≤ k)%nat ∧
    await_tick fuel t1 r = Ok (reading (now r + j)) (mkRun (S (now r + j)) (arrays r)).
Proof.
  revert r k. induction fuel as [|fuel IH]; intros r k Hk Ht; [lia|]. simpl.
  rewrite (bind_run _ _ _ _ _ (mysecond_run r)).
  destruct (d_lt (d_sub (reading (now r)) t1) d_1em6) eqn:E.
  - destruct k as [|k]; [by rewrite Nat.add_0_r, E in Ht|].
    destruct (IH (mkRun (S (now r)) (arrays r)) k) as (j&Hj&Ej); [lia| |].
    { simpl. by rewrite <- Nat.add_succ_r. }
    exists (S j). split; [lia|]. rewrite Ej. simpl. by rewrite Nat.add_succ_r.
  - exists 0%nat. split; [lia|]. by rewrite Nat.add_0_r.
Qed.

(** The values found are readings of the window, in order. *)
Lemma collect_ticks_run fuel m r last :
  (now r + m * S fuel ≤ last)%nat → (∀ i, (now r ≤ i < last)%nat → tick_at fuel i = true) →
  ∃ js r', collect_ticks fuel m r = Ok (reading <$> js) r' ∧ length js = m ∧
    Sorted lt js ∧ Forall (λ j, (now r ≤ j < last)%nat) js ∧ arrays r' = arrays r ∧ (now r' ≤ last)%nat.
Proof.
  revert r. induction m as [|m IH]; intros r Hlast Hall.
  { exists [], r. split_and!; [done|done|constructor|constructor|done|lia]. }
  assert (tick_at fuel (now r) = true) as Ht by (apply Hall; lia).
  apply existsb_exists in Ht as (k&Hk&Ht). apply in_seq in Hk. apply negb_true_iff in Ht.
  simpl collect_ticks. rewrite (bind_run _ _ _ _ _ (mysecond_run r)).
  destruct (await_tick_run fuel (reading (now r)) (mkRun (S (now r)) (arrays r)) (pred k)) as (j&Hj&Ej).
  { lia. } { simpl. by replace (S (now r + pred k)) with (now r + k)%nat by lia. }
  rewrite (bind_run _ _ _ _ _ Ej). simpl in *.
  destruct (IH (mkRun (S (S (now r + j))) (arrays r))) as (js&r'&E&Hlen&Hs&Hf&Ha&Hn); simpl in *;
    [lia|intros; apply Hall; lia|].
  rewrite (bind_run _ _ _ _ _ E). exists (S (now r + j) :: js), r'.
  split_and!; [done|by f_equal/=| | |done|done].
  - constructor; [done|]. destruct Hf; constructor; lia.
  - constructor; [lia|]. eapply Forall_impl; [exact Hf|]. simpl; lia.
Qed.

Lemma min_delta_run mn i js r last :
  0 ≤ mn ≤ 1000000 → Sorted lt (i :: js) → Forall (λ j, (j ≤ last)%nat) js →
  (∀ j j', (i ≤ j)%nat → (j < j' ≤ last)%nat → span_fits j j' = true) →
  ∃ q, min_delta mn (reading i) (reading <$> js) r = Ok q r ∧ 0 ≤ q ≤ mn.
Proof.
  revert mn i. induction js as [|j js IH]; intros mn i Hm Hs Hf Hspan.
  { exists mn. split; [done|lia]. }
  apply Sorted_inv in Hs as [Hs Hd]. apply HdRel_inv in Hd. apply Forall_cons in Hf as [Hj Hf].
  pose proof (Hspan i j ltac:(lia) ltac:(lia)) as Hfit. apply bool_decide_eq_true in Hfit as [v Hv].
  cbn [min_delta fmap list_fmap]. rewrite (bind_run _ _ _ v r) by (unfold int_of; by rewrite Hv).
  destruct (IH (Z.min mn (Z.max v 0)) j) as (q&E&Hq); [lia|done|done|intros; apply Hspan; lia|].
  exists q. split; [exact E|lia].
Qed.

(** [checktick] returns, with an estimate of at most a second, if the clock
    ticks within [fuel] readings. *)
Lemma checktick_run fuel r last :
  (now r + 20 * S fuel ≤ last)%nat → clock_ok fuel (now r) last →
  ∃ q r', checktick fuel r = Ok q r' ∧ 0 ≤ q ≤ 1000000 ∧ arrays r' = arrays r.
Proof.
  intros Hlast [Htick Hspan].
  destruct (collect_ticks_run fuel 20 r last Hlast Htick) as (js&r'&E&Hlen&Hs&Hf&Ha&Hn).
  unfold checktick. rewrite (bind_run _ _ _ _ _ E). destruct js as [|j js]; [done|].
  apply Forall_cons in Hf as [Hj Hf]. destruct (min_delta_run 1000000 j js r' last) as (q&Eq&Hq).
  - lia.
  - exact Hs.
  - eapply Forall_impl; [exact Hf|]. simpl; lia.
  - intros; apply Hspan; lia.
  - by exists q, r'.
Qed.

(** ** The clock does not influence the arrays *)

(** the timed operation does to the arrays what the untimed one does *)
Definition follows {A B} (m : M Run A) (f : A → B) (m0 : M Arrays B) : Prop :=
  ∀ r, match m r with
       | Ok a r' => m0 (arrays r) = Ok (f a) (arrays r')
       | Throw e r' => m0 (arrays r) = Throw e (arrays r')
       | Block c r' => m0 (arrays r) = Block c (arrays r')
       | UB _ => True
       end.

(** an operation that only reads the clock *)
Definition quiet {A} (m : M Run A) : Prop :=
  ∀ r, match m r with Ok _ r' => arrays r' = arrays r | UB _ => True | _ => False end.

Lemma quiet_ret {A} (a : A) : quiet (mret a).
Proof. done. Qed.
Lemma quiet_undefined {A} why : quiet (undefined (A := A) why).
Proof. done. Qed.
Lemma quiet_bind {A B} (m : M Run A) (k : A → M Run B) :
  quiet m → (∀ a, quiet (k a)) → quiet (m ≫= k).
Proof.
  intros Hm Hk r. specialize (Hm r). unfold mbind, M_bind. destruct (m r) as [a r'| | |]; try done.
  specialize (Hk a r'). rewrite Hm in Hk. exact Hk.
Qed.
Lemma quiet_mysecond : quiet mysecond.
Proof. done. Qed.
Lemma quiet_int_of x : quiet (int_of x).
Proof. unfold int_of. by destruct (d_int x). Qed.

Local Hint Resolve quiet_ret quiet_undefined quiet_bind quiet_mysecond quiet_int_of : core.

Lemma quiet_await_tick fuel t1 : quiet (await_tick fuel t1).
Proof. induction fuel; simpl; [done|]. apply quiet_bind; [done|]. intros t. by destruct (d_lt _ _). Qed.
Lemma quiet_collect_ticks fuel m : quiet (collect_ticks fuel m).
Proof. induction m; simpl; auto using quiet_await_tick. Qed.
Lemma quiet_min_delta mn t ts : quiet (min_delta mn t ts).
Proof. revert mn t. induction ts; simpl; auto. Qed.
Lemma quiet_checktick fuel : quiet (checktick fuel).
Proof. apply quiet_bind; [apply quiet_collect_ticks|]. intros []; auto using quiet_min_delta. Qed.

Lemma follows_quiet {A B C} (m : M Run A) (k : A → M Run B) (f : B → C) m0 :
  quiet m → (∀ a, follows (k a) f m0) → follows (m ≫= k) f m0.
Proof.
  intros Hm Hk r. specialize (Hm r). unfold mbind, M_bind. destruct (m r) as [a r'| | |]; try done.
  specialize (Hk a r'). rewrite Hm in Hk. exact Hk.
Qed.

Lemma follows_bind {A A0 B B0} (m : M Run A) (g : A → A0) (m0 : M Arrays A0)
    (k : A → M Run B) (f : B → B0) k0 :
  follows m g m0 → (∀ a, follows (k a) f (k0 (g a))) → follows (m ≫= k) f (m0 ≫= k0).
Proof.
  intros Hm Hk r. specialize (Hm r). unfold mbind, M_bind.
  destruct (m r) as [a r'|e r'|c r'|]; [|by rewrite Hm..|done]. rewrite Hm. apply Hk.
Qed.

Lemma follows_then {A B C} (m : M Run A) (g : A → C) (m0 : M Arrays C) (k : A → M Run B) (f : B → C) :
  follows m g m0 → (∀ a, quiet (k a)) → (∀ a r b r', k a r = Ok b r' → f b = g a) →
  follows (m ≫= k) f m0.
Proof.
  intros Hm Hk Hf r. specialize (Hm r). unfold mbind, M_bind. destruct (m r) as [a r'| | |]; try done.
  specialize (Hk a r'). destruct (k a r') as [b r''| | |] eqn:E; try done.
  by rewrite Hm, (Hf _ _ _ _ E), Hk.
Qed.

Lemma follows_ret {A B} (a : A) (f : A → B) : follows (mret a) f (mret (f a)).
Proof. by intros r. Qed.
Lemma follows_arrays {A} (m : M Arrays A) : follows (on_arrays m) id m.
Proof. intros r. unfold on_arrays, zoom. by destruct (m (arrays r)). Qed.

Local Hint Resolve follows_ret follows_arrays quiet_checktick : core.

Lemma timed_follows k : follows (timed k) (λ _, tt) k.
Proof.
  apply follows_quiet; [done|]. intros t. eapply follows_then; [apply follows_arrays|auto|].
  by intros [] r b r' _.
Qed.

Lemma timed_kernels_follows ntimes size :
  follows (timed_kernels ntimes size) (λ _, tt) (kernels ntimes size).
Proof.
  induction ntimes as [|k IH]; simpl; [by intros r|].
  do 4 (eapply (follows_bind _ (λ _, tt)); [apply timed_follows|]; intros ?; cbv beta).
  eapply follows_then; [exact IH|auto|done].
Qed.

(** (equivalence).  Whatever the clock shows and whatever an uninitialised
    [quantum] holds: a run of the program with its clock that is defined ends with
    the arrays, the exit status and the result of the validation of the program
    without. *)
Theorem stream_timed_follows fuel ntimes quantum is_init size :
  follows (stream_timed fuel ntimes quantum is_init size) (λ p, (exit_status p, checked p))
    (stream_main ntimes is_init size).
Proof.
  unfold stream_timed, stream_main. destruct is_init.
  - apply follows_quiet; [done|]. intros t. eapply follows_bind; [apply follows_arrays|]. intros [].
    repeat (apply follows_quiet; [auto|]; intros ?). apply (follows_ret (PInit _ _) (λ p, _)).
  - eapply follows_bind; [apply follows_arrays|]. intros ok. destruct ok; [|apply (follows_ret PExit (λ p, _))].
    apply follows_quiet; [done|]. intros t. eapply follows_bind; [apply follows_arrays|]. intros [].
    apply follows_quiet; [done|]. intros t'. apply follows_quiet; [auto|]. intros ticks.
    apply follows_quiet; [case_bool_decide; auto|]. intros few.
    eapply (follows_bind _ (λ _, tt)); [apply timed_kernels_follows|]. intros times.
    eapply follows_bind; [apply follows_arrays|]. intros err. apply (follows_ret (PReport _ _ _) (λ p, _)).
Qed.

(** The initialising invocation returns, with a granularity from one microsecond
    to one second, if the clock ticks within [fuel] readings. *)
Theorem stream_timed_init fuel ntimes quantum n r last :
  large n (arrays r) → (S (S (now r)) + 20 * S fuel ≤ last)%nat → clock_ok fuel (S (S (now r))) last →
  ∃ t q r', stream_timed fuel ntimes quantum true (Z.of_nat n) r = Ok (PInit t q) r' ∧
    1 ≤ q ≤ 1000000 ∧ arrays r' = uni n d_1 d_2 d_0 (arrays r).
Proof.
  intros Hl Hlast Hc. unfold stream_timed. rewrite (bind_run _ _ _ _ _ (mysecond_run r)).
  erewrite bind_run by (apply zoom_run, init_arrays_run, Hl). rewrite (bind_run _ _ _ _ _ (mysecond_run _)).
  destruct (checktick_run fuel (mkRun (S (S (now r))) (uni n d_1 d_2 d_0 (arrays r))) last Hlast Hc)
    as (q&r'&E&Hq&Ha).
  erewrite bind_run by exact E. eexists _, _, r'. split; [reflexivity|]. split; [|done].
  case_bool_decide; lia.
Qed.

Lemma timed_run k r s :
  k (arrays r) = Ok tt s → ∃ t r', timed k r = Ok t r' ∧ arrays r' = s.
Proof.
  intros E. unfold timed. rewrite (bind_run _ _ _ _ _ (mysecond_run r)).
  erewrite bind_run by (apply zoom_run; exact E). rewrite (bind_run _ _ _ _ _ (mysecond_run _)).
  by eexists _, _.
Qed.

Lemma timed_kernels_run ntimes size r s :
  kernels ntimes size (arrays r) = Ok tt s →
  ∃ ts r', timed_kernels ntimes size r = Ok ts r' ∧ arrays r' = s.
Proof.
  revert r. induction ntimes as [|k IH]; intros r E; simpl in *; [injection E as <-; by exists [], r|].
  apply bind_Ok in E as ([]&s1&E1&E). apply bind_Ok in E as ([]&s2&E2&E).
  apply bind_Ok in E as ([]&s3&E3&E). apply bind_Ok in E as ([]&s4&E4&E).
  destruct (timed_run _ r _ E1) as (t1&r1&F1&<-). destruct (timed_run _ r1 _ E2) as (t2&r2&F2&<-).
  destruct (timed_run _ r2 _ E3) as (t3&r3&F3&<-). destruct (timed_run _ r3 _ E4) as (t4&r4&F4&<-).
  destruct (IH r4 E) as (ts&r5&F5&<-).
  rewrite (bind_run _ _ _ _ _ F1), (bind_run _ _ _ _ _ F2), (bind_run _ _ _ _ _ F3),
    (bind_run _ _ _ _ _ F4), (bind_run _ _ _ _ _ F5). by eexists _, r5.
Qed.

(** the microseconds that two successive readings are apart *)
Definition first_span (i : nat) : spec_float :=
  d_mul d_1e6 (d_sub (reading (S i)) (reading i)).

(** A run on initialised arrays returns and validates if the time of its first
    loop fits an [int], in microseconds and in units of [quantum]. *)
Lemma stream_timed_run fuel ntimes quantum n r r0 :
  large n r0 → arrays r = uni n d_1 d_2 d_0 r0 →
  is_Some (d_int (first_span (now r))) → is_Some (d_int (d_div (first_span (now r)) (d_of_Z quantum))) →
  ∃ few lines r', stream_timed fuel ntimes quantum false (Z.of_nat n) r = Ok (PReport few lines 0) r' ∧
    arrays r' = let '(x, y, z) := expected ntimes in uni n x y z r0.
Proof.
  intros Hl Hr [us Hus] [ticks Hticks]. unfold stream_timed.
  erewrite bind_run by (apply zoom_run; rewrite Hr; apply (check_init_run n r0 n 0); lia).
  cbv iota beta. rewrite (bind_run _ _ _ _ _ (mysecond_run _)). simpl arrays.
  erewrite bind_run by (apply zoom_run; simpl; apply (double_a_run n r0 Hl)).
  rewrite (bind_run _ _ _ _ _ (mysecond_run _)). cbv zeta. cbn [now with_arrays arrays].
  change (d_mul d_1e6 _) with (first_span (now r)).
  erewrite bind_run by (unfold int_of; by rewrite Hticks).
  assert (∃ few, ∀ r', (if bool_decide (ticks < 20) then us ← int_of (first_span (now r)); mret (Some (us, ticks))
    else mret None) r' = Ok few r') as [few Hfew].
  { case_bool_decide; [|by eexists]. eexists. intros r'. by erewrite bind_run by (unfold int_of; by rewrite Hus). }
  rewrite (bind_run _ _ _ _ _ (Hfew _)).
  destruct (timed_kernels_run ntimes (Z.of_nat n)
    (mkRun (S (S (now r))) (uni n (d_mul d_2 d_1) d_2 d_0 r0))
    _ (kernels_run n r0 Hl ntimes (d_mul d_2 d_1) d_2 d_0)) as (ts&r'&E&Ha).
  rewrite (bind_run _ _ _ _ _ E).
  erewrite bind_run by (apply zoom_run; rewrite Ha; apply (checkSTREAMresults_run n r0 ntimes)).
  eexists few, _, _. split; [reflexivity|]. done.
Qed.

Lemma d_int_div_zero t : d_int (d_div t (d_of_Z 0)) = None.
Proof. by destruct t. Qed.

(** A division by zero is not a number an [int] can hold: a run in which the
    uninitialised variable happens to be zero is undefined at every clock. *)
Theorem zero_quantum_undefined fuel ntimes n r r0 :
  large n r0 → arrays r = uni n d_1 d_2 d_0 r0 →
  is_ub (stream_timed fuel ntimes 0 false (Z.of_nat n) r) = true.
Proof.
  intros Hl Hr. unfold stream_timed.
  erewrite bind_run by (apply zoom_run; rewrite Hr; apply (check_init_run n r0 n 0); lia).
  cbv iota beta. rewrite (bind_run _ _ _ _ _ (mysecond_run _)). simpl arrays.
  erewrite bind_run by (apply zoom_run; simpl; apply (double_a_run n r0 Hl)).
  rewrite (bind_run _ _ _ _ _ (mysecond_run _)). cbv zeta. unfold mbind at 1, M_bind, int_of.
  by rewrite d_int_div_zero.
Qed.
End timing.

(** ** The best and the worst time *)

Definition number (x : spec_float) : bool := match x with S754_nan => false | _ => true end.

(** numbers are ordered by class, exponent and significand *)
Definition class (x : spec_float) : Z :=
  match x with
  | S754_infinity s => if s : bool then -2 else 2
  | S754_finite s _ _ => if s : bool then -1 else 1
  | _ => 0
  end.
Definition expo (x : spec_float) : Z :=
  match x with S754_finite s _ e => if s : bool then - e else e | _ => 0 end.
Definition signif (x : spec_float) : Z :=
  match x with S754_finite s m _ => if s : bool then Z.neg m else Z.pos m | _ => 0 end.

Definition below (x y : spec_float) : Prop :=
  class x < class y ∨ class x = class y ∧ (expo x < expo y ∨ expo x = expo y ∧ signif x < signif y).

Lemma d_lt_spec x y : number x = true → number y = true → d_lt x y = true ↔ below x y.
Proof.
  intros Hx Hy. unfold d_lt, SFltb, below.
  destruct x as [s|s| |s m e]; [| |done|]; destruct y as [s'|s'| |s' m' e']; try done;
    destruct s, s'; simpl; try (intuition (lia || discriminate));
    change (Pos.compare_cont Eq m m') with (m ?= m')%positive;
    destruct (Z.compare_spec e e'), (Pos.compare_spec m m'); simpl; subst;
    (split; intros; [try discriminate; lia|try reflexivity; lia]).
Qed.

Lemma d_lt_trans_neg x y z :
  number x = true → number y = true → number z = true →
  d_lt y x = false → d_lt z y = false → d_lt z x = false.
Proof.
  intros Hx Hy Hz. rewrite <- !not_true_iff_false, !d_lt_spec by done. unfold below. lia.
Qed.
Lemma d_lt_asym x y : number x = true → number y = true → d_lt x y = true → d_lt y x = false.
Proof. intros Hx Hy. rewrite <- not_true_iff_false, !d_lt_spec by done. unfold below. lia. Qed.
Lemma d_lt_irrefl x : number x = true → d_lt x x = false.
Proof. intros Hx. rewrite <- not_true_iff_false, d_lt_spec by done. unfold below. lia. Qed.

(** the least and the greatest of a list *)
Definition least (x : spec_float) (l : list spec_float) : Prop :=
  x ∈ l ∧ Forall (λ t, d_lt t x = false) l.
Definition greatest (x : spec_float) (l : list spec_float) : Prop :=
  x ∈ l ∧ Forall (λ t, d_lt x t = false) l.

Lemma least_snoc x l t :
  Forall (λ t, number t = true) (l ++ [t]) → least x l → least (d_min x t) (l ++ [t]).
Proof.
  intros [Hl Ht]%Forall_app [Hx Hall]. rewrite Forall_singleton in Ht.
  assert (number x = true) as Hnx by exact (proj1 (Forall_forall _ _) Hl _ Hx).
  unfold least, d_min. destruct (d_lt x t) eqn:E; (split; [set_solver|]); apply Forall_app; split.
  - done.
  - apply Forall_singleton. by apply d_lt_asym.
  - apply Forall_forall. intros u Hu. rewrite Forall_forall in Hl, Hall.
    apply (d_lt_trans_neg _ x); auto.
  - by apply Forall_singleton, d_lt_irrefl.
Qed.

Lemma greatest_snoc x l t :
  Forall (λ t, number t = true) (l ++ [t]) → greatest x l → greatest (d_max x t) (l ++ [t]).
Proof.
  intros [Hl Ht]%Forall_app [Hx Hall]. rewrite Forall_singleton in Ht.
  assert (number x = true) as Hnx by exact (proj1 (Forall_forall _ _) Hl _ Hx).
  unfold greatest, d_max, d_gt. fold (d_lt t x).
  destruct (d_lt t x) eqn:E; (split; [set_solver|]); apply Forall_app; split.
  - done.
  - apply Forall_singleton. by apply d_lt_asym.
  - apply Forall_forall. intros u Hu. rewrite Forall_forall in Hl, Hall.
    apply (d_lt_trans_neg _ x); auto.
  - by apply Forall_singleton, d_lt_irrefl.
Qed.

(** one kernel *)
Lemma add_times_spec (ts : list spec_float) s l l' :
  Forall (λ t, number t = true) (l ++ ts) → Forall (λ t, number t = true) (l' ++ ts) →
  least (mintime s) l → greatest (maxtime s) l' →
  least (mintime (foldl add_time s ts)) (l ++ ts) ∧ greatest (maxtime (foldl add_time s ts)) (l' ++ ts).
Proof.
  revert s l l'. induction ts as [|t ts IH]; intros s l l' Hl Hl' Hmin Hmax; simpl.
  { by rewrite !app_nil_r. }
  rewrite cons_middle, app_assoc in Hl, Hl'. rewrite (cons_middle t l), (cons_middle t l'), !app_assoc.
  apply IH; [done|done| |].
  - apply least_snoc; [by apply Forall_app in Hl as [? _]|done].
  - apply greatest_snoc; [by apply Forall_app in Hl' as [? _]|done].
Qed.

(** the times of kernel [j] in some rows *)
Definition column (j : nat) (rows : list (list spec_float)) : list spec_float := omap (.!! j) rows.

Lemma fold_rows rows (ss : list Stat) j s :
  Forall (λ row, length row = length ss) rows → ss !! j = Some s →
  foldl (zip_with add_time) ss rows !! j = Some (foldl add_time s (column j rows)).
Proof.
  revert ss s. induction rows as [|row rows IH]; intros ss s Hrows Hs; [done|].
  apply Forall_cons in Hrows as [Hrow Hrows].
  destruct (lookup_lt_is_Some_2 row j) as [t Ht]; [rewrite Hrow; by eapply lookup_lt_Some|].
  simpl. unfold column. simpl. rewrite Ht. simpl. apply IH.
  - eapply Forall_impl; [exact Hrows|]. intros r. simpl. rewrite length_zip_with. lia.
  - rewrite lookup_zip_with, Hs. simpl. by rewrite Ht.
Qed.

(** (functional).  The report shows for each kernel the least and the greatest of
    its times after the first repetition, with FLT_MAX and 0 as the values for
    none, if all times are numbers. *)
Theorem summary_extremes times j s :
  Forall (λ row, length row = 4%nat ∧ Forall (λ t, number t = true) row) times →
  summary times !! j = Some s →
  least (mintime s) (d_FLT_MAX :: column j (tail times)) ∧
  greatest (maxtime s) (d_0 :: column j (tail times)).
Proof.
  intros Hrows Hs. assert (Forall (λ row, length row = 4%nat ∧ Forall (λ t, number t = true) row) (tail times))
    as Ht by (destruct Hrows; [constructor|done]). clear Hrows. unfold summary in Hs.
  assert (j < 4)%nat as Hj.
  { apply lookup_lt_Some in Hs. eapply Nat.lt_le_trans; [exact Hs|]. clear. revert times.
    cut (∀ rows ss, (length (foldl (zip_with add_time) ss rows) ≤ length ss)%nat).
    { intros H times. apply (H _ (replicate 4 _)). }
    induction rows as [|row rows IH]; intros ss; simpl; [done|]. etrans; [apply IH|].
    rewrite length_zip_with. lia. }
  rewrite (fold_rows _ _ j (mkStat d_0 d_FLT_MAX d_0)) in Hs.
  2:{ eapply Forall_impl; [exact Ht|]. by intros row [? _]. }
  2:{ by apply lookup_replicate_2. }
  simplify_eq. assert (Forall (λ t, number t = true) (column j (tail times))) as Hc.
  { apply Forall_forall. intros t (row&Hrow&Hl)%list_elem_of_omap.
    rewrite Forall_forall in Ht. destruct (Ht _ Hrow) as [_ Hn]. exact (Forall_lookup_1 _ _ _ _ Hn Hl). }
  apply (add_times_spec _ _ [d_FLT_MAX] [d_0]); [by constructor|by constructor|..];
    (split; [by left|repeat constructor]).
Qed.

(** ** Witnesses: a clock that advances by five microseconds *)

Definition demo_clock (n : nat) : Z * Z := (1700000000, 5 * Z.of_nat n).

Lemma demo_clock_ok : clock_ok demo_clock 1 2 42.
Proof.
  split.
  - assert (forallb (tick_at demo_clock 1) (seq 2 40) = true) as H by (vm_compute; reflexivity).
    intros i Hi. rewrite forallb_forall in H. apply H, in_seq. lia.
  - assert (forallb (λ i, forallb (span_fits demo_clock i) (seq 2 41)) (seq 2 41) = true) as H
      by (vm_compute; reflexivity).
    intros i j Hi Hj. rewrite forallb_forall in H. specialize (H i ltac:(apply in_seq; lia)).
    rewrite forallb_forall in H. apply H, in_seq. lia.
Qed.

Lemma stream_timed_init_witness :
  ∃ t q r', stream_timed demo_clock 1 3 0 true 2 (mkRun 0 old_arrays) = Ok (PInit t q) r' ∧
    1 ≤ q ≤ 1000000 ∧ arrays r' = uni 2 d_1 d_2 d_0 old_arrays.
Proof.
  apply (stream_timed_init demo_clock 1 3 0 2 (mkRun 0 old_arrays) 42 old_arrays_large);
    [simpl; lia|exact demo_clock_ok].
Defined.

(** the values found are ten microseconds apart, which the conversion to [int]
    truncates to nine; a run with this estimate validates *)
Lemma demo_estimate : returned (checktick demo_clock 1 (mkRun 2 old_arrays)) = Some 9.
Proof. vm_compute. reflexivity. Qed.

Lemma demo_timed_run :
  (exit_status <$> returned (stream_timed demo_clock 1 3 9 false 2
     (mkRun 0 (uni 2 d_1 d_2 d_0 old_arrays)))) = Some 0.
Proof. vm_compute. reflexivity. Qed.

Definition demo_times : list (list spec_float) :=
  [[d_3; d_3; d_3; d_3]; [d_2; d_1; d_2; d_1]; [d_1; d_1; d_3; d_2]].

Lemma summary_extremes_witness :
  least d_2 [d_FLT_MAX; d_2; d_3] ∧ greatest d_3 [d_0; d_2; d_3].
Proof.
  apply (summary_extremes demo_times 2 (mkStat (d_of_Z 5) d_2 d_3)).
  - repeat constructor.
  - vm_compute. reflexivity.
Defined.

Lemma zero_quantum_undefined_witness :
  is_ub (stream_timed demo_clock 1 3 0 false 2 (mkRun 0 (uni 2 d_1 d_2 d_0 old_arrays))) = true.
Proof. by apply (zero_quantum_undefined demo_clock 1 3 2 _ old_arrays old_arrays_large). Defined.
