(* ===== verification/StreamProgram.v ===== *)
(** * The STREAM program (src/examples/stream/stream.c)

    [main] from its arguments to the files it leaves: the files are prepared and
    mapped, the mapped bytes are arrays of doubles in the IEEE binary64 format,
    StreamTiming.v is what happens on them, and what is stored goes to the files
    of GraphFile.v.  A mapping by [umap] whose region is unmapped at the end and a
    shared mapping by [mmap] leave the same bytes, the former because the engine
    writes back what was stored. *)

From stdpp Require Import base list numbers strings gmap.
From Stdlib Require Import Strings.Byte Floats.SpecFloat.
From S2P Require Import Prelude Store Config SparseStore MapFile GraphFile Rmat Stream StreamTiming.
Local Open Scope Z_scope.

(** ** Doubles in memory *)

(** sign, eleven bits of exponent, 52 bits of significand; which of the values
    that are not numbers the memory holds is not kept apart *)
Definition d_of_bits (w : Z) : spec_float :=
  let s := bool_decide (2 ^ 63 ≤ w) in
  let e := w / 2 ^ 52 mod 2 ^ 11 in
  let m := w mod 2 ^ 52 in
  if bool_decide (e = 0) then
    match m with Z.pos p => S754_finite s p (-1074) | _ => S754_zero s end
  else if bool_decide (e = 2047) then
    (if bool_decide (m = 0) then S754_infinity s else S754_nan)
  else S754_finite s (Z.to_pos (m + 2 ^ 52)) (e - 1075).

Definition sign_bit (s : bool) : Z := if s then 2 ^ 63 else 0.

Definition bits_of_d (x : spec_float) : Z :=
  match x with
  | S754_zero s => sign_bit s
  | S754_infinity s => sign_bit s + 2047 * 2 ^ 52
  | S754_nan => 2047 * 2 ^ 52 + 2 ^ 51
  | S754_finite s m e =>
      sign_bit s + (if bool_decide (Z.pos m < 2 ^ 52) then Z.pos m
                    else (e + 1075) * 2 ^ 52 + (Z.pos m - 2 ^ 52))
  end.

(** ** Arguments *)

(** white space, a sign, digits *)
Definition decimal_value (s : string) : Z :=
  match skip_space (String.list_ascii_of_string s) with
  | [] => 0
  | c :: l =>
      let '(neg, digits) :=
        if bool_decide (Ascii.nat_of_ascii c = 45%nat) then (true, l)
        else if bool_decide (Ascii.nat_of_ascii c = 43%nat) then (false, l) else (false, c :: l) in
      let n := (read_digits digits 0 false).1 in
      if neg : bool then - n else n
  end.

(** a value that the type does not hold is undefined *)
Definition atol {S} (s : string) : M S Z :=
  let v := decimal_value s in
  if bool_decide (- 2 ^ 63 ≤ v < 2 ^ 63) then mret v else undefined "atol: out of range".
Definition atoi {S} (s : string) : M S Z :=
  let v := decimal_value s in
  if bool_decide (- 2 ^ 31 ≤ v < 2 ^ 31) then mret v else undefined "atoi: out of range".

Definition STREAM_ARRAY_SIZE : Z := 4096.

(** [array_size] and [is_init] from the arguments after the program's name *)
Definition read_args {S} (argv : list string) : M S (Z * bool) :=
  array_size ← (match argv !! 0%nat with
                | Some a => v ← atol a; mret (u64 v)
                | None => mret STREAM_ARRAY_SIZE
                end);
  is_init ← (match argv !! 1%nat with
             | Some a => atoi a
             | None => mret 0
             end);
  mret (array_size, bool_decide (is_init ≠ 0)).

(** ** Mapped arrays *)

Definition load_array (addr : Z) (f : FS) : list spec_float :=
  d_of_bits <$> words_of (length (fs_view addr f) / 8) (fs_view addr f).

(** the stores of a run, which are to the first [n] elements *)
Definition store_array (n : nat) (addr : Z) (l : list spec_float) (f : FS) : FS :=
  store_words addr (bits_of_d <$> take n l) f.

Definition UMAP_FAILED : Z := 2 ^ 64 - 1.
Definition MAP_SHARED : Z := 1.

Section program.
Context (succeeds : fscall → nat → bool) (page_size : Z).
#[local] Existing Instance fs_os.

(** [umap] or [mmap]; a failure is only reported *)
Definition map_array (usemmap : bool) (length_ fd : Z) : M FS Z :=
  f ← get;
  match map_call (MapOS := fs_os succeeds page_size) usemmap 0 length_ PROT_READ_WRITE
          (if usemmap then MAP_SHARED else UMAP_PRIVATE_FLAG) fd f with
  | Some (region, f') => modify (λ _, f') ;; mret region
  | None => mret UMAP_FAILED
  end.

(** [uunmap(a, 0)] ignores the length; [munmap(a, 0)] fails, and the mapping
    lasts as long as the process *)
Definition unmap_array (usemmap : bool) (addr : Z) : M FS unit :=
  if usemmap then mret tt
  else
    f ← get;
    match fs_maps f !! addr with
    | None => throw "umap fault monitor not found"
    | Some _ =>
        match unmap_call (MapOS := fs_os succeeds page_size) usemmap addr 0 f with
        | Some f' => modify (λ _, f')
        | None => throw "ioctl(UFFDIO_UNREGISTER) failed"
        end
    end.

(** null pointers unless all files were opened *)
Definition map_arrays (usemmap : bool) (length_ fd0 fd1 fd2 : Z) : M FS (Z * Z * Z) :=
  if bool_decide (0 < fd0 ∧ 0 < fd1 ∧ 0 < fd2) then
    a ← map_array usemmap length_ fd0;
    b ← map_array usemmap length_ fd1;
    c ← map_array usemmap length_ fd2;
    mret (a, b, c)
  else mret (0, 0, 0).

Definition prepare (usemmap is_init : bool) (length_ : Z) : M FS (Z * Z * Z) :=
  fd0 ← open_prealloc_file (H := fs_os succeeds page_size) is_init "./stream_a" length_;
  fd1 ← open_prealloc_file (H := fs_os succeeds page_size) is_init "./stream_b" length_;
  fd2 ← open_prealloc_file (H := fs_os succeeds page_size) is_init "./stream_c" length_;
  map_arrays usemmap length_ fd0 fd1 fd2.

(** [quantum] is what the uninitialised variable holds *)
Definition stream_program (gettimeofday : nat → Z * Z) (fuel ntimes : nat) (quantum umap_psize : Z)
    (usemmap : bool) (argv : list string) : M FS printed :=
  '(array_size, is_init) ← read_args argv;
  '(a, b, c) ← prepare usemmap is_init (umap_region_length array_size umap_psize);
  f ← get;
  '(p, r) ← run_local (stream_timed gettimeofday fuel ntimes quantum is_init array_size)
              (mkRun 0 (mkArrays (load_array a f) (load_array b f) (load_array c f)));
  match p with
  | PExit => mret PExit     (* nothing was stored *)
  | _ =>
      let n := Z.to_nat array_size in
      modify (store_array n a (a_ (arrays r))) ;;
      modify (store_array n b (b_ (arrays r))) ;;
      modify (store_array n c (c_ (arrays r))) ;;
      unmap_array usemmap a ;; unmap_array usemmap b ;; unmap_array usemmap c ;;
      mret p
  end.
End program.

(** the process has ended *)
Definition exit_process (f : FS) : FS := with_maps ∅ (with_fds ∅ f).

(** ** The format of doubles *)

(** a canonical significand has 53 bits, or fewer at the least exponent *)
Lemma bounded_spec m e :
  bounded 53 1024 m e = true →
  Z.pos m < 2 ^ 53 ∧ -1074 ≤ e ≤ 971 ∧ (Z.pos m < 2 ^ 52 → e = -1074).
Proof.
  unfold bounded, canonical_mantissa, fexp, emin. intros [Hc He]%andb_true_iff.
  apply Z.eqb_eq in Hc. apply Z.leb_le in He.
  assert (digits2_pos m = Pos.size m) as Ed by (clear; induction m; simpl; congruence).
  rewrite Ed in Hc. pose proof (Pos.size_gt m) as Hgt. pose proof (Pos.size_le m) as Hle.
  apply Pos2Z.pos_lt_pos in Hgt. rewrite Pos2Z.inj_pow in Hgt.
  assert (2 ^ Z.pos (Pos.size m) ≤ 2 * Z.pos m) as Hle'.
  { rewrite <- Pos2Z.inj_pow. change (2 * Z.pos m) with (Z.pos m~0). by apply Pos2Z.pos_le_pos. }
  assert (Z.pos (Pos.size m) ≤ 53) as H53 by lia.
  pose proof (Z.pow_le_mono_r 2 _ _ ltac:(lia) H53). split; [lia|]. split; [lia|].
  intros Hm. destruct (decide (Z.pos (Pos.size m) = 53)) as [E|Hne]; [|lia].
  rewrite E in Hle'. change (2 ^ 53) with (2 * 2 ^ 52) in Hle'. lia.
Qed.

(** the fields of a word *)
Lemma d_of_fields s e m :
  0 ≤ e < 2 ^ 11 → 0 ≤ m < 2 ^ 52 →
  d_of_bits (sign_bit s + e * 2 ^ 52 + m) =
    if bool_decide (e = 0) then
      match m with Z.pos p => S754_finite s p (-1074) | _ => S754_zero s end
    else if bool_decide (e = 2047) then
      (if bool_decide (m = 0) then S754_infinity s else S754_nan)
    else S754_finite s (Z.to_pos (m + 2 ^ 52)) (e - 1075).
Proof.
  intros He Hm. set (w := sign_bit s + e * 2 ^ 52 + m).
  assert (w = ((if s then 2 ^ 11 else 0) + e) * 2 ^ 52 + m) as Ew by (unfold w, sign_bit; destruct s; lia).
  assert (w mod 2 ^ 52 = m) as Em by (rewrite Ew, Z.add_comm, Z.mod_add, Z.mod_small; lia).
  assert (w / 2 ^ 52 mod 2 ^ 11 = e) as Ee.
  { rewrite Ew, Z.div_add_l, (Z.div_small m), Z.add_0_r by lia.
    destruct s; [|by apply Z.mod_small].
    replace (2 ^ 11 + e) with (e + 1 * 2 ^ 11) by lia. rewrite Z.mod_add by lia. by apply Z.mod_small. }
  assert (bool_decide (2 ^ 63 ≤ w) = s) as Es
    by (unfold w, sign_bit; destruct s; [apply bool_decide_eq_true|apply bool_decide_eq_false]; cbv iota; lia).
  unfold d_of_bits. by rewrite Em, Ee, Es.
Qed.

(** (roundtrip).  A double that is stored and loaded again is the same double,
    and what is stored is a 64-bit word: the binary64 format is injective on
    zeros, subnormal and normal numbers, infinities and the value that is not a
    number. *)
Theorem double_bits_roundtrip x :
  valid_binary 53 1024 x = true → d_of_bits (bits_of_d x) = x ∧ is_u64 (bits_of_d x).
Proof.
  destruct x as [s|s| |s m e]; cbn [valid_binary bits_of_d]; intros Hv; try (by destruct s). 1: done.
  apply bounded_spec in Hv as (Hm&He&Hsub).
  assert (∀ z, 0 ≤ z < 2047 * 2 ^ 52 → is_u64 (sign_bit s + z)) as Hu
    by (unfold is_u64, sign_bit; destruct s; lia).
  case_bool_decide as Hlt.
  - split; [|apply Hu; lia]. rewrite (Hsub Hlt).
    replace (sign_bit s + Z.pos m) with (sign_bit s + 0 * 2 ^ 52 + Z.pos m) by lia.
    by rewrite d_of_fields by lia.
  - split; [|apply Hu; nia]. rewrite Z.add_assoc, d_of_fields by lia.
    rewrite !bool_decide_eq_false_2 by lia. f_equal; [|lia].
    replace (Z.pos m - 2 ^ 52 + 2 ^ 52) with (Z.pos m) by lia. done.
Qed.

(** ** Arguments *)

Lemma decimal_value_to_string n : is_u64 n → decimal_value (to_string n) = n.
Proof.
  intros Hn. unfold decimal_value, to_string, decimal. rewrite String.list_ascii_of_string_of_list_ascii.
  destruct (dec_digits_head 20 n []) as (d&l&E&Hd); [lia|unfold is_u64 in Hn; lia|].
  destruct (read_dec_digits 20 n [] false) as [Er _]; [lia|unfold is_u64 in *; lia|].
  rewrite E in Er |- *. cbn [skip_space].
  assert (Ascii.nat_of_ascii (digit_char d) = Z.to_nat (48 + d)) as Ec
    by (unfold digit_char; apply Ascii.nat_ascii_embedding; lia).
  assert (is_space_char (digit_char d) = false) as ->.
  { unfold is_space_char. rewrite Ec. by rewrite (bool_decide_false (_ = _)), (bool_decide_false (_ ≤ 13)%nat),
      andb_false_r by lia. }
  rewrite Ec, !bool_decide_false by lia. cbv zeta iota. by rewrite Er.
Qed.

Lemma read_args_run {S} n (init : bool) (s : S) :
  0 ≤ n < 2 ^ 63 → read_args [to_string n; if init then "1" else "0"] s = Ok (n, init) s.
Proof.
  intros Hn. unfold read_args, atol. cbn [lookup list_lookup].
  rewrite decimal_value_to_string by (unfold is_u64; lia). rewrite bool_decide_eq_true_2 by lia.
  erewrite bind_run by reflexivity. rewrite u64_small by (unfold is_u64; lia). by destruct init.
Qed.

(** ** The files, when every call succeeds *)

(** the contents of a file of [len] bytes whose first [n] doubles are [x] *)
Definition image (n len : nat) (x : spec_float) : bytes :=
  bytes_of_words (replicate n (bits_of_d x)) ++ replicate (len - 8 * n) x00.

Lemma length_image n len x : (8 * n ≤ len)%nat → length (image n len x) = len.
Proof. intros. unfold image. rewrite length_app, length_bytes_of_words, !length_replicate. lia. Qed.

Lemma drop_image n len x : drop (8 * n) (image n len x) = replicate (len - 8 * n) x00.
Proof. apply drop_app_length'. by rewrite length_bytes_of_words, length_replicate. Qed.

(** what is stored over the first doubles *)
Lemma store_image n len x l (xs : list spec_float) :
  take n xs = replicate n x → drop (8 * n) l = replicate (len - 8 * n) x00 →
  overwrite (bytes_of_words (bits_of_d <$> take n xs)) l = image n len x.
Proof.
  intros -> Hl. rewrite fmap_replicate. unfold overwrite, image.
  by rewrite length_bytes_of_words, length_replicate, Hl.
Qed.

(** what is loaded *)
Lemma load_image n len x :
  (8 * n ≤ len)%nat → valid_binary 53 1024 x = true →
  d_of_bits <$> words_of (length (image n len x) / 8) (image n len x) =
    filled n x (replicate (len / 8) d_0).
Proof.
  intros Hn Hx. destruct (double_bits_roundtrip x Hx) as [Hr Hu].
  unfold image. rewrite words_of_padded by (by apply Forall_replicate).
  rewrite fmap_app, !fmap_replicate, Hr. unfold filled. rewrite drop_replicate. do 2 f_equal.
  pose proof (Nat.div_add (len - 8 * n) n 8). replace (len - 8 * n + n * 8)%nat with len in * by lia. lia.
Qed.

Lemma load_zeros len : d_of_bits <$> words_of (len / 8) (replicate len x00) = replicate (len / 8) d_0.
Proof. by rewrite words_of_zeros, fmap_replicate. Qed.

Section success.
Context (succeeds : fscall → nat → bool) (page_size : Z).
Context (Hok : ∀ c k, succeeds c k = true) (Hpage : 0 < page_size).
#[local] Existing Instance fs_os.

(** the contents of a file when it is mapped: zeros after an initialisation *)
Definition prepared (is_init : bool) (name : string) (len : nat) (f : FS) : option bytes :=
  if is_init then Some (replicate len x00) else fs_files f !! name.

(** three mappings of files with the given contents *)
Record mapped (a b c : Z) (len : nat) (la lb lc : bytes) (f : FS) : Prop := {
  map_a : fs_maps f !! a = Some ("./stream_a", len);
  map_b : fs_maps f !! b = Some ("./stream_b", len);
  map_c : fs_maps f !! c = Some ("./stream_c", len);
  file_a : fs_files f !! "./stream_a" = Some la;
  file_b : fs_files f !! "./stream_b" = Some lb;
  file_c : fs_files f !! "./stream_c" = Some lc;
  distinct : a ≠ b ∧ a ≠ c ∧ b ≠ c
}.

(** a process with standard input and output *)
Definition ready (f : FS) : Prop := 0 < fs_next_fd f ∧ 0 < fs_next_map f.

Lemma unlink_run name f :
  ∃ e k, unlink (MapOS := fs_os succeeds page_size) name f =
    (e, mkFS (delete name (fs_files f)) (fs_fds f) (fs_next_fd f) (fs_maps f) (fs_next_map f) k) ∧
    (e = 0 ∨ e = ENOENT).
Proof.
  cbn [unlink fs_os]. unfold allowed. rewrite Hok. cbn [negb].
  destruct (fs_files f !! name) eqn:E.
  - eexists 0, _. split; [reflexivity|by left].
  - eexists ENOENT, _. split; [|by right]. by rewrite delete_id.
Qed.

(** a new descriptor, and the file as it was or full of zeros *)
Lemma open_prealloc_run is_init name len f l :
  prepared is_init name (Z.to_nat len) f = Some l →
  ∃ k, open_prealloc_file (H := fs_os succeeds page_size) is_init name len f =
    Ok (fs_next_fd f) (mkFS (<[name := l]> (fs_files f)) (<[fs_next_fd f := name]> (fs_fds f))
      (fs_next_fd f + 1) (fs_maps f) (fs_next_map f) k).
Proof.
  intros Hl. unfold open_prealloc_file. destruct is_init; simpl in Hl.
  - simplify_eq. destruct (unlink_run name f) as (e&k&Eu&He).
    rewrite (bind_run _ _ _ e (mkFS (delete name (fs_files f)) (fs_fds f) (fs_next_fd f) (fs_maps f)
      (fs_next_map f) k)).
    2:{ erewrite bind_run by reflexivity. erewrite bind_run by reflexivity. by rewrite Eu. }
    rewrite bool_decide_eq_false_2 by tauto. erewrite bind_run by reflexivity.
    cbn [open_path fs_os]. unfold sys_open, allowed. rewrite Hok. cbn [negb fs_files fs_next_fd].
    rewrite lookup_delete_eq. erewrite bind_run by reflexivity.
    cbn [fallocate fs_os]. unfold sys_resize, file_of, allowed. cbn [fs_fds fs_files].
    rewrite lookup_insert_eq. cbn [mbind option_bind]. rewrite lookup_insert_eq. cbn [mbind option_bind].
    rewrite Hok. cbv beta iota. erewrite bind_run by reflexivity. cbn. eexists. do 2 f_equal.
    by rewrite insert_insert_eq, insert_delete_eq, Nat.sub_0_r.
  - erewrite bind_run by reflexivity. rewrite bool_decide_eq_false_2 by tauto.
    erewrite bind_run by reflexivity.
    cbn [open_path fs_os]. unfold sys_open, allowed. rewrite Hok, Hl. cbn [negb].
    erewrite bind_run by reflexivity. eexists. cbn. by rewrite (insert_id (fs_files f)).
Qed.

Lemma map_array_run usemmap len fd name f :
  0 < len → fs_fds f !! fd = Some name →
  ∃ k, map_array succeeds page_size usemmap len fd f =
    Ok (fs_next_map f) (mkFS (fs_files f) (fs_fds f) (fs_next_fd f)
      (<[fs_next_map f := (name, Z.to_nat len)]> (fs_maps f))
      (fs_next_map f + page_size * (len / page_size + 1)) k).
Proof.
  intros Hlen Hfd. unfold map_array. erewrite bind_run by reflexivity. cbn [map_call fs_os].
  unfold sys_mmap, allowed. rewrite Hfd, Hok, bool_decide_eq_true_2 by done. cbn. by eexists.
Qed.

Lemma prepare_run usemmap is_init len f la lb lc :
  ready f → 0 < len →
  prepared is_init "./stream_a" (Z.to_nat len) f = Some la →
  prepared is_init "./stream_b" (Z.to_nat len) f = Some lb →
  prepared is_init "./stream_c" (Z.to_nat len) f = Some lc →
  ∃ a b c f', prepare succeeds page_size usemmap is_init len f = Ok (a, b, c) f' ∧
    mapped a b c (Z.to_nat len) la lb lc f' ∧ ready f'.
Proof.
  intros [Hfd Hmap] Hlen Ha Hb Hc. unfold prepare.
  destruct (open_prealloc_run is_init "./stream_a" len f la Ha) as [k0 E0].
  rewrite (bind_run _ _ _ _ _ E0). clear E0.
  match goal with |- context [(_ ≫= _) ?g] => set (f0 := g) end.
  destruct (open_prealloc_run is_init "./stream_b" len f0 lb) as [k1 E1].
  { rewrite <- Hb. unfold prepared. destruct is_init; [done|]. by apply lookup_insert_ne. }
  rewrite (bind_run _ _ _ _ _ E1). clear E1.
  match goal with |- context [(_ ≫= _) ?g] => set (f1 := g) end.
  destruct (open_prealloc_run is_init "./stream_c" len f1 lc) as [k2 E2].
  { rewrite <- Hc. unfold prepared. destruct is_init; [done|]. cbn. by rewrite !lookup_insert_ne. }
  rewrite (bind_run _ _ _ _ _ E2). clear E2. cbn.
  unfold map_arrays. rewrite bool_decide_eq_true_2 by lia.
  set (d := page_size * (len / page_size + 1)).
  assert (0 < d) by (pose proof (Z.div_pos len page_size); nia).
  match goal with |- context [(_ ≫= _) ?g] => set (f2 := g) end.
  destruct (map_array_run usemmap len (fs_next_fd f) "./stream_a" f2 Hlen) as [k3 E3].
  { cbn. by rewrite !lookup_insert_ne, lookup_insert_eq by lia. }
  rewrite (bind_run _ _ _ _ _ E3). clear E3.
  match goal with |- context [(_ ≫= _) ?g] => set (f3 := g) end.
  destruct (map_array_run usemmap len (fs_next_fd f + 1) "./stream_b" f3 Hlen) as [k4 E4].
  { cbn. by rewrite lookup_insert_ne, lookup_insert_eq by lia. }
  rewrite (bind_run _ _ _ _ _ E4). clear E4.
  match goal with |- context [(_ ≫= _) ?g] => set (f4 := g) end.
  destruct (map_array_run usemmap len (fs_next_fd f + 1 + 1) "./stream_c" f4 Hlen) as [k5 E5].
  { cbn. by rewrite lookup_insert_eq. }
  rewrite (bind_run _ _ _ _ _ E5). clear E5. eexists _, _, _, _. split; [reflexivity|].
  fold d. cbn. fold d. split; [|split; cbn; lia].
  split; cbn; try lia; repeat (first [by apply lookup_insert_eq|rewrite lookup_insert_ne by (done || lia)]).
Qed.
(** what a store through a mapping does to the files *)
Lemma store_array_run n addr xs name len l f :
  fs_maps f !! addr = Some (name, len) → fs_files f !! name = Some l →
  store_array n addr xs f =
    with_files (<[name := overwrite (bytes_of_words (bits_of_d <$> take n xs)) l]> (fs_files f)) f.
Proof.
  intros Hm Hf. unfold store_array, store_words. rewrite Hm. f_equal. apply map_eq. intros q.
  destruct (decide (name = q)) as [<-|Hq]; [by rewrite lookup_alter_eq, lookup_insert_eq, Hf|].
  by rewrite lookup_alter_ne, lookup_insert_ne.
Qed.

Lemma unmap_array_run usemmap addr x f :
  fs_maps f !! addr = Some x → ready f →
  ∃ f', unmap_array succeeds page_size usemmap addr f = Ok tt f' ∧ fs_files f' = fs_files f ∧ ready f' ∧
    ∀ b, b ≠ addr → fs_maps f' !! b = fs_maps f !! b.
Proof.
  intros Hx Hr. unfold unmap_array. destruct usemmap; [by exists f|].
  erewrite bind_run by reflexivity. rewrite Hx. cbn [unmap_call fs_os]. unfold sys_munmap, allowed.
  rewrite Hok. eexists. split; [reflexivity|]. cbn. split_and!; [done|done|].
  intros b Hb. by apply lookup_delete_ne.
Qed.

(** the end of an invocation *)
Lemma finish_run {A} (v : A) usemmap n a b c len la lb lc x y z (s : Arrays) f :
  mapped a b c len la lb lc f → ready f →
  take n (a_ s) = replicate n x → take n (b_ s) = replicate n y → take n (c_ s) = replicate n z →
  Forall (λ l, drop (8 * n) l = replicate (len - 8 * n) x00) [la; lb; lc] →
  ∃ f', (modify (store_array n a (a_ s)) ;; modify (store_array n b (b_ s)) ;;
         modify (store_array n c (c_ s)) ;;
         unmap_array succeeds page_size usemmap a ;; unmap_array succeeds page_size usemmap b ;;
         unmap_array succeeds page_size usemmap c ;; mret v) f = Ok v f' ∧ ready f' ∧
    fs_files f' !! "./stream_a" = Some (image n len x) ∧
    fs_files f' !! "./stream_b" = Some (image n len y) ∧
    fs_files f' !! "./stream_c" = Some (image n len z).
Proof.
  intros [Ma Mb Mc Fa Fb Fc (Hab&Hac&Hbc)] Hr Ta Tb Tc Hd.
  rewrite !Forall_cons in Hd. destruct Hd as (Da&Db&Dc&_).
  do 3 erewrite bind_run by reflexivity.
  rewrite (store_array_run _ _ _ _ _ _ _ Ma Fa), (store_image n len x) by done.
  rewrite (store_array_run n b _ "./stream_b" len lb) by (cbn; by rewrite ?lookup_insert_ne).
  rewrite (store_image n len y) by done.
  rewrite (store_array_run n c _ "./stream_c" len lc) by (cbn; by rewrite ?lookup_insert_ne).
  rewrite (store_image n len z) by done.
  match goal with |- context [(_ ≫= _) ?g] => set (f0 := g) end.
  destruct (unmap_array_run usemmap a _ f0 Ma Hr) as (f1&E1&F1&R1&M1).
  destruct (unmap_array_run usemmap b ("./stream_b", len) f1) as (f2&E2&F2&R2&M2); [by rewrite M1|done|].
  destruct (unmap_array_run usemmap c ("./stream_c", len) f2) as (f3&E3&F3&R3&M3); [by rewrite M2, M1|done|].
  rewrite (bind_run _ _ _ _ _ E1), (bind_run _ _ _ _ _ E2), (bind_run _ _ _ _ _ E3).
  exists f3. split; [done|]. split; [done|]. rewrite F3, F2, F1. cbn.
  split_and!; repeat (first [by apply lookup_insert_eq|rewrite lookup_insert_ne by done]).
Qed.
(** ** Invocations *)

Section invocations.
Context (n : nat) (psize : Z) (usemmap : bool).
Context (Hn : (0 < n)%nat) (Hpsize : 0 < psize) (Hsize : 8 * Z.of_nat n + psize < 2 ^ 63).

Let length_ : Z := umap_region_length (Z.of_nat n) psize.
Let len : nat := Z.to_nat length_.

(** what new files show *)
Definition blank : Arrays :=
  mkArrays (replicate (len / 8) d_0) (replicate (len / 8) d_0) (replicate (len / 8) d_0).

Lemma length_room : 0 < length_ ∧ (8 * n ≤ len)%nat.
Proof.
  destruct (umap_region_length_fits (Z.of_nat n) psize) as [_ H]; [done|lia|lia|].
  unfold len. fold length_ in H. lia.
Qed.

Lemma blank_large : large n blank.
Proof.
  pose proof length_room as [_ H]. intros w.
  assert (n ≤ len / 8)%nat by (apply Nat.div_le_lower_bound; lia).
  destruct w; simpl; by rewrite length_replicate.
Qed.

Lemma load_mapped a name l f :
  fs_maps f !! a = Some (name, len) → fs_files f !! name = Some l → length l = len →
  load_array a f = d_of_bits <$> words_of (len / 8) l.
Proof.
  intros Hm Hf Hl. unfold load_array, fs_view. rewrite Hm, Hf. simpl. by rewrite take_ge, Hl by lia.
Qed.

(** an invocation that stores, on files of whole mappings *)
Lemma invocation_run clock fuel ntimes quantum is_init f la lb lc p r x y z :
  ready f → Forall (λ l, length l = len ∧ drop (8 * n) l = replicate (len - 8 * n) x00) [la; lb; lc] →
  prepared is_init "./stream_a" len f = Some la → prepared is_init "./stream_b" len f = Some lb →
  prepared is_init "./stream_c" len f = Some lc →
  let doubles l := d_of_bits <$> words_of (len / 8) l in
  stream_timed clock fuel ntimes quantum is_init (Z.of_nat n)
    (mkRun 0 (mkArrays (doubles la) (doubles lb) (doubles lc))) = Ok p r → p ≠ PExit →
  arrays r = uni n x y z blank →
  ∃ f', stream_program succeeds page_size clock fuel ntimes quantum psize usemmap
      [to_string (Z.of_nat n); if is_init then "1" else "0"] f = Ok p f' ∧ ready f' ∧
    fs_files f' !! "./stream_a" = Some (image n len x) ∧
    fs_files f' !! "./stream_b" = Some (image n len y) ∧
    fs_files f' !! "./stream_c" = Some (image n len z).
Proof.
  intros Hr Hl Pa Pb Pc doubles E Hp Ha. pose proof length_room as [Hlen _].
  destruct (prepare_run usemmap is_init length_ f la lb lc Hr Hlen Pa Pb Pc) as (a&b&c&f1&E1&Hm&Hr1).
  rewrite !Forall_cons in Hl. destruct Hl as ([La Da]&[Lb Db]&[Lc Dc]&_).
  unfold stream_program. rewrite (bind_run _ _ _ _ _ (read_args_run (Z.of_nat n) is_init f ltac:(lia))). cbv iota beta.
  fold length_. rewrite (bind_run _ _ _ _ _ E1). cbv iota beta. erewrite bind_run by reflexivity.
  rewrite (load_mapped a _ la _ (map_a _ _ _ _ _ _ _ _ Hm) (file_a _ _ _ _ _ _ _ _ Hm) La).
  rewrite (load_mapped b _ lb _ (map_b _ _ _ _ _ _ _ _ Hm) (file_b _ _ _ _ _ _ _ _ Hm) Lb).
  rewrite (load_mapped c _ lc _ (map_c _ _ _ _ _ _ _ _ Hm) (file_c _ _ _ _ _ _ _ _ Hm) Lc).
  subst doubles. cbv beta in E. erewrite bind_run by (unfold run_local; by rewrite E).
  cbv iota beta. rewrite Nat2Z.id.
  assert (∀ v l, take n (filled n v l) = replicate n v) as Ht
    by (intros; apply take_app_length'; by rewrite length_replicate).
  destruct (finish_run p usemmap n a b c len la lb lc x y z (arrays r) f1 Hm Hr1) as (f'&E2&H2);
    [rewrite Ha; apply Ht..|by repeat constructor|].
  exists f'. split; [|done]. by destruct p.
Qed.
End invocations.
End success.

(** ** A mapping that fails

    The failure is only reported: the loops go through the pointer that is not
    one. *)

Section failure.
Context (succeeds : fscall → nat → bool) (page_size : Z).
#[local] Existing Instance fs_os.

Lemma open_prealloc_maps is_init name len f :
  ∃ fd f', open_prealloc_file (H := fs_os succeeds page_size) is_init name len f = Ok fd f' ∧
    fs_maps f' = fs_maps f.
Proof.
  assert (∃ eno f1, (if is_init then f ← get; modify (λ _, (unlink (MapOS := fs_os succeeds page_size) name f).2) ;;
      mret (unlink (MapOS := fs_os succeeds page_size) name f).1 else mret 0) f = Ok eno f1 ∧
      fs_maps f1 = fs_maps f) as (eno&f1&E&M1).
  { destruct is_init; [|by eexists _, _]. eexists _, _. split; [reflexivity|].
    cbn [unlink fs_os]. destruct (negb _); [done|]. by destruct (fs_files f !! name). }
  unfold open_prealloc_file. rewrite (bind_run _ _ _ _ _ E). case_bool_decide; [by eexists _, _|].
  erewrite bind_run by reflexivity. cbn [open_path fs_os]. unfold sys_open.
  destruct (negb _); [by eexists _, _|].
  assert (∀ fd f2, fs_maps f2 = fs_maps f → ∃ fd' f', (modify (λ _, f2) ;; (if is_init then
    let '(x, f3) := fallocate (MapOS := fs_os succeeds page_size) fd len f2 in
    modify (λ _, f3) ;; mret (if bool_decide (x ≠ 0) then -1 else fd) else mret fd)) f1 = Ok fd' f' ∧
    fs_maps f' = fs_maps f) as Hopen.
  { intros fd f2 M2. erewrite bind_run by reflexivity. destruct is_init; [|by eexists _, _].
    destruct (fallocate _ _ _) as [x f3] eqn:E3. eexists _, _. split; [reflexivity|].
    cbn [fallocate fs_os] in E3. unfold sys_resize in E3.
    destruct (file_of fd f2) as [[p l]|]; [destruct (allowed _ _ _)|]; simplify_eq; by rewrite <- M2. }
  destruct (fs_files f1 !! name); by apply Hopen.
Qed.

Lemma prepare_fails usemmap is_init len f :
  (∀ k, succeeds Mmap k = false) →
  ∃ a f', prepare succeeds page_size usemmap is_init len f = Ok (a, a, a) f' ∧ fs_maps f' = fs_maps f.
Proof.
  intros Hno. unfold prepare.
  destruct (open_prealloc_maps is_init "./stream_a" len f) as (fd0&f0&E0&M0).
  destruct (open_prealloc_maps is_init "./stream_b" len f0) as (fd1&f1&E1&M1).
  destruct (open_prealloc_maps is_init "./stream_c" len f1) as (fd2&f2&E2&M2).
  rewrite (bind_run _ _ _ _ _ E0), (bind_run _ _ _ _ _ E1), (bind_run _ _ _ _ _ E2).
  assert (∀ fd g, map_array succeeds page_size usemmap len fd g = Ok UMAP_FAILED g) as Hm.
  { intros fd g. unfold map_array. erewrite bind_run by reflexivity. cbn [map_call fs_os].
    unfold sys_mmap, allowed. rewrite Hno. by destruct (fs_fds g !! fd). }
  unfold map_arrays. case_bool_decide.
  - exists UMAP_FAILED, f2. split; [|congruence].
    by rewrite !(bind_run _ _ _ _ _ (Hm _ f2)).
  - exists 0, f2. split; [done|congruence].
Qed.

(** (error).  When the arrays cannot be mapped the program does not stop: for
    every nonempty array, initialised or not, it accesses memory that is not its
    own. *)
Theorem stream_unmapped_undefined clock fuel ntimes quantum psize usemmap (is_init : bool) n f :
  (∀ k, succeeds Mmap k = false) → fs_maps f = ∅ → 0 < n < 2 ^ 63 →
  is_ub (stream_program succeeds page_size clock fuel ntimes quantum psize usemmap
    [to_string n; if is_init then "1" else "0"] f) = true.
Proof.
  intros Hno Hmaps Hn. unfold stream_program.
  rewrite (bind_run _ _ _ _ _ (read_args_run n is_init f ltac:(lia))). cbv iota beta.
  destruct (prepare_fails usemmap is_init (umap_region_length n psize) f Hno) as (a&f'&E&M).
  rewrite (bind_run _ _ _ _ _ E). cbv iota beta. erewrite bind_run by reflexivity.
  assert (load_array a f' = []) as ->
    by (unfold load_array, fs_view; by rewrite M, Hmaps, lookup_empty).
  unfold mbind at 1, M_bind, run_local, stream_timed. destruct is_init.
  - rewrite (bind_run _ _ _ _ _ (mysecond_run _ _)). unfold init_arrays. by rewrite seqZ_cons by lia.
  - by rewrite seqZ_cons by lia.
Qed.
End failure.

(** ** Witnesses: arrays of three doubles on pages of 64 bytes *)

Definition new_process : FS := mkFS {[ "./stream_b" := [x01; x02] ]} ∅ 3 ∅ 4096 0.

Lemma double_bits_roundtrip_witness :
  d_of_bits (bits_of_d (S754_finite true 1 (-1074))) = S754_finite true 1 (-1074) ∧
  d_of_bits (bits_of_d d_1em13) = d_1em13 ∧ bits_of_d d_1 = 0x3ff0000000000000.
Proof.
  split_and!; [apply (double_bits_roundtrip (S754_finite true 1 (-1074)))|
    apply (double_bits_roundtrip d_1em13)|]; reflexivity.
Defined.


Lemma stream_unmapped_undefined_witness :
  is_ub (stream_program (λ c _, match c with Mmap => false | _ => true end) 4096 demo_clock 1 3 0 64 false
    ["3"; "1"] new_process) = true.
Proof.
  apply (stream_unmapped_undefined (λ c _, match c with Mmap => false | _ => true end) 4096 demo_clock 1 3 0
    64 false true 3 new_process); [done|done|lia].
Defined.
