(* ===== verification/ParallelFor.v ===== *)
(** * Parallel loops over elements
      (the OpenMP loops of src/examples/stream/stream.c and of
      src/examples/umapsort/main.cpp that store to arrays)

    The iterations of such a loop are dealt out to threads in any way; iteration
    [j] loads the elements of index [j], computes, and stores to elements of
    index [j].  Loads and stores of different threads interleave in any order.
    The loops are element-wise for every store of elements that satisfies the
    laws below, so that each of them leaves what a sequential run leaves. *)

From stdpp Require Import base list numbers strings relations.
From Stdlib Require Import Floats.SpecFloat.
From S2P Require Import Prelude Bitmap MapFile Umapsort Rmat Stream.
Local Open Scope nat_scope.

(** ** Elements *)

Class Elements (S E : Type) := {
  elem : nat → S → option E;
  put : nat → E → S → S
}.

Class ElementsLaws (S E : Type) `{!Elements S E} := {
  elem_put_eq j e e' s : elem j s = Some e → elem j (put j e' s) = Some e';
  elem_put_ne j k e s : j ≠ k → elem k (put j e s) = elem k s;
  put_comm j k e e' s : j ≠ k → put j e (put k e' s) = put k e' (put j e s)
}.

(** ** Threads *)

Section loop.
Context {T E : Type} `{!Elements T E} (f : nat → E → E).

(** a thread before its next iteration, or about to store the result of one *)
Inductive worker :=
| Next (js : list nat)
| Computed (j : nat) (e : E) (js : list nat).

Definition todo (w : worker) : list nat :=
  match w with Next js => js | Computed j _ js => j :: js end.

Inductive lstep : list worker * T → list worker * T → Prop :=
| l_load ws s k j js e :
    ws !! k = Some (Next (j :: js)) → elem j s = Some e →
    lstep (ws, s) (<[k := Computed j (f j e) js]> ws, s)
| l_store ws s k j e js :
    ws !! k = Some (Computed j e js) →
    lstep (ws, s) (<[k := Next js]> ws, put j e s).

(** the steps a thread has left *)
Definition work (w : worker) : nat :=
  match w with Next js => 2 * length js | Computed _ _ js => 2 * length js + 1 end.
Definition total (ws : list worker) : nat := sum_list_with work ws.

(** one iteration as a whole *)
Definition update (s : T) (j : nat) : T :=
  match elem j s with Some e => put j (f j e) s | None => s end.

(** a loop body that is such an iteration *)
Definition elementwise (body : Z → M T unit) : Prop :=
  ∀ j e s, elem j s = Some e → body (Z.of_nat j) s = Ok tt (put j (f j e) s).

Definition in_range (n : nat) (s : T) : Prop := ∀ j, j < n → is_Some (elem j s).

Context `{!ElementsLaws T E}.

Lemma elem_update_ne j k s : j ≠ k → elem k (update s j) = elem k s.
Proof. intros. unfold update. destruct (elem j s); [by apply elem_put_ne|done]. Qed.

Lemma elem_update_some j k s : is_Some (elem k s) → is_Some (elem k (update s j)).
Proof.
  intros Hk. destruct (decide (j = k)) as [<-|]; [|by rewrite elem_update_ne].
  unfold update. destruct Hk as [e He]. rewrite He. rewrite (elem_put_eq _ _ _ _ He). done.
Qed.

Lemma update_comm j k s : j ≠ k → update (update s j) k = update (update s k) j.
Proof.
  intros Hne. unfold update at 1 3. rewrite !elem_update_ne by done. unfold update.
  destruct (elem j s), (elem k s); try done. by apply put_comm.
Qed.

Lemma updates_perm l l' s : l ≡ₚ l' → NoDup l → foldl update s l = foldl update s l'.
Proof.
  intros Hp. revert s. induction Hp as [|j l l' Hp IH|j k l|l l' l'' H1 IH1 H2 IH2]; intros s Hd; simpl.
  - done.
  - apply NoDup_cons in Hd as [_ Hd]. by apply IH.
  - apply NoDup_cons in Hd as [Hj _]. rewrite update_comm; [done|]. set_solver.
  - rewrite IH1 by done. apply IH2. by rewrite <- H1.
Qed.

(** The sequential loop. *)
Lemma elementwise_run body n s :
  elementwise body → in_range n s →
  for_each (seqZ 0 (Z.of_nat n)) body s = Ok tt (foldl update s (seq 0 n)).
Proof.
  intros Hb. revert s. induction n as [|n IH]; intros s Hr; [done|].
  rewrite seqZ_S_end, seq_S, foldl_app. eapply for_each_snoc; [apply IH; intros j ?; apply Hr; lia|].
  simpl. set (s1 := foldl update s (seq 0 n)). assert (is_Some (elem n s1)) as [e He].
  { assert (is_Some (elem n s)) as Hn by (apply Hr; lia). clear IH Hr. unfold s1. clear s1. revert s Hn.
    generalize (seq 0 n) as l. induction l; intros s Hn; simpl; auto using elem_update_some. }
  rewrite (Hb _ _ _ He). unfold update. by rewrite He.
Qed.

(** ** The invariant of the threads *)

(** [ended] are the iterations that have stored, in this order *)
Record loop_inv (n : nat) (s0 : T) (ended : list nat) (c : list worker * T) : Prop := {
  li_state : c.2 = foldl update s0 ended;
  li_split : ended ++ concat (todo <$> c.1) ≡ₚ seq 0 n;
  li_range : in_range n c.2;
  li_value : ∀ k j e js, c.1 !! k = Some (Computed j e js) → ∃ e0, elem j c.2 = Some e0 ∧ e = f j e0
}.

Lemma concat_insert (l : list (list nat)) k x y :
  l !! k = Some x → ∃ r, concat l ≡ₚ x ++ r ∧ concat (<[k := y]> l) ≡ₚ y ++ r ∧
    ∀ k' z, k' ≠ k → l !! k' = Some z → z ⊆ r.
Proof.
  revert k. induction l as [|z l IH]; intros [|k] Hk; simplify_eq/=.
  - exists (concat l). split; [done|]. split; [done|]. intros [|k'] z Hne Hz; simplify_eq/=.
    intros a Ha. apply list_elem_of_In, in_concat. exists z. rewrite <- !list_elem_of_In.
    split; [by eapply list_elem_of_lookup_2|done].
  - destruct (IH k Hk) as (r&H1&H2&H3). exists (z ++ r). split_and!.
    + rewrite H1. by rewrite Permutation_app_swap_app.
    + rewrite H2. by rewrite Permutation_app_swap_app.
    + intros [|k'] z' Hne Hz; simplify_eq/=; [set_solver|].
      assert (z' ⊆ r) by (apply (H3 k'); [congruence|done]). set_solver.
Qed.
Lemma loop_step n s0 ended c c' :
  loop_inv n s0 ended c → lstep c c' → ∃ ended', loop_inv n s0 ended' c'.
Proof.
  intros [Hs Hp Hr Hv]. destruct 1 as [ws s k j js e Hk He|ws s k j e js Hk]; simpl in *.
  - exists ended. split; simpl; [done| |done|].
    + by rewrite list_fmap_insert, list_insert_id by (by rewrite list_lookup_fmap, Hk).
    + intros k' j' e' js' [(<-&[= <- <- <-]&_)|[_ Hk']]%list_lookup_insert_Some; eauto.
  - destruct (Hv _ _ _ _ Hk) as (e0&He0&->).
    assert ((todo <$> ws) !! k = Some (j :: js)) as Ht by (by rewrite list_lookup_fmap, Hk).
    destruct (concat_insert _ _ _ js Ht) as (r&H1&H2&H3).
    assert (put j (f j e0) s = update s j) as -> by (unfold update; by rewrite He0).
    assert (NoDup (ended ++ (j :: js) ++ r)) as Hd by (rewrite <- H1, Hp; apply NoDup_seq).
    exists (ended ++ [j]). split; simpl.
    + by rewrite foldl_app, Hs.
    + rewrite list_fmap_insert. simpl. rewrite H2, <- Hp, H1, <- app_assoc. done.
    + intros i Hi. apply elem_update_some, Hr, Hi.
    + intros k' j' e' js' [(?&?&_)|[Hne Hk']]%list_lookup_insert_Some; [done|].
      rewrite elem_update_ne; [by apply (Hv k' j' e' js')|]. intros ->.
      assert (j' ∈ r).
      { apply (H3 k' (j' :: js')); [congruence|by rewrite list_lookup_fmap, Hk'|]. by left. }
      apply NoDup_app in Hd as (_&_&Hd). apply NoDup_cons in Hd as [Hd _]. apply Hd. set_solver.
Qed.

Lemma total_insert ws k w w' :
  ws !! k = Some w → work w = S (work w') → total ws = S (total (<[k := w']> ws)).
Proof.
  unfold total. revert k. induction ws as [|v ws IH]; intros [|k] Hk Hw; simplify_eq/=; [lia|].
  rewrite (IH k Hk Hw). lia.
Qed.

Lemma step_total c c' : lstep c c' → total c.1 = S (total c'.1).
Proof. destruct 1; simpl; eapply total_insert; eauto; simpl; lia. Qed.

(** who has work can go on *)
Lemma progress n s0 ended ws s :
  loop_inv n s0 ended (ws, s) → 0 < total ws → ∃ c', lstep (ws, s) c'.
Proof.
  intros [_ Hp Hr _] Ht. simpl in *.
  assert (∃ k w, ws !! k = Some w ∧ 0 < work w) as (k&w&Hk&Hw).
  { clear Hp. unfold total in Ht. induction ws as [|w ws IH]; simpl in Ht; [lia|].
    destruct (decide (0 < work w)); [by exists 0, w|]. destruct IH as (k&w'&?&?); [lia|]. by exists (S k), w'. }
  destruct w as [[|j js]|j e js]; [simpl in Hw; lia| |eexists; by eapply l_store].
  assert (j < n) as Hj.
  { assert (j ∈ seq 0 n) as Hin; [|apply elem_of_seq in Hin; lia]. rewrite <- Hp. apply elem_of_app. right.
    destruct (concat_insert (todo <$> ws) k (j :: js) []) as (r&H1&_); [by rewrite list_lookup_fmap, Hk|].
    rewrite H1. by left. }
  destruct (Hr j Hj) as [e He]. eexists. by eapply l_load.
Qed.

Lemma steps_inv n s0 k c c' :
  nsteps lstep k c c' → (∃ ended, loop_inv n s0 ended c) →
  (∃ ended, loop_inv n s0 ended c') ∧ total c.1 = k + total c'.1.
Proof.
  induction 1 as [c|k c c1 c2 H1 _ IH]; intros Hi; [done|].
  destruct IH as [Hi' Ht]; [destruct Hi; by eapply loop_step|].
  split; [done|]. rewrite (step_total _ _ H1), Ht. lia.
Qed.
Lemma workers_start n chunks s :
  in_range n s → concat chunks ≡ₚ seq 0 n →
  loop_inv n s [] (Next <$> chunks, s) ∧ total (Next <$> chunks) = 2 * n.
Proof.
  intros Hr Hc. assert (todo <$> (Next <$> chunks) = chunks) as Et.
  { rewrite <- list_fmap_compose. apply list_fmap_id. }
  split; [split; simpl|].
  - done.
  - by rewrite Et.
  - done.
  - intros k j e js Hk. rewrite list_lookup_fmap in Hk. by destruct (chunks !! k).
  - assert (length (concat chunks) = n) as <- by (by rewrite Hc, length_seq). clear. unfold total.
    induction chunks as [|js l IH]; [done|]. cbn [fmap list_fmap sum_list_with work concat] in *. rewrite length_app. lia.
Qed.

Lemma idle_todo ws : total ws = 0 → concat (todo <$> ws) = [].
Proof.
  unfold total. induction ws as [|[[|]|] ws IH]; simpl; intros; try lia; [done|]. by apply IH.
Qed.

(** The loop with its threads: it takes two steps per iteration, never gets
    stuck, and ends with all iterations done. *)
Lemma parallel_for n chunks s k ws s' :
  in_range n s → concat chunks ≡ₚ seq 0 n → nsteps lstep k (Next <$> chunks, s) (ws, s') →
  k ≤ 2 * n ∧ (k < 2 * n → ∃ c', lstep (ws, s') c') ∧ (k = 2 * n → s' = foldl update s (seq 0 n)).
Proof.
  intros Hr Hc Hk. destruct (workers_start n chunks s Hr Hc) as [Hi Ht].
  destruct (steps_inv n s k _ _ Hk (ex_intro _ _ Hi)) as [[ended Hi'] Hk']. simpl in Hk'. rewrite Ht in Hk'.
  split_and!; [lia|intros; eapply progress; [done|lia]|]. intros ->.
  destruct Hi' as [Es Hp _ _]. simpl in Es, Hp. rewrite Es. rewrite idle_todo, app_nil_r in Hp by lia.
  apply updates_perm; [done|]. rewrite Hp. apply NoDup_seq.
Qed.

Lemma elem_updates l s j e :
  j ∈ l → NoDup l → elem j s = Some e → elem j (foldl update s l) = Some (f j e).
Proof.
  revert s. induction l as [|i l IH]; intros s Hj Hd He; [by apply elem_of_nil in Hj|].
  apply NoDup_cons in Hd as [Hi Hd]. simpl. destruct (decide (i = j)) as [->|Hne].
  - assert (elem j (update s j) = Some (f j e)) as Hu.
    { unfold update. rewrite He. by eapply elem_put_eq. }
    revert Hi Hu. generalize (update s j) as s1. clear - ElementsLaws0. induction l as [|i l IH]; intros s1 Hi Hu; [done|].
    simpl. apply not_elem_of_cons in Hi as [? ?]. apply IH; [done|]. by rewrite elem_update_ne.
  - apply elem_of_cons in Hj as [->|Hj]; [done|]. apply IH; [done|done|]. by rewrite elem_update_ne.
Qed.
End loop.

(** ** The loops of STREAM *)

#[export] Instance arrays_elements : Elements Arrays (spec_float * spec_float * spec_float) := {|
  elem j s := x ← a_ s !! j; y ← b_ s !! j; z ← c_ s !! j; Some (x, y, z);
  put j e s := let '(x, y, z) := e in
    mkArrays (<[j := x]> (a_ s)) (<[j := y]> (b_ s)) (<[j := z]> (c_ s))
|}.

Lemma elem_arrays j s x y z :
  elem j s = Some (x, y, z) ↔ a_ s !! j = Some x ∧ b_ s !! j = Some y ∧ c_ s !! j = Some z.
Proof.
  simpl. destruct (a_ s !! j), (b_ s !! j), (c_ s !! j); simpl; split; naive_solver.
Qed.

#[export] Instance arrays_laws : ElementsLaws Arrays (spec_float * spec_float * spec_float).
Proof.
  split.
  - intros j [[x y] z] [[x' y'] z'] s (Hx&Hy&Hz)%elem_arrays. apply elem_arrays. simpl.
    by rewrite !list_lookup_insert_eq by (by eapply lookup_lt_Some).
  - intros j k [[x y] z] s Hne. simpl. by rewrite !list_lookup_insert_ne.
  - intros j k [[x y] z] [[x' y'] z'] s Hne. simpl. f_equal; by apply list_insert_insert_ne.
Qed.

Inductive stream_loop := LInit | LDouble | LCopy | LScale (q : spec_float) | LAdd | LTriad (q : spec_float).

(** what an iteration does to its elements *)
Definition stream_element (l : stream_loop) (_ : nat) (e : spec_float * spec_float * spec_float)
    : spec_float * spec_float * spec_float :=
  let '(a, b, c) := e in
  match l with
  | LInit => (d_1, d_2, d_0)
  | LDouble => (d_mul d_2 a, b, c)
  | LCopy => (a, b, a)
  | LScale q => (a, d_mul q c, c)
  | LAdd => (a, b, d_add a b)
  | LTriad q => (d_add b (d_mul q c), b, c)
  end.

(** the loop as it is in the sequential program *)
Definition run_loop (l : stream_loop) (array_size : Z) : M Arrays unit :=
  match l with
  | LInit => init_arrays array_size
  | LDouble => double_a array_size
  | LCopy => Copy array_size
  | LScale q => Scale q array_size
  | LAdd => Add array_size
  | LTriad q => Triad q array_size
  end.

Lemma large_in_range n s : large n s → in_range n s.
Proof.
  intros Hl j Hj. pose proof (Hl A_). pose proof (Hl B_). pose proof (Hl C_). simpl in *.
  destruct (lookup_lt_is_Some_2 (a_ s) j) as [x ->]; [lia|].
  destruct (lookup_lt_is_Some_2 (b_ s) j) as [y ->]; [lia|].
  destruct (lookup_lt_is_Some_2 (c_ s) j) as [z ->]; [lia|]. done.
Qed.

Lemma run_loop_run l n s :
  large n s → run_loop l (Z.of_nat n) s = Ok tt (foldl (update (stream_element l)) s (seq 0 n)).
Proof.
  intros Hl%large_in_range.
  assert (∀ w j v s, arr w s !! j = Some v → rd w (Z.of_nat j) s = Ok v s) as Hrd
    by (intros; apply rd_run; by rewrite Nat2Z.id).
  assert (∀ w j v s, j < length (arr w s) →
    wr w (Z.of_nat j) v s = Ok tt (set_arr w (<[j := v]> (arr w s)) s)) as Hwr
    by (intros; rewrite wr_run; rewrite ?Nat2Z.id; [done|lia|done]).
  destruct l; (apply elementwise_run; [apply _| |exact Hl]); intros j [[x y] z] s1 (Hx&Hy&Hz)%elem_arrays;
    pose proof (lookup_lt_Some _ _ _ Hx); pose proof (lookup_lt_Some _ _ _ Hy);
    pose proof (lookup_lt_Some _ _ _ Hz);
    repeat (erewrite bind_run by first [by apply (Hrd A_)|by apply (Hrd B_)|by apply (Hrd C_)|by apply Hwr]);
    rewrite Hwr by done; simpl;
    by rewrite ?(list_insert_id _ _ _ Hx), ?(list_insert_id _ _ _ Hy), ?(list_insert_id _ _ _ Hz).
Qed.


(** ** The initialisation of umapsort *)

#[export] Instance list_elements {A} : Elements (list A) A := {| elem j l := l !! j; put j x l := <[j := x]> l |}.

#[export] Instance list_laws {A} : ElementsLaws (list A) A.
Proof.
  split; simpl.
  - intros j e e' l Hj. apply list_lookup_insert_eq. by eapply lookup_lt_Some.
  - intros j k e l Hne. by apply list_lookup_insert_ne.
  - intros j k e e' l Hne. by apply list_insert_insert_ne.
Qed.

(** [region[i] = rlen - i] *)
Definition init_element (rlen : Z) (j : nat) (_ : Z) : Z := u64 (rlen - Z.of_nat j).

Lemma updates_length {A} (f : nat → A → A) l (s : list A) : length (foldl (update f) s l) = length s.
Proof.
  revert s. induction l as [|j l IH]; intros s; simpl; [done|]. rewrite IH. unfold update. simpl.
  destruct (s !! j); [apply length_insert|done].
Qed.

(** (equivalence).  The same of [initdata]: its threads leave the array of the
    sequential loop, the numbers from [rlen] down to 1. *)
Theorem initdata_parallel {F} `{!MapOS F} (region : list Z) chunks k ws s' (f : F) :
  let n := length region in
  (Z.of_nat n < 2 ^ 64)%Z → concat chunks ≡ₚ seq 0 n →
  nsteps (lstep (init_element (Z.of_nat n))) k (Next <$> chunks, region) (ws, s') →
  k ≤ 2 * n ∧ (k < 2 * n → ∃ c', lstep (init_element (Z.of_nat n)) (ws, s') c') ∧
  (k = 2 * n → initdata region (Z.of_nat n) f = Ok s' f ∧ s' = descending (Z.of_nat n)).
Proof.
  intros n Hn Hc Hk.
  destruct (parallel_for (init_element (Z.of_nat n)) n chunks region k ws s') as (H1&H2&H3); [|done|done|].
  { intros j Hj. by apply lookup_lt_is_Some_2. }
  split_and!; [done|done|]. intros Hend. specialize (H3 Hend).
  cut (s' = descending (Z.of_nat n)); [intros ->; split; [by apply initdata_run|done]|].
  rewrite H3. apply list_eq. intros j. destruct (decide (j < n)) as [Hj|Hj].
  - destruct (lookup_lt_is_Some_2 region j Hj) as [x Hx].
    pose proof (elem_updates (init_element (Z.of_nat n)) (seq 0 n) region j x) as Hu.
    etrans; [apply Hu; [apply elem_of_seq; lia|apply NoDup_seq|exact Hx]|].
    unfold init_element, descending. rewrite list_lookup_fmap.
    rewrite (proj2 (lookup_seqZ 0 (Z.of_nat n) j (Z.of_nat j))) by lia. simpl.
    by rewrite u64_small by (unfold is_u64; lia).
  - rewrite !lookup_ge_None_2; [done| |by rewrite updates_length; lia].
    unfold descending. rewrite length_fmap, length_seqZ. lia.
Qed.

(** ** Witnesses: three elements and two threads *)

Definition three : Arrays := mkArrays [d_1; d_2; d_3] [d_2; d_2; d_2] [d_0; d_0; d_0].

