(* ===== verification/FitsStore.v ===== *)
(** * A store of FITS images
    (src/examples/bfs/utility/umap_fits_file.hpp)

    A cube of equally sized tiles, each the image of one FITS file, behind the
    [Store] interface of the library.  What cfitsio finds in the header of a
    file is a parameter; [pread] is the operation of [FileOps]. *)

From stdpp Require Import base list numbers strings gmap.
From Stdlib Require Import Strings.Byte.
From S2P Require Import Prelude SparseStore Store.
Local Open Scope Z_scope.

(** ** Data *)

Record Tile_Dim := mkDim { xDim : Z; yDim : Z; elem_size : Z }.

Record Tile_File := mkTileFile {
  tf_fd : Z;
  tf_fname : string;
  tile_start : Z;
  tf_tile_size : Z;
  pgaligned_tile_start : Z
}.

Record Tile := mkTile {
  file : Tile_File;
  dim : Tile_Dim;
  map_start : Z;
  map_size : Z
}.

Record Cube := mkCube {
  tile_size : Z;
  cube_size : Z;
  page_size : Z;
  tiles : list Tile
}.

(** what the calls of cfitsio return for a file *)
Record fits_header := mkHeader { datastart : Z; dataend : Z; bitpix : Z; naxis0 : Z; naxis1 : Z }.

(** ** [Tile::Tile] *)

Definition elem_size_of (bitpix : Z) : Z :=
  if bool_decide (bitpix < 0) then u64 (Z.quot (bitpix * -1) 8) else u64 (Z.quot bitpix 8).

(** [None]: the assertion on the size of the data fails; the calls that exit the
    process have succeeded *)
Definition new_Tile (fname : string) (fd : Z) (h : fits_header) : option Tile :=
  let d := mkDim (u64 (naxis0 h)) (u64 (naxis1 h)) (elem_size_of (bitpix h)) in
  let start := u64 (datastart h) in
  let size := u64 (u64 (xDim d * yDim d) * elem_size d) in
  let aligned := Z.land start (u64 (Z.lnot 4095)) in
  let mstart := u64 (start - aligned) in
  let t := mkTile (mkTileFile fd fname start size aligned) d mstart (u64 (size + mstart)) in
  if bool_decide (size ≤ u64 (dataend h - datastart h)) then Some t else None.

(** [operator<<] of a tile *)
Definition print_Tile (t : Tile) : string :=
  tf_fname (file t) +:+ " " +:+ "Start=" +:+ to_string (tile_start (file t)) +:+ ", " +:+
  "Size=" +:+ to_string (tf_tile_size (file t)) +:+ ", " +:+ "XDim=" +:+ to_string (xDim (dim t)) +:+ ", " +:+
  "YDim=" +:+ to_string (yDim (dim t)) +:+ ", " +:+ "ESize=" +:+ to_string (elem_size (dim t)) +:+ " ".

(** ** The registry of cubes *)

(** [Cubes], by the address of the region *)
Abbreviation registry := (gmap Z Cube).

(** the padding to whole pages *)
Definition pad_cube (psize : Z) (c : Cube) : Cube :=
  let remainder := cube_size c mod psize in
  mkCube (tile_size c)
    (u64 (cube_size c + (if bool_decide (remainder = 0) then 0 else psize - remainder)))
    (page_size c) (tiles c).

Section cubes.
(** the files that exist, what cfitsio finds in one, and its descriptor; [None] is
    a failed call *)
Context (stat : string → bool) (cfitsio : string → option fits_header) (open_fits : string → option Z).

Definition exit_process {A} : M registry A := throw "exit status -1".

Definition Tile_ctor (fname : string) : M registry Tile :=
  match cfitsio fname with
  | None => exit_process
  | Some h =>
      match open_fits fname with
      | None => exit_process
      | Some fd =>
          match new_Tile fname fd h with
          | None => undefined "assertion on the size of the data"
          | Some t => mret t
          end
      end
  end.

Definition tile_name (basename : string) (i : Z) : string := basename +:+ to_string i +:+ ".fits".

(** The loop over the files, from number [i]; [d] holds *xDim, *yDim and
    *BytesPerElement.  The result is the number of the first file that does not
    exist; exceeding [fuel] files is undefined. *)
Fixpoint alloc_loop (fuel : nat) (basename : string) (i : Z) (cube : Cube) (d : Tile_Dim)
    : M registry (Z * Cube * Tile_Dim) :=
  match fuel with
  | O => undefined "bound on the number of files"
  | S fuel =>
      if stat (tile_name basename i) then
        t ← Tile_ctor (tile_name basename i);
        if bool_decide (elem_size d = 0) then
          let size := u64 (u64 (xDim (dim t) * yDim (dim t)) * elem_size (dim t)) in
          alloc_loop fuel basename (i + 1)
            (mkCube size (u64 (cube_size cube + size)) (page_size cube) (tiles cube ++ [t])) (dim t)
        else if bool_decide (xDim d = xDim (dim t) ∧ yDim d = yDim (dim t) ∧
                             elem_size d = elem_size (dim t)) then
          alloc_loop fuel basename (i + 1)
            (mkCube (tile_size cube) (u64 (cube_size cube + tile_size cube)) (page_size cube)
               (tiles cube ++ [t])) d
        else undefined "assertion on the dimensions"
      else mret (i, cube, d)
  end.

(** [PerFits_alloc_cube]; [umap_ex] gives the region of a size and a store, or
    fails; 0 is the null pointer.  With the region come the dimensions. *)
Definition PerFits_alloc_cube (fuel : nat) (psize : Z) (umap_ex : Z → option Z) (name : string)
    : M registry (Z * option (Tile_Dim * Z)) :=
  '(i, cube, d) ← alloc_loop fuel name 1 (mkCube 0 0 psize []) (mkDim 0 0 0);
  if bool_decide (i = 1) then mret (0, None)
  else
    let cube := pad_cube psize cube in
    match umap_ex (cube_size cube) with
    | None => mret (0, Some (d, i - 1))
    | Some region => modify (insert region cube) ;; mret (region, Some (d, i - 1))
    end.

(** [PerFits_free_cube]; [uunmap] is told the size, and fails by a negative
    result *)
Definition PerFits_free_cube (uunmap : Z → Z → Z) (region : Z) : M registry unit :=
  cubes ← get;
  match cubes !! region with
  | None => undefined "free_cube: failed to find control object"
  | Some cube =>
      if bool_decide (uunmap region (cube_size cube) < 0) then exit_process
      else modify (delete region)
  end.

(** [ts] are the images of the files [i], [i + 1], ..., and there is no next one *)
Definition images (basename : string) (i : Z) (d : Tile_Dim) (ts : list Tile) : Prop :=
  (∀ k t, ts !! k = Some t → stat (tile_name basename (i + Z.of_nat k)) = true ∧
     (∀ cubes, Tile_ctor (tile_name basename (i + Z.of_nat k)) cubes = Ok t cubes) ∧ dim t = d) ∧
  stat (tile_name basename (i + Z.of_nat (length ts))) = false.

Lemma images_cons basename i d t ts :
  images basename i d (t :: ts) → stat (tile_name basename i) = true ∧
    (∀ cubes, Tile_ctor (tile_name basename i) cubes = Ok t cubes) ∧ dim t = d ∧
    images basename (i + 1) d ts.
Proof.
  intros [Hall Hend]. destruct (Hall 0%nat t eq_refl) as (Hs&Ht&Hd).
  rewrite Z.add_0_r in Hs, Ht. do 3 (split; [done|]). split.
  - intros k u Hu. replace (i + 1 + Z.of_nat k) with (i + Z.of_nat (S k)) by lia. by apply Hall.
  - rewrite <- Hend. do 2 f_equal. simpl. lia.
Qed.

Definition image_size (d : Tile_Dim) : Z := u64 (u64 (xDim d * yDim d) * elem_size d).

(** the files after the first *)
Lemma alloc_loop_run fuel basename i d ts c cubes :
  (length ts < fuel)%nat → elem_size d ≠ 0 → images basename i d ts →
  alloc_loop fuel basename i c d cubes =
    Ok (i + Z.of_nat (length ts),
        mkCube (tile_size c) (if bool_decide (ts = []) then cube_size c
                              else u64 (cube_size c + Z.of_nat (length ts) * tile_size c))
          (page_size c) (tiles c ++ ts), d) cubes.
Proof.
  revert i c ts. induction fuel as [|fuel IH]; intros i c ts Hf Hd Him; [lia|].
  cbn [alloc_loop]. destruct ts as [|t ts].
  { destruct Him as [_ Hend]. rewrite Z.add_0_r in Hend. rewrite Hend.
    rewrite bool_decide_true, app_nil_r, Z.add_0_r by done. by destruct c. }
  apply images_cons in Him as (Hs&Ht&Hdim&Him). rewrite Hs, (bind_run _ _ _ _ _ (Ht cubes)).
  rewrite bool_decide_false by done. rewrite Hdim, bool_decide_true by done.
  simpl in Hf. rewrite (IH _ _ ts) by (done || lia). cbn [tile_size cube_size page_size tiles].
  rewrite <- app_assoc, (bool_decide_false (t :: ts = [])) by done. do 3 f_equal; [simpl length; lia|].
  f_equal. destruct ts as [|u ts].
  - rewrite bool_decide_true by done. simpl. f_equal. lia.
  - rewrite bool_decide_false by done. unfold u64. rewrite Zplus_mod_idemp_l. f_equal. simpl length. lia.
Qed.

(** (functional).  For the images 1, ..., z of equal dimensions the cube holds all
    of them in order; its size is that of z images, up to whole pages, and the
    caller learns the dimensions. *)
Theorem alloc_cube_tiles fuel psize umap_ex basename d ts region cubes :
  ts ≠ [] → (length ts < fuel)%nat → elem_size d ≠ 0 → images basename 1 d ts →
  let cube := pad_cube psize (mkCube (image_size d) (u64 (Z.of_nat (length ts) * image_size d)) psize ts) in
  umap_ex (cube_size cube) = Some region →
  PerFits_alloc_cube fuel psize umap_ex basename cubes =
    Ok (region, Some (d, Z.of_nat (length ts))) (<[region := cube]> cubes).
Proof.
  intros Hne Hf Hd Him cube Hu. unfold PerFits_alloc_cube. destruct ts as [|t ts]; [done|]. simpl in Hf.
  destruct fuel as [|fuel]; [lia|].
  assert (alloc_loop (S fuel) basename 1 (mkCube 0 0 psize []) (mkDim 0 0 0) cubes =
    Ok (1 + Z.of_nat (length (t :: ts)), mkCube (image_size d) (u64 (Z.of_nat (length (t :: ts)) * image_size d))
      psize (t :: ts), d) cubes) as E.
  { cbn [alloc_loop]. apply images_cons in Him as (Hs&Ht&Hdim&Him).
    rewrite Hs, (bind_run _ _ _ _ _ (Ht cubes)), bool_decide_true, Hdim by done. fold (image_size d).
    cbv zeta. rewrite alloc_loop_run with (ts := ts) by (done || lia). cbn [tile_size cube_size page_size tiles].
    do 3 f_equal; [simpl length; lia|]. f_equal. destruct ts as [|u ts].
    - rewrite bool_decide_true by done. f_equal. simpl. lia.
    - rewrite bool_decide_false by done. unfold u64. rewrite Zplus_mod_idemp_l. f_equal. simpl length. lia. }
  rewrite (bind_run _ _ _ _ _ E). cbv beta iota. rewrite bool_decide_false by (simpl; lia).
  cbv zeta. fold cube. rewrite Hu. unfold mbind, M_bind, modify, mret, M_ret. do 4 f_equal. lia.
Qed.

Lemma Tile_ctor_keeps fname cubes t cubes' : Tile_ctor fname cubes = Ok t cubes' → cubes' = cubes.
Proof.
  unfold Tile_ctor. destruct (cfitsio fname) as [h|]; [|by inv_ok].
  destruct (open_fits fname) as [fd|]; [|by inv_ok]. by destruct (new_Tile fname fd h); intros; inv_ok.
Qed.

Lemma alloc_loop_keeps fuel basename i c d cubes r cubes' :
  alloc_loop fuel basename i c d cubes = Ok r cubes' → cubes' = cubes.
Proof.
  revert i c d. induction fuel as [|fuel IH]; intros i c d H; [by inv_ok|]. cbn [alloc_loop] in H.
  destruct (stat _); [|by inv_ok]. apply bind_Ok in H as (t&m&Et&H). apply Tile_ctor_keeps in Et as ->.
  cbv zeta in H. repeat case_bool_decide; [by eapply IH..|by inv_ok].
Qed.

(** A cube is freed with the size it was mapped with, and then is gone: a
    second time is a failed assertion. *)
Lemma alloc_free_cube fuel psize umap_ex uunmap basename cubes region ds cubes' :
  (∀ size r, umap_ex size = Some r → cubes !! r = None) →
  (∀ size r, umap_ex size = Some r → 0 ≤ uunmap r size) →
  PerFits_alloc_cube fuel psize umap_ex basename cubes = Ok (region, ds) cubes' → region ≠ 0 →
  PerFits_free_cube uunmap region cubes' = Ok tt cubes ∧
  is_ub (PerFits_free_cube uunmap region cubes) = true.
Proof.
  intros Hfresh Hun H Hr. unfold PerFits_alloc_cube in H.
  apply bind_Ok in H as ([[i cube] d]&m&E&H). apply alloc_loop_keeps in E as ->.
  case_bool_decide; [by inv_ok; simplify_eq|]. cbv zeta in H. set (c := pad_cube psize cube) in *.
  destruct (umap_ex (cube_size c)) as [r|] eqn:Eu; [|by inv_ok; simplify_eq]. inv_ok. simplify_eq.
  pose proof (Hfresh _ _ Eu) as Hnone. pose proof (Hun _ _ Eu) as Hge.
  unfold PerFits_free_cube, mbind, M_bind, get. rewrite lookup_insert_eq, Hnone.
  rewrite bool_decide_eq_false_2 by lia. unfold modify. split; [|done].
  by rewrite delete_insert_id by done.
Qed.
End cubes.

(** ** Reading *)

Section reading.
Context {F : Type} `{FileOps F}.

(** The request buffer is the caller's, longer than the request.  The result of
    [pread] is not looked at. *)
Definition buffered_read (t : Tile) (buf : bytes) (request_size : nat) (request_offset : Z)
    : M F (Z * bytes) :=
  f ← get;
  let ua_request_size := u64 (Z.of_nat request_size + map_start t) in
  let req_end := u64 (request_offset + ua_request_size) in
  let eof := if bool_decide (map_size t ≤ req_end) then req_end - map_size t else 0 in
  let count := u64 (ua_request_size - eof) in
  if bool_decide (Z.of_nat (length buf) < count) then undefined "pread beyond the buffer"
  else
    let buf := overwrite (default [] (pread f (tf_fd (file t)) (Z.to_nat count)
                                        (pgaligned_tile_start (file t)))) buf in
    if bool_decide (Z.of_nat (length buf) < map_start t + Z.of_nat request_size)
    then undefined "memmove beyond the buffer"
    else
      let buf := overwrite (take request_size (drop (Z.to_nat (map_start t)) buf)) buf in
      mret (Z.of_nat request_size - eof, buf).

(** [memset(&buf[rval], 0xff, n)] *)
Definition memset_ff (rval n : nat) (buf : bytes) : bytes :=
  take rval buf ++ replicate n xff ++ drop (rval + n) buf.

Definition fits_read_from_store (c : Cube) (buf : bytes) (nb : nat) (off : Z) : M F (Z * bytes) :=
  if bool_decide (tile_size c = 0) then undefined "division by zero"
  else
    let tileno := off / tile_size c in
    let tileoffset := off mod tile_size c in
    match tiles c !! Z.to_nat tileno with
    | None => undefined "tile beyond the cube"
    | Some t =>
        '(rval, buf) ← buffered_read t buf nb tileoffset;
        if bool_decide (rval = -1) then throw "exit"
        else if bool_decide (u64 rval < Z.of_nat nb)
        then mret (rval, memset_ff (Z.to_nat rval) (nb - Z.to_nat rval - 1) buf)
        else mret (rval, buf)
    end.

(** the assertion fails *)
Definition fits_write_to_store (c : Cube) (buf : bytes) (off : Z) : M F Z :=
  undefined "FITS write not supported".
End reading.

(** ** Properties *)

(** The cube covers its tiles and ends on a page boundary. *)
Lemma pad_cube_fits psize c :
  0 < psize → 0 ≤ cube_size c → cube_size c + psize < 2 ^ 64 →
  let size := cube_size (pad_cube psize c) in
  (psize | size) ∧ cube_size c ≤ size < cube_size c + psize.
Proof.
  intros Hp Hc Hb. unfold pad_cube. simpl.
  pose proof (Z.mod_pos_bound (cube_size c) psize Hp) as Hm.
  pose proof (Z.div_mod (cube_size c) psize ltac:(lia)) as Hd.
  case_bool_decide as Hr; rewrite u64_small by (unfold is_u64; lia).
  - split; [exists (cube_size c / psize); lia|lia].
  - split; [exists (cube_size c / psize + 1); lia|lia].
Qed.

(** a tile of a file with the contents [l] *)
Record tile_ok (t : Tile) (l : bytes) : Prop := {
  to_size : 0 ≤ tf_tile_size (file t);
  to_start : tile_start (file t) = pgaligned_tile_start (file t) + map_start t;
  to_nonneg : 0 ≤ pgaligned_tile_start (file t) ∧ 0 ≤ map_start t < 4096;
  to_map : map_size t = tf_tile_size (file t) + map_start t;
  to_file : tile_start (file t) + tf_tile_size (file t) ≤ Z.of_nat (length l);
  to_small : Z.of_nat (length l) < 2 ^ 62
}.

(** the constructor establishes it *)
Lemma new_Tile_ok fname fd h t l :
  new_Tile fname fd h = Some t → 0 ≤ datastart h ≤ dataend h → dataend h ≤ Z.of_nat (length l) →
  Z.of_nat (length l) < 2 ^ 62 → tile_ok t l.
Proof.
  unfold new_Tile. intros Ht Hd He Hl. case_bool_decide as Hs; [|done]. simplify_eq.
  rewrite (u64_small (datastart h)) by (unfold is_u64; lia).
  rewrite (u64_small (dataend h - datastart h)) in Hs by (unfold is_u64; lia).
  set (size := u64 _) in *. pose proof (u64_range (u64 (u64 (naxis0 h) * u64 (naxis1 h)) *
    elem_size_of (bitpix h))) as Hsz. simpl in size. fold size in Hsz. unfold is_u64 in Hsz.
  assert (Z.land (datastart h) (u64 (Z.lnot 4095)) = 4096 * (datastart h / 4096)) as Hal.
  { change (u64 (Z.lnot 4095)) with (Z.ldiff (Z.ones 64) (Z.ones 12)).
    rewrite Z.ldiff_land, Z.land_assoc, Z.land_ones, Z.mod_small, <- Z.ldiff_land by lia.
    rewrite Z.ldiff_ones_r, Z.shiftl_mul_pow2, Z.shiftr_div_pow2 by lia.
    change (2 ^ 12) with 4096. lia. }
  rewrite Hal. pose proof (Z.div_mod (datastart h) 4096 ltac:(lia)).
  pose proof (Z.mod_pos_bound (datastart h) 4096 ltac:(lia)).
  rewrite (u64_small (datastart h - _)) by (unfold is_u64; lia).
  rewrite (u64_small (size + _)) by (unfold is_u64; lia).
  split; simpl; fold size; lia.
Qed.

Section props.
Context {F : Type} `{!FileOps F} `{!FileLaws F}.

(** A whole request, at whatever offset of a tile. *)
Lemma buffered_read_front t l buf nb o (f : F) :
  tile_ok t l → contents f (tf_fd (file t)) = Some l →
  0 ≤ o → o + Z.of_nat nb ≤ tf_tile_size (file t) →
  map_start t + Z.of_nat nb ≤ Z.of_nat (length buf) →
  ∃ rest, buffered_read t buf nb o f =
    Ok (Z.of_nat nb, take nb (drop (Z.to_nat (tile_start (file t))) l) ++ rest) f.
Proof.
  intros [Hs Hst Hn Hm Hf Hl] Hc Ho Hnb Hb. unfold buffered_read. erewrite bind_run by reflexivity.
  cbv zeta. rewrite (u64_small (Z.of_nat nb + map_start t)) by (unfold is_u64; lia).
  rewrite (u64_small (o + _)) by (unfold is_u64; lia).
  assert ((if bool_decide (map_size t ≤ o + (Z.of_nat nb + map_start t))
    then o + (Z.of_nat nb + map_start t) - map_size t else 0) = 0) as -> by (case_bool_decide; lia).
  rewrite Z.sub_0_r, (u64_small (Z.of_nat nb + map_start t)) by (unfold is_u64; lia).
  rewrite bool_decide_false by lia. rewrite (pread_law _ _ _ _ _ Hc) by lia. simpl default.
  set (d := take _ _).
  assert (length d = Z.to_nat (Z.of_nat nb + map_start t)) as Hd
    by (unfold d; rewrite length_take, length_drop; lia).
  change (default [] (Some d)) with d. unfold overwrite.
  rewrite length_app, length_drop. rewrite bool_decide_false by lia.
  rewrite Z.sub_0_r. eexists. rewrite (drop_app_le d) by lia.
  rewrite (take_app_le (drop _ d)) by (rewrite length_drop; lia).
  assert (take nb (drop (Z.to_nat (map_start t)) d) =
    take nb (drop (Z.to_nat (tile_start (file t))) l)) as ->; [|reflexivity].
  unfold d. replace (Z.to_nat (Z.of_nat nb + map_start t)) with (Z.to_nat (map_start t) + nb)%nat by lia.
  rewrite <- take_drop_commute, drop_drop, take_take, Nat.min_id, Hst.
  by rewrite Z2Nat.inj_add by lia.
Qed.

End props.

(** ** Witness: a tile of 8 bytes that starts at byte 2 of its file *)

Definition demo_header : fits_header := mkHeader 2 10 8 4 2.
Definition demo_tile : Tile :=
  default (mkTile (mkTileFile 0 "" 0 0 0) (mkDim 0 0 0) 0 0) (new_Tile "a1.fits" 7 demo_header).
Definition demo_stat (fname : string) : bool := bool_decide (fname = "a1.fits").
Definition demo_alloc : outcome registry (Z * option (Tile_Dim * Z)) :=
  PerFits_alloc_cube demo_stat (λ _, Some demo_header) (λ _, Some 7) 2 4 (λ _, Some 4096) "a" ∅.
Definition demo_cube : Cube :=
  default (mkCube 0 0 4 []) (cubes ← state_after demo_alloc; cubes !! 4096).
Definition demo_image : memfs := {[ 7 := [xaa; xab; x01; x02; x03; x04; x05; x06; x07; x08] ]}.

Lemma demo_tile_ok : tile_ok demo_tile [xaa; xab; x01; x02; x03; x04; x05; x06; x07; x08].
Proof. apply (new_Tile_ok "a1.fits" 7 demo_header); [reflexivity|simpl; lia..]. Qed.


(** Of a request that goes beyond the end of its tile the last byte is neither
    read nor filled: it keeps what the buffer held. *)
Lemma fits_last_byte_stale :
  snd <$> (match fits_read_from_store demo_cube (replicate 8 x55) 4 6 demo_image with
           | Ok r _ => Some r | _ => None end) =
    Some [x01; x02; xff; x55; x55; x55; x55; x55].
Proof. vm_compute. reflexivity. Qed.

Lemma alloc_cube_tiles_witness :
  demo_alloc = Ok (4096, Some (mkDim 4 2 1, 1)) {[ 4096 := mkCube 8 8 4 [demo_tile] ]}.
Proof.
  apply (alloc_cube_tiles demo_stat (λ _, Some demo_header) (λ _, Some 7) 2 4 (λ _, Some 4096) "a"
    (mkDim 4 2 1) [demo_tile] 4096 ∅); [done|simpl; lia|done| |reflexivity].
  split; [|reflexivity]. intros [|k] t Ht; [|done].
  change (Some demo_tile = Some t) in Ht. injection Ht as <-.
  split; [reflexivity|]. split; [intros cubes; reflexivity|reflexivity].
Defined.

Example print_demo_tile : print_Tile demo_tile = "a1.fits Start=2, Size=8, XDim=4, YDim=2, ESize=1 "%string.
Proof. vm_compute. reflexivity. Qed.
